(* ===== verification/_CoqProject ===== *)
-Q . S2P
Prelude.v
Mem.v
Layout.v
Kalloc.v
Vm.v
PageTable.v
VmProofs.v
UserMem.v
Uvm.v
VmSpec.v
State.v
Sched.v
UserCtx.v
Locks.v
Ring.v
Fifo.v
Bio.v
BioProofs.v
Blocks.v
BioSpec.v
Log.v
LogDisk.v
LogProofs.v
LogOps.v
LogSpec.v
Console.v
ConsoleSpec.v
Fs.v
FsOps.v
FsRead.v
FsNames.v
FsAlloc.v
FsWrite.v
FsInodes.v
FsSpec.v
Mkfs.v
MkfsSpec.v
File.v
PipeSpec.v
Proc.v
SchedSpec.v
ForkSpec.v
ExitSpec.v
ReapSpec.v
Exec.v
Sysfile.v
Virtio.v
VirtioSpec.v
Trap.v
TrapSpec.v
Asm.v
AsmSpec.v
Boot.v
BootSpec.v
Grep.v
ULib.v
Malloc.v
MallocSpec.v
UProg.v
Sh.v
ShSpec.v
ShRun.v
Utils.v
UtilsSpec.v
