(* ===== verification/Prelude.v ===== *)
(** A model of xv6 for RISC-V (the kernel, its file system builder and its user
    programs) with proofs of what it does.

    * The program

    The kernel under src/kernel is one program of several parts.  kalloc.c
    hands out physical pages; vm.c builds page tables from them and copies
    between user and kernel memory; proc.c keeps the process table and the
    scheduler, with swtch.S, trampoline.S and kernelvec.S below it; trap.c,
    syscall.c, sysproc.c and sysfile.c lead from a trap to a system call;
    exec.c loads programs.  spinlock.c and sleeplock.c protect the rest.  The
    file system is a stack: virtio_disk.c drives the disk, bio.c caches blocks,
    log.c makes the writes of a system call atomic, fs.c keeps inodes,
    directories and paths, file.c and pipe.c the open files; console.c, uart.c
    and printf.c are the terminal.  start.c and main.c boot it.  mkfs/mkfs.c
    builds the disk image, and src/user holds the C library, the shell and the
    other programs.

    * How the code is modelled

    A C function is a Rocq function of the same name in the monad [M] below:
    from a state it returns a value and a state, panics, hangs, is undefined, or
    gives the processor away with swtch() ([Swtch], with the rest of the code as
    the continuation).  Integers are [Z] with the wrap-around of their C type
    written out ([u64], [u32], [u8], [s32], ...).  Memory is a map from
    addresses to bytes, and page tables and the free list of pages are bytes of
    that memory.  [wp] and [sat] are the logics of the development: [wp m Q E s]
    says that [m] returns from [s] with [Q] or panics with [E]; [sat] also says
    what holds when the processor is given away ([G]) and what the others may
    do meanwhile ([R]).  [hsat] carries a history of the run, so that a property
    can speak of all that happened between a call and its return.  Whether interrupts are on
    is the field [intr] of the state, behind the locks of the hart.

    Files, in the order they depend on each other; [X]Spec.v, [X]Proofs.v and
    the like hold theorems about the definitions of [X].v.

    - Prelude: the monad, its rules and tactics, machine integers, lists.
      Mem: byte memory and string.c.  Layout: the constants and macros of
      riscv.h, memlayout.h and param.h.
    - Kalloc: kalloc.c, its abstract allocator [alloc_st] and the interface
      [PageAlloc] that the rest uses; the instance for kalloc.c discharges it.
    - Vm: vm.c.  PageTable: the tree [ptree] a page table stands for.
      VmProofs, UserMem, Uvm: walk(), mappages(), the copies, and the
      ownership invariant [uvm] of an address space, whose leaves are readable
      but need not be the user's: [accessible] is a range of pages with PTE_U,
      so an image with the guard page exec() makes is one.  VmSpec: their
      properties.
    - State: the structures of the headers and the kernel's state [K].  Sched:
      locks as a hart sees them, sleep(), wakeup(), kill().  UserCtx: the
      process a system call runs for.  Locks: spinlock.c for several harts.
    - Ring, Fifo: doubly linked lists and ring buffers.  Bio: sleeplock.c and
      bio.c; BioProofs, Blocks, BioSpec.  Log: log.c; LogDisk, LogProofs, LogOps,
      LogSpec.  Fs: fs.c; FsOps, FsRead, FsNames, FsAlloc (balloc(), bmap()),
      FsWrite, FsInodes, FsSpec.
      Mkfs: mkfs.c; MkfsSpec.  Virtio: virtio_disk.c; VirtioSpec.
    - Console: uart.c, printf.c, console.c; ConsoleSpec.  File: pipe.c and
      file.c; PipeSpec.
    - Proc: proc.c; SchedSpec (the scheduler), ForkSpec (allocproc(), fork()),
      ExitSpec (exit()), ReapSpec (freewalk(), freeproc(), wait(), and the life
      of a child from fork() to wait()).  Exec: exec.c and the argument
      fetching of syscall.c.  Sysfile: sysfile.c.  Trap: sysproc.c, the dispatch
      of syscall.c, trap.c and plic.c over the machine state [Mach]; TrapSpec.
      Asm: the assembly files; AsmSpec.  Boot: start.c, main.c, kvmmake();
      BootSpec.
    - ULib: user/ulib.c and printf.c.  Malloc: umalloc.c; MallocSpec.  Grep:
      grep.c.  UProg: programs as trees of system calls and the semantics of a
      pool of processes.  Sh: sh.c; ShSpec (the parser), ShRun (the commands).
      Utils: the small programs; UtilsSpec.

    * What the theorems show

    - Memory: any sequence of kalloc() and kfree() refines the abstract
      allocator; mappages() maps exactly its range; uvmalloc(), uvmdealloc() and
      uvmcopy() keep the ownership invariant and do what they say, the child of
      uvmcopy() sharing no page; copyin(), copyout() and copyinstr() read and
      write user memory or fail with -1.
    - Processes: fork() makes a duplicate, exit() leaves a zombie, wait() reaps
      it, and a fork, the exit of the child and a wait leave exactly the free
      pages there were before;
      the scheduler is fair; a system call resumes behind its ecall with its
      result in a0; the assembly saves and restores every register it should.
    - Locks: mutual exclusion on any number of harts, and that the list of held
      locks of the sequential model is what spinlock.c does.
    - Storage: a system call's writes reach the disk all or not at all at every
      crash, recovery included; the cache returns current contents and keeps its
      order of use; the driver, from an idle queue, refines the disk that the
      buffer cache is proved against ([virtio_disk_rw] of Bio, an atomic
      transfer); inodes, blocks and names; a write reads back, also where it
      grows the file and allocates its blocks; mkfs builds an image of its files.
    - Terminal and pipes: queues in order, a line discipline, printed numbers.
    - User programs: the shell accepts exactly its grammar and runs exactly the
      plan of a line under every interleaving; malloc() and free(); grep matches
      the language of its pattern; the others print what they should.
    - Some theorems state what is wrong with the code: the kernel as it is
      panics at boot, in the first kalloc() after kinit(), fork() panics when
      pages run out, and the log admits more than it can hold.

    * Bounds

    A C loop is [loop], which runs its body up to 2^64 times and then is
    [NoFuel], which satisfies no specification.  Every loop of this code is
    bounded by a 64-bit quantity, and the rule for loops asks for a measure
    below 2^64, so that a [wp] is a proof of termination.  Recursion over a
    table is over the list of its indices.  freewalk() has fuel 4, one more than
    a page table has levels ([freewalk_ok]).  The waiting of sleep(), of a spin
    lock and of a read from a device that may never answer is not a loop of the
    model but a [Swtch] or a step, and what is proved of it holds for every
    behaviour of the others that the statement names.

    Code that is not under src/ is a parameter: PGNUM(), which kalloc.c uses and
    no file defines, and the addresses the linker assigns ([KernelImage],
    [Symbols]), the virtio device ([VirtioMmio] and the device of VirtioSpec),
    and the host's files for mkfs.  Each has an instance in a witness.

    * Not modelled

    - user/usertests.c, grind.c and cowtest.c, which test the kernel.  The
      theorems are about the functions these call and not about the tests;
      cowtest asks for the copy-on-write fork the kernel does not have
      ([uvmcopy_copies] and [fork_no_memory_panics] say what it does instead).
      user/ps.c, which reads an array of C
      structures out of its own memory: programs here are trees of system
      calls without such a memory; the system call is modelled.
    - kernel/ramdisk.c, which is not compiled in; someFunc() of proc.c, which
      nothing calls; the accessors of riscv.h that nothing calls.
    - usys.pl and the stubs it generates, gradelib.py and the Makefile.
    - Weak memory: harts interleave, and a fence has no effect.  The TLB:
      sfence_vma() does nothing.  Interrupts during kernel code, other than at
      the points where the code gives the processor away: the specifications
      with [sat] allow any change by others there. *)

From Stdlib Require Export ZArith Lia ZifyBool.
From stdpp Require Export base gmap strings fin_maps numbers list_relations list.
#[export] Set Default Goal Selector "!".
Open Scope Z_scope.

(** * The control-flow monad of the kernel model *)

(** What a piece of C code does from a state of type [S].  [Panic] is the
    kernel's panic(), [Hang] an endless loop of the code, [UB] an access the C
    standard leaves undefined (an index outside its array), [NoFuel] the end of
    the fuel of a modelled loop, and [Swtch] a context switch: the code gives
    the processor away in the state [s] and goes on from the state it finds
    when it is resumed. *)
Inductive outcome (S A : Type) : Type :=
| Ret (a : A) (s : S)
| Panic (msg : string) (s : S)
| Hang (s : S)
| UB (what : string)
| NoFuel
| Swtch (s : S) (k : S → outcome S A).
Arguments Ret {S A} a s.
Arguments Panic {S A} msg s.
Arguments Hang {S A} s.
Arguments UB {S A} what.
Arguments NoFuel {S A}.
Arguments Swtch {S A} s k.

Definition M (S A : Type) : Type := S → outcome S A.

Definition ret {S A} (a : A) : M S A := λ s, Ret a s.

Fixpoint obind {S A B} (o : outcome S A) (f : A → M S B) : outcome S B :=
  match o with
  | Ret a s => f a s
  | Panic m s => Panic m s
  | Hang s => Hang s
  | UB w => UB w
  | NoFuel => NoFuel
  | Swtch s k => Swtch s (λ s', obind (k s') f)
  end.

Definition mbnd {S A B} (m : M S A) (f : A → M S B) : M S B := λ s, obind (m s) f.

Definition panic {S A} (msg : string) : M S A := λ s, Panic msg s.
Definition hang {S A} : M S A := λ s, Hang s.
Definition ub {S A} (what : string) : M S A := λ _, UB what.
Definition nofuel {S A} : M S A := λ _, NoFuel.
Definition gets {S A} (f : S → A) : M S A := λ s, Ret (f s) s.
Definition get {S} : M S S := λ s, Ret s s.
Definition modify {S} (f : S → S) : M S unit := λ s, Ret tt (f s).
Definition swtch {S} : M S unit := λ s, Swtch s (λ s', Ret tt s').

Declare Scope cmonad_scope.
Delimit Scope cmonad_scope with cm.
Notation "'let!' x ':=' m 'in' k" := (mbnd m (λ x, k))
  (at level 10, x name, m at level 100, k at level 200) : cmonad_scope.
Notation "'let!' ' p ':=' m 'in' k" := (mbnd m (λ x, match x with p => k end))
  (at level 10, p pattern, m at level 100, k at level 200) : cmonad_scope.
Notation "'do!' m 'in' k" := (mbnd m (λ _ : unit, k))
  (at level 10, m at level 100, k at level 200) : cmonad_scope.
Open Scope cmonad_scope.

(** [if(c) m;] with no else branch. *)
Definition when {S} (c : bool) (m : M S unit) : M S unit :=
  if c then m else ret tt.

(** assert() of kernel/defs.h: prints the place and panics. *)
Definition c_assert {S} (c : bool) : M S unit :=
  if c then ret tt else panic "assert failed".

(** Loops.  [step] yields [inl a] to go round again with the loop variables
    [a] and [inr b] to leave the loop with [b].  [loop_pos] makes as many
    iterations as its (binary) fuel, so that a fuel of [2^64] can be evaluated:
    the iterations that are not needed cost nothing. *)
Fixpoint loop_pos {S A B} (p : positive) (step : A → M S (A + B)) (a : A) : M S (A + B) :=
  match p with
  | xH => step a
  | xO q =>
      let! r := loop_pos q step a in
      match r with inl a' => loop_pos q step a' | inr b => ret (inr b) end
  | xI q =>
      let! r0 := step a in
      match r0 with
      | inl a0 =>
          let! r := loop_pos q step a0 in
          match r with inl a' => loop_pos q step a' | inr b => ret (inr b) end
      | inr b => ret (inr b)
      end
  end.

Definition loop_fuel : positive := Pos.pow 2 64.

Definition loop {S A B} (step : A → M S (A + B)) (a : A) : M S B :=
  let! r := loop_pos loop_fuel step a in
  match r with inl _ => nofuel | inr b => ret b end.

(** The same loop with unary fuel, for reasoning. *)
Fixpoint loop_nat {S A B} (n : nat) (step : A → M S (A + B)) (a : A) : M S (A + B) :=
  match n with
  | O => ret (inl a)
  | Datatypes.S n' =>
      let! r := step a in
      match r with inl a' => loop_nat n' step a' | inr b => ret (inr b) end
  end.

(** for-loops over a table: [for_each] runs to the end, [for_some] stops at the
    first iteration that returns from the function ([Some]). *)
Fixpoint for_each {S A} (l : list A) (f : A → M S unit) : M S unit :=
  match l with
  | [] => ret tt
  | x :: l' => do! f x in for_each l' f
  end.

Fixpoint for_some {S A B} (l : list A) (f : A → M S (option B)) : M S (option B) :=
  match l with
  | [] => ret None
  | x :: l' =>
      let! r := f x in
      match r with Some b => ret (Some b) | None => for_some l' f end
  end.

(** A pure loop with the same binary fuel: [None] when the fuel runs out. *)
Fixpoint iter_pos {A B} (p : positive) (step : A → A + B) (a : A) : A + B :=
  match p with
  | xH => step a
  | xO q => match iter_pos q step a with inl a' => iter_pos q step a' | inr b => inr b end
  | xI q =>
      match step a with
      | inl a0 => match iter_pos q step a0 with inl a' => iter_pos q step a' | inr b => inr b end
      | inr b => inr b
      end
  end.

Definition iter {A B} (step : A → A + B) (a : A) : option B :=
  match iter_pos loop_fuel step a with inl _ => None | inr b => Some b end.

Fixpoint iter_nat {A B} (n : nat) (step : A → A + B) (a : A) : A + B :=
  match n with
  | O => inl a
  | Datatypes.S n' => match step a with inl a' => iter_nat n' step a' | inr b => inr b end
  end.

(** Running code of a smaller state inside a larger one. *)
Fixpoint olift {S T A} (get : T → S) (put : S → T → T) (t : T) (o : outcome S A) : outcome T A :=
  match o with
  | Ret a s => Ret a (put s t)
  | Panic m s => Panic m (put s t)
  | Hang s => Hang (put s t)
  | UB w => UB w
  | NoFuel => NoFuel
  | Swtch s k => Swtch (put s t) (λ t', olift get put t' (k (get t')))
  end.

Definition lift {S T A} (get : T → S) (put : S → T → T) (m : M S A) : M T A :=
  λ t, olift get put t (m (get t)).

(** * Weakest preconditions *)

(** [sat Q E G R o]: the outcome [o] returns with [Q] or panics with [E]; each
    time it gives the processor away [G] holds, and it goes on from any state
    the rely relation [R] allows.  It never hangs, is never undefined and never
    runs out of fuel. *)
Fixpoint sat {S A} (Q : A → S → Prop) (E : string → S → Prop) (G : S → Prop) (R : S → S → Prop)
    (o : outcome S A) : Prop :=
  match o with
  | Ret a s => Q a s
  | Panic m s => E m s
  | Hang _ | UB _ | NoFuel => False
  | Swtch s k => G s ∧ ∀ s', R s s' → sat Q E G R (k s')
  end.

(** The same with a history: [h] records what others did so far while the code had
    given the processor away, and [R h s h' s'] extends it by what they did from
    [s] to [s']. *)
Fixpoint hsat {S A H} (Q : A → H → S → Prop) (E : string → S → Prop) (G : H → S → Prop) (R : H → S → H → S → Prop)
    (h : H) (o : outcome S A) : Prop :=
  match o with
  | Ret a s => Q a h s
  | Panic m s => E m s
  | Hang _ | UB _ | NoFuel => False
  | Swtch s k => G h s ∧ ∀ h' s', R h s h' s' → hsat Q E G R h' (k s')
  end.

(** Code that returns or panics without giving the processor away. *)
Definition wp {S A} (m : M S A) (Q : A → S → Prop) (E : string → S → Prop) (s : S) : Prop :=
  match m s with Ret a s' => Q a s' | Panic msg s' => E msg s' | _ => False end.

Definition nopanic {S} : string → S → Prop := λ _ _, False.

(** * Machine integers *)

Definition u8 (x : Z) : Z := x mod 2 ^ 8.
Definition u16 (x : Z) : Z := x mod 2 ^ 16.
Definition u32 (x : Z) : Z := x mod 2 ^ 32.
Definition u64 (x : Z) : Z := x mod 2 ^ 64.
(** conversion to a signed w-bit type *)
Definition swrap (w : Z) (x : Z) : Z :=
  let y := x mod 2 ^ w in if y <? 2 ^ (w - 1) then y else y - 2 ^ w.
Definition s8 (x : Z) : Z := swrap 8 x.
Definition s16 (x : Z) : Z := swrap 16 x.
Definition s32 (x : Z) : Z := swrap 32 x.
Definition s64 (x : Z) : Z := swrap 64 x.

(** C truth value of an integer *)
Definition c_true (x : Z) : bool := negb (x =? 0).
Definition b2z (b : bool) : Z := if b then 1 else 0.

(** little-endian bytes of an n-byte integer *)
Fixpoint le_bytes (n : nat) (v : Z) : list Z :=
  match n with O => [] | Datatypes.S n' => v mod 256 :: le_bytes n' (v / 256) end.
Fixpoint le_val (l : list Z) : Z :=
  match l with [] => 0 | b :: l' => b + 256 * le_val l' end.

(** * Rules for weakest preconditions *)

Create HintDb cint.
Create Rewrite HintDb cint_rw.
Create HintDb cmem.
Create Rewrite HintDb cmem_rw.

Section Rules.
Context {S : Type}.

Lemma sat_bind {A B} (o : outcome S A) (f : A → M S B) Q E G R :
  sat Q E G R (obind o f) ↔ sat (λ a s, sat Q E G R (f a s)) E G R o.
Proof.
  induction o as [a s|m s|s|w| |s k IH]; simpl; try done.
  split; intros [HG H]; split; try done; intros s' HR; apply IH; auto.
Qed.

Lemma sat_mono {A} (o : outcome S A) (Q Q' : A → S → Prop) (E E' : string → S → Prop) G R :
  (∀ a s, Q a s → Q' a s) → (∀ m s, E m s → E' m s) → sat Q E G R o → sat Q' E' G R o.
Proof.
  intros HQ HE. induction o as [a s|m s|s|w| |s k IH]; simpl; auto.
  intros [HG H]; split; auto.
Qed.

Lemma sat_step {A B} (m : M S A) (k : A → M S B) a s s' Q E G R : m s = Ret a s' → sat Q E G R (k a s') → sat Q E G R (mbnd m k s).
Proof. intros Hm Hk. unfold mbnd. by rewrite Hm. Qed.

Lemma sat_of_wp {A} (m : M S A) Q E G R s : wp m Q E s → sat Q E G R (m s).
Proof. unfold wp. destruct (m s); simpl; tauto. Qed.

Lemma sat_mbnd {A B} (m : M S A) (k : A → M S B) Q E G R s :
  sat (λ a s', sat Q E G R (k a s')) E G R (m s) → sat Q E G R (mbnd m k s).
Proof. unfold mbnd. by rewrite sat_bind. Qed.

Lemma sat_wp_bind {A B} (m : M S A) (k : A → M S B) Q E G R s :
  wp m (λ a s', sat Q E G R (k a s')) E s → sat Q E G R (mbnd m k s).
Proof. intros Hw. by apply sat_mbnd, sat_of_wp. Qed.

Lemma wp_sat {A} (m : M S A) Q E s :
  wp m Q E s ↔ sat Q E (λ _, False) (λ _ _, True) (m s).
Proof. unfold wp. destruct (m s); simpl; tauto. Qed.

Lemma wp_ret {A} (a : A) (Q : A → S → Prop) E s : Q a s → wp (ret a) Q E s.
Proof. done. Qed.

Lemma wp_bind {A B} (m : M S A) (f : A → M S B) Q E s :
  wp m (λ a s', wp (f a) Q E s') E s → wp (mbnd m f) Q E s.
Proof. unfold wp, mbnd. destruct (m s); simpl; auto. Qed.

Lemma wp_bind_iff {A B} (m : M S A) (f : A → M S B) Q E s :
  wp (mbnd m f) Q E s ↔ wp m (λ a s', wp (f a) Q E s') E s.
Proof. unfold wp, mbnd. destruct (m s); simpl; auto. Qed.

Lemma wp_panic {A} msg Q (E : string → S → Prop) s : E msg s → wp (panic (A := A) msg) Q E s.
Proof. done. Qed.

Lemma wp_gets {A} (f : S → A) (Q : A → S → Prop) E s : Q (f s) s → wp (gets f) Q E s.
Proof. done. Qed.

Lemma wp_get (Q : S → S → Prop) E s : Q s s → wp get Q E s.
Proof. done. Qed.

Lemma wp_modify (f : S → S) (Q : unit → S → Prop) E s : Q tt (f s) → wp (modify f) Q E s.
Proof. done. Qed.

Lemma wp_when (c : bool) m (Q : unit → S → Prop) E s :
  (c = true → wp m Q E s) → (c = false → Q tt s) → wp (when c m) Q E s.
Proof. intros H1 H2. destruct c; [by apply H1|by apply H2]. Qed.

Lemma wp_when_t (c : bool) m (Q : unit → S → Prop) E s : c = true → wp m Q E s → wp (when c m) Q E s.
Proof. by intros ->. Qed.
Lemma wp_when_f (c : bool) m (Q : unit → S → Prop) E s : c = false → Q tt s → wp (when c m) Q E s.
Proof. by intros ->. Qed.
Lemma wp_if_t {A} (c : bool) (m1 m2 : M S A) Q E s : c = true → wp m1 Q E s → wp (if c then m1 else m2) Q E s.
Proof. by intros ->. Qed.
Lemma wp_if_f {A} (c : bool) (m1 m2 : M S A) Q E s : c = false → wp m2 Q E s → wp (if c then m1 else m2) Q E s.
Proof. by intros ->. Qed.

Lemma wp_assert (c : bool) (Q : unit → S → Prop) (E : string → S → Prop) s :
  (c = true → Q tt s) → (c = false → E "assert failed" s) → wp (c_assert c) Q E s.
Proof. intros H1 H2. destruct c; [by apply H1|by apply H2]. Qed.

Lemma wp_mono {A} (m : M S A) (Q Q' : A → S → Prop) (E E' : string → S → Prop) s :
  wp m Q E s → (∀ a s', Q a s' → Q' a s') → (∀ msg s', E msg s' → E' msg s') → wp m Q' E' s.
Proof. unfold wp. destruct (m s); auto. Qed.

Lemma wp_post {A} (m : M S A) (Q Q' : A → S → Prop) (E : string → S → Prop) s :
  wp m Q E s → (∀ a s', Q a s' → Q' a s') → wp m Q' E s.
Proof. intros H1 H2. eapply wp_mono; [exact H1|exact H2|auto]. Qed.

Lemma wp_eq {A} (m : M S A) a s s' (Q : A → S → Prop) E :
  m s = Ret a s' → Q a s' → wp m Q E s.
Proof. unfold wp. intros ->. done. Qed.

(** A total specification gives the returned value and state. *)
Lemma wp_returns {A} (m : M S A) Q s :
  wp m Q nopanic s ↔ ∃ a s', m s = Ret a s' ∧ Q a s'.
Proof.
  unfold wp, nopanic. split.
  - destruct (m s) as [a s'| | | | |] eqn:E; try done. eauto.
  - intros (a & s' & -> & HQ). done.
Qed.

Section History.
Context {H : Type} (E : string → S → Prop) (G : H → S → Prop) (R : H → S → H → S → Prop).

Lemma hsat_bind {A B} (o : outcome S A) (f : A → M S B) Q h :
  hsat Q E G R h (obind o f) ↔ hsat (λ a h' s, hsat Q E G R h' (f a s)) E G R h o.
Proof.
  revert h. induction o as [a s|m s|s|w| |s k IH]; intros h; simpl; try done.
  split; intros [HG HR]; split; try done; intros h' s' Hs; apply IH; auto.
Qed.

Lemma hsat_mono {A} (o : outcome S A) (Q Q' : A → H → S → Prop) h :
  (∀ a h s, Q a h s → Q' a h s) → hsat Q E G R h o → hsat Q' E G R h o.
Proof.
  intros HQ. revert h. induction o as [a s|m s|s|w| |s k IH]; intros h; simpl; auto.
  intros [HG HR]; split; auto.
Qed.

Lemma hsat_mbnd {A B} (m : M S A) (k : A → M S B) Q h s :
  hsat (λ a h' s', hsat Q E G R h' (k a s')) E G R h (m s) → hsat Q E G R h (mbnd m k s).
Proof. unfold mbnd. by rewrite hsat_bind. Qed.

Lemma hsat_of_wp {A} (m : M S A) Q h s : wp m (λ a s', Q a h s') E s → hsat Q E G R h (m s).
Proof. unfold wp. destruct (m s); simpl; tauto. Qed.

Lemma hsat_wp_bind {A B} (m : M S A) (k : A → M S B) Q h s :
  wp m (λ a s', hsat Q E G R h (k a s')) E s → hsat Q E G R h (mbnd m k s).
Proof. intros Hw. by apply hsat_mbnd, hsat_of_wp. Qed.

Lemma hsat_loop_nat_add {A B} (step : A → M S (A + B)) n m a s Q h :
  hsat Q E G R h (loop_nat (n + m) step a s) ↔
  hsat Q E G R h (mbnd (loop_nat n step a)
    (λ r, match r with inl a' => loop_nat m step a' | inr b => ret (inr b) end) s).
Proof.
  revert a s h. induction n as [|n IH]; intros a s h; [done|].
  simpl. unfold mbnd. rewrite !hsat_bind.
  split; intros H0; (eapply hsat_mono; [|exact H0]); intros [a'|b] h' s'; simpl; auto.
  - intros H'. apply (IH a' s') in H'. by apply hsat_bind in H'.
  - intros H'. apply (IH a' s'). by apply hsat_bind.
Qed.

Lemma hsat_loop_pos {A B} (step : A → M S (A + B)) p a s Q h :
  hsat Q E G R h (loop_pos p step a s) ↔ hsat Q E G R h (loop_nat (Pos.to_nat p) step a s).
Proof.
  revert a s Q h. induction p as [p IH|p IH|]; intros a s Q h; cbn [loop_pos].
  - rewrite Pos2Nat.inj_xI. replace (Datatypes.S (2 * Pos.to_nat p)) with (1 + (Pos.to_nat p + Pos.to_nat p))%nat by lia.
    cbn [Nat.add loop_nat]. unfold mbnd. rewrite !hsat_bind.
    assert (∀ r h' s', hsat Q E G R h' (match r with inl a0 => mbnd (loop_pos p step a0)
        (λ r, match r with inl a' => loop_pos p step a' | inr b => ret (inr b) end)
        | inr b => ret (inr b) end s') ↔
      hsat Q E G R h' (match r with inl a' => loop_nat (Pos.to_nat p + Pos.to_nat p) step a' | inr b => ret (inr b) end s')) as H0.
    { intros [a0|b] h' s'; [|done]. rewrite hsat_loop_nat_add. unfold mbnd. rewrite !hsat_bind, IH.
      split; intros H0; (eapply hsat_mono; [|exact H0]); intros [a'|b] h'' s''; simpl; auto; apply IH. }
    split; intros H'; (eapply hsat_mono; [|exact H']); intros r h' s'; apply H0.
  - rewrite Pos2Nat.inj_xO. replace (2 * Pos.to_nat p)%nat with (Pos.to_nat p + Pos.to_nat p)%nat by lia.
    rewrite hsat_loop_nat_add. unfold mbnd. rewrite !hsat_bind, IH.
    split; intros H0; (eapply hsat_mono; [|exact H0]); intros [a'|b] h' s'; simpl; auto; apply IH.
  - change (Pos.to_nat 1) with 1%nat. cbn [loop_nat]. unfold mbnd. rewrite hsat_bind.
    split; intros H0; (eapply hsat_mono; [|exact H0]); intros [a'|b] h' s'; done.
Qed.

(** The invariant rule: an invariant the body keeps, indexed by a bound on the
    iterations left that starts below the fuel. *)
Lemma hsat_loop_n {A B} (step : A → M S (A + B)) (I : Z → A → H → S → Prop) Q n a h s :
  (∀ n a h s, I n a h s → hsat (λ r h' s', match r with
                               | inl a' => ∃ n', 0 ≤ n' < n ∧ I n' a' h' s'
                               | inr b => Q b h' s' end) E G R h (step a s)) →
  I n a h s → 0 ≤ n < 2 ^ 64 → hsat Q E G R h (loop step a s).
Proof.
  intros Hstep HI Hμ. unfold loop, mbnd. rewrite hsat_bind, hsat_loop_pos.
  assert (0 ≤ n < Z.of_nat (Pos.to_nat loop_fuel)) as Hn.
  { rewrite positive_nat_Z. change (Z.pos loop_fuel) with (2 ^ 64). lia. }
  clear Hμ. revert n a h s HI Hn. generalize (Pos.to_nat loop_fuel). intros k.
  induction k as [|k IH]; intros n a h s HI Hn; [lia|].
  simpl. unfold mbnd. rewrite hsat_bind.
  eapply hsat_mono; [|apply (Hstep n a h s HI)].
  intros [a'|b] h' s'; simpl; [|done]. intros (n' & Hn' & HI'). apply (IH n'); [done|lia].
Qed.

Lemma hsat_loop {A B} (step : A → M S (A + B)) (I : A → H → S → Prop) (μ : A → S → Z) Q a h s :
  (∀ a h s, I a h s → hsat (λ r h' s', match r with
                               | inl a' => I a' h' s' ∧ 0 ≤ μ a' s' < μ a s
                               | inr b => Q b h' s' end) E G R h (step a s)) →
  I a h s → 0 ≤ μ a s < 2 ^ 64 → hsat Q E G R h (loop step a s).
Proof.
  intros Hstep HI Hμ. apply (hsat_loop_n _ (λ n a h s, I a h s ∧ n = μ a s) _ (μ a s)); [|done|done].
  intros n a' h' s' [HI' ->]. eapply hsat_mono; [|apply (Hstep a' h' s' HI')].
  intros [b|b] h2 s2; [|done]. intros [H1 H2]. eauto.
Qed.
End History.

(** [sat] is the case of the history nobody looks at. *)
Lemma sat_hsat {A} (o : outcome S A) Q E G R :
  sat Q E G R o ↔ hsat (λ a _ s, Q a s) E (λ _ s, G s) (λ _ s _ s', R s s') tt o.
Proof.
  induction o as [a s|m s|s|w| |s k IH]; simpl; try done. split; intros [HG HR]; split; try done.
  - intros [] s' Hs. by apply IH, HR.
  - intros s' Hs. by apply IH, (HR tt).
Qed.

Lemma sat_loop_n {A B} (step : A → M S (A + B)) (I : Z → A → S → Prop) Q E G R n a s :
  (∀ n a s, I n a s → sat (λ r s', match r with
                               | inl a' => ∃ n', 0 ≤ n' < n ∧ I n' a' s'
                               | inr b => Q b s' end) E G R (step a s)) →
  I n a s → 0 ≤ n < 2 ^ 64 → sat Q E G R (loop step a s).
Proof.
  intros Hstep HI Hn. apply sat_hsat. apply (hsat_loop_n _ _ _ _ (λ n a _ s, I n a s) _ n); [|done|done].
  intros n' a' [] s' HI'. by apply (sat_hsat (step a' s')), Hstep.
Qed.

(** The same with a measure that the body decreases. *)
Lemma sat_loop {A B} (step : A → M S (A + B)) (I : A → S → Prop) (μ : A → S → Z) Q E G R a s :
  (∀ a s, I a s → sat (λ r s', match r with
                               | inl a' => I a' s' ∧ 0 ≤ μ a' s' < μ a s
                               | inr b => Q b s' end) E G R (step a s)) →
  I a s → 0 ≤ μ a s < 2 ^ 64 → sat Q E G R (loop step a s).
Proof.
  intros Hstep HI Hμ. apply (sat_loop_n _ (λ n a s, I a s ∧ n = μ a s) _ _ _ _ (μ a s)); [|done|done].
  intros n a' s' [HI' ->]. eapply sat_mono; [|intros ??; exact id|apply (Hstep a' s' HI')].
  intros [b|b] s2; [|done]. intros [H1 H2]. eauto.
Qed.

Lemma wp_loop_n {A B} (step : A → M S (A + B)) (I : Z → A → S → Prop) Q E n a s :
  (∀ n a s, I n a s → wp (step a) (λ r s', match r with
                               | inl a' => ∃ n', 0 ≤ n' < n ∧ I n' a' s'
                               | inr b => Q b s' end) E s) →
  I n a s → 0 ≤ n < 2 ^ 64 → wp (loop step a) Q E s.
Proof.
  intros Hstep HI Hn. apply wp_sat. eapply (sat_loop_n _ I); [|done|done].
  intros n' a' s' HI'. by apply wp_sat, Hstep.
Qed.

Lemma wp_loop {A B} (step : A → M S (A + B)) (I : A → S → Prop) (μ : A → S → Z) Q E a s :
  (∀ a s, I a s → wp (step a) (λ r s', match r with
                               | inl a' => I a' s' ∧ 0 ≤ μ a' s' < μ a s
                               | inr b => Q b s' end) E s) →
  I a s → 0 ≤ μ a s < 2 ^ 64 → wp (loop step a) Q E s.
Proof.
  intros Hstep HI Hμ. apply wp_sat. eapply (sat_loop _ I μ); [|done|done].
  intros a' s' HI'. by apply wp_sat, Hstep.
Qed.

Lemma wp_for_each {A} (l0 d l : list A) (f : A → M S unit) (I : list A → S → Prop) E s :
  (∀ d x l s, l0 = d ++ x :: l → I (x :: l) s → wp (f x) (λ _ s', I l s') E s) →
  l0 = d ++ l → I l s → wp (for_each l f) (λ _ s', I [] s') E s.
Proof.
  intros Hf. revert d s. induction l as [|x l IH]; intros d s Hd HI; simpl.
  - by apply wp_ret.
  - apply wp_bind. eapply wp_post; [eapply Hf; [exact Hd|exact HI]|].
    intros [] s' HI'. apply (IH (d ++ [x])); [|done]. by rewrite <- app_assoc.
Qed.

(** A scan that returns nothing kept the invariant to the end; a scan that
    returns stopped at an element of the table. *)
Lemma wp_for_some {A B} (l0 d l : list A) (f : A → M S (option B)) (I : list A → S → Prop)
    (Q : option B → S → Prop) E s :
  (∀ d x l s, l0 = d ++ x :: l → I d s →
     wp (f x) (λ r s', match r with Some b => Q (Some b) s' | None => I (d ++ [x]) s' end) E s) →
  (∀ s, I l0 s → Q None s) → l0 = d ++ l → I d s → wp (for_some l f) Q E s.
Proof.
  intros Hf Hend. revert d s. induction l as [|x l IH]; intros d s Hd HI; simpl.
  - apply wp_ret, Hend. by rewrite Hd, app_nil_r.
  - apply wp_bind. eapply wp_post; [eapply Hf; [exact Hd|exact HI]|].
    intros [b|] s' HQ; [by apply wp_ret|].
    apply (IH (d ++ [x])); [|done]. by rewrite <- app_assoc.
Qed.

End Rules.

Lemma wp_lift {S T A} (get : T → S) (put : S → T → T) (m : M S A) (Q : A → T → Prop) E t :
  wp m (λ a s, Q a (put s t)) (λ msg s, E msg (put s t)) (get t) → wp (lift get put m) Q E t.
Proof. unfold wp, lift. destruct (m (get t)); simpl; auto. Qed.

Lemma iter_nat_add {A B} (step : A → A + B) n m a :
  iter_nat (n + m) step a =
  match iter_nat n step a with inl a' => iter_nat m step a' | inr b => inr b end.
Proof.
  revert a. induction n as [|n IH]; intros a; [done|]. simpl. destruct (step a); [apply IH|done].
Qed.

Lemma iter_pos_nat {A B} (step : A → A + B) p a :
  iter_pos p step a = iter_nat (Pos.to_nat p) step a.
Proof.
  revert a. induction p as [p IH|p IH|]; intros a; cbn [iter_pos].
  - rewrite Pos2Nat.inj_xI. simpl. destruct (step a) as [a0|b]; [|done].
    rewrite Nat.add_0_r, iter_nat_add, IH. by destruct (iter_nat _ _ a0).
  - rewrite Pos2Nat.inj_xO. replace (2 * Pos.to_nat p)%nat with (Pos.to_nat p + Pos.to_nat p)%nat by lia.
    rewrite iter_nat_add, IH. by destruct (iter_nat _ _ a).
  - change (Pos.to_nat 1) with 1%nat. simpl. by destruct (step a).
Qed.

(** A pure loop that meets its exit after [n] iterations, [n] below the fuel,
    returns the value of the exit. *)
Lemma iter_spec {A B} (step : A → A + B) (I : A → Prop) (μ : A → Z) (Q : B → Prop) a :
  (∀ a, I a → match step a with inl a' => I a' ∧ 0 ≤ μ a' < μ a | inr b => Q b end) →
  I a → 0 ≤ μ a < 2 ^ 64 → ∃ b, iter step a = Some b ∧ Q b.
Proof.
  intros Hstep HI Hμ. unfold iter. rewrite iter_pos_nat.
  assert (0 ≤ μ a < Z.of_nat (Pos.to_nat loop_fuel)) as Hn.
  { rewrite positive_nat_Z. change (Z.pos loop_fuel) with (2 ^ 64). lia. }
  clear Hμ. revert a HI Hn. generalize (Pos.to_nat loop_fuel). intros n.
  induction n as [|n IH]; intros a HI Hn; [lia|]. simpl.
  specialize (Hstep a HI). destruct (step a) as [a'|b]; [|eauto].
  apply IH; [naive_solver|lia].
Qed.

(** * Automation *)

(** Decides a test of the code from the context. *)
Ltac decide_bool := solve [done | unfold c_true in *; lia].

(** One rule of the logic, chosen by the head of the code; a test that the
    context decides does not split the goal. *)
Ltac wp_step :=
  lazymatch goal with
  | |- wp (mbnd _ _) _ _ _ => apply wp_bind
  | |- wp (ret _) _ _ _ => apply wp_ret
  | |- wp (gets _) _ _ _ => apply wp_gets
  | |- wp get _ _ _ => apply wp_get
  | |- wp (modify _) _ _ _ => apply wp_modify
  | |- wp (panic _) _ _ _ => apply wp_panic
  | |- wp (when _ _) _ _ _ =>
      first [apply wp_when_t; [decide_bool|] | apply wp_when_f; [decide_bool|]]
  | |- wp (c_assert _) _ _ _ => apply wp_assert; intros ?; [|try (exfalso; unfold c_true in *; lia)]
  | |- wp (if _ then _ else _) _ _ _ =>
      first [apply wp_if_t; [decide_bool|] | apply wp_if_f; [decide_bool|]]
  end; cbn beta iota zeta.
Ltac wp_go := repeat wp_step.

(** The value of a boolean comparison, from the context. *)
Ltac bool_true c := replace c with true by (symmetry; lia).
Ltac bool_false c := replace c with false by (symmetry; lia).

(** Case analysis on the comparison that decides the next branch. *)
Ltac case_bool :=
  match goal with
  | |- context [if ?b then _ else _] => let E := fresh "Hb" in destruct b eqn:E
  end.

(** * Lemmas on machine integers *)

Lemma u8_range x : 0 ≤ u8 x < 2 ^ 8.
Proof. apply Z.mod_pos_bound. lia. Qed.
Lemma u16_range x : 0 ≤ u16 x < 2 ^ 16.
Proof. apply Z.mod_pos_bound. lia. Qed.
Lemma u32_range x : 0 ≤ u32 x < 2 ^ 32.
Proof. apply Z.mod_pos_bound. lia. Qed.
Lemma u64_range x : 0 ≤ u64 x < 2 ^ 64.
Proof. apply Z.mod_pos_bound. lia. Qed.
Lemma u8_small x : 0 ≤ x < 2 ^ 8 → u8 x = x.
Proof. apply Z.mod_small. Qed.
Lemma u16_small x : 0 ≤ x < 2 ^ 16 → u16 x = x.
Proof. apply Z.mod_small. Qed.
Lemma u32_small x : 0 ≤ x < 2 ^ 32 → u32 x = x.
Proof. apply Z.mod_small. Qed.
Lemma u64_small x : 0 ≤ x < 2 ^ 64 → u64 x = x.
Proof. apply Z.mod_small. Qed.
#[export] Hint Rewrite u8_small u16_small u32_small u64_small using lia : cint_rw.
#[export] Hint Resolve u8_range u16_range u32_range u64_range : cint.

Lemma swrap_range w x : 1 ≤ w → - 2 ^ (w - 1) ≤ swrap w x < 2 ^ (w - 1).
Proof.
  intros Hw. unfold swrap. assert (2 ^ w = 2 * 2 ^ (w - 1)) as E.
  { rewrite <- Z.pow_succ_r by lia. f_equal. lia. }
  assert (0 < 2 ^ (w - 1)) by (apply Z.pow_pos_nonneg; lia).
  pose proof (Z.mod_pos_bound x (2 ^ w)). case_bool; lia.
Qed.

Lemma swrap_small w x : 1 ≤ w → - 2 ^ (w - 1) ≤ x < 2 ^ (w - 1) → swrap w x = x.
Proof.
  intros Hw Hx. unfold swrap. assert (2 ^ w = 2 * 2 ^ (w - 1)) as E.
  { rewrite <- Z.pow_succ_r by lia. f_equal. lia. }
  destruct (decide (0 ≤ x)).
  - rewrite Z.mod_small by lia. case_bool; lia.
  - rewrite <- (Z.mod_unique x (2 ^ w) (-1) (x + 2 ^ w)) by lia. case_bool; lia.
Qed.

Lemma s16_small x : - 2 ^ 15 ≤ x < 2 ^ 15 → s16 x = x.
Proof. intros H. by apply swrap_small. Qed.
Lemma s32_small x : - 2 ^ 31 ≤ x < 2 ^ 31 → s32 x = x.
Proof. intros H. by apply swrap_small. Qed.
Lemma s64_small x : - 2 ^ 63 ≤ x < 2 ^ 63 → s64 x = x.
Proof. intros H. by apply swrap_small. Qed.

Lemma swrap_mod w x : 1 ≤ w → swrap w x mod 2 ^ w = x mod 2 ^ w.
Proof.
  intros Hw. unfold swrap. case_bool.
  - apply Z.mod_mod. lia.
  - rewrite <- (Z_mod_plus_full _ 1). rewrite Z.mul_1_l, Z.sub_add. apply Z.mod_mod. lia.
Qed.

(** * Little-endian encoding *)

Lemma length_le_bytes n v : length (le_bytes n v) = n.
Proof. revert v. induction n as [|n IH]; intros v; simpl; auto. Qed.

Lemma le_bytes_byte n v : Forall (λ b, 0 ≤ b < 256) (le_bytes n v).
Proof.
  revert v. induction n as [|n IH]; intros v; simpl; constructor; auto.
  apply Z.mod_pos_bound. lia.
Qed.

Lemma le_val_bytes n v : le_val (le_bytes n v) = v mod 256 ^ Z.of_nat n.
Proof.
  revert v. induction n as [|n IH]; intros v; simpl.
  - by rewrite Z.mod_1_r.
  - rewrite IH. replace (256 ^ Z.of_nat (S n)) with (256 * 256 ^ Z.of_nat n).
    + rewrite Z.rem_mul_r; [lia|lia|]. apply Z.pow_pos_nonneg; lia.
    + rewrite Nat2Z.inj_succ, Z.pow_succ_r; lia.
Qed.

Lemma le_val_range l : Forall (λ b, 0 ≤ b < 256) l → 0 ≤ le_val l < 256 ^ Z.of_nat (length l).
Proof.
  induction 1 as [|b l Hb _ IH]; simpl; [lia|].
  rewrite Nat2Z.inj_succ, Z.pow_succ_r by lia. nia.
Qed.

Lemma le_bytes_val l : Forall (λ b, 0 ≤ b < 256) l → le_bytes (length l) (le_val l) = l.
Proof.
  induction 1 as [|b l Hb _ IH]; simpl; [done|].
  rewrite Z.mul_comm, Z_mod_plus_full, Z.mod_small by lia.
  rewrite Z_div_plus_full, Z.div_small, Z.add_0_l by lia. by rewrite IH.
Qed.
