(* ===== verification/Mem.v ===== *)
(** Byte-addressed memory and kernel/string.c.

    Physical memory is a finite map from addresses to bytes; an address that
    was never written reads as 0.  [ld]/[st] are the little-endian accesses of
    RISC-V.  The routines of kernel/string.c are written as the loops of the
    source over that memory ([char] is unsigned in the RISC-V ABI), and their
    specifications say, address by address, what memory holds afterwards. *)

From S2P Require Import Prelude.

(** * Memory *)

Definition ld8 (m : gmap Z Z) (a : Z) : Z := default 0 (m !! a) mod 256.
Definition st8 (m : gmap Z Z) (a v : Z) : gmap Z Z := <[a := v mod 256]> m.

Fixpoint ld (n : nat) (m : gmap Z Z) (a : Z) : Z :=
  match n with O => 0 | S n' => ld8 m a + 256 * ld n' m (a + 1) end.
Fixpoint st (n : nat) (m : gmap Z Z) (a v : Z) : gmap Z Z :=
  match n with O => m | S n' => st n' (st8 m a v) (a + 1) (v / 256) end.

Definition ld32 := ld 4.
Definition st32 := st 4.
Definition ld64 := ld 8.
Definition st64 := st 8.

(** the [n] bytes at [a], and storing a byte string *)
Definition ld_bytes (m : gmap Z Z) (a : Z) (n : Z) : list Z := (λ i, ld8 m (a + i)) <$> seqZ 0 n.
Fixpoint st_bytes (m : gmap Z Z) (a : Z) (l : list Z) : gmap Z Z :=
  match l with [] => m | b :: l' => st_bytes (st8 m a b) (a + 1) l' end.

(** * kernel/string.c *)

Fixpoint fill_up (k : nat) (m : gmap Z Z) (d c : Z) : gmap Z Z :=
  match k with O => m | S k' => fill_up k' (st8 m d c) (d + 1) c end.

Definition memset (m : gmap Z Z) (dst c n : Z) : gmap Z Z := fill_up (Z.to_nat n) m dst c.

(** while(n-- > 0) *d++ = *s++; *)
Fixpoint copy_up (k : nat) (m : gmap Z Z) (d s : Z) : gmap Z Z :=
  match k with O => m | S k' => copy_up k' (st8 m d (ld8 m s)) (d + 1) (s + 1) end.
(** while(n-- > 0) *--d = *--s; *)
Fixpoint copy_down (k : nat) (m : gmap Z Z) (d s : Z) : gmap Z Z :=
  match k with O => m | S k' => copy_down k' (st8 m (d - 1) (ld8 m (s - 1))) (d - 1) (s - 1) end.

Definition memmove (m : gmap Z Z) (dst src n : Z) : gmap Z Z :=
  if n =? 0 then m
  else if (src <? dst) && (dst <? src + n) then
    copy_down (Z.to_nat n) m (dst + n) (src + n)
  else copy_up (Z.to_nat n) m dst src.

Definition memcpy (m : gmap Z Z) (dst src n : Z) : gmap Z Z := memmove m dst src n.

Fixpoint memcmp_loop (k : nat) (m : gmap Z Z) (s1 s2 : Z) : Z :=
  match k with
  | O => 0
  | S k' =>
      if negb (ld8 m s1 =? ld8 m s2) then ld8 m s1 - ld8 m s2
      else memcmp_loop k' m (s1 + 1) (s2 + 1)
  end.
Definition memcmp (m : gmap Z Z) (v1 v2 n : Z) : Z := memcmp_loop (Z.to_nat n) m v1 v2.

Fixpoint strncmp_loop (k : nat) (m : gmap Z Z) (p q : Z) : Z :=
  match k with
  | O => 0
  | S k' =>
      if c_true (ld8 m p) && (ld8 m p =? ld8 m q) then strncmp_loop k' m (p + 1) (q + 1)
      else ld8 m p - ld8 m q
  end.
Definition strncmp (m : gmap Z Z) (p q n : Z) : Z := strncmp_loop (Z.to_nat n) m p q.

Fixpoint strncpy_loop (k : nat) (m : gmap Z Z) (s t : Z) : gmap Z Z :=
  match k with
  | O => m
  | S k' =>
      let c := ld8 m t in
      let m' := st8 m s c in
      if c =? 0 then fill_up k' m' (s + 1) 0 else strncpy_loop k' m' (s + 1) (t + 1)
  end.
Definition strncpy (m : gmap Z Z) (s t n : Z) : gmap Z Z := strncpy_loop (Z.to_nat n) m s t.

Fixpoint safestrcpy_loop (k : nat) (m : gmap Z Z) (s t : Z) : gmap Z Z :=
  match k with
  | O => st8 m s 0
  | S k' =>
      let c := ld8 m t in
      let m' := st8 m s c in
      if c =? 0 then st8 m' (s + 1) 0 else safestrcpy_loop k' m' (s + 1) (t + 1)
  end.
Definition safestrcpy (m : gmap Z Z) (s t n : Z) : gmap Z Z :=
  if n <=? 0 then m else safestrcpy_loop (Z.to_nat (n - 1)) m s t.

(** for(n = 0; s[n]; n++) *)
Definition strlen (m : gmap Z Z) (s : Z) : option Z :=
  iter (λ n, if ld8 m (s + n) =? 0 then inr n else inl (n + 1)) 0.

(** * Reading back what was written *)

Lemma ld8_range m a : 0 ≤ ld8 m a < 256.
Proof. apply Z.mod_pos_bound. lia. Qed.
#[export] Hint Resolve ld8_range : cmem.

Lemma ld8_empty a : ld8 ∅ a = 0.
Proof. unfold ld8. by rewrite lookup_empty. Qed.

Lemma ld8_st8 m a v x : ld8 (st8 m a v) x = if a =? x then v mod 256 else ld8 m x.
Proof.
  unfold ld8, st8. destruct (Z.eqb_spec a x) as [->|Hne].
  - rewrite lookup_insert_eq. simpl. apply Z.mod_mod. lia.
  - by rewrite lookup_insert_ne.
Qed.

Lemma ld8_fill_up k m d c x :
  ld8 (fill_up k m d c) x = if (d <=? x) && (x <? d + Z.of_nat k) then c mod 256 else ld8 m x.
Proof.
  revert m d. induction k as [|k IH]; intros m d; cbn [fill_up].
  - bool_false ((d <=? x) && (x <? d + Z.of_nat 0)). done.
  - rewrite IH, ld8_st8. repeat case_bool; try done; lia.
Qed.

Lemma ld8_memset m d c n x :
  ld8 (memset m d c n) x = if (d <=? x) && (x <? d + n) then c mod 256 else ld8 m x.
Proof.
  unfold memset. rewrite ld8_fill_up. repeat case_bool; try done; lia.
Qed.

Lemma ld8_st n m a v x :
  ld8 (st n m a v) x =
  if (a <=? x) && (x <? a + Z.of_nat n) then (v / 256 ^ (x - a)) mod 256 else ld8 m x.
Proof.
  revert m a v. induction n as [|n IH]; intros m a v; cbn [st].
  - bool_false ((a <=? x) && (x <? a + Z.of_nat 0)). done.
  - rewrite IH, ld8_st8. destruct (Z.eqb_spec a x) as [->|Hne].
    + bool_false ((x + 1 <=? x) && (x <? x + 1 + Z.of_nat n)).
      bool_true ((x <=? x) && (x <? x + Z.of_nat (S n))).
      by rewrite Z.sub_diag, Z.div_1_r.
    + destruct ((a + 1 <=? x) && (x <? a + 1 + Z.of_nat n)) eqn:Hb.
      * bool_true ((a <=? x) && (x <? a + Z.of_nat (S n))).
        rewrite Z.div_div by lia.
        rewrite <- Z.pow_succ_r by lia. do 3 f_equal. lia.
      * bool_false ((a <=? x) && (x <? a + Z.of_nat (S n))). done.
Qed.

Lemma ld8_copy_up k m d s x :
  s + Z.of_nat k ≤ d ∨ d ≤ s →
  ld8 (copy_up k m d s) x =
  if (d <=? x) && (x <? d + Z.of_nat k) then ld8 m (s + (x - d)) else ld8 m x.
Proof.
  revert m d s. induction k as [|k IH]; intros m d s Hov; cbn [copy_up].
  - bool_false ((d <=? x) && (x <? d + Z.of_nat 0)). done.
  - rewrite IH by lia. rewrite !ld8_st8.
    destruct ((d + 1 <=? x) && (x <? d + 1 + Z.of_nat k)) eqn:Hb.
    + bool_true ((d <=? x) && (x <? d + Z.of_nat (S k))).
      bool_false (d =? s + 1 + (x - (d + 1))). f_equal. lia.
    + destruct (Z.eqb_spec d x) as [->|Hne].
      * bool_true ((x <=? x) && (x <? x + Z.of_nat (S k))).
        rewrite Z.sub_diag, Z.add_0_r. apply Z.mod_small, ld8_range.
      * bool_false ((d <=? x) && (x <? d + Z.of_nat (S k))). done.
Qed.

Lemma ld8_copy_down k m d s x :
  s ≤ d →
  ld8 (copy_down k m d s) x =
  if (d - Z.of_nat k <=? x) && (x <? d) then ld8 m (s + (x - d)) else ld8 m x.
Proof.
  revert m d s. induction k as [|k IH]; intros m d s Hov; cbn [copy_down].
  - bool_false ((d - Z.of_nat 0 <=? x) && (x <? d)). done.
  - rewrite IH by lia. rewrite !ld8_st8.
    destruct ((d - 1 - Z.of_nat k <=? x) && (x <? d - 1)) eqn:Hb.
    + bool_true ((d - Z.of_nat (S k) <=? x) && (x <? d)).
      bool_false (d - 1 =? s - 1 + (x - (d - 1))). f_equal. lia.
    + destruct (Z.eqb_spec (d - 1) x) as [<-|Hne].
      * bool_true ((d - Z.of_nat (S k) <=? d - 1) && (d - 1 <? d)).
        rewrite Z.mod_small by apply ld8_range. f_equal. lia.
      * bool_false ((d - Z.of_nat (S k) <=? x) && (x <? d)). done.
Qed.

Lemma ld8_memmove m dst src n x :
  0 ≤ n →
  ld8 (memmove m dst src n) x =
  if (dst <=? x) && (x <? dst + n) then ld8 m (src + (x - dst)) else ld8 m x.
Proof.
  intros Hn. unfold memmove. destruct (Z.eqb_spec n 0) as [->|Hn0].
  { bool_false ((dst <=? x) && (x <? dst + 0)). done. }
  case_bool.
  - rewrite ld8_copy_down by lia. rewrite Z2Nat.id by lia.
    replace (dst + n - n) with dst by lia. case_bool; [|done]. f_equal. lia.
  - rewrite ld8_copy_up by lia. by rewrite Z2Nat.id by lia.
Qed.

Lemma ld_range n m a : 0 ≤ ld n m a < 256 ^ Z.of_nat n.
Proof.
  revert a. induction n as [|n IH]; intros a; cbn [ld]; [simpl; lia|].
  rewrite Nat2Z.inj_succ, Z.pow_succ_r by lia.
  pose proof (ld8_range m a). specialize (IH (a + 1)). lia.
Qed.

Lemma ld_ext n m m' a a' :
  (∀ i, 0 ≤ i < Z.of_nat n → ld8 m (a + i) = ld8 m' (a' + i)) → ld n m a = ld n m' a'.
Proof.
  revert a a'. induction n as [|n IH]; intros a a' H; cbn [ld]; [done|].
  rewrite (IH (a + 1) (a' + 1)).
  - pose proof (H 0 ltac:(lia)) as H0. rewrite !Z.add_0_r in H0. by rewrite H0.
  - intros i Hi. rewrite <- !Z.add_assoc. apply H. lia.
Qed.

Lemma ld_st_same n m a v : ld n (st n m a v) a = v mod 256 ^ Z.of_nat n.
Proof.
  revert m a v. induction n as [|n IH]; intros m a v.
  - simpl. by rewrite Z.mod_1_r.
  - cbn [ld st]. rewrite IH, ld8_st.
    bool_false ((a + 1 <=? a) && (a <? a + 1 + Z.of_nat n)).
    rewrite ld8_st8, Z.eqb_refl, Nat2Z.inj_succ, Z.pow_succ_r by lia.
    rewrite Z.rem_mul_r; [lia|lia|]. apply Z.pow_pos_nonneg; lia.
Qed.

Lemma ld_st_other n k m a b v :
  b + Z.of_nat n ≤ a ∨ a + Z.of_nat k ≤ b → ld n (st k m a v) b = ld n m b.
Proof.
  intros H. apply ld_ext. intros i Hi. rewrite ld8_st.
  bool_false ((a <=? b + i) && (b + i <? a + Z.of_nat k)). done.
Qed.

Lemma ld64_range m a : 0 ≤ ld64 m a < 2 ^ 64.
Proof. apply (ld_range 8). Qed.
Lemma ld64_st64 m a v : 0 ≤ v < 2 ^ 64 → ld64 (st64 m a v) a = v.
Proof. intros H. unfold ld64, st64. rewrite ld_st_same. by apply Z.mod_small. Qed.
Lemma ld64_st64_ne m a b v : b + 8 ≤ a ∨ a + 8 ≤ b → ld64 (st64 m a v) b = ld64 m b.
Proof. intros H. apply ld_st_other. lia. Qed.
Lemma ld64_ext m m' a :
  (∀ i, 0 ≤ i < 8 → ld8 m (a + i) = ld8 m' (a + i)) → ld64 m a = ld64 m' a.
Proof. intros H. apply ld_ext. intros i Hi. apply H. lia. Qed.
Lemma ld8_st64 m a v x :
  x < a ∨ a + 8 ≤ x → ld8 (st64 m a v) x = ld8 m x.
Proof.
  intros H. unfold st64. rewrite ld8_st.
  bool_false ((a <=? x) && (x <? a + Z.of_nat 8)). done.
Qed.
#[export] Hint Resolve ld64_range : cmem.

Lemma ld_zero n m a : (∀ i, 0 ≤ i < Z.of_nat n → ld8 m (a + i) = 0) → ld n m a = 0.
Proof.
  revert a. induction n as [|n IH]; intros a H; cbn [ld]; [done|].
  rewrite IH.
  - pose proof (H 0 ltac:(lia)) as H0. rewrite Z.add_0_r in H0. lia.
  - intros i Hi. rewrite <- Z.add_assoc. apply H. lia.
Qed.

Lemma ld64_zero m a : (∀ i, 0 ≤ i < 8 → ld8 m (a + i) = 0) → ld64 m a = 0.
Proof. intros H. apply ld_zero. intros i Hi. apply H. lia. Qed.

Lemma ld64_memset0 m d n a : d ≤ a → a + 8 ≤ d + n → ld64 (memset m d 0 n) a = 0.
Proof.
  intros H1 H2. apply ld_zero. intros i Hi. rewrite ld8_memset.
  bool_true ((d <=? a + i) && (a + i <? d + n)). done.
Qed.

Lemma ld8_st_bytes m a l x :
  ld8 (st_bytes m a l) x =
  if (a <=? x) && (x <? a + Z.of_nat (length l)) then default 0 (l !! Z.to_nat (x - a)) mod 256
  else ld8 m x.
Proof.
  revert m a. induction l as [|b l IH]; intros m a; cbn [st_bytes length].
  - bool_false ((a <=? x) && (x <? a + Z.of_nat 0)). done.
  - rewrite IH, ld8_st8. destruct (Z.eqb_spec a x) as [->|Hne].
    + bool_false ((x + 1 <=? x) && (x <? x + 1 + Z.of_nat (length l))).
      bool_true ((x <=? x) && (x <? x + Z.of_nat (S (length l)))).
      by rewrite Z.sub_diag.
    + destruct ((a + 1 <=? x) && (x <? a + 1 + Z.of_nat (length l))) eqn:Hb.
      * bool_true ((a <=? x) && (x <? a + Z.of_nat (S (length l)))).
        replace (Z.to_nat (x - a)) with (S (Z.to_nat (x - (a + 1)))) by lia. done.
      * bool_false ((a <=? x) && (x <? a + Z.of_nat (S (length l)))). done.
Qed.

Lemma length_ld_bytes m a n : length (ld_bytes m a n) = Z.to_nat n.
Proof. unfold ld_bytes. by rewrite length_fmap, length_seqZ. Qed.

Lemma ld_bytes_map m a n : ld_bytes m a n = (λ i, ld8 m (a + i)) <$> seqZ 0 n.
Proof. done. Qed.

Lemma ld_bytes_cons m a n : 0 < n → ld_bytes m a n = ld8 m a :: ld_bytes m (a + 1) (n - 1).
Proof.
  intros Hn. rewrite !ld_bytes_map. rewrite seqZ_cons by lia. rewrite fmap_cons. f_equal; [f_equal; lia|].
  replace (Z.succ 0) with (1 + 0) by lia. rewrite <- fmap_add_seqZ, <- list_fmap_compose.
  replace (Z.pred n) with (n - 1) by lia.
  apply list_fmap_ext. intros i x _. simpl. f_equal. lia.
Qed.

Lemma ld_bytes_ext m m' a n :
  (∀ i, 0 ≤ i < n → ld8 m (a + i) = ld8 m' (a + i)) → ld_bytes m a n = ld_bytes m' a n.
Proof.
  intros H. unfold ld_bytes. apply list_fmap_ext. intros i x Hx.
  apply lookup_seqZ in Hx as [-> Hi]. apply H. lia.
Qed.

(** The accesses are used through the lemmas above. *)
#[global] Opaque ld8 st8 ld st ld32 st32 ld64 st64 ld_bytes st_bytes memset memmove.
