(* ===== verification/Layout.v ===== *)
(** Constants and address arithmetic of kernel/riscv.h, kernel/memlayout.h and
    kernel/param.h: pages, page-table entries, the Sv39 indices of a virtual
    address, and the memory map. *)

From S2P Require Import Prelude.

(** * kernel/riscv.h *)

Definition PGSIZE : Z := 4096.
Definition PGSHIFT : Z := 12.
Definition PGROUNDUP (sz : Z) : Z := Z.land (u64 (sz + PGSIZE - 1)) (Z.lnot (PGSIZE - 1)).
Definition PGROUNDDOWN (a : Z) : Z := Z.land a (Z.lnot (PGSIZE - 1)).

Definition PTE_V : Z := Z.shiftl 1 0.
Definition PTE_R : Z := Z.shiftl 1 1.
Definition PTE_W : Z := Z.shiftl 1 2.
Definition PTE_X : Z := Z.shiftl 1 3.
Definition PTE_U : Z := Z.shiftl 1 4.

Definition PA2PTE (pa : Z) : Z := u64 (Z.shiftl (Z.shiftr pa 12) 10).
Definition PTE2PA (pte : Z) : Z := u64 (Z.shiftl (Z.shiftr pte 10) 12).
Definition PTE_FLAGS (pte : Z) : Z := Z.land pte 1023.

Definition PXMASK : Z := 511.
Definition PXSHIFT (level : Z) : Z := PGSHIFT + 9 * level.
Definition PX (level va : Z) : Z := Z.land (Z.shiftr va (PXSHIFT level)) PXMASK.

Definition MAXVA : Z := Z.shiftl 1 (9 + 9 + 9 + 12 - 1).

(** * kernel/memlayout.h *)

Definition UART0 : Z := 268435456.
Definition UART0_IRQ : Z := 10.
Definition VIRTIO0 : Z := 268439552.
Definition VIRTIO0_IRQ : Z := 1.
Definition CLINT : Z := 33554432.
Definition PLIC : Z := 201326592.
Definition KERNBASE : Z := 2147483648.
Definition PHYSTOP : Z := KERNBASE + 128 * 1024 * 1024.
Definition TRAMPOLINE : Z := MAXVA - PGSIZE.
Definition KSTACK (p : Z) : Z := TRAMPOLINE - (p + 1) * 2 * PGSIZE.
Definition TRAPFRAME : Z := TRAMPOLINE - PGSIZE.

(** * kernel/param.h *)

Definition NPROC : Z := 64.
Definition NCPU : Z := 8.
Definition NOFILE : Z := 16.
Definition NFILE : Z := 100.
Definition NINODE : Z := 50.
Definition NDEV : Z := 10.
Definition ROOTDEV : Z := 1.
Definition MAXARG : Z := 32.
Definition MAXOPBLOCKS : Z := 10.
Definition LOGSIZE : Z := MAXOPBLOCKS * 3.
Definition NBUF : Z := MAXOPBLOCKS * 3.
Definition FSSIZE : Z := 2000.
Definition MAXPATH : Z := 128.

(** * Lemmas *)

Definition aligned (a : Z) : Prop := a mod PGSIZE = 0.

Ltac consts := unfold KSTACK, TRAPFRAME, TRAMPOLINE, PHYSTOP, PXSHIFT, LOGSIZE, NBUF, MAXVA, PGSIZE, PGSHIFT,
  KERNBASE, PTE_V, PTE_R, PTE_W, PTE_X, PTE_U, PXMASK, NPROC, NOFILE, NFILE, NINODE, MAXOPBLOCKS in *;
  change (Z.shiftl 1 (9 + 9 + 9 + 12 - 1)) with 274877906944 in *.

(** the value of a comparison that involves the constants *)
Ltac btrue c := replace c with true by (symmetry; consts; lia).
Ltac bfalse c := replace c with false by (symmetry; consts; lia).

Lemma land_lnot_ones a n : 0 ≤ n → Z.land a (Z.lnot (Z.ones n)) = a - a mod 2 ^ n.
Proof.
  intros Hn. rewrite <- Z.ldiff_land, Z.ldiff_ones_r by lia.
  rewrite Z.shiftr_div_pow2, Z.shiftl_mul_pow2 by lia.
  pose proof (Z.div_mod a (2 ^ n)). lia.
Qed.

Lemma PGROUNDDOWN_eq a : PGROUNDDOWN a = a - a mod PGSIZE.
Proof. apply (land_lnot_ones a 12). lia. Qed.

Lemma PGROUNDUP_eq sz : 0 ≤ sz → sz + PGSIZE ≤ 2 ^ 64 →
  PGROUNDUP sz = (sz + (PGSIZE - 1)) - (sz + (PGSIZE - 1)) mod PGSIZE.
Proof.
  intros H1 H2. unfold PGROUNDUP. rewrite u64_small by (consts; lia).
  replace (sz + PGSIZE - 1) with (sz + (PGSIZE - 1)) by lia.
  apply (land_lnot_ones _ 12). lia.
Qed.

Lemma PGROUNDDOWN_aligned a : aligned (PGROUNDDOWN a).
Proof.
  unfold aligned. rewrite PGROUNDDOWN_eq.
  rewrite Zminus_mod_idemp_r, Z.sub_diag. done.
Qed.

Lemma PGROUNDDOWN_bounds a : PGROUNDDOWN a ≤ a < PGROUNDDOWN a + PGSIZE.
Proof.
  rewrite PGROUNDDOWN_eq. pose proof (Z.mod_pos_bound a PGSIZE ltac:(done)). lia.
Qed.

Lemma PGROUNDDOWN_id a : aligned a → PGROUNDDOWN a = a.
Proof. unfold aligned. intros H. rewrite PGROUNDDOWN_eq, H. lia. Qed.

Lemma PGROUNDUP_spec sz : 0 ≤ sz → sz + PGSIZE ≤ 2 ^ 64 →
  aligned (PGROUNDUP sz) ∧ sz ≤ PGROUNDUP sz < sz + PGSIZE.
Proof.
  intros H1 H2. rewrite PGROUNDUP_eq by done. unfold aligned. split.
  - rewrite Zminus_mod_idemp_r, Z.sub_diag. done.
  - pose proof (Z.mod_pos_bound (sz + (PGSIZE - 1)) PGSIZE ltac:(done)). consts. lia.
Qed.

Lemma PGROUNDUP_id sz : 0 ≤ sz → sz + PGSIZE ≤ 2 ^ 64 → aligned sz → PGROUNDUP sz = sz.
Proof.
  unfold aligned. intros H1 H2 H3. destruct (PGROUNDUP_spec sz H1 H2) as [HA HB].
  unfold aligned in HA. consts. Z.div_mod_to_equations. lia.
Qed.

Lemma PTE_V_testbit pte : c_true (Z.land pte PTE_V) = Z.testbit pte 0.
Proof.
  unfold c_true, PTE_V. change (Z.shiftl 1 0) with (Z.ones 1). rewrite Z.land_ones by lia.
  rewrite Z.bit0_eqb. change (2 ^ 1) with 2. pose proof (Z.mod_pos_bound pte 2). lia.
Qed.

Lemma PX_div level va : 0 ≤ level → PX level va = (va / 2 ^ (PXSHIFT level)) mod 512.
Proof.
  intros H. unfold PX, PXMASK. change 511 with (Z.ones 9). rewrite Z.land_ones by lia.
  rewrite Z.shiftr_div_pow2; [done|]. consts. lia.
Qed.

Lemma PX_range level va : 0 ≤ level → 0 ≤ PX level va < 512.
Proof. intros H. rewrite PX_div by done. apply Z.mod_pos_bound. lia. Qed.
#[export] Hint Resolve PX_range : cint.

(** The three indices and the page offset determine the virtual address. *)
Lemma PX_split va :
  0 ≤ va < MAXVA →
  va = PX 2 va * 2 ^ 30 + PX 1 va * 2 ^ 21 + PX 0 va * 2 ^ 12 + va mod PGSIZE.
Proof.
  intros H. rewrite !PX_div by lia. unfold PXSHIFT. consts.
  change (2 ^ (12 + 9 * 2)) with (2 ^ 30). change (2 ^ (12 + 9 * 1)) with (2 ^ 21).
  change (2 ^ (12 + 9 * 0)) with (2 ^ 12). 
  Z.div_mod_to_equations. lia.
Qed.

Lemma PX_inj va va' :
  0 ≤ va < MAXVA → 0 ≤ va' < MAXVA → aligned va → aligned va' →
  PX 2 va = PX 2 va' → PX 1 va = PX 1 va' → PX 0 va = PX 0 va' → va = va'.
Proof.
  unfold aligned. intros H H' Ha Ha' E2 E1 E0.
  rewrite (PX_split va H), (PX_split va' H'). lia.
Qed.

Lemma PX_PGROUNDDOWN level va : 0 ≤ level → PX level (PGROUNDDOWN va) = PX level va.
Proof.
  intros H. rewrite !PX_div by done. f_equal. rewrite PGROUNDDOWN_eq. consts.
  replace (2 ^ (12 + 9 * level)) with (4096 * 2 ^ (9 * level)) by (rewrite Z.pow_add_r by lia; done).
  rewrite <- !Z.div_div by lia. f_equal. Z.div_mod_to_equations. lia.
Qed.

(** A physical page address that fits a page-table entry. *)
Definition pte_pa (pa : Z) : Prop := aligned pa ∧ 0 ≤ pa < 2 ^ 56.

Lemma PA2PTE_eq pa : pte_pa pa → PA2PTE pa = Z.shiftl (pa / 4096) 10.
Proof.
  intros [_ Hr]. unfold PA2PTE. rewrite Z.shiftr_div_pow2 by lia. change (2 ^ 12) with 4096.
  apply u64_small. rewrite Z.shiftl_mul_pow2 by lia. Z.div_mod_to_equations. lia.
Qed.

Lemma PTE2PA_PA2PTE pa flags :
  pte_pa pa → 0 ≤ flags < 1024 → PTE2PA (Z.lor (PA2PTE pa) flags) = pa.
Proof.
  intros Hpa Hf. rewrite PA2PTE_eq by done. destruct Hpa as [Ha Hr]. unfold PTE2PA, aligned in *. consts.
  rewrite Z.shiftr_lor, Z.shiftr_shiftl_l by lia. change (10 - 10) with 0.
  rewrite Z.shiftl_0_r, (Z.shiftr_div_pow2 flags), (Z.div_small flags), Z.lor_0_r by lia.
  rewrite Z.shiftl_mul_pow2 by lia. rewrite u64_small; Z.div_mod_to_equations; lia.
Qed.

Lemma PTE_FLAGS_PA2PTE pa flags :
  pte_pa pa → 0 ≤ flags < 1024 → PTE_FLAGS (Z.lor (PA2PTE pa) flags) = flags.
Proof.
  intros Hpa Hf. rewrite PA2PTE_eq by done. unfold PTE_FLAGS.
  change 1023 with (Z.ones 10). rewrite Z.land_lor_distr_l, !Z.land_ones by lia.
  rewrite Z.shiftl_mul_pow2, Z_mod_mult, Z.lor_0_l by lia. by apply Z.mod_small.
Qed.

Lemma PTE_range pa flags : pte_pa pa → 0 ≤ flags < 1024 → 0 ≤ Z.lor (PA2PTE pa) flags < 2 ^ 64.
Proof.
  intros [Ha Hr] Hf. unfold PA2PTE. split; [apply Z.lor_nonneg; split; [apply u64_range|lia]|].
  apply Z.log2_lt_cancel. rewrite Z.log2_lor by (try apply u64_range; lia).
  change (Z.log2 (2 ^ 64)) with 64. apply Z.max_lub_lt.
  - pose proof (u64_range (Z.shiftl (Z.shiftr pa 12) 10)) as Hu.
    destruct (decide (u64 (Z.shiftl (Z.shiftr pa 12) 10) = 0)) as [->|]; [done|].
    apply Z.log2_lt_pow2; lia.
  - destruct (decide (flags = 0)) as [->|]; [done|]. apply Z.log2_lt_pow2; lia.
Qed.
