(* ===== verification/Kalloc.v ===== *)
(** kernel/kalloc.c: the allocator of physical pages.

    The state is physical memory together with the globals of kalloc.c: the
    head of the free list (the list itself is threaded through the first word of
    each free page, [struct run]), the two page counters and the table of
    reference counts.  [PGNUM], which kalloc.c uses to index that table and
    which no file of the repository defines, and [end_], the linker's symbol
    end[], are parameters ([KernelImage]); [KernelImageOk] states what the code
    relies on.  The module ends with the abstract allocator, the relation to the
    concrete state, and the interface [PageAlloc] that virtual memory is proved
    against. *)

From S2P Require Import Prelude Mem Layout.

(** * State *)

Class KernelImage := { PGNUM : Z → Z; end_ : Z }.

Record phys := mkPhys {
  mem : gmap Z Z;
  kmem_lock : bool;          (* kmem.lock, held by the running thread *)
  freelist : Z;              (* kmem.freelist *)
  FREE_PAGES : Z;
  MAX_PAGES : Z;
  ref_count : gmap Z Z;      (* uint32 ref_count[32768], zero where unset *)
}.

Definition set_mem (m : gmap Z Z) (s : phys) : phys :=
  mkPhys m (kmem_lock s) (freelist s) (FREE_PAGES s) (MAX_PAGES s) (ref_count s).
Definition set_kmem_lock (b : bool) (s : phys) : phys :=
  mkPhys (mem s) b (freelist s) (FREE_PAGES s) (MAX_PAGES s) (ref_count s).
Definition set_freelist (p : Z) (s : phys) : phys :=
  mkPhys (mem s) (kmem_lock s) p (FREE_PAGES s) (MAX_PAGES s) (ref_count s).
Definition set_FREE_PAGES (n : Z) (s : phys) : phys :=
  mkPhys (mem s) (kmem_lock s) (freelist s) n (MAX_PAGES s) (ref_count s).
Definition set_MAX_PAGES (n : Z) (s : phys) : phys :=
  mkPhys (mem s) (kmem_lock s) (freelist s) (FREE_PAGES s) n (ref_count s).
Definition set_ref_count (r : gmap Z Z) (s : phys) : phys :=
  mkPhys (mem s) (kmem_lock s) (freelist s) (FREE_PAGES s) (MAX_PAGES s) r.

(** the state of the globals when the kernel starts *)
Definition phys_boot (m : gmap Z Z) : phys := mkPhys m false 0 0 0 ∅.

(** * Operations *)

Definition load64 (a : Z) : M phys Z := gets (λ s, ld64 (mem s) a).
Definition store64 (a v : Z) : M phys unit := modify (λ s, set_mem (st64 (mem s) a v) s).
Definition mem_set (a c n : Z) : M phys unit := modify (λ s, set_mem (memset (mem s) a c n) s).
Definition mem_move (dst src n : Z) : M phys unit := modify (λ s, set_mem (memmove (mem s) dst src n) s).

(** acquire(&kmem.lock), release(&kmem.lock): see Locks.v for spinlocks *)
Definition acquire_kmem : M phys unit :=
  let! l := gets kmem_lock in
  if l then panic "acquire" else modify (set_kmem_lock true).
Definition release_kmem : M phys unit :=
  let! l := gets kmem_lock in
  if l then modify (set_kmem_lock false) else panic "release".

Definition NREF : Z := 32768.
Definition rc (s : phys) (i : Z) : Z := default 0 (ref_count s !! i).
Definition rc_read (i : Z) : M phys Z :=
  if (0 <=? i) && (i <? NREF) then gets (λ s, rc s i) else ub "ref_count index".
Definition rc_write (i v : Z) : M phys unit :=
  if (0 <=? i) && (i <? NREF) then modify (λ s, set_ref_count (<[i := v]> (ref_count s)) s)
  else ub "ref_count index".

Section Ops.
Context `{KernelImage}.

Definition kfree (pa : Z) : M phys unit :=
  let! s := get in
  do! when (negb (MAX_PAGES s =? 0)) (c_assert (FREE_PAGES s <? MAX_PAGES s)) in
  if negb (pa mod PGSIZE =? 0) || (pa <? end_) || (PHYSTOP <=? pa) then panic "kfree" else
  do! mem_set pa 1 PGSIZE in
  let! c := rc_read (PGNUM pa) in
  do! rc_write (PGNUM pa) (u32 (c - 1)) in
  let! c' := rc_read (PGNUM pa) in
  when (c' =? 0) (
    do! acquire_kmem in
    let! fl := gets freelist in
    do! store64 pa fl in
    do! modify (set_freelist pa) in
    do! modify (λ s, set_FREE_PAGES (u64 (FREE_PAGES s + 1)) s) in
    release_kmem).

Definition kalloc : M phys Z :=
  let! s := get in
  do! c_assert (0 <? FREE_PAGES s) in
  do! acquire_kmem in
  let! r := gets freelist in
  do! when (c_true r) (
    let! c := rc_read (PGNUM r) in
    rc_write (PGNUM r) (u32 (c + 1))) in
  do! when (c_true r) (let! n := load64 r in modify (set_freelist n)) in
  do! release_kmem in
  do! when (c_true r) (mem_set r 5 PGSIZE) in
  do! modify (λ s, set_FREE_PAGES (u64 (FREE_PAGES s - 1)) s) in
  ret r.

Definition freerange (pa_start pa_end : Z) : M phys unit :=
  loop (λ p, if p + PGSIZE <=? pa_end then do! kfree p in ret (inl (p + PGSIZE)) else ret (inr tt))
    (PGROUNDUP pa_start).

Definition kinit : M phys unit :=
  do! modify (set_kmem_lock false) in                     (* initlock(&kmem.lock, "kmem") *)
  do! freerange end_ PHYSTOP in
  do! modify (λ s, set_MAX_PAGES (FREE_PAGES s) s) in
  loop (λ i, let! s := get in
             if i <? MAX_PAGES s then do! rc_write i 0 in ret (inl (i + 1)) else ret (inr tt)) 0.

End Ops.

(** * The abstract allocator *)

(** The free pages in the order they will be handed out, and the allocated
    pages with the number of references to each. *)
Record alloc_st := mkAlloc { free : list Z; refs : gmap Z Z }.

Definition spec_alloc (A : alloc_st) : option (Z * alloc_st) :=
  match free A with
  | [] => None
  | x :: fl => Some (x, mkAlloc fl (<[x := 1]> (refs A)))
  end.

Definition spec_free (p : Z) (A : alloc_st) : option alloc_st :=
  match refs A !! p with
  | None => None
  | Some c => Some (if c =? 1 then mkAlloc (p :: free A) (delete p (refs A))
                    else mkAlloc (free A) (<[p := c - 1]> (refs A)))
  end.

(** A page of RAM, and its bytes. *)
Definition phys_page (p : Z) : Prop := aligned p ∧ KERNBASE ≤ p < PHYSTOP.
Definition in_page (p a : Z) : Prop := p ≤ a < p + PGSIZE.
Definition same_outside (p : Z) (m m' : gmap Z Z) : Prop := ∀ a, ¬ in_page p a → ld8 m' a = ld8 m a.

(** The free list as memory holds it. *)
Fixpoint run_list (m : gmap Z Z) (p : Z) (fl : list Z) : Prop :=
  match fl with
  | [] => p = 0
  | x :: fl' => p = x ∧ run_list m (ld64 m x) fl'
  end.

(** What virtual memory may assume of the page allocator. *)
Class PageAlloc := {
  pg_alloc : M phys Z;
  pg_free : Z → M phys unit;
  pg_rep : alloc_st → phys → Prop;
  pg_free_page A s x : pg_rep A s → x ∈ free A → phys_page x;
  pg_refs_page A s x : pg_rep A s → is_Some (refs A !! x) → phys_page x ∧ x ∉ free A;
  pg_nodup A s : pg_rep A s → NoDup (free A);
  pg_rep_mem A s m :
    pg_rep A s → (∀ x a, x ∈ free A → in_page x a → ld8 m a = ld8 (mem s) a) →
    pg_rep A (set_mem m s);
  pg_alloc_ok A A' s x :
    pg_rep A s → spec_alloc A = Some (x, A') →
    wp pg_alloc (λ r s', r = x ∧ pg_rep A' s' ∧ same_outside x (mem s) (mem s')) nopanic s;
  pg_alloc_oom A s :
    pg_rep A s → spec_alloc A = None →
    wp pg_alloc (λ _ _, False) (λ msg _, msg = "assert failed") s;
  pg_free_ok A A' s p :
    pg_rep A s → spec_free p A = Some A' →
    wp (pg_free p) (λ _ s', pg_rep A' s' ∧ same_outside p (mem s) (mem s')) nopanic s;
}.

(** * The concrete allocator meets the interface *)

Class KernelImageOk `{KernelImage} : Prop := {
  end_range : KERNBASE ≤ end_ ≤ PHYSTOP;
  PGNUM_range p : aligned p → end_ ≤ p < PHYSTOP → 0 ≤ PGNUM p < NREF;
  PGNUM_inj p q : aligned p → end_ ≤ p < PHYSTOP → aligned q → end_ ≤ q < PHYSTOP →
    PGNUM p = PGNUM q → p = q;
}.

(** The rules of the logic with the memory accesses of this file. *)
Ltac wp_mem1 :=
  lazymatch goal with
  | |- wp (load64 _) _ _ _ => unfold load64
  | |- wp (store64 _ _) _ _ _ => unfold store64
  | |- wp (mem_set _ _ _) _ _ _ => unfold mem_set
  | |- wp (mem_move _ _ _) _ _ _ => unfold mem_move
  | _ => wp_step
  end; cbn beta iota zeta.
Ltac wp_mem := repeat wp_mem1.

Section Proofs.
Context `{KI : KernelImage, KIok : !KernelImageOk}.

Definition kpage (p : Z) : Prop := aligned p ∧ end_ ≤ p < PHYSTOP.

Record alloc_rep (A : alloc_st) (s : phys) : Prop := {
  ar_lock : kmem_lock s = false;
  ar_list : run_list (mem s) (freelist s) (free A);
  ar_nodup : NoDup (free A);
  ar_free : ∀ x, x ∈ free A → kpage x ∧ rc s (PGNUM x) = 0;
  ar_count : FREE_PAGES s = Z.of_nat (length (free A));
  ar_refs : ∀ p c, refs A !! p = Some c → kpage p ∧ (p ∉ free A) ∧ 1 ≤ c < 2 ^ 32 ∧ rc s (PGNUM p) = c;
  ar_max : MAX_PAGES s = 0 ∨ Z.of_nat (length (free A) + size (refs A)) ≤ MAX_PAGES s;
}.

Lemma kpage_phys p : kpage p → phys_page p.
Proof. intros [Ha Hr]. pose proof end_range. split; [done|lia]. Qed.

Lemma kpage_bounds p : kpage p → 0 < p < 2 ^ 32 ∧ p + PGSIZE ≤ PHYSTOP.
Proof.
  intros [Ha Hr]. pose proof end_range. unfold aligned in Ha. consts.
  Z.div_mod_to_equations. lia.
Qed.

Lemma pages_apart p q a : aligned p → aligned q → p ≠ q → in_page p a → ¬ in_page q a.
Proof. unfold aligned, in_page. consts. intros. Z.div_mod_to_equations. lia. Qed.

Lemma run_list_ext m m' p fl :
  (∀ x, x ∈ fl → ld64 m' x = ld64 m x) → run_list m p fl → run_list m' p fl.
Proof.
  revert p. induction fl as [|x fl IH]; intros p H; simpl; [done|].
  intros [-> Hr]. split; [done|]. rewrite H by set_solver. apply IH; [|done]. set_solver.
Qed.

Lemma page_ld64 m m' x : (∀ a, in_page x a → ld8 m' a = ld8 m a) → ld64 m' x = ld64 m x.
Proof. intros H. apply ld64_ext. intros i Hi. apply H. unfold in_page. consts. lia. Qed.

Lemma alloc_rep_mem A s m :
  alloc_rep A s → (∀ x a, x ∈ free A → in_page x a → ld8 m a = ld8 (mem s) a) →
  alloc_rep A (set_mem m s).
Proof.
  intros [] Hm. constructor; try done. simpl.
  eapply run_list_ext; [|done]. intros x Hx. apply page_ld64. eauto.
Qed.

Lemma kfree_guard p :
  kpage p → (negb (p mod PGSIZE =? 0) || (p <? end_) || (PHYSTOP <=? p)) = false.
Proof. intros [Ha Hr]. unfold aligned in Ha. lia. Qed.

Lemma rc_index p : kpage p → ((0 <=? PGNUM p) && (PGNUM p <? NREF)) = true.
Proof. intros [Ha Hr]. pose proof (PGNUM_range p Ha Hr). lia. Qed.

Lemma rc_insert i j v s : rc (set_ref_count (<[i := v]> (ref_count s)) s) j = if i =? j then v else rc s j.
Proof.
  unfold rc. simpl. destruct (Z.eqb_spec i j) as [->|]; [by rewrite lookup_insert_eq|].
  by rewrite lookup_insert_ne.
Qed.

Lemma wp_acquire_kmem (Q : unit → phys → Prop) E s :
  kmem_lock s = false → Q tt (set_kmem_lock true s) → wp acquire_kmem Q E s.
Proof. unfold wp, acquire_kmem, mbnd. simpl. by intros ->. Qed.

Lemma wp_release_kmem (Q : unit → phys → Prop) E s :
  kmem_lock s = true → Q tt (set_kmem_lock false s) → wp release_kmem Q E s.
Proof. unfold wp, release_kmem, mbnd. simpl. by intros ->. Qed.

Lemma wp_rc_read p (Q : Z → phys → Prop) E s :
  kpage p → Q (rc s (PGNUM p)) s → wp (rc_read (PGNUM p)) Q E s.
Proof. intros Hp HQ. unfold rc_read. rewrite rc_index by done. done. Qed.

Lemma wp_rc_write p v (Q : unit → phys → Prop) E s :
  kpage p → Q tt (set_ref_count (<[PGNUM p := v]> (ref_count s)) s) → wp (rc_write (PGNUM p) v) Q E s.
Proof. intros Hp HQ. unfold rc_write. rewrite rc_index by done. done. Qed.

Ltac wp_kmem1 :=
  lazymatch goal with
  | |- wp acquire_kmem _ _ _ => apply wp_acquire_kmem; [done|]
  | |- wp release_kmem _ _ _ => apply wp_release_kmem; [done|]
  | |- wp (rc_read _) _ _ _ => apply wp_rc_read; [done|]
  | |- wp (rc_write _ _) _ _ _ => apply wp_rc_write; [done|]
  | _ => wp_mem1
  end; cbn beta iota zeta.
Ltac wp_kmem := repeat wp_kmem1.

Lemma same_outside_memset p c m : same_outside p m (memset m p c PGSIZE).
Proof.
  intros a Ha. rewrite ld8_memset. unfold in_page in Ha.
  bool_false ((p <=? a) && (a <? p + PGSIZE)). done.
Qed.

Lemma same_outside_trans p m1 m2 m3 :
  same_outside p m1 m2 → same_outside p m2 m3 → same_outside p m1 m3.
Proof. intros H1 H2 a Ha. by rewrite H2, H1. Qed.

Lemma same_outside_st64 p m v : same_outside p m (st64 m p v).
Proof. intros a Ha. apply ld8_st64. unfold in_page in Ha. consts. lia. Qed.

Lemma run_list_outside p m m' q fl :
  aligned p → (∀ x, x ∈ fl → aligned x ∧ x ≠ p) → same_outside p m m' →
  run_list m q fl → run_list m' q fl.
Proof.
  intros Hp Hfl Hm. apply run_list_ext. intros x Hx. destruct (Hfl x Hx) as [Hax Hne].
  apply page_ld64. intros a Ha. apply Hm. eapply pages_apart; [exact Hax|done..].
Qed.

Lemma PGNUM_ne p q : kpage p → kpage q → p ≠ q → (PGNUM p =? PGNUM q) = false.
Proof.
  intros [Hp Hp'] [Hq Hq'] Hne. apply Z.eqb_neq. intros E. by apply Hne, PGNUM_inj.
Qed.

Lemma rc_other p x v r : kpage p → kpage x → p ≠ x →
  default 0 (<[PGNUM p := v]> r !! PGNUM x) = default 0 ((r : gmap Z Z) !! PGNUM x).
Proof. intros. rewrite lookup_insert_ne; [done|]. by apply Z.eqb_neq, PGNUM_ne. Qed.

Lemma run_list_head m p fl : (∀ x, x ∈ fl → kpage x) → run_list m p fl → 0 ≤ p < 2 ^ 64.
Proof.
  destruct fl as [|x fl]; simpl; [lia|]. intros Hk [-> _].
  pose proof (kpage_bounds x (Hk x ltac:(set_solver))). lia.
Qed.

Lemma kpages_length fl : NoDup fl → (∀ x, x ∈ fl → kpage x) → Z.of_nat (length fl) ≤ NREF.
Proof.
  intros Hnd Hk. assert (fl ⊆+ ((λ i, KERNBASE + PGSIZE * i) <$> seqZ 0 NREF)) as Hsub.
  { apply NoDup_submseteq; [done|]. intros x Hx. destruct (kpage_phys x (Hk x Hx)) as [Ha Hr].
    apply list_elem_of_fmap. exists ((x - KERNBASE) / PGSIZE). rewrite elem_of_seqZ.
    unfold aligned, NREF in *. consts. Z.div_mod_to_equations. lia. }
  apply submseteq_length in Hsub. rewrite length_fmap, length_seqZ in Hsub. unfold NREF in *. lia.
Qed.

(** kalloc() hands out the head of the free list with one reference, filled
    with 5s; memory outside the page is untouched. *)
Lemma kalloc_ok A A' s x :
  alloc_rep A s → spec_alloc A = Some (x, A') →
  wp kalloc (λ r s', r = x ∧ alloc_rep A' s' ∧ same_outside x (mem s) (mem s') ∧
                     ∀ a, in_page x a → ld8 (mem s') a = 5) nopanic s.
Proof.
  intros HR HA. destruct A as [[|y fl] rf]; simplify_eq/=. destruct HR as [Hl Hrun Hnd Hfree Hcnt Hrefs Hmax].
  simpl in *. destruct Hrun as [Hhead Hrun]. apply NoDup_cons in Hnd as [Hx Hnd].
  destruct (Hfree y ltac:(set_solver)) as [Hky Hrc]. pose proof (kpage_bounds y Hky).
  pose proof (kpages_length (y :: fl) ltac:(by constructor) (λ x Hx, proj1 (Hfree x Hx))) as Hlen. simpl in Hlen.
  unfold kalloc. wp_kmem. cbn [freelist set_kmem_lock]. rewrite Hhead. wp_kmem.
  unfold spec_alloc in HA. injection HA as <- <-. simpl. split; [done|]. split; [|split].
  - constructor; simpl; try done.
    + eapply run_list_outside; [apply Hky| |apply same_outside_memset|exact Hrun].
      intros z Hz. split; [apply Hfree; set_solver|set_solver].
    + intros z Hz. destruct (Hfree z ltac:(set_solver)) as [Hkz Hrz]. split; [done|].
      unfold rc in *. simpl. rewrite rc_other by (done || set_solver). done.
    + rewrite Hcnt, u64_small; unfold NREF in *; lia.
    + intros p c. rewrite lookup_insert. case_decide as E.
      * subst p. intros [= <-]. split; [done|]. split; [done|]. split; [lia|].
        unfold rc in *. simpl. by rewrite lookup_insert_eq, Hrc.
      * intros Hp. destruct (Hrefs p c Hp) as (Hkp & Hnp & Hc & Hrp). split; [done|].
        split; [set_solver|]. split; [done|]. unfold rc in *. simpl. by rewrite rc_other by done.
    + rewrite map_size_insert_None; [lia|]. apply eq_None_not_Some. intros [c Hc].
      destruct (Hrefs y c Hc) as (_ & Hnot & _). set_solver.
  - apply same_outside_memset.
  - intros a Ha. rewrite ld8_memset. unfold in_page in Ha.
    bool_true ((y <=? a) && (a <? y + PGSIZE)). done.
Qed.

(** With no free page kalloc() stops the kernel in its own assertion: the
    0 its comment promises is never returned. *)
Lemma kalloc_oom A s :
  alloc_rep A s → spec_alloc A = None →
  wp kalloc (λ _ _, False) (λ msg _, msg = "assert failed") s.
Proof.
  intros HR HA. destruct A as [[|y fl] rf]; [|done]. destruct HR as [_ _ _ _ Hcnt _ _]. simpl in Hcnt.
  unfold kalloc. wp_kmem; [lia|done].
Qed.

(** kfree() drops one reference, junks the page whatever the count, and puts
    the page on the free list when the last reference goes. *)
Lemma kfree_ok A A' s p :
  alloc_rep A s → spec_free p A = Some A' →
  wp (kfree p) (λ _ s', alloc_rep A' s' ∧ same_outside p (mem s) (mem s') ∧
                        ∀ a, in_page p a → p + 8 ≤ a → ld8 (mem s') a = 1) nopanic s.
Proof.
  intros HR HA. unfold spec_free in HA. destruct (refs A !! p) as [c|] eqn:Hpc; [|done].
  simplify_eq/=. destruct HR as [Hl Hrun Hnd Hfree Hcnt Hrefs Hmax].
  destruct (Hrefs p c Hpc) as (Hkp & Hnp & Hc & Hrp).
  pose proof (kpages_length (free A) Hnd (λ x Hx, proj1 (Hfree x Hx))) as Hlen. unfold NREF in Hlen.
  assert (size (refs A) ≠ 0%nat) as Hsz.
  { intros E. apply map_size_empty_iff in E. by rewrite E in Hpc. }
  unfold kfree. wp_kmem. apply (wp_post _ (λ _ s', s' = s)).
  { apply wp_when; intros Hm; [|done]. wp_kmem. done. }
  intros [] s' ->. rewrite kfree_guard by done. wp_kmem.
  rewrite rc_insert, Z.eqb_refl. change (rc (set_mem _ s) (PGNUM p)) with (rc s (PGNUM p)).
  rewrite Hrp, u32_small by lia. destruct (Z.eqb_spec c 1) as [->|Hc1].
  - assert (∀ x, x ∈ free A → aligned x ∧ x ≠ p) as Hother.
    { intros x Hx. destruct (Hfree x Hx) as [Hkx _]. split; [apply Hkx|]. by intros ->. }
    wp_kmem. split; [|split].
    + constructor; simpl; try done.
      * split; [done|].
        rewrite ld64_st64 by (eapply run_list_head; [|exact Hrun]; intros x Hx; apply (Hfree x Hx)).
        eapply run_list_outside; [apply Hkp|done|apply same_outside_st64|].
        eapply run_list_outside; [apply Hkp|done|apply same_outside_memset|done].
      * by constructor.
      * intros x [->|Hx]%elem_of_cons; unfold rc in *; simpl.
        { by rewrite lookup_insert_eq. }
        destruct (Hfree x Hx) as [Hkx Hrx]. rewrite rc_other by (done || set_solver). done.
      * rewrite Hcnt, u64_small; lia.
      * intros q c [Hne Hq]%lookup_delete_Some. destruct (Hrefs q c Hq) as (Hkq & Hnq & Hc' & Hrq).
        split; [done|]. split; [set_solver|]. split; [done|].
        unfold rc in *; simpl. by rewrite rc_other.
      * rewrite map_size_delete_Some by eauto. lia.
    + simpl. eapply same_outside_trans; [apply same_outside_memset|apply same_outside_st64].
    + simpl. intros a Ha Ha8. rewrite ld8_st64, ld8_memset by lia. unfold in_page in Ha.
      bool_true ((p <=? a) && (a <? p + PGSIZE)). done.
  - wp_kmem. split; [|split].
    + constructor; simpl; try done.
      * eapply run_list_outside; [apply Hkp| |apply same_outside_memset|done].
        intros x Hx. destruct (Hfree x Hx) as [Hkx _]. split; [apply Hkx|]. by intros ->.
      * intros x Hx. destruct (Hfree x Hx) as [Hkx Hrx]. split; [done|].
        unfold rc in *; simpl. rewrite rc_other by (done || set_solver). done.
      * intros q c'. rewrite lookup_insert. case_decide as Eq.
        { subst q. intros [= <-]. split; [done|]. split; [done|]. split; [lia|].
          unfold rc; simpl. by rewrite lookup_insert_eq. }
        intros Hq. destruct (Hrefs q c' Hq) as (Hkq & Hnq & Hc' & Hrq).
        split; [done|]. split; [done|]. split; [done|]. unfold rc in *; simpl. by rewrite rc_other.
      * rewrite map_size_insert_Some by eauto. lia.
    + apply same_outside_memset.
    + simpl. intros a Ha _. rewrite ld8_memset. unfold in_page in Ha.
      bool_true ((p <=? a) && (a <? p + PGSIZE)). done.
Qed.

#[export] Instance kalloc_PageAlloc : PageAlloc.
Proof.
  refine {| pg_alloc := kalloc; pg_free := kfree; pg_rep := alloc_rep |}.
  - intros A s x HR Hx. by apply kpage_phys, (ar_free _ _ HR).
  - intros A s x HR [c Hc]. destruct (ar_refs _ _ HR x c Hc) as (Hk & Hn & _).
    split; [by apply kpage_phys|done].
  - intros A s HR. apply HR.
  - apply alloc_rep_mem.
  - intros A A' s x HR HA. eapply wp_post; [by apply (kalloc_ok A A')|]. naive_solver.
  - apply kalloc_oom.
  - intros A A' s p HR HA. eapply wp_post; [by apply (kfree_ok A A')|]. naive_solver.
Defined.

(** * Histories of calls *)

(** A history of calls of the two entry points, run by the code and by the
    abstract allocator. *)
Inductive alloc_op := OpAlloc | OpFree (p : Z).

Fixpoint run_ops (ops : list alloc_op) : M phys (list Z) :=
  match ops with
  | [] => ret []
  | OpAlloc :: ops' => let! p := kalloc in let! ps := run_ops ops' in ret (p :: ps)
  | OpFree p :: ops' => do! kfree p in run_ops ops'
  end.

Fixpoint spec_ops (ops : list alloc_op) (A : alloc_st) : option (list Z * alloc_st) :=
  match ops with
  | [] => Some ([], A)
  | OpAlloc :: ops' =>
      '(p, A1) ← spec_alloc A; '(ps, A2) ← spec_ops ops' A1; Some (p :: ps, A2)
  | OpFree p :: ops' => A1 ← spec_free p A; spec_ops ops' A1
  end.

(** * kinit *)

Lemma aligned_add p : aligned p → aligned (p + PGSIZE).
Proof. unfold aligned. consts. intros. Z.div_mod_to_equations. lia. Qed.

Lemma kfree_boot p s :
  kpage p → MAX_PAGES s = 0 → rc s (PGNUM p) = 0 →
  kfree p s = Ret tt (set_ref_count (<[PGNUM p := 2 ^ 32 - 1]> (ref_count s))
                        (set_mem (memset (mem s) p 1 PGSIZE) s)).
Proof.
  intros Hp Hm Hrc. unfold kfree, mbnd, get. cbn [obind]. rewrite Hm. cbn [Z.eqb negb when ret obind].
  rewrite kfree_guard by done. unfold mem_set, modify, rc_read, rc_write. cbn [obind].
  rewrite !rc_index by done. unfold gets, modify. cbn [obind].
  rewrite rc_insert, Z.eqb_refl. change (rc (set_mem _ s) (PGNUM p)) with (rc s (PGNUM p)).
  rewrite Hrc. done.
Qed.

Record boot_inv (p : Z) (s : phys) : Prop := {
  bi_aligned : aligned p;
  bi_range : PGROUNDUP end_ ≤ p ≤ PHYSTOP;
  bi_lock : kmem_lock s = false;
  bi_list : freelist s = 0;
  bi_free : FREE_PAGES s = 0;
  bi_max : MAX_PAGES s = 0;
  bi_done : ∀ q, kpage q → q < p → rc s (PGNUM q) = 2 ^ 32 - 1;
  bi_todo : ∀ q, kpage q → p ≤ q → rc s (PGNUM q) = 0;
}.

Lemma freerange_boot s p :
  boot_inv p s → PGROUNDUP end_ = p → wp (freerange end_ PHYSTOP) (λ _ s', boot_inv PHYSTOP s') nopanic s.
Proof.
  intros HI Hp. unfold freerange. rewrite Hp.
  destruct (PGROUNDUP_spec end_) as [_ Hup]; [pose proof end_range; consts; lia..|].
  apply (wp_loop _ boot_inv (λ p _, PHYSTOP - p)); [|done|destruct HI; pose proof end_range; consts; lia].
  clear s p Hp HI. intros p s HI. destruct HI.
  assert (p ≤ PHYSTOP - PGSIZE ∨ p = PHYSTOP) as [Hlt| ->].
  { clear -bi_range0 bi_aligned0. unfold aligned in *. consts. Z.div_mod_to_equations. lia. }
  - assert (kpage p) as Hk by (split; [done|consts; lia]).
    wp_step. wp_step. eapply wp_eq; [by apply kfree_boot; auto with lia|].
    wp_go. split; [|consts; lia]. constructor; simpl; try done.
    + by apply aligned_add.
    + consts; lia.
    + intros q Hq Hlt'. unfold rc; simpl. destruct (decide (q = p)) as [->|Hne].
      * by rewrite lookup_insert_eq.
      * rewrite rc_other by done. apply bi_done0; [done|].
        destruct Hq as [Hq _]. clear -Hq Hne Hlt' bi_aligned0. unfold aligned in *. consts. Z.div_mod_to_equations. lia.
    + intros q Hq Hle. unfold rc; simpl. rewrite rc_other by (done || (consts; lia)).
      apply bi_todo0; [done|]. consts; lia.
  - wp_go. by constructor.
Qed.

Lemma kinit_boot m :
  wp kinit (λ _ s', boot_inv PHYSTOP s') nopanic (phys_boot m).
Proof.
  unfold kinit. wp_step. wp_step. wp_step.
  destruct (PGROUNDUP_spec end_) as [Ha Hup]; [pose proof end_range; consts; lia..|].
  eapply wp_post; [eapply freerange_boot; [|done]|].
  - constructor; try done.
    + pose proof end_range. consts. clear -Ha Hup H. unfold aligned in *. consts. Z.div_mod_to_equations. lia.
    + intros q [Hq Hr] Hlt. exfalso. clear -Hq Hr Hlt Ha Hup. unfold aligned in *. consts. Z.div_mod_to_equations. lia.
  - intros [] s HI. wp_go. rewrite (bi_free _ _ HI).
    apply (wp_loop _ (λ i s, i = 0 ∧ boot_inv PHYSTOP s) (λ _ _, 0)); [|split; [done|]|done].
    + intros i s' [-> HI']. wp_step. wp_step. rewrite (bi_max _ _ HI'). wp_go. done.
    + destruct HI; constructor; done.
Qed.

Lemma run_ops_ok ops A A' s ps :
  alloc_rep A s → spec_ops ops A = Some (ps, A') →
  wp (run_ops ops) (λ r s', r = ps ∧ alloc_rep A' s') nopanic s.
Proof.
  revert A s ps. induction ops as [|[|p] ops IH]; intros A s ps HR Hs; simpl in *.
  - simplify_eq. by apply wp_ret.
  - destruct (spec_alloc A) as [[p A1]|] eqn:HA; simplify_eq/=.
    destruct (spec_ops ops A1) as [[ps' A2]|] eqn:HA2; simplify_eq/=.
    wp_step. eapply wp_post; [by apply (kalloc_ok A A1)|]. intros r s1 (-> & HR1 & _).
    wp_step. eapply wp_post; [by apply (IH A1)|]. intros r s2 (-> & HR2). by wp_go.
  - destruct (spec_free p A) as [A1|] eqn:HA; simplify_eq/=.
    wp_step. eapply wp_post; [by apply (kfree_ok A A1)|]. intros [] s1 (HR1 & _). by apply (IH A1).
Qed.

(** * Properties *)

(** C2: the code implements the abstract allocator.  Started in a state that
    represents [A], every history of kalloc()/kfree() calls that the abstract
    allocator accepts runs to the end without panicking, returns the pages the
    abstract allocator hands out, and ends in a state that represents its
    result: the free list threaded through memory, the page counter and the
    reference counts all agree with it. *)
Theorem alloc_trace_refines ops A A' s ps :
  alloc_rep A s → spec_ops ops A = Some (ps, A') →
  ∃ s', run_ops ops s = Ret ps s' ∧ alloc_rep A' s'.
Proof.
  intros HR Hs. destruct (proj1 (wp_returns _ _ _) (run_ops_ok ops A A' s ps HR Hs)) as (r & s' & E & -> & HR').
  eauto.
Qed.

(** kalloc() never returns 0.  From any state that represents an
    allocator it either returns a page of RAM, aligned, taken from the free
    list and filled with 5s, or, when no page is free, stops the kernel in its
    own assertion; the comment's "Returns 0 if the memory cannot be allocated"
    does not happen. *)
Theorem kalloc_page_or_panic A s :
  alloc_rep A s →
  (∃ p s', kalloc s = Ret p s' ∧ p ∈ free A ∧ p ≠ 0 ∧ phys_page p ∧ ∀ a, in_page p a → ld8 (mem s') a = 5)
  ∨ (free A = [] ∧ ∃ s', kalloc s = Panic "assert failed" s').
Proof.
  intros HR. destruct (spec_alloc A) as [[x A']|] eqn:HA.
  - left. destruct (proj1 (wp_returns _ _ _) (kalloc_ok A A' s x HR HA)) as (p & s' & E & -> & _ & _ & H5).
    assert (x ∈ free A) as Hx by (unfold spec_alloc in HA; destruct (free A); simplify_eq; set_solver).
    destruct (ar_free _ _ HR x Hx) as [Hk _]. pose proof (kpage_bounds x Hk). exists x, s'.
    split; [done|]. split; [done|]. split; [lia|]. split; [by apply kpage_phys|done].
  - right. pose proof (kalloc_oom A s HR HA) as Hw. unfold wp in Hw. unfold spec_alloc in HA.
    destruct (kalloc s); try done. subst. destruct (free A); naive_solver.
Qed.

(** kinit() makes no page available.  kfree() decrements the reference
    count before it tests it, and the counts are all 0 at boot, so every count
    wraps to 2^32-1 and no page reaches the free list: after kinit() the free
    list is empty, both counters are 0, and the first kalloc() of the boot
    sequence panics. *)
Theorem kinit_frees_nothing m :
  ∃ s', kinit (phys_boot m) = Ret tt s' ∧ freelist s' = 0 ∧ FREE_PAGES s' = 0 ∧ MAX_PAGES s' = 0 ∧
        (∀ p, kpage p → rc s' (PGNUM p) = 2 ^ 32 - 1) ∧ kalloc s' = Panic "assert failed" s'.
Proof.
  destruct (proj1 (wp_returns _ _ _) (kinit_boot m)) as ([] & s' & E & HI).
  exists s'. split; [done|]. destruct HI. split; [done|]. split; [done|]. split; [done|]. split.
  - intros p Hp. apply bi_done0; [done|]. apply Hp.
  - unfold kalloc, mbnd, get. cbn [obind]. rewrite bi_free0. done.
Qed.

(** dropping one of several references destroys the page.  kfree() fills
    the page with 1s before it looks at the reference count, so the page that
    stays allocated to its other owners no longer holds their data. *)
Theorem kfree_junks_shared_page A s p c :
  alloc_rep A s → refs A !! p = Some c → 2 ≤ c →
  ∃ s', kfree p s = Ret tt s' ∧ alloc_rep (mkAlloc (free A) (<[p := c - 1]> (refs A))) s' ∧
        ∀ a, in_page p a → p + 8 ≤ a → ld8 (mem s') a = 1.
Proof.
  intros HR Hp Hc. assert (spec_free p A = Some (mkAlloc (free A) (<[p := c - 1]> (refs A)))) as HA.
  { unfold spec_free. rewrite Hp. bool_false (c =? 1). done. }
  destruct (proj1 (wp_returns _ _ _) (kfree_ok A _ s p HR HA)) as ([] & s' & E & HR' & _ & H1). eauto.
Qed.

End Proofs.

(** * Witnesses *)

Module Image0.
(** The addresses of the kernel image built in the repository (kernel.sym),
    with reference counts indexed by the page's position in RAM. *)
#[export] Instance image0 : KernelImage :=
  {| PGNUM := λ p, (p - KERNBASE) / PGSIZE; end_ := 2147622640 |}.

#[export] Instance image0_ok : KernelImageOk.
Proof.
  constructor; unfold aligned, NREF; cbn [PGNUM end_ image0]; consts; intros; Z.div_mod_to_equations; lia.
Qed.

Definition page0 : Z := 2147622912.
Definition page1 : Z := 2147627008.
(** two free pages, chained through memory, and one page with two references *)
Definition page2 : Z := 2147631104.
Definition phys0 : phys :=
  mkPhys (st64 (st64 ∅ page0 page1) page1 0) false page0 2 3 {[ PGNUM page2 := 2 ]}.
Definition alloc0 : alloc_st := mkAlloc [page0; page1] {[ page2 := 2 ]}.

Lemma alloc0_rep : alloc_rep alloc0 phys0.
Proof.
  constructor; try reflexivity.
  - repeat split; vm_compute; reflexivity.
  - repeat constructor; set_solver.
  - intros x Hx. assert (x = page0 ∨ x = page1) as [->| ->] by (unfold alloc0 in Hx; set_solver);
      (split; [split; [reflexivity|split; [done|reflexivity]]|vm_compute; reflexivity]).
  - intros p c. unfold alloc0. simpl. intros [<- <-]%lookup_singleton_Some.
    split; [split; [reflexivity|split; [done|reflexivity]]|].
    split; [unfold page2, page0, page1; set_solver by lia|]. split; [done|vm_compute; reflexivity].
  - right. done.
Qed.

Lemma alloc_trace_refines_witness :
  ∃ s', run_ops [OpAlloc; OpFree page2; OpFree page0; OpAlloc; OpAlloc] phys0 = Ret [page0; page0; page1] s' ∧
        alloc_rep (mkAlloc [] (<[page1 := 1]> (<[page0 := 1]> (delete page0 (<[page2 := 1]> (<[page0 := 1]> {[ page2 := 2 ]})))))) s'.
Proof.
  refine (alloc_trace_refines _ alloc0 _ phys0 _ alloc0_rep _). vm_compute. reflexivity.
Defined.

Lemma kalloc_page_or_panic_witness :
  (∃ p s', kalloc phys0 = Ret p s' ∧ p ∈ free alloc0 ∧ p ≠ 0 ∧ phys_page p ∧ ∀ a, in_page p a → ld8 (mem s') a = 5)
  ∨ (free alloc0 = [] ∧ ∃ s', kalloc phys0 = Panic "assert failed" s').
Proof. exact (kalloc_page_or_panic alloc0 phys0 alloc0_rep). Defined.

Lemma kinit_frees_nothing_witness :
  ∃ s', kinit (phys_boot ∅) = Ret tt s' ∧ freelist s' = 0 ∧ FREE_PAGES s' = 0 ∧ MAX_PAGES s' = 0 ∧
        (∀ p, kpage p → rc s' (PGNUM p) = 2 ^ 32 - 1) ∧ kalloc s' = Panic "assert failed" s'.
Proof. exact (kinit_frees_nothing ∅). Defined.

Lemma kfree_junks_shared_page_witness :
  ∃ s', kfree page2 phys0 = Ret tt s' ∧ alloc_rep (mkAlloc [page0; page1] (<[page2 := 2 - 1]> {[ page2 := 2 ]})) s' ∧
        ∀ a, in_page page2 a → page2 + 8 ≤ a → ld8 (mem s') a = 1.
Proof. refine (kfree_junks_shared_page alloc0 phys0 page2 2 alloc0_rep _ _); [reflexivity|lia]. Defined.
End Image0.
