(* ===== verification/Vm.v ===== *)
(** kernel/vm.c: Sv39 page tables and the copies between kernel and user space.

    Page tables are the bytes of physical memory that the hardware walks: a
    table is a page of 512 little-endian 64-bit entries.  Every routine of vm.c
    is a definition below, over the physical state of Kalloc.v and the page
    allocator's interface [PageAlloc] ([pg_alloc] is kalloc(), [pg_free] is
    kfree()).  A kernel buffer that a routine copies from or to is the list of
    its bytes.  The specifications see an address space through [pt_rep]: the
    tree of table pages rooted at a page, no page used twice, and the leaf entry
    of a virtual address ([pte_of]). *)

From S2P Require Import Prelude Mem Layout Kalloc.

Section Ops.
Context `{PageAlloc}.

(** * Walking page tables *)

(** The loop of walk() from level [level] down; the result is the address of
    the level-0 entry, or 0. *)
Fixpoint walk_from (level : nat) (pagetable va : Z) (alloc : bool) : M phys Z :=
  match level with
  | O => ret (pagetable + 8 * PX 0 va)
  | S level' =>
      let pte := pagetable + 8 * PX (Z.of_nat level) va in
      let! v := load64 pte in
      if c_true (Z.land v PTE_V) then walk_from level' (PTE2PA v) va alloc
      else if negb alloc then ret 0
      else
        let! pg := pg_alloc in
        if pg =? 0 then ret 0
        else
          do! mem_set pg 0 PGSIZE in
          do! store64 pte (Z.lor (PA2PTE pg) PTE_V) in
          walk_from level' pg va alloc
  end.

Definition walk (pagetable va : Z) (alloc : bool) : M phys Z :=
  if MAXVA <=? va then panic "walk" else walk_from 2 pagetable va alloc.

Definition walkaddr (pagetable va : Z) : M phys Z :=
  if MAXVA <=? va then ret 0 else
  let! pte := walk pagetable va false in
  if pte =? 0 then ret 0 else
  let! v := load64 pte in
  if negb (c_true (Z.land v PTE_V)) then ret 0 else
  if negb (c_true (Z.land v PTE_U)) then ret 0 else
  ret (PTE2PA v).

(** * Mapping and unmapping *)

Definition mappages (pagetable va size pa perm : Z) : M phys Z :=
  if size =? 0 then panic "mappages: size" else
  let last := PGROUNDDOWN (u64 (va + size - 1)) in
  loop (λ '(a, pa),
    let! pte := walk pagetable a true in
    if pte =? 0 then ret (inr (-1)) else
    let! v := load64 pte in
    if c_true (Z.land v PTE_V) then panic "mappages: remap" else
    do! store64 pte (Z.lor (Z.lor (PA2PTE pa) perm) PTE_V) in
    if a =? last then ret (inr 0)
    else ret (inl (u64 (a + PGSIZE), u64 (pa + PGSIZE)))) (PGROUNDDOWN va, pa).

Definition kvmmap (kpgtbl va pa sz perm : Z) : M phys unit :=
  let! r := mappages kpgtbl va sz pa perm in
  when (negb (r =? 0)) (panic "kvmmap").

Definition uvmunmap (pagetable va npages : Z) (do_free : bool) : M phys unit :=
  if negb (va mod PGSIZE =? 0) then panic "uvmunmap: not aligned" else
  loop (λ a,
    if a <? u64 (va + npages * PGSIZE) then
      let! pte := walk pagetable a false in
      if pte =? 0 then panic "uvmunmap: walk" else
      let! v := load64 pte in
      if negb (c_true (Z.land v PTE_V)) then panic "uvmunmap: not mapped" else
      if PTE_FLAGS v =? PTE_V then panic "uvmunmap: not a leaf" else
      do! when do_free (pg_free (PTE2PA v)) in
      do! store64 pte 0 in
      ret (inl (u64 (a + PGSIZE)))
    else ret (inr tt)) va.

Definition uvmcreate : M phys Z :=
  let! pagetable := pg_alloc in
  if pagetable =? 0 then ret 0 else
  do! mem_set pagetable 0 PGSIZE in
  ret pagetable.

(** [src] is the kernel's initcode[] array. *)
Definition uvmfirst (pagetable : Z) (src : list Z) (sz : Z) : M phys unit :=
  if PGSIZE <=? sz then panic "uvmfirst: more than a page" else
  let! pg := pg_alloc in
  do! mem_set pg 0 PGSIZE in
  let! _ := mappages pagetable 0 PGSIZE pg (Z.lor (Z.lor (Z.lor PTE_W PTE_R) PTE_X) PTE_U) in
  modify (λ s, set_mem (st_bytes (mem s) pg (take (Z.to_nat sz) src)) s).

Definition uvmdealloc (pagetable oldsz newsz : Z) : M phys Z :=
  if oldsz <=? newsz then ret oldsz else
  do! when (PGROUNDUP newsz <? PGROUNDUP oldsz) (
    let npages := s32 ((PGROUNDUP oldsz - PGROUNDUP newsz) / PGSIZE) in
    uvmunmap pagetable (PGROUNDUP newsz) (u64 npages) true) in
  ret newsz.

Definition uvmalloc (pagetable oldsz newsz xperm : Z) : M phys Z :=
  if newsz <? oldsz then ret oldsz else
  let oldsz := PGROUNDUP oldsz in
  loop (λ a,
    if a <? newsz then
      let! pg := pg_alloc in
      if pg =? 0 then
        let! _ := uvmdealloc pagetable a oldsz in ret (inr 0)
      else
        do! mem_set pg 0 PGSIZE in
        let! r := mappages pagetable a PGSIZE pg (Z.lor (Z.lor PTE_R PTE_U) xperm) in
        if negb (r =? 0) then
          do! pg_free pg in
          let! _ := uvmdealloc pagetable a oldsz in ret (inr 0)
        else ret (inl (u64 (a + PGSIZE)))
    else ret (inr newsz)) oldsz.

(** freewalk() recurses one level per table; a table tree has three. *)
Fixpoint freewalk_fuel (fuel : nat) (pagetable : Z) : M phys unit :=
  match fuel with
  | O => nofuel
  | S fuel' =>
      do! for_each (seqZ 0 512) (λ i,
        let! pte := load64 (pagetable + 8 * i) in
        if c_true (Z.land pte PTE_V) && (Z.land pte (Z.lor (Z.lor PTE_R PTE_W) PTE_X) =? 0) then
          do! freewalk_fuel fuel' (PTE2PA pte) in
          store64 (pagetable + 8 * i) 0
        else when (c_true (Z.land pte PTE_V)) (panic "freewalk: leaf")) in
      pg_free pagetable
  end.
Definition freewalk (pagetable : Z) : M phys unit := freewalk_fuel 4 pagetable.

Definition uvmfree (pagetable sz : Z) : M phys unit :=
  do! when (0 <? sz) (uvmunmap pagetable 0 (PGROUNDUP sz / PGSIZE) true) in
  freewalk pagetable.

Definition uvmcopy (old new sz : Z) : M phys Z :=
  loop (λ i,
    if i <? sz then
      let! pte := walk old i false in
      if pte =? 0 then panic "uvmcopy: pte should exist" else
      let! v := load64 pte in
      if negb (c_true (Z.land v PTE_V)) then panic "uvmcopy: page not present" else
      let pa := PTE2PA v in
      let flags := PTE_FLAGS v in
      let! pg := pg_alloc in
      if pg =? 0 then
        do! uvmunmap new 0 (i / PGSIZE) true in ret (inr (-1))
      else
        do! mem_move pg pa PGSIZE in
        let! r := mappages new i PGSIZE pg flags in
        if negb (r =? 0) then
          do! pg_free pg in
          do! uvmunmap new 0 (i / PGSIZE) true in ret (inr (-1))
        else ret (inl (u64 (i + PGSIZE)))
    else ret (inr 0)) 0.

Definition uvmclear (pagetable va : Z) : M phys unit :=
  let! pte := walk pagetable va false in
  if pte =? 0 then panic "uvmclear" else
  let! v := load64 pte in
  store64 pte (Z.land v (Z.lnot PTE_U)).

(** * Copies between kernel buffers and user memory *)

(** the number of bytes to copy at [va]: to the end of its page, [len] at most *)
Definition chunk (va len : Z) : Z :=
  let n := PGSIZE - (va - PGROUNDDOWN va) in if len <? n then len else n.

Definition copyout (pagetable dstva : Z) (src : list Z) (len : Z) : M phys Z :=
  loop (λ '(dstva, src, len),
    if 0 <? len then
      let va0 := PGROUNDDOWN dstva in
      let! pa0 := walkaddr pagetable va0 in
      if pa0 =? 0 then ret (inr (-1)) else
      let n := chunk dstva len in
      do! modify (λ s, set_mem (st_bytes (mem s) (pa0 + (dstva - va0)) (take (Z.to_nat n) src)) s) in
      ret (inl (u64 (va0 + PGSIZE), drop (Z.to_nat n) src, len - n))
    else ret (inr 0)) (dstva, src, len).

(** The second component is what was written to the kernel buffer. *)
Definition copyin (pagetable srcva len : Z) : M phys (Z * list Z) :=
  loop (λ '(dst, srcva, len),
    if 0 <? len then
      let va0 := PGROUNDDOWN srcva in
      let! pa0 := walkaddr pagetable va0 in
      if pa0 =? 0 then ret (inr (-1, dst)) else
      let n := chunk srcva len in
      let! bs := gets (λ s, ld_bytes (mem s) (pa0 + (srcva - va0)) n) in
      ret (inl (dst ++ bs, u64 (va0 + PGSIZE), len - n))
    else ret (inr (0, dst))) ([], srcva, len).

(** The inner loop of copyinstr(): at most [k] bytes from [p], up to a NUL;
    what is left of [max] comes back with what was written. *)
Fixpoint copystr (k : nat) (m : gmap Z Z) (p : Z) (dst : list Z) (max : Z) : bool * list Z * Z :=
  match k with
  | O => (false, dst, max)
  | S k' =>
      if ld8 m p =? 0 then (true, dst ++ [0], max)
      else copystr k' m (p + 1) (dst ++ [ld8 m p]) (max - 1)
  end.

Definition copyinstr (pagetable srcva max : Z) : M phys (Z * list Z) :=
  loop (λ '(dst, srcva, max, got_null),
    if negb got_null && (0 <? max) then
      let va0 := PGROUNDDOWN srcva in
      let! pa0 := walkaddr pagetable va0 in
      if pa0 =? 0 then ret (inr (-1, dst)) else
      let! m := gets mem in
      let '(got_null', dst', max') :=
        copystr (Z.to_nat (chunk srcva max)) m (pa0 + (srcva - va0)) dst max in
      ret (inl (dst', u64 (va0 + PGSIZE), max', got_null'))
    else ret (inr (if got_null then 0 else -1, dst))) ([], srcva, max, false).

End Ops.
