(* ===== verification/PageTable.v ===== *)
(** The abstract view of a page table and the lemmas that relate it to memory.

    [ptree] names the table pages of an address space by their position: the
    level-1 table under index [i] of the root, the level-0 table under indices
    [(i, j)].  [pt_rep m root T] says that memory [m] holds exactly this tree
    that its pages are distinct, that the entries above level 0 have no
    permission bits, and that no table serves addresses from MAXVA on.  The lemmas say how the tree and the leaf
    entries react to each kind of store vm.c makes. *)

From S2P Require Import Prelude Mem Layout Kalloc Vm.

Record ptree := mkTree { lev1 : gmap Z Z; lev0 : gmap (Z * Z) Z }.

(** the table an entry points to, if it is valid *)
Definition entry (m : gmap Z Z) (a : Z) : option Z :=
  let v := ld64 m a in if Z.testbit v 0 then Some (PTE2PA v) else None.

(** the table pages of a tree *)
Definition table (root : Z) (T : ptree) (p : Z) : Prop :=
  p = root ∨ (∃ i, lev1 T !! i = Some p) ∨ (∃ ij, lev0 T !! ij = Some p).

Record pt_rep (m : gmap Z Z) (root : Z) (T : ptree) : Prop := {
  pr_page p : table root T p → phys_page p;
  pr_ent1 i : 0 ≤ i < 512 → lev1 T !! i = entry m (root + 8 * i);
  pr_dom1 i p : lev1 T !! i = Some p → 0 ≤ i < 512;
  pr_ent0 i j p : lev1 T !! i = Some p → 0 ≤ j < 512 → lev0 T !! (i, j) = entry m (p + 8 * j);
  pr_dom0 i j q : lev0 T !! (i, j) = Some q → is_Some (lev1 T !! i) ∧ 0 ≤ j < 512;
  pr_root1 i : lev1 T !! i ≠ Some root;
  pr_root0 ij : lev0 T !! ij ≠ Some root;
  pr_inj1 i i' p : lev1 T !! i = Some p → lev1 T !! i' = Some p → i = i';
  pr_inj0 ij ij' p : lev0 T !! ij = Some p → lev0 T !! ij' = Some p → ij = ij';
  pr_disj i ij p : lev1 T !! i = Some p → lev0 T !! ij ≠ Some p;
  pr_low i p : lev1 T !! i = Some p → i < 256;
  pr_pure1 i p : lev1 T !! i = Some p → ld64 m (root + 8 * i) = Z.lor (PA2PTE p) PTE_V;
  pr_pure0 i j p q : lev1 T !! i = Some p → lev0 T !! (i, j) = Some q → ld64 m (p + 8 * j) = Z.lor (PA2PTE q) PTE_V;
}.

(** the address of the leaf entry of a virtual address, and the entry *)
Definition pte_slot (T : ptree) (va : Z) : option Z :=
  match lev0 T !! (PX 2 va, PX 1 va) with Some p => Some (p + 8 * PX 0 va) | None => None end.
Definition pte_of (m : gmap Z Z) (T : ptree) (va : Z) : Z :=
  match pte_slot T va with Some a => ld64 m a | None => 0 end.

(** a tree with one more table *)
Definition add1 (i p : Z) (T : ptree) : ptree := mkTree (<[i := p]> (lev1 T)) (lev0 T).
Definition add0 (i j p : Z) (T : ptree) : ptree := mkTree (lev1 T) (<[(i, j) := p]> (lev0 T)).

(** * Slots *)

Lemma phys_page_pte p : phys_page p → pte_pa p.
Proof. intros [Ha Hr]. split; [done|]. consts. lia. Qed.
#[export] Hint Resolve phys_page_pte : cmem.

Lemma slot_apart p q i j :
  aligned p → aligned q → 0 ≤ i < 512 → 0 ≤ j < 512 → p ≠ q ∨ i ≠ j →
  q + 8 * j + 8 ≤ p + 8 * i ∨ p + 8 * i + 8 ≤ q + 8 * j.
Proof. unfold aligned. consts. intros. Z.div_mod_to_equations. lia. Qed.

Lemma slot_in_page p i a : 0 ≤ i < 512 → 0 ≤ a < 8 → in_page p (p + 8 * i + a).
Proof. unfold in_page. consts. lia. Qed.

Lemma entry_same m m' a : (∀ b, 0 ≤ b < 8 → ld8 m' (a + b) = ld8 m (a + b)) → entry m' a = entry m a.
Proof. intros Hm. unfold entry. by rewrite (ld64_ext m' m a Hm). Qed.

Lemma entry_st64_ne m a b v : b + 8 ≤ a ∨ a + 8 ≤ b → entry (st64 m a v) b = entry m b.
Proof. intros H. unfold entry. by rewrite ld64_st64_ne. Qed.

Lemma entry_table m a p : phys_page p → entry (st64 m a (Z.lor (PA2PTE p) PTE_V)) a = Some p.
Proof.
  intros Hp. unfold entry. rewrite ld64_st64 by (apply PTE_range; [auto with cmem|done]).
  rewrite Z.lor_spec. change (Z.testbit PTE_V 0) with true. rewrite orb_true_r.
  rewrite PTE2PA_PA2PTE; [done|auto with cmem|done].
Qed.

Lemma entry_page_same p m m' i : 0 ≤ i < 512 →
  (∀ a, in_page p a → ld8 m' a = ld8 m a) → entry m' (p + 8 * i) = entry m (p + 8 * i).
Proof. intros Hi Hm. apply entry_same. intros b Hb. by apply Hm, slot_in_page. Qed.

Lemma entry_page_zero p m i : 0 ≤ i < 512 →
  (∀ a, in_page p a → ld8 m a = 0) → entry m (p + 8 * i) = None.
Proof.
  intros Hi Hm. unfold entry. rewrite ld64_zero; [done|].
  intros b Hb. by apply Hm, slot_in_page.
Qed.

(** * Trees *)

Section Trees.
Context (m : gmap Z Z) (root : Z) (T : ptree) (HT : pt_rep m root T).

Lemma table_root : table root T root.
Proof. by left. Qed.
Lemma table_lev1 i p : lev1 T !! i = Some p → table root T p.
Proof. right. left. eauto. Qed.
Lemma table_lev0 ij p : lev0 T !! ij = Some p → table root T p.
Proof. right. right. eauto. Qed.

Lemma table_aligned p : table root T p → aligned p.
Proof. intros Hp. apply (pr_page _ _ _ HT p Hp). Qed.

(** Memory that agrees on the table pages holds the same tree. *)
Lemma pt_rep_frame m' :
  (∀ p a, table root T p → in_page p a → ld8 m' a = ld8 m a) → pt_rep m' root T.
Proof.
  intros Hm. destruct HT. constructor; try done.
  - intros i Hi. rewrite pr_ent2 by done. symmetry. apply entry_page_same; [done|].
    intros a. apply Hm, table_root.
  - intros i j p Hp Hj. rewrite (pr_ent3 i j p) by done. symmetry. apply entry_page_same; [done|].
    intros a. by eapply Hm, table_lev1.
  - intros i p Hp. rewrite <- (pr_pure2 i p Hp). apply ld64_ext. intros b Hb.
    apply (Hm root); [apply table_root|]. apply slot_in_page; [by eapply pr_dom2|done].
  - intros i j p q Hp Hq. rewrite <- (pr_pure3 i j p q Hp Hq). apply ld64_ext. intros b Hb.
    apply (Hm p); [by eapply table_lev1|]. apply slot_in_page; [by eapply pr_dom3|done].
Qed.

Lemma pte_of_frame m' va :
  (∀ p a, table root T p → in_page p a → ld8 m' a = ld8 m a) → pte_of m' T va = pte_of m T va.
Proof.
  intros Hm. unfold pte_of, pte_slot. destruct (lev0 T !! _) as [p|] eqn:Hp; [|done].
  apply ld64_ext. intros b Hb. eapply Hm; [by eapply table_lev0|].
  apply slot_in_page; [by apply PX_range|done].
Qed.

(** A store in a level-0 slot keeps the tree. *)
Lemma pt_rep_leaf ij p k v :
  lev0 T !! ij = Some p → 0 ≤ k < 512 → pt_rep (st64 m (p + 8 * k) v) root T.
Proof.
  intros Hp Hk. pose proof (table_aligned p (table_lev0 _ _ Hp)) as Hap.
  pose proof (table_aligned root table_root) as Har. pose proof table_lev1 as Hl1.
  pose proof table_aligned as Hal. destruct HT. constructor; try done.
  - intros i Hi. rewrite entry_st64_ne; [by apply pr_ent2|].
    apply slot_apart; [done..|]. left. intros ->. by apply (pr_root3 ij).
  - intros i j q Hq Hj. rewrite entry_st64_ne; [by apply pr_ent3|].
    apply slot_apart; [done|by eapply Hal, Hl1|done..|]. left. intros ->. by eapply pr_disj0.
  - intros i q Hq. rewrite ld64_st64_ne; [by apply pr_pure2|].
    apply slot_apart; [done|done|done|by eapply pr_dom2|]. left. intros ->. by apply (pr_root3 ij).
  - intros i j q q' Hq Hq'. rewrite ld64_st64_ne; [by eapply pr_pure3|].
    apply slot_apart; [done|by eapply Hal, Hl1|done|by eapply pr_dom3|]. left. intros ->. by eapply pr_disj0.
Qed.

(** What the store does to the leaf entries. *)
Lemma pte_of_leaf va va' p v :
  lev0 T !! (PX 2 va, PX 1 va) = Some p → 0 ≤ v < 2 ^ 64 →
  pte_of (st64 m (p + 8 * PX 0 va) v) T va' =
  if decide (PX 2 va' = PX 2 va ∧ PX 1 va' = PX 1 va ∧ PX 0 va' = PX 0 va) then v else pte_of m T va'.
Proof.
  intros Hp Hv. unfold pte_of, pte_slot.
  pose proof (PX_range 0 va ltac:(lia)) as Hk. pose proof (PX_range 0 va' ltac:(lia)) as Hk'.
  case_decide as E.
  - destruct E as (-> & -> & ->). rewrite Hp. by apply ld64_st64.
  - destruct (lev0 T !! (PX 2 va', PX 1 va')) as [q|] eqn:Hq; [|done].
    apply ld64_st64_ne. apply slot_apart; [by eapply table_aligned, table_lev0..|done|done|].
    destruct (decide (p = q)) as [->|]; [|by left]. right. intros E0.
    pose proof (pr_inj0 _ _ _ HT _ _ _ Hp Hq) as [= E2 E1]. by apply E.
Qed.

(** * Adding a table page *)

(** [x] is a zeroed page that is not part of the tree. *)
Context (m1 : gmap Z Z) (x : Z) (Hx : phys_page x) (Hnx : ¬ table root T x)
        (Hout : same_outside x m m1) (Hzero : ∀ a, in_page x a → ld8 m1 a = 0).

Lemma fresh_page_same p a : table root T p → in_page p a → ld8 m1 a = ld8 m a.
Proof.
  intros Hp Ha. apply Hout. eapply pages_apart; [by apply table_aligned|apply Hx| |done].
  by intros ->.
Qed.

Lemma pt_rep_add1 i : 0 ≤ i < 256 → lev1 T !! i = None →
  pt_rep (st64 m1 (root + 8 * i) (Z.lor (PA2PTE x) PTE_V)) root (add1 i x T).
Proof.
  intros Hi256 Hnone. assert (0 ≤ i < 512) as Hi by lia. pose proof (pt_rep_frame m1 fresh_page_same) as HT1.
  pose proof (table_aligned root table_root) as Har. pose proof table_lev1 as Hl1.
  pose proof table_lev0 as Hl0. pose proof table_aligned as Hal. pose proof fresh_page_same as Hsame.
  assert (∀ j q, lev0 T !! (i, j) ≠ Some q) as Hno0.
  { intros j q Hq. destruct (pr_dom0 _ _ _ HT i j q Hq) as [[p Hp] _]. congruence. }
  constructor; cbn [lev1 lev0 add1].
  - intros p [->|[[k Hk]|[ij Hij]]].
    + apply HT, table_root.
    + cbn [lev1 add1] in Hk. rewrite lookup_insert in Hk. case_decide; simplify_eq; [done|].
      by eapply HT, Hl1.
    + by eapply HT, Hl0.
  - intros k Hk. rewrite lookup_insert. case_decide as E.
    + subst k. by rewrite entry_table.
    + rewrite entry_st64_ne by (apply slot_apart; auto). by apply HT1.
  - intros k p. rewrite lookup_insert. case_decide; [by subst|]. apply HT.
  - intros k j p. rewrite lookup_insert. case_decide as E.
    + subst k. intros [= <-] Hj. rewrite entry_st64_ne.
      2: { apply slot_apart; [done|apply Hx|done..|]. left. intros <-. by apply Hnx, table_root. }
      rewrite entry_page_zero by done. destruct (lev0 T !! (i, j)) eqn:E; [|done]. by apply Hno0 in E.
    + intros Hk Hj. rewrite entry_st64_ne; [by apply (pr_ent0 _ _ _ HT1)|].
      apply slot_apart; [done|by eapply Hal, Hl1|done..|]. left. intros <-. by eapply (pr_root1 _ _ _ HT).
  - intros k j q Hq. destruct (pr_dom0 _ _ _ HT k j q Hq) as [[p Hp] Hj]. split; [|done].
    rewrite lookup_insert. case_decide; eauto.
  - intros k. rewrite lookup_insert. case_decide; [|apply HT]. intros [= ->]. by apply Hnx, table_root.
  - apply HT.
  - intros k k' p. rewrite !lookup_insert. repeat case_decide; subst; try done.
    + intros [= <-] Hk. exfalso. by eapply Hnx, Hl1.
    + intros Hk [= <-]. exfalso. by eapply Hnx, Hl1.
    + apply HT.
  - apply HT.
  - intros k ij p. rewrite lookup_insert. case_decide; [|apply HT].
    intros [= <-] Hij. by eapply Hnx, Hl0.
  - intros k p. rewrite lookup_insert. case_decide; [subst; lia|apply HT].
  - intros k p. rewrite lookup_insert. case_decide as E.
    + subst k. intros [= <-]. apply ld64_st64, PTE_range; [auto with cmem|done].
    + intros Hk. rewrite ld64_st64_ne; [by apply (pr_pure1 _ _ _ HT1)|].
      apply slot_apart; [done|done|done|by eapply (pr_dom1 _ _ _ HT)|by right].
  - intros k j p q. rewrite lookup_insert. case_decide as E.
    + subst k. intros _ Hq. by apply Hno0 in Hq.
    + intros Hk Hq. rewrite ld64_st64_ne; [by eapply (pr_pure0 _ _ _ HT1)|].
      apply slot_apart; [done|by eapply Hal, Hl1|done|by eapply (pr_dom0 _ _ _ HT)|].
      left. intros <-. by eapply (pr_root1 _ _ _ HT).
Qed.

Lemma pte_of_add1 i va : 0 ≤ i < 512 → lev1 T !! i = None →
  pte_of (st64 m1 (root + 8 * i) (Z.lor (PA2PTE x) PTE_V)) (add1 i x T) va = pte_of m T va.
Proof.
  intros Hi Hnone. rewrite <- (pte_of_frame m1) by exact fresh_page_same.
  unfold pte_of, pte_slot. cbn [lev0 add1]. destruct (lev0 T !! _) as [q|] eqn:Hq; [|done].
  apply ld64_st64_ne. apply slot_apart; [apply table_aligned, table_root|by eapply table_aligned, table_lev0|done| |].
  - by apply PX_range.
  - left. intros <-. by eapply (pr_root0 _ _ _ HT).
Qed.

Lemma pt_rep_add0 i j p : lev1 T !! i = Some p → 0 ≤ j < 512 → lev0 T !! (i, j) = None →
  pt_rep (st64 m1 (p + 8 * j) (Z.lor (PA2PTE x) PTE_V)) root (add0 i j x T).
Proof.
  intros Hp Hj Hnone. pose proof (pt_rep_frame m1 fresh_page_same) as HT1.
  pose proof (table_aligned root table_root) as Har. pose proof table_lev1 as Hl1.
  pose proof table_lev0 as Hl0. pose proof table_aligned as Hal.
  constructor; cbn [lev1 lev0 add0].
  - intros q [->|[[k Hk]|[ij Hij]]].
    + apply HT, table_root.
    + by eapply HT, Hl1.
    + cbn [lev0 add0] in Hij. rewrite lookup_insert in Hij. case_decide; simplify_eq; [done|].
      by eapply HT, Hl0.
  - intros k Hk. rewrite entry_st64_ne; [by apply HT1|].
    apply slot_apart; [by eapply Hal, Hl1|done..|]. left. intros ->. by eapply (pr_root1 _ _ _ HT).
  - apply HT.
  - intros k l q Hq Hl. rewrite lookup_insert. case_decide as E.
    + simplify_eq. by rewrite entry_table.
    + rewrite entry_st64_ne; [by apply (pr_ent0 _ _ _ HT1)|].
      apply slot_apart; [by eapply Hal, Hl1..|done|done|].
      destruct (decide (p = q)) as [->|]; [|by left]. right. intros ->. apply E.
      by rewrite (pr_inj1 _ _ _ HT i k q).
  - intros k l q. rewrite lookup_insert. case_decide as E; [|apply HT].
    simplify_eq. intros _. eauto.
  - apply HT.
  - intros ij. rewrite lookup_insert. case_decide; [|apply HT]. intros [= ->]. by apply Hnx, table_root.
  - apply HT.
  - intros kl kl' q. rewrite !lookup_insert. repeat case_decide; subst; try done.
    + intros [= <-] Hk. exfalso. by eapply Hnx, Hl0.
    + intros Hk [= <-]. exfalso. by eapply Hnx, Hl0.
    + apply HT.
  - intros k kl q Hq. rewrite lookup_insert. case_decide; [|by eapply HT].
    intros [= <-]. by eapply Hnx, Hl1.
  - apply HT.
  - intros k q Hk. rewrite ld64_st64_ne; [by apply (pr_pure1 _ _ _ HT1)|].
    apply slot_apart; [by eapply Hal, Hl1|done|done|by eapply (pr_dom1 _ _ _ HT)|].
    left. intros ->. by eapply (pr_root1 _ _ _ HT).
  - intros k l q r Hq. rewrite lookup_insert. case_decide as E.
    + simplify_eq. intros [= <-]. apply ld64_st64, PTE_range; [auto with cmem|done].
    + intros Hr. rewrite ld64_st64_ne; [by eapply (pr_pure0 _ _ _ HT1)|].
      apply slot_apart; [by eapply Hal, Hl1..|done|by eapply (pr_dom0 _ _ _ HT)|].
      destruct (decide (p = q)) as [->|]; [|by left]. right. intros ->. apply E.
      by rewrite (pr_inj1 _ _ _ HT i k q).
Qed.

Lemma pte_of_add0 i j p va : lev1 T !! i = Some p → 0 ≤ j < 512 → lev0 T !! (i, j) = None →
  pte_of (st64 m1 (p + 8 * j) (Z.lor (PA2PTE x) PTE_V)) (add0 i j x T) va = pte_of m T va.
Proof.
  intros Hp Hj Hnone. rewrite <- (pte_of_frame m1) by exact fresh_page_same.
  assert (0 ≤ PX 0 va < 512) as Hk by (by apply PX_range).
  unfold pte_of, pte_slot. cbn [lev0 add0]. rewrite lookup_insert. case_decide as E.
  - rewrite <- E, Hnone. rewrite ld64_st64_ne.
    + apply ld64_zero. intros b Hb. apply Hzero. apply slot_in_page; [done|lia].
    + apply slot_apart; [by eapply table_aligned, table_lev1|apply Hx|done..|].
      left. intros ->. by eapply Hnx, table_lev1.
  - destruct (lev0 T !! (PX 2 va, PX 1 va)) as [q|] eqn:Hq; [|done].
    apply ld64_st64_ne. apply slot_apart; [by eapply table_aligned, table_lev1|by eapply table_aligned, table_lev0|done..|].
    left. intros ->. by eapply (pr_disj _ _ _ HT).
Qed.

End Trees.
