(* ===== verification/VmProofs.v ===== *)
(** Specifications of kernel/vm.c against the page allocator's interface. *)

From S2P Require Import Prelude Mem Layout Kalloc Vm PageTable.

Section Vm.
Context `{PA : PageAlloc}.

(** An address space together with the allocator its table pages come from. *)
Record vm_inv (A : alloc_st) (root : Z) (T : ptree) (s : phys) : Prop := {
  vi_alloc : pg_rep A s;
  vi_tree : pt_rep (mem s) root T;
  vi_owned p : table root T p → refs A !! p = Some 1;
}.

(** The effect of creating table pages: [used] left the free list, one
    reference each, and no byte outside the tables changed.  What happened to
    the leaf entries is stated separately. *)
Record grow (root : Z) (A : alloc_st) (T : ptree) (s : phys) (A' : alloc_st) (T' : ptree) (s' : phys)
    (used : list Z) : Prop := {
  g_inv : vm_inv A' root T' s';
  g_free : free A = used ++ free A';
  g_refs p c : refs A !! p = Some c → refs A' !! p = Some c;
  g_used p : p ∈ used → refs A' !! p = Some 1;
  g_dom p : is_Some (refs A' !! p) → is_Some (refs A !! p) ∨ p ∈ used;
  g_old p : table root T p → table root T' p;
  g_new p : table root T' p → table root T p ∨ p ∈ used;
  g_tab p : p ∈ used → table root T' p;
  g_frame a : (∀ p, table root T p → ¬ in_page p a) → (∀ p, p ∈ used → ¬ in_page p a) →
    ld8 (mem s') a = ld8 (mem s) a;
}.

#[global] Arguments vi_alloc {A root T s} _.
#[global] Arguments vi_tree {A root T s} _.
#[global] Arguments vi_owned {A root T s} _ p _.
#[global] Arguments g_inv {root A T s A' T' s' used} _.
#[global] Arguments g_free {root A T s A' T' s' used} _.
#[global] Arguments g_refs {root A T s A' T' s' used} _ p c _.
#[global] Arguments g_used {root A T s A' T' s' used} _ p _.
#[global] Arguments g_dom {root A T s A' T' s' used} _ p _.
#[global] Arguments g_old {root A T s A' T' s' used} _ p _.
#[global] Arguments g_new {root A T s A' T' s' used} _ p _.
#[global] Arguments g_tab {root A T s A' T' s' used} _ p _.
#[global] Arguments g_frame {root A T s A' T' s' used} _ a _ _.

Lemma vi_tables {A root T s} : vm_inv A root T s → ∀ p, table root T p → is_Some (refs A !! p).
Proof. intros HI p Hp. rewrite (vi_owned HI p Hp). eauto. Qed.

Lemma grow_refl root A T s : vm_inv A root T s → grow root A T s A T s [].
Proof. intros HI. constructor; try done; set_solver. Qed.

Lemma grow_trans root A T s A1 T1 s1 u1 A2 T2 s2 u2 :
  grow root A T s A1 T1 s1 u1 → grow root A1 T1 s1 A2 T2 s2 u2 → grow root A T s A2 T2 s2 (u1 ++ u2).
Proof.
  intros G1 G2. constructor.
  - apply G2.
  - rewrite (g_free G1), (g_free G2). by rewrite app_assoc.
  - intros p c Hp. by apply G2, G1.
  - intros p [Hp|Hp]%elem_of_app; [by apply (g_refs G2), (g_used G1)|by apply (g_used G2)].
  - intros p Hp. destruct (g_dom G2 p Hp) as [H1|]; [|set_solver].
    destruct (g_dom G1 p H1); set_solver.
  - intros p Hp. by apply G2, G1.
  - intros p Hp. destruct (g_new G2 p Hp) as [H1|]; [|set_solver].
    destruct (g_new G1 p H1); set_solver.
  - intros p [Hp|Hp]%elem_of_app; [by apply (g_old G2), (g_tab G1)|by apply (g_tab G2)].
  - intros a Ha Hu. rewrite (g_frame G2).
    + apply G1; [done|]. intros p Hp. apply Hu. set_solver.
    + intros p Hp. destruct (g_new G1 p Hp) as [H1|]; [by apply Ha|].
      apply Hu. set_solver.
    + intros p Hp. apply Hu. set_solver.
Qed.

(** The allocator's step followed by clearing the new page and a store in a
    page that is already allocated. *)
Lemma alloc_table_step A x fl s s1 q i v :
  pg_rep A s → free A = x :: fl → pg_rep (mkAlloc fl (<[x := 1]> (refs A))) s1 →
  same_outside x (mem s) (mem s1) → is_Some (refs A !! q) → 0 ≤ i < 512 →
  let m1 := memset (mem s1) x 0 PGSIZE in
  phys_page x ∧ refs A !! x = None ∧ same_outside x (mem s) m1 ∧ (∀ a, in_page x a → ld8 m1 a = 0) ∧
  pg_rep (mkAlloc fl (<[x := 1]> (refs A))) (set_mem (st64 m1 (q + 8 * i) v) (set_mem m1 s1)).
Proof.
  intros HA Hfl HA1 Hout Hq Hi m1.
  assert (phys_page x) as Hx by (eapply pg_free_page; [exact HA|rewrite Hfl; set_solver]).
  assert (refs A !! x = None) as Hnone.
  { destruct (refs A !! x) as [c|] eqn:E; [|done]. exfalso.
    destruct (pg_refs_page A s x HA ltac:(eauto)) as [_ Hn]. apply Hn. rewrite Hfl. set_solver. }
  split; [done|]. split; [done|]. split; [|split].
  - eapply same_outside_trans; [exact Hout|apply same_outside_memset].
  - intros a Ha. unfold m1. rewrite ld8_memset. unfold in_page in Ha.
    bool_true ((x <=? a) && (a <? x + PGSIZE)). done.
  - destruct (pg_refs_page A s q HA Hq) as [Hqp Hqn].
    pose proof (pg_nodup A s HA) as Hnd. rewrite Hfl in Hnd. apply NoDup_cons in Hnd as [Hxfl _].
    apply pg_rep_mem.
    + apply pg_rep_mem; [done|]. intros y a Hy Ha. simpl in Hy. apply same_outside_memset.
      eapply pages_apart; [|apply Hx| |exact Ha].
      * eapply (pg_free_page A s); [done|]. rewrite Hfl. set_solver.
      * intros ->. done.
    + intros y a Hy Ha. simpl in *. apply ld8_st64.
      assert (phys_page y) as Hyp by (eapply pg_free_page; [exact HA|rewrite Hfl; set_solver]).
      assert (¬ in_page q a) as Hqa.
      { eapply pages_apart; [apply Hyp|apply Hqp| |exact Ha]. intros ->. apply Hqn. rewrite Hfl. set_solver. }
      unfold in_page in Hqa. consts. lia.
Qed.

Lemma table_add1 root T i x p : table root (add1 i x T) p → table root T p ∨ p = x.
Proof.
  intros [->|[[k Hk]|[ij Hij]]]; [by left; left| |left; right; right; eauto].
  cbn [lev1 add1] in Hk. rewrite lookup_insert in Hk. case_decide; simplify_eq; [by right|].
  left; right; left; eauto.
Qed.

Lemma table_add0 root T i j x p : table root (add0 i j x T) p → table root T p ∨ p = x.
Proof.
  intros [->|[[k Hk]|[ij Hij]]]; [by left; left|left; right; left; eauto|].
  cbn [lev0 add0] in Hij. rewrite lookup_insert in Hij. case_decide; simplify_eq; [by right|].
  left; right; right; eauto.
Qed.

Lemma table_add1_old root T i x p : lev1 T !! i = None → table root T p → table root (add1 i x T) p.
Proof.
  intros Hi [->|[[k Hk]|[ij Hij]]]; [by left| |right; right; eauto].
  right; left. exists k. cbn [lev1 add1]. rewrite lookup_insert_ne; [done|]. congruence.
Qed.

Lemma table_add0_old root T i j x p : lev0 T !! (i, j) = None → table root T p → table root (add0 i j x T) p.
Proof.
  intros Hi [->|[[k Hk]|[ij Hij]]]; [by left|right; left; eauto|].
  right; right. exists ij. cbn [lev0 add0]. rewrite lookup_insert_ne; [done|]. congruence.
Qed.

(** The common part of the two cases: what does not depend on the level. *)
Lemma grow_intro root A T s x fl T' q i v s1 :
  vm_inv A root T s → free A = x :: fl → pg_rep (mkAlloc fl (<[x := 1]> (refs A))) s1 →
  same_outside x (mem s) (mem s1) → table root T q → 0 ≤ i < 512 →
  let m' := st64 (memset (mem s1) x 0 PGSIZE) (q + 8 * i) v in
  (∀ p, table root T p → table root T' p) → (∀ p, table root T' p → table root T p ∨ p = x) → table root T' x →
  pt_rep m' root T' →
  grow root A T s (mkAlloc fl (<[x := 1]> (refs A))) T'
    (set_mem m' (set_mem (memset (mem s1) x 0 PGSIZE) s1)) [x].
Proof.
  intros HI Hfl HA1 Hout Hq Hi m' Hold Hnew Hnx Hpt.
  destruct (alloc_table_step A x fl s s1 q i v (vi_alloc HI) Hfl HA1 Hout (vi_tables HI q Hq) Hi)
    as (Hx & Hnone & Hout' & _ & HA'). constructor; cbn [free refs mem set_mem].
  - constructor; [done|done|]. intros p Hp. cbn [refs]. rewrite lookup_insert. case_decide; [done|].
    destruct (Hnew p Hp) as [H1| ->]; [by apply (vi_owned HI)|done].
  - done.
  - intros p c Hp. rewrite lookup_insert_ne; [done|]. congruence.
  - intros p ->%list_elem_of_singleton. by rewrite lookup_insert_eq.
  - intros p. rewrite lookup_insert. case_decide; [set_solver|by left].
  - done.
  - intros p Hp. destruct (Hnew p Hp) as [| ->]; [by left|]. right. set_solver.
  - by intros p ->%list_elem_of_singleton.
  - intros a Ha Hu. unfold m'. rewrite ld8_st64.
    + apply Hout'. apply Hu. set_solver.
    + specialize (Ha q Hq). unfold in_page in Ha. consts. lia.
Qed.

Lemma not_table_free root A T s x fl :
  vm_inv A root T s → free A = x :: fl → ¬ table root T x.
Proof.
  intros HI Hfl Hx. destruct (pg_refs_page A s x (vi_alloc HI) (vi_tables HI x Hx)) as [_ Hn].
  apply Hn. rewrite Hfl. set_solver.
Qed.

(** kalloc(), as the callers of vm.c see it. *)
Lemma wp_pg_alloc A s (Q : Z → phys → Prop) (E : string → phys → Prop) :
  pg_rep A s →
  (∀ x fl s1, free A = x :: fl → phys_page x → pg_rep (mkAlloc fl (<[x := 1]> (refs A))) s1 →
     same_outside x (mem s) (mem s1) → Q x s1) →
  (∀ s1, free A = [] → E "assert failed" s1) →
  wp pg_alloc Q E s.
Proof.
  intros HA HQ HE. destruct (free A) as [|x fl] eqn:Hfl.
  - eapply wp_mono; [apply (pg_alloc_oom A); [done|]|done|].
    + unfold spec_alloc. by rewrite Hfl.
    + intros msg s1 ->. by apply HE.
  - eapply wp_mono; [apply (pg_alloc_ok A (mkAlloc fl (<[x := 1]> (refs A))) s x); [done|]| |done].
    + unfold spec_alloc. by rewrite Hfl.
    + intros r s1 (-> & HA1 & Hout). apply (HQ x fl); [done| |done..].
      eapply pg_free_page; [exact HA|]. rewrite Hfl. set_solver.
Qed.

(** The panic of kalloc() when fewer than [n] pages were free. *)
Definition oom (n : Z) (A : alloc_st) (msg : string) (_ : phys) : Prop :=
  msg = "assert failed" ∧ Z.of_nat (length (free A)) < n.

Lemma entry_cases m a (P : Prop) :
  (Z.testbit (ld64 m a) 0 = true → entry m a = Some (PTE2PA (ld64 m a)) → P) →
  (Z.testbit (ld64 m a) 0 = false → entry m a = None → P) → P.
Proof. unfold entry. destruct (Z.testbit (ld64 m a) 0); auto. Qed.

Lemma walk_level1 root A T s va p :
  vm_inv A root T s → lev1 T !! PX 2 va = Some p →
  wp (walk_from 1 p va true)
    (λ r s', ∃ A' T' used, grow root A T s A' T' s' used ∧ (length used ≤ 1)%nat ∧ pte_slot T' va = Some r ∧
                  ∀ va', pte_of (mem s') T' va' = pte_of (mem s) T va')
    (oom 1 A) s.
Proof.
  intros HI Hp. pose proof (PX_range 1 va ltac:(lia)) as Hj.
  pose proof (pr_ent0 _ _ _ (vi_tree HI) _ _ _ Hp Hj) as Hent.
  cbn [walk_from]. change (Z.of_nat 1) with 1. wp_mem. rewrite PTE_V_testbit.
  apply (entry_cases (mem s) (p + 8 * PX 1 va)); intros Hb He; rewrite Hb, He in *.
  - apply wp_ret. exists A, T, []. split; [by apply grow_refl|]. split; [simpl; lia|].
    split; [|done]. unfold pte_slot. by rewrite Hent.
  - wp_mem. apply (wp_pg_alloc A); [apply HI| |].
    2: { intros s1 Hf. split; [done|]. rewrite Hf. simpl. lia. }
    intros x fl s1 Hfl Hx HA1 Hout. pose proof (not_table_free _ _ _ _ _ _ HI Hfl) as Hnx.
    destruct (alloc_table_step A x fl s s1 p (PX 1 va) (Z.lor (PA2PTE x) PTE_V) (vi_alloc HI) Hfl HA1 Hout
      (vi_tables HI p (table_lev1 _ _ _ _ Hp)) Hj) as (_ & _ & Hout' & Hzero & _).
    assert ((x =? 0) = false) as -> by (destruct Hx as [_ Hx]; consts; lia).
    wp_mem. exists (mkAlloc fl (<[x := 1]> (refs A))), (add0 (PX 2 va) (PX 1 va) x T), [x].
    split; [|split; [done|split]].
    + apply grow_intro; try done.
      * by eapply table_lev1.
      * intros q. by apply table_add0_old.
      * intros q. apply table_add0.
      * eapply (table_lev0 _ _ (PX 2 va, PX 1 va)). cbn [lev0 add0]. by rewrite lookup_insert_eq.
      * exact (pt_rep_add0 _ _ _ (vi_tree HI) _ _ Hx Hnx Hout' Hzero _ _ _ Hp Hj Hent).
    + unfold pte_slot. cbn [lev0 add0]. by rewrite lookup_insert_eq.
    + intros va'. exact (pte_of_add0 _ _ _ (vi_tree HI) _ _ Hx Hnx Hout' Hzero _ _ _ _ Hp Hj Hent).
Qed.

Lemma PX2_low va : 0 ≤ va < MAXVA → 0 ≤ PX 2 va < 256.
Proof.
  intros Hva. pose proof (PX_range 2 va ltac:(lia)). pose proof (PX_range 1 va ltac:(lia)). pose proof (PX_range 0 va ltac:(lia)).
  pose proof (PX_split va Hva) as E. consts. Z.div_mod_to_equations. lia.
Qed.

(** walk(..., alloc=1) finds or creates the tables down to level 0. *)
Lemma walk_alloc root A T s va :
  vm_inv A root T s → 0 ≤ va < MAXVA →
  wp (walk root va true)
    (λ r s', ∃ A' T' used, grow root A T s A' T' s' used ∧ (length used ≤ 2)%nat ∧ pte_slot T' va = Some r ∧
                  ∀ va', pte_of (mem s') T' va' = pte_of (mem s) T va')
    (oom 2 A) s.
Proof.
  intros HI Hva. pose proof (PX_range 2 va ltac:(lia)) as Hi.
  pose proof (pr_ent1 _ _ _ (vi_tree HI) _ Hi) as Hent. unfold walk. bool_false (MAXVA <=? va).
  remember 1%nat as one. cbn [walk_from]. subst one. change (Z.of_nat 2) with 2. wp_mem. rewrite PTE_V_testbit.
  apply (entry_cases (mem s) (root + 8 * PX 2 va)); intros Hb He; rewrite Hb, He in *.
  - eapply wp_mono; [apply (walk_level1 root A T s va); done| |].
    + intros r s' (A' & T' & used & HG & Hl & Hr). exists A', T', used. split; [done|]. split; [lia|done].
    + intros msg s' [-> Hl]. split; [done|]. lia.
  - wp_mem. apply (wp_pg_alloc A); [apply HI| |].
    2: { intros s1 Hf. split; [done|]. rewrite Hf. simpl. lia. }
    intros x fl s1 Hfl Hx HA1 Hout. pose proof (not_table_free _ _ _ _ _ _ HI Hfl) as Hnx.
    destruct (alloc_table_step A x fl s s1 root (PX 2 va) (Z.lor (PA2PTE x) PTE_V) (vi_alloc HI) Hfl HA1 Hout
      (vi_tables HI root (table_root _ _)) Hi) as (_ & _ & Hout' & Hzero & _).
    assert ((x =? 0) = false) as -> by (destruct Hx as [_ Hx]; consts; lia).
    wp_mem. pose (A1 := mkAlloc fl (<[x := 1]> (refs A))). pose (T1 := add1 (PX 2 va) x T).
    set (s2 := set_mem _ (set_mem _ s1)).
    assert (grow root A T s A1 T1 s2 [x]) as HG1.
    { apply grow_intro; try done.
      - apply table_root.
      - intros q. by apply table_add1_old.
      - intros q. apply table_add1.
      - eapply (table_lev1 _ _ (PX 2 va)). unfold T1. cbn [lev1 add1]. by rewrite lookup_insert_eq.
      - exact (pt_rep_add1 _ _ _ (vi_tree HI) _ _ Hx Hnx Hout' Hzero _ (PX2_low va Hva) Hent). }
    assert (∀ va', pte_of (mem s2) T1 va' = pte_of (mem s) T va') as HL1
      by (intros va'; exact (pte_of_add1 _ _ _ (vi_tree HI) _ _ Hx Hnx Hout' _ _ Hi Hent)).
    eapply wp_mono; [apply (walk_level1 root A1 T1 s2 va); [apply HG1|]| |].
    + unfold T1. cbn [lev1 add1]. by rewrite lookup_insert_eq.
    + intros r s' (A' & T' & used & HG & Hl & Hr & HL). exists A', T', ([x] ++ used).
      split; [by eapply grow_trans|]. split; [simpl; lia|]. split; [done|]. intros va'. by rewrite HL.
    + intros msg s' [-> Hl]. split; [done|]. rewrite Hfl. cbn [length]. unfold A1 in Hl. cbn [free] in Hl. lia.
Qed.

(** walk(..., alloc=0) only reads. *)
Lemma walk_lookup root T s va :
  pt_rep (mem s) root T → 0 ≤ va < MAXVA →
  walk root va false s = Ret (default 0 (pte_slot T va)) s.
Proof.
  intros HT Hva. unfold walk. bool_false (MAXVA <=? va). unfold pte_slot.
  pose proof (PX_range 2 va ltac:(lia)) as Hi. pose proof (PX_range 1 va ltac:(lia)) as Hj.
  pose proof (pr_ent1 _ _ _ HT _ Hi) as Hent.
  cbn [walk_from]. change (Z.of_nat 2) with 2. change (Z.of_nat 1) with 1.
  unfold mbnd, load64, gets. cbn [obind]. rewrite PTE_V_testbit.
  apply (entry_cases (mem s) (root + 8 * PX 2 va)); intros Hb He; rewrite Hb, He in *.
  - pose proof (pr_ent0 _ _ _ HT _ _ _ Hent Hj) as Hent0. cbn [obind].
    rewrite PTE_V_testbit. set (p := PTE2PA (ld64 (mem s) (root + 8 * PX 2 va))) in *.
    apply (entry_cases (mem s) (p + 8 * PX 1 va)); intros Hb0 He0; rewrite Hb0, He0 in *;
      rewrite Hent0; done.
  - cbn [negb]. destruct (lev0 T !! (PX 2 va, PX 1 va)) as [q|] eqn:Hq; [|done].
    destruct (pr_dom0 _ _ _ HT _ _ _ Hq) as [[p Hp] _]. congruence.
Qed.

Lemma wp_walk_lookup root T s va (Q : Z → phys → Prop) E :
  pt_rep (mem s) root T → 0 ≤ va < MAXVA →
  Q (default 0 (pte_slot T va)) s → wp (walk root va false) Q E s.
Proof. intros HT Hva HQ. eapply wp_eq; [by apply walk_lookup|done]. Qed.

Lemma pte_slot_some T va r : pte_slot T va = Some r →
  ∃ p, lev0 T !! (PX 2 va, PX 1 va) = Some p ∧ r = p + 8 * PX 0 va.
Proof. unfold pte_slot. destruct (lev0 T !! _) as [p|]; naive_solver. Qed.

Lemma pte_slot_nonzero m root T va r : pt_rep m root T → pte_slot T va = Some r → (r =? 0) = false.
Proof.
  intros HT Hr. destruct (pte_slot_some T va r Hr) as (p & Hp & ->).
  destruct (pr_page _ _ _ HT p (table_lev0 _ _ _ _ Hp)) as [_ Hr'].
  pose proof (PX_range 0 va ltac:(lia)). consts. lia.
Qed.

Lemma pte_of_slot m T va r : pte_slot T va = Some r → ld64 m r = pte_of m T va.
Proof. unfold pte_of. by intros ->. Qed.

(** The translation walkaddr() computes. *)
Definition user_pa (m : gmap Z Z) (T : ptree) (va : Z) : Z :=
  if Z.testbit (pte_of m T va) 0 && Z.testbit (pte_of m T va) 4 then PTE2PA (pte_of m T va) else 0.

Lemma PTE_U_testbit v : c_true (Z.land v PTE_U) = Z.testbit v 4.
Proof.
  unfold c_true. destruct (Z.testbit v 4) eqn:E.
  - apply negb_true_iff, Z.eqb_neq. intros H0.
    assert (Z.testbit (Z.land v PTE_U) 4 = true) as Hb by (rewrite Z.land_spec, E; done).
    rewrite H0, Z.testbit_0_l in Hb. done.
  - apply negb_false_iff, Z.eqb_eq. apply Z.bits_inj'. intros n Hn. rewrite Z.land_spec, Z.testbit_0_l.
    unfold PTE_U. rewrite Z.shiftl_spec by lia. destruct (decide (n = 4)) as [->|Hne]; [by rewrite E|].
    destruct (decide (n < 4)).
    + rewrite (Z.testbit_neg_r 1) by lia. by rewrite andb_false_r.
    + rewrite (Z.bits_above_log2 1) by (simpl; lia). by rewrite andb_false_r.
Qed.

Lemma walkaddr_lookup root T s va :
  pt_rep (mem s) root T → 0 ≤ va →
  walkaddr root va s = Ret (if MAXVA <=? va then 0 else user_pa (mem s) T va) s.
Proof.
  intros HT Hva. unfold walkaddr. case_bool; [done|].
  unfold mbnd at 1. rewrite (walk_lookup root T) by (done || lia). cbn [obind].
  unfold user_pa. destruct (pte_slot T va) as [r|] eqn:Hr; cbn [default from_option id].
  - rewrite (pte_slot_nonzero _ _ _ _ _ HT Hr). unfold mbnd, load64, gets. cbn [obind].
    rewrite (pte_of_slot _ _ _ _ Hr), PTE_V_testbit, PTE_U_testbit.
    destruct (Z.testbit (pte_of (mem s) T va) 0); [|done].
    destruct (Z.testbit (pte_of (mem s) T va) 4); done.
  - unfold pte_of. by rewrite Hr.
Qed.

(** * Leaf entries *)

Lemma PX_page va va' :
  0 ≤ va < MAXVA → 0 ≤ va' < MAXVA →
  (PX 2 va' = PX 2 va ∧ PX 1 va' = PX 1 va ∧ PX 0 va' = PX 0 va) ↔ PGROUNDDOWN va' = PGROUNDDOWN va.
Proof.
  intros H H'. pose proof (PGROUNDDOWN_bounds va). pose proof (PGROUNDDOWN_bounds va').
  split.
  - rewrite <- (PX_PGROUNDDOWN 2 va), <- (PX_PGROUNDDOWN 1 va), <- (PX_PGROUNDDOWN 0 va) by lia.
    rewrite <- (PX_PGROUNDDOWN 2 va'), <- (PX_PGROUNDDOWN 1 va'), <- (PX_PGROUNDDOWN 0 va') by lia.
    intros (E2 & E1 & E0). rewrite !PGROUNDDOWN_eq in *.
    apply PX_inj; try done; rewrite <- ?PGROUNDDOWN_eq; try apply PGROUNDDOWN_aligned;
      rewrite PGROUNDDOWN_eq; consts; Z.div_mod_to_equations; lia.
  - intros E. rewrite <- (PX_PGROUNDDOWN 2 va), <- (PX_PGROUNDDOWN 1 va), <- (PX_PGROUNDDOWN 0 va) by lia.
    rewrite <- E. rewrite !PX_PGROUNDDOWN by lia. done.
Qed.

(** A store to a leaf entry. *)
Lemma grow_leaf root A T s va r v :
  vm_inv A root T s → pte_slot T va = Some r → 0 ≤ va < MAXVA → 0 ≤ v < 2 ^ 64 →
  let s' := set_mem (st64 (mem s) r v) s in
  grow root A T s A T s' [] ∧
  ∀ va', 0 ≤ va' < MAXVA →
    pte_of (mem s') T va' = if decide (PGROUNDDOWN va' = PGROUNDDOWN va) then v else pte_of (mem s) T va'.
Proof.
  intros HI Hr Hva Hv s'. destruct (pte_slot_some T va r Hr) as (p & Hp & ->).
  pose proof (PX_range 0 va ltac:(lia)) as Hk. pose proof (table_lev0 root T _ _ Hp) as Htp.
  assert (∀ a, ¬ in_page p a → ld8 (mem s') a = ld8 (mem s) a) as Hout.
  { intros a Ha. apply ld8_st64. unfold in_page in Ha. consts. lia. }
  split.
  - constructor; try set_solver.
    + constructor; [|by eapply (pt_rep_leaf _ _ _ (vi_tree HI))|apply HI].
      apply pg_rep_mem; [apply HI|]. intros x a Hx Ha. apply Hout.
      destruct (pg_refs_page A s p (vi_alloc HI) (vi_tables HI p Htp)) as [Hpp Hpn].
      eapply pages_apart; [apply (pg_free_page A s x (vi_alloc HI) Hx)|apply Hpp| |exact Ha]. by intros ->.
  - intros va' Hva'. unfold s'. cbn [mem set_mem]. rewrite (pte_of_leaf _ _ _ (vi_tree HI) va va' p v Hp Hv).
    apply decide_ext. by apply PX_page.
Qed.

(** * mappages *)

(** The leaf entry mappages() stores, and the pages a range touches. *)
Definition leaf (pa perm : Z) : Z := Z.lor (Z.lor (PA2PTE pa) perm) PTE_V.
Definition first_page (va : Z) : Z := PGROUNDDOWN va.
Definition last_page (va size : Z) : Z := PGROUNDDOWN (va + size - 1).
Definition npages (va size : Z) : Z := (last_page va size - first_page va) / PGSIZE + 1.
Definition in_span (va size va' : Z) : Prop := first_page va ≤ PGROUNDDOWN va' ≤ last_page va size.
#[export] Instance in_span_dec va size va' : Decision (in_span va size va').
Proof. unfold in_span. apply _. Defined.

Lemma leaf_eq pa perm : leaf pa perm = Z.lor (PA2PTE pa) (Z.lor perm PTE_V).
Proof. unfold leaf. by rewrite Z.lor_assoc. Qed.

Lemma lor_flags a b : 0 ≤ a < 1024 → 0 ≤ b < 1024 → 0 ≤ Z.lor a b < 1024.
Proof.
  intros Ha Hb. split; [apply Z.lor_nonneg; lia|]. destruct (decide (Z.lor a b = 0)) as [->|]; [lia|].
  assert (0 ≤ Z.lor a b) by (apply Z.lor_nonneg; lia).
  apply (Z.log2_lt_pow2 _ 10); [lia|]. rewrite Z.log2_lor by lia.
  pose proof (Z.log2_le_mono a 1023 ltac:(lia)). pose proof (Z.log2_le_mono b 1023 ltac:(lia)).
  change (Z.log2 1023) with 9 in *. lia.
Qed.

Lemma leaf_range pa perm : pte_pa pa → 0 ≤ perm < 1024 → 0 ≤ leaf pa perm < 2 ^ 64.
Proof. intros Hpa Hperm. rewrite leaf_eq. apply PTE_range; [done|]. apply lor_flags; [done|]. by cbv. Qed.

Lemma leaf_pa pa perm : pte_pa pa → 0 ≤ perm < 1024 → PTE2PA (leaf pa perm) = pa.
Proof. intros Hpa Hperm. rewrite leaf_eq. apply PTE2PA_PA2PTE; [done|]. apply lor_flags; [done|]. by cbv. Qed.

Lemma leaf_flags pa perm : pte_pa pa → 0 ≤ perm < 1024 → PTE_FLAGS (leaf pa perm) = Z.lor perm PTE_V.
Proof. intros Hpa Hperm. rewrite leaf_eq. apply PTE_FLAGS_PA2PTE; [done|]. apply lor_flags; [done|]. by cbv. Qed.

Lemma leaf_valid pa perm : Z.testbit (leaf pa perm) 0 = true.
Proof. unfold leaf. rewrite Z.lor_spec. change (Z.testbit PTE_V 0) with true. apply orb_true_r. Qed.

(** One iteration of the loop. *)
Lemma map_page root A T s va pa perm (k : M phys (Z * Z + Z)) Q E :
  vm_inv A root T s → 0 ≤ va < MAXVA → pte_pa pa → 0 ≤ perm < 1024 →
  Z.testbit (pte_of (mem s) T va) 0 = false →
  (∀ A' T' s' used, grow root A T s A' T' s' used → (length used ≤ 2)%nat →
    (∀ va', 0 ≤ va' < MAXVA → pte_of (mem s') T' va' =
       if decide (PGROUNDDOWN va' = PGROUNDDOWN va) then leaf pa perm else pte_of (mem s) T va') →
    wp k Q E s') →
  (∀ s', Z.of_nat (length (free A)) < 2 → E "assert failed" s') →
  wp (let! pte := walk root va true in
      if pte =? 0 then ret (inr (-1)) else
      let! v := load64 pte in
      if c_true (Z.land v PTE_V) then panic "mappages: remap" else
      do! store64 pte (leaf pa perm) in k) Q E s.
Proof.
  intros HI Hva Hpa Hperm Hfree Hk HE. apply wp_bind.
  eapply wp_mono; [by apply (walk_alloc root A T)| |].
  - intros r s1 (A1 & T1 & used & HG & Hl & Hr & HL).
    rewrite (pte_slot_nonzero _ _ _ _ _ (vi_tree (g_inv HG)) Hr). wp_mem.
    rewrite PTE_V_testbit, (pte_of_slot _ _ _ _ Hr), HL, Hfree. wp_mem.
    destruct (grow_leaf root A1 T1 s1 va r (leaf pa perm) (g_inv HG) Hr Hva (leaf_range _ _ Hpa Hperm)) as [HG2 HL2].
    eapply (Hk A1 T1 _ (used ++ [])); [by eapply grow_trans|by rewrite app_nil_r|].
    intros va' Hva'. rewrite HL2 by done. case_decide; [done|apply HL].
  - intros msg s1 [-> Hl]. by apply HE.
Qed.

Lemma span_bounds va size :
  0 ≤ va → 0 < size → va + size ≤ MAXVA →
  0 ≤ first_page va ≤ last_page va size ∧ last_page va size + PGSIZE ≤ MAXVA ∧
  aligned (first_page va) ∧ aligned (last_page va size) ∧
  last_page va size = first_page va + (npages va size - 1) * PGSIZE ∧ 1 ≤ npages va size.
Proof.
  intros Hva Hs Hm. unfold npages, first_page, last_page.
  pose proof (PGROUNDDOWN_aligned va). pose proof (PGROUNDDOWN_aligned (va + size - 1)).
  pose proof (PGROUNDDOWN_bounds va). pose proof (PGROUNDDOWN_bounds (va + size - 1)).
  set (f := PGROUNDDOWN va) in *. set (l := PGROUNDDOWN (va + size - 1)) in *.
  unfold aligned in *. apply Z.mod_divide in H as [q Hq], H0 as [q' Hq']; [|by cbv..].
  rewrite Hq, Hq', <- Z.mul_sub_distr_r, Z.div_mul, !Z.mod_mul by done.
  assert (MAXVA = PGSIZE * 2 ^ 26) as HM by done. consts. lia.
Qed.

Definition mapped (root : Z) (A : alloc_st) (T : ptree) (s : phys) (va size pa perm : Z) (s' : phys) : Prop :=
  ∃ A' T' used, grow root A T s A' T' s' used ∧ Z.of_nat (length used) ≤ 2 * npages va size ∧
    ∀ va', 0 ≤ va' < MAXVA → pte_of (mem s') T' va' =
      if decide (in_span va size va') then leaf (pa + (PGROUNDDOWN va' - first_page va)) perm
      else pte_of (mem s) T va'.

(** What holds when the loop is about to map page [a]. *)
Definition map_inv root A T s va size pa perm (x : Z * Z) (s1 : phys) : Prop :=
  ∃ A1 T1 used, grow root A T s A1 T1 s1 used ∧
    aligned x.1 ∧ first_page va ≤ x.1 ≤ last_page va size ∧ x.2 = pa + (x.1 - first_page va) ∧
    Z.of_nat (length used) * PGSIZE ≤ 2 * (x.1 - first_page va) ∧
    ∀ va', 0 ≤ va' < MAXVA → pte_of (mem s1) T1 va' =
      if decide (first_page va ≤ PGROUNDDOWN va' < x.1) then leaf (pa + (PGROUNDDOWN va' - first_page va)) perm
      else pte_of (mem s) T va'.

Lemma mappages_ok root A T s va size pa perm :
  vm_inv A root T s → 0 ≤ va → 0 < size → va + size ≤ MAXVA →
  pte_pa pa → pa + npages va size * PGSIZE ≤ 2 ^ 56 → 0 ≤ perm < 1024 →
  (∀ va', 0 ≤ va' < MAXVA → in_span va size va' → Z.testbit (pte_of (mem s) T va') 0 = false) →
  wp (mappages root va size pa perm)
    (λ r s', r = 0 ∧ mapped root A T s va size pa perm s') (oom (2 * npages va size) A) s.
Proof.
  intros HI Hva Hsz Hmax Hpa Hpa2 Hperm Hun. destruct (span_bounds va size Hva Hsz Hmax) as (B1 & B2 & Ba & Bl & Bn & Bp).
  unfold mappages. bool_false (size =? 0). rewrite (u64_small (va + size - 1)) by (consts; lia).
  change (PGROUNDDOWN (va + size - 1)) with (last_page va size). change (PGROUNDDOWN va) with (first_page va).
  set (f := first_page va) in *. set (l := last_page va size) in *. set (n := npages va size) in *.
  apply (wp_loop _ (map_inv root A T s va size pa perm) (λ x _, l - x.1)).
  2: { exists A, T, []. split; [by apply grow_refl|]. cbn [fst snd]. split_and!; try done; try lia.
       - simpl length. consts. lia.
       - intros va' _. rewrite decide_False; [done|]. fold f. lia. }
  2: { cbn [fst]. consts. lia. }
  intros [a p] s1 (A1 & T1 & used & HG & Haa & Ha & Hp & Hu & HL). cbn [fst snd] in *. fold f l in HL, Ha, Hp, Hu.
  apply (map_page root A1 T1 s1); try done.
  - apply HG.
  - consts. lia.
  - subst p. destruct Hpa as [Hpa Hpa0]. split; [|consts; lia]. unfold aligned in *. consts. Z.div_mod_to_equations. lia.
  - rewrite HL by (consts; lia). rewrite PGROUNDDOWN_id by done. rewrite decide_False by lia.
    apply Hun; [consts; lia|]. unfold in_span. rewrite (PGROUNDDOWN_id a) by done. fold f l. lia.
  - intros A2 T2 s2 used2 HG2 Hl2 HL2. rewrite (PGROUNDDOWN_id a) in HL2 by done.
    pose proof (grow_trans _ _ _ _ _ _ _ _ _ _ _ _ HG HG2) as HG3.
    destruct (Z.eqb_spec a l) as [->|Hne]; apply wp_ret.
    + split; [done|]. exists A2, T2, (used ++ used2). split; [done|]. rewrite length_app.
      split; [fold n; consts; lia|]. intros va' Hva'. rewrite HL2, HL by done. unfold in_span. fold f l.
      repeat case_decide; try done; try lia. subst p. congruence.
    + destruct Hpa as [Hpa Hpa0].
      rewrite (u64_small (a + _)), (u64_small (p + _)) by (unfold aligned in *; consts; Z.div_mod_to_equations; lia).
      split; [|unfold aligned in *; cbn [fst]; consts; Z.div_mod_to_equations; lia].
      exists A2, T2, (used ++ used2). split; [done|]. cbn [fst snd]. rewrite length_app. fold f l.
      split_and!; try (unfold aligned in *; consts; Z.div_mod_to_equations; lia).
      intros va' Hva'. rewrite HL2, HL by done. pose proof (PGROUNDDOWN_aligned va').
      repeat case_decide; try done; try (unfold aligned in *; consts; Z.div_mod_to_equations; lia). subst p. congruence.
  - intros s2 Hlen. split; [done|]. rewrite (g_free HG), length_app. consts. lia.
Qed.

End Vm.
