(* ===== verification/UserMem.v ===== *)
(** User memory as vm.c's copies see it: copyin(), copyout() and copyinstr()
    against the bytes of an address space. *)

From S2P Require Import Prelude Mem Layout Kalloc Vm PageTable VmProofs.

(** The physical page of a user virtual address, 0 when the copies refuse it. *)
Definition xlate (m : gmap Z Z) (T : ptree) (va : Z) : Z :=
  if MAXVA <=? va then 0 else user_pa m T (PGROUNDDOWN va).
Definition upa (m : gmap Z Z) (T : ptree) (va : Z) : Z := xlate m T va + (va - PGROUNDDOWN va).
Definition umapped (m : gmap Z Z) (T : ptree) (va : Z) : Prop := xlate m T va ≠ 0.
(** the [n] addresses from [va] on are in pages the process may access *)
Definition accessible (m : gmap Z Z) (T : ptree) (va n : Z) : Prop := ∀ i, 0 ≤ i < n → umapped m T (va + i).
(** the byte at a user virtual address *)
Definition uld (m : gmap Z Z) (T : ptree) (va : Z) : Z := ld8 m (upa m T va).
Definition uld_bytes (m : gmap Z Z) (T : ptree) (va n : Z) : list Z := (λ i, uld m T (va + i)) <$> seqZ 0 n.

(** The pages a process sees are not its page tables, and no two of its virtual
    pages share a physical page. *)
Record uspace (m : gmap Z Z) (root : Z) (T : ptree) : Prop := {
  us_tree : pt_rep m root T;
  us_table va : 0 ≤ va → umapped m T va → ¬ table root T (xlate m T va);
  us_inj va va' : 0 ≤ va → 0 ≤ va' → umapped m T va → xlate m T va = xlate m T va' →
    PGROUNDDOWN va = PGROUNDDOWN va';
}.

Lemma umapped_max m T va : umapped m T va → va < MAXVA.
Proof. unfold umapped, xlate. destruct (Z.leb_spec MAXVA va); [done|lia]. Qed.
Lemma accessible_max m T va n : accessible m T va n → 0 < n → va + n ≤ MAXVA.
Proof. intros H Hn. pose proof (umapped_max _ _ _ (H (n - 1) ltac:(lia))). lia. Qed.
Lemma accessible_sub m T va n va' n' : accessible m T va n → va ≤ va' → va' + n' ≤ va + n → accessible m T va' n'.
Proof. intros H H1 H2 i Hi. replace (va' + i) with (va + (va' - va + i)) by lia. apply H. lia. Qed.
(** access depends on the leaf entries only *)
Lemma xlate_pte m m' T va : (∀ v, pte_of m' T v = pte_of m T v) → xlate m' T va = xlate m T va.
Proof. intros H. unfold xlate, user_pa. by rewrite H. Qed.
Lemma accessible_pte m m' T va n : (∀ v, pte_of m' T v = pte_of m T v) → accessible m T va n → accessible m' T va n.
Proof. intros H Ha i Hi. unfold umapped. rewrite (xlate_pte m m') by done. by apply Ha. Qed.

Lemma PTE2PA_aligned v : 0 ≤ v → aligned (PTE2PA v).
Proof.
  intros Hv. unfold PTE2PA, aligned, u64. rewrite Z.shiftl_mul_pow2 by lia.
  change (2 ^ 64) with (2 ^ 52 * 2 ^ 12). rewrite Zmult_mod_distr_r. apply Z.mod_mul. done.
Qed.

Lemma PTE2PA_range v : 0 ≤ PTE2PA v.
Proof. unfold PTE2PA. apply u64_range. Qed.

Lemma user_pa_aligned m T va : aligned (user_pa m T va).
Proof.
  unfold user_pa, pte_of. case_bool; [|done]. apply PTE2PA_aligned.
  destruct (pte_slot T va); [apply ld64_range|done].
Qed.

Lemma xlate_aligned m T va : aligned (xlate m T va).
Proof. unfold xlate. case_bool; [done|apply user_pa_aligned]. Qed.

Lemma xlate_page m T va va' : PGROUNDDOWN va = PGROUNDDOWN va' → xlate m T va = xlate m T va'.
Proof.
  intros E. unfold xlate. rewrite E. pose proof (PGROUNDDOWN_bounds va). pose proof (PGROUNDDOWN_bounds va').
  pose proof (PGROUNDDOWN_aligned va). unfold aligned in *. 
  replace (MAXVA <=? va) with (MAXVA <=? va') by (consts; Z.div_mod_to_equations; lia). done.
Qed.

Lemma PGROUNDDOWN_same va x : PGROUNDDOWN va ≤ x < PGROUNDDOWN va + PGSIZE → PGROUNDDOWN x = PGROUNDDOWN va.
Proof. rewrite !PGROUNDDOWN_eq. consts. intros. Z.div_mod_to_equations. lia. Qed.

Lemma chunk_spec va len : 0 < len → 
  0 < chunk va len ≤ len ∧ va + chunk va len ≤ PGROUNDDOWN va + PGSIZE ∧
  (chunk va len < len → va + chunk va len = PGROUNDDOWN va + PGSIZE).
Proof.
  intros Hl. pose proof (PGROUNDDOWN_bounds va). unfold chunk. case_bool; lia.
Qed.

(** Stores outside the tables leave the translation alone. *)
Lemma xlate_frame m m' root T va :
  (∀ p a, table root T p → in_page p a → ld8 m' a = ld8 m a) →
  xlate m' T va = xlate m T va.
Proof.
  intros Hm. unfold xlate, user_pa. by rewrite (pte_of_frame m root T m').
Qed.

Lemma uspace_frame m m' root T :
  uspace m root T → (∀ p a, table root T p → in_page p a → ld8 m' a = ld8 m a) → uspace m' root T.
Proof.
  intros [HT Ht Hi] Hm.
  assert (∀ va, xlate m' T va = xlate m T va) as E by (intros va; by eapply xlate_frame).
  constructor; unfold umapped.
  - by apply (pt_rep_frame _ _ _ HT).
  - intros va. rewrite E. apply Ht.
  - intros va va'. rewrite !E. apply Hi.
Qed.

Lemma uld_bytes_app m T va n k : 0 ≤ n → 0 ≤ k →
  uld_bytes m T va (n + k) = uld_bytes m T va n ++ uld_bytes m T (va + n) k.
Proof.
  intros Hn Hk. unfold uld_bytes. rewrite seqZ_app by lia. rewrite fmap_app. f_equal.
  replace (0 + n) with (n + 0) by lia. rewrite <- fmap_add_seqZ. rewrite <- list_fmap_compose.
  apply list_fmap_ext. intros i x _. simpl. f_equal. lia.
Qed.

Lemma uld_bytes_chunk m T va n : va + n ≤ PGROUNDDOWN va + PGSIZE →
  ld_bytes m (upa m T va) n = uld_bytes m T va n.
Proof.
  intros Hn. unfold uld_bytes, uld. rewrite ld_bytes_map. apply list_fmap_ext. intros i x Hx.
  apply lookup_seqZ in Hx as [-> Hi]. f_equal. unfold upa.
  pose proof (PGROUNDDOWN_bounds va).
  assert (PGROUNDDOWN (va + (0 + Z.of_nat i)) = PGROUNDDOWN va) as E by (apply PGROUNDDOWN_same; lia).
  rewrite E, (xlate_page m T _ va E). lia.
Qed.

(** [m'] is [m] with the first [k] bytes of [src] stored at user address [d]. *)
Record uwrote (m : gmap Z Z) (T : ptree) (d : Z) (src : list Z) (k : Z) (m' : gmap Z Z) : Prop := {
  uw_new i : 0 ≤ i < k → ld8 m' (upa m T (d + i)) = default 0 (src !! Z.to_nat i) mod 256;
  uw_old a : (∀ i, 0 ≤ i < k → a ≠ upa m T (d + i)) → ld8 m' a = ld8 m a;
}.

Section Writes.
Context (m : gmap Z Z) (root : Z) (T : ptree) (HU : uspace m root T).

Lemma upa_inj va va' : 0 ≤ va → 0 ≤ va' → umapped m T va → upa m T va = upa m T va' → va = va'.
Proof using HU.
  intros H H' Hm E. unfold upa in E. pose proof (xlate_aligned m T va). pose proof (xlate_aligned m T va').
  pose proof (PGROUNDDOWN_bounds va). pose proof (PGROUNDDOWN_bounds va').
  assert (xlate m T va = xlate m T va') as Ex by (unfold aligned in *; consts; Z.div_mod_to_equations; lia).
  pose proof (us_inj _ _ _ HU va va' H H' Hm Ex). lia.
Qed.

Lemma upa_in_page va : in_page (xlate m T va) (upa m T va).
Proof. unfold in_page, upa. pose proof (PGROUNDDOWN_bounds va). lia. Qed.

Lemma uwrote_table d src k m' :
  uwrote m T d src k m' → 0 ≤ d → (∀ i, 0 ≤ i < k → umapped m T (d + i)) →
  ∀ p a, table root T p → in_page p a → ld8 m' a = ld8 m a.
Proof using HU.
  intros HW Hd Hm p a Hp Ha. apply (uw_old _ _ _ _ _ _ HW). intros i Hi ->.
  apply (us_table _ _ _ HU (d + i)); [lia|by apply Hm|].
  destruct (decide (xlate m T (d + i) = p)) as [->|Hne]; [done|]. exfalso.
  refine (pages_apart _ _ _ _ _ Hne (upa_in_page _) Ha); [apply xlate_aligned|].
  by eapply table_aligned; [apply HU|].
Qed.

Lemma uwrote_chunk d src k n m' :
  uwrote m T d src k m' → 0 ≤ d → 0 ≤ k → 0 < n → k + n ≤ Z.of_nat (length src) →
  (∀ i, 0 ≤ i < k → umapped m T (d + i)) → d + k + n ≤ PGROUNDDOWN (d + k) + PGSIZE →
  uwrote m T d src (k + n) (st_bytes m' (upa m T (d + k)) (take (Z.to_nat n) (drop (Z.to_nat k) src))).
Proof using HU.
  intros HW Hd Hk Hn Hlen Hm Hpg. pose proof (PGROUNDDOWN_bounds (d + k)).
  assert (∀ i, 0 ≤ i < n → upa m T (d + (k + i)) = upa m T (d + k) + i) as Hup.
  { intros i Hi. unfold upa. assert (PGROUNDDOWN (d + (k + i)) = PGROUNDDOWN (d + k)) as E
      by (apply PGROUNDDOWN_same; lia). rewrite E, (xlate_page m T _ _ E). lia. }
  constructor.
  - intros i Hi. rewrite ld8_st_bytes, length_take, length_drop. destruct (decide (i < k)).
    + rewrite <- (uw_new _ _ _ _ _ _ HW) by lia.
      destruct (_ && _) eqn:Hb; [exfalso|done].
      assert (d + i = d + (k + (upa m T (d + i) - upa m T (d + k)))); [|lia].
      apply upa_inj; [lia|lia|apply Hm; lia|]. rewrite Hup; lia.
    + replace i with (k + (i - k)) by lia. rewrite Hup by lia.
      bool_true ((upa m T (d + k) <=? upa m T (d + k) + (i - k)) &&
        (upa m T (d + k) + (i - k) <? upa m T (d + k) + Z.of_nat (Z.to_nat n `min` (length src - Z.to_nat k)))).
      rewrite lookup_take_lt, lookup_drop by lia. do 3 f_equal. lia.
  - intros a Ha. rewrite ld8_st_bytes, length_take, length_drop.
    destruct (_ && _) eqn:Hb.
    + exfalso. apply (Ha (k + (a - upa m T (d + k)))); [lia|]. rewrite Hup; lia.
    + apply (uw_old _ _ _ _ _ _ HW). intros i Hi. apply Ha. lia.
Qed.

(** What the address space reads after the write. *)
Lemma uwrote_uld d src k m' va :
  uwrote m T d src k m' → 0 ≤ d → 0 ≤ k → (∀ i, 0 ≤ i < k → umapped m T (d + i)) →
  0 ≤ va → umapped m T va →
  uld m' T va = if decide (d ≤ va < d + k) then default 0 (src !! Z.to_nat (va - d)) mod 256 else uld m T va.
Proof using HU.
  intros HW Hd Hk Hm Hva Hmv. unfold uld at 1.
  assert (upa m' T va = upa m T va) as ->.
  { unfold upa. by rewrite (xlate_frame m m' root T va) by by eapply uwrote_table. }
  case_decide as E.
  - replace (upa m T va) with (upa m T (d + (va - d))) by (f_equal; lia). apply (uw_new _ _ _ _ _ _ HW). lia.
  - apply (uw_old _ _ _ _ _ _ HW). intros i Hi Ea. apply upa_inj in Ea; [lia..|done].
Qed.

End Writes.

Lemma copystr_spec k m p dst max :
  (∃ n, 0 ≤ n < Z.of_nat k ∧ ld8 m (p + n) = 0 ∧ (∀ i, 0 ≤ i < n → ld8 m (p + i) ≠ 0) ∧
        copystr k m p dst max = (true, dst ++ ld_bytes m p (n + 1), max - n)) ∨
  ((∀ i, 0 ≤ i < Z.of_nat k → ld8 m (p + i) ≠ 0) ∧
   copystr k m p dst max = (false, dst ++ ld_bytes m p (Z.of_nat k), max - Z.of_nat k)).
Proof.
  revert p dst max. induction k as [|k IH]; intros p dst max; cbn [copystr].
  - right. split; [lia|]. rewrite ld_bytes_map, Z.sub_0_r, app_nil_r. done.
  - destruct (Z.eqb_spec (ld8 m p) 0) as [E|E].
    + left. exists 0. rewrite Z.add_0_r. split_and!; try done; try lia.
      rewrite ld_bytes_cons, E, ld_bytes_map, Z.sub_0_r by lia. done.
    + assert (∀ i, 0 ≤ i → (i = 0 ∨ ld8 m (p + 1 + (i - 1)) ≠ 0) → ld8 m (p + i) ≠ 0) as Hs.
      { intros i Hi. replace (p + 1 + (i - 1)) with (p + i) by lia. intros [->|?]; [by rewrite Z.add_0_r|done]. }
      destruct (IH (p + 1) (dst ++ [ld8 m p]) (max - 1)) as [(n & Hn & Hz & Hnz & ->)|[Hnz ->]].
      * left. exists (n + 1). replace (p + (n + 1)) with (p + 1 + n) by lia. split_and!; try done; try lia.
        -- intros i Hi. apply Hs; [lia|]. destruct (decide (i = 0)); [by left|right]. apply Hnz. lia.
        -- rewrite (ld_bytes_cons m p (n + 1 + 1)) by lia. rewrite <- app_assoc.
           replace (n + 1 + 1 - 1) with (n + 1) by lia. simpl. f_equal. lia.
      * right. split.
        -- intros i Hi. apply Hs; [lia|]. destruct (decide (i = 0)); [by left|right]. apply Hnz. lia.
        -- rewrite (ld_bytes_cons m p (Z.of_nat (S k))) by lia. rewrite <- app_assoc.
           replace (Z.of_nat (S k) - 1) with (Z.of_nat k) by lia. simpl. f_equal. lia.
Qed.

Lemma uld_chunk m T va i : umapped m T va → 0 ≤ i < PGROUNDDOWN va + PGSIZE - va →
  umapped m T (va + i) ∧ uld m T (va + i) = ld8 m (upa m T va + i).
Proof.
  intros Hm Hi. pose proof (PGROUNDDOWN_bounds va).
  assert (PGROUNDDOWN (va + i) = PGROUNDDOWN va) as Ep by (apply PGROUNDDOWN_same; lia).
  unfold umapped, uld, upa. rewrite Ep, (xlate_page _ _ _ va Ep). split; [done|]. f_equal. lia.
Qed.

Section Copies.
Context `{PA : PageAlloc} (root : Z) (T : ptree).

Lemma wp_walkaddr s va (Q : Z → phys → Prop) E :
  pt_rep (mem s) root T → 0 ≤ va → Q (xlate (mem s) T va) s →
  wp (walkaddr root (PGROUNDDOWN va)) Q E s.
Proof.
  intros HT Hva HQ. pose proof (PGROUNDDOWN_bounds va). pose proof (PGROUNDDOWN_aligned va).
  eapply wp_eq.
  - apply walkaddr_lookup; [done|]. rewrite PGROUNDDOWN_eq. consts. Z.div_mod_to_equations. lia.
  - unfold xlate in HQ. replace (MAXVA <=? PGROUNDDOWN va) with (MAXVA <=? va); [done|].
    unfold aligned in *. consts. Z.div_mod_to_equations. lia.
Qed.

(** copyin() either copies the bytes of the range or stops at an address the
    user has not mapped; it never writes memory. *)
Lemma copyin_ok s srcva len :
  pt_rep (mem s) root T → 0 ≤ srcva < 2 ^ 64 → 0 ≤ len < 2 ^ 64 →
  wp (copyin root srcva len) (λ r s', s' = s ∧
    ((r = (0, uld_bytes (mem s) T srcva len) ∧ ∀ i, 0 ≤ i < len → umapped (mem s) T (srcva + i)) ∨
     ∃ k, 0 ≤ k < len ∧ r = (-1, uld_bytes (mem s) T srcva k) ∧ ¬ umapped (mem s) T (srcva + k)))
    nopanic s.
Proof.
  intros HT Hva Hlen. unfold copyin.
  apply (wp_loop _ (λ '(dst, va, l) s', s' = s ∧ 0 ≤ l ≤ len ∧ 0 ≤ va < 2 ^ 64 ∧
    dst = uld_bytes (mem s) T srcva (len - l) ∧ (0 < l → va = srcva + (len - l)) ∧
    ∀ i, 0 ≤ i < len - l → umapped (mem s) T (srcva + i)) (λ x _, x.2)).
  2: { split_and!; try done; try lia. by rewrite Z.sub_diag. }
  2: { done. }
  intros [[dst va] l] s' (-> & Hl & Hva' & -> & Heq & Hm). destruct (Z.ltb_spec 0 l) as [Hpos|Hz].
  - specialize (Heq Hpos). apply wp_bind, wp_walkaddr; [done|lia|].
    destruct (Z.eqb_spec (xlate (mem s) T va) 0) as [E|E].
    + apply wp_ret. split; [done|]. right. exists (len - l). split; [lia|]. split; [done|].
      rewrite <- Heq. intros Hu. by apply Hu.
    + wp_go. destruct (chunk_spec va l Hpos) as (Hc & Hce & Hcn). pose proof (PGROUNDDOWN_bounds va).
      assert (va < MAXVA) by (unfold xlate in E; destruct (Z.leb_spec MAXVA va); [done|lia]).
      change (xlate (mem s) T va + (va - PGROUNDDOWN va)) with (upa (mem s) T va).
      split; [|cbn [snd]; lia]. split; [done|]. rewrite u64_small by (consts; lia).
      rewrite uld_bytes_chunk by lia. split_and!; try lia.
      * consts; lia.
      * replace (len - (l - chunk va l)) with ((len - l) + chunk va l) by lia.
        rewrite (uld_bytes_app _ _ srcva) by lia. by rewrite <- Heq.
      * intros i Hi. destruct (decide (i < len - l)); [apply Hm; lia|].
        unfold umapped. rewrite (xlate_page _ _ _ va); [done|]. apply PGROUNDDOWN_same. lia.
  - apply wp_ret. assert (l = 0) as -> by lia. rewrite Z.sub_0_r in *. split; [done|]. left. done.
Qed.

(** copyout() either stores all of the buffer or stops at an address the user
    has not mapped, after storing what precedes it. *)
Lemma copyout_ok s dstva src :
  uspace (mem s) root T → 0 ≤ dstva < 2 ^ 64 → Z.of_nat (length src) < 2 ^ 64 →
  wp (copyout root dstva src (Z.of_nat (length src))) (λ r s', s' = set_mem (mem s') s ∧ ∃ k,
    uwrote (mem s) T dstva src k (mem s') ∧ (∀ i, 0 ≤ i < k → umapped (mem s) T (dstva + i)) ∧
    ((r = 0 ∧ k = Z.of_nat (length src)) ∨
     (r = -1 ∧ 0 ≤ k < Z.of_nat (length src) ∧ ¬ umapped (mem s) T (dstva + k))))
    nopanic s.
Proof.
  intros HU Hd Hlen. set (len := Z.of_nat (length src)) in *. unfold copyout.
  apply (wp_loop _ (λ '(va, b, l) s', s' = set_mem (mem s') s ∧ 0 ≤ l ≤ len ∧ 0 ≤ va < 2 ^ 64 ∧
    b = drop (Z.to_nat (len - l)) src ∧ (0 < l → va = dstva + (len - l)) ∧
    uwrote (mem s) T dstva src (len - l) (mem s') ∧
    ∀ i, 0 ≤ i < len - l → umapped (mem s) T (dstva + i)) (λ x _, x.2)).
  2: { rewrite Z.sub_diag. split_and!; try done; try lia; [by destruct s|]. constructor; [lia|done]. }
  2: { cbn [snd]. lia. }
  intros [[va b] l] s' (Hs' & Hl & Hva' & -> & Heq & HW & Hm). destruct (Z.ltb_spec 0 l) as [Hpos|Hz].
  - specialize (Heq Hpos).
    assert (∀ x, xlate (mem s') T x = xlate (mem s) T x) as Hx.
    { intros x. eapply (xlate_frame _ _ root). eapply (uwrote_table _ _ _ HU); [done|lia|done]. }
    apply wp_bind, wp_walkaddr; [eapply uspace_frame; [done|]|lia|].
    { eapply (uwrote_table _ _ _ HU); [done|lia|done]. }
    rewrite Hx. destruct (Z.eqb_spec (xlate (mem s) T va) 0) as [E|E].
    + apply wp_ret. split; [done|]. exists (len - l). split_and!; try done. right.
      split_and!; try done; try lia. rewrite <- Heq. intros Hu. by apply Hu.
    + wp_go. destruct (chunk_spec va l Hpos) as (Hc & Hce & Hcn). pose proof (PGROUNDDOWN_bounds va).
      assert (va < MAXVA) by (unfold xlate in E; destruct (Z.leb_spec MAXVA va); [done|lia]).
      change (xlate (mem s) T va + (va - PGROUNDDOWN va)) with (upa (mem s) T va).
      split; [|cbn [snd]; lia]. rewrite u64_small by (consts; lia). cbn [mem set_mem].
      replace (len - (l - chunk va l)) with ((len - l) + chunk va l) by lia.
      split_and!; try (consts; lia).
      * rewrite Hs'. by destruct s.
      * rewrite drop_drop. f_equal. lia.
      * subst va. apply uwrote_chunk with (root := root); try done; lia.
      * intros i Hi. destruct (decide (i < len - l)); [apply Hm; lia|].
        unfold umapped. rewrite (xlate_page _ _ _ va); [done|]. apply PGROUNDDOWN_same. lia.
  - apply wp_ret. assert (l = 0) as -> by lia. rewrite Z.sub_0_r in *. split; [done|]. exists len.
    split_and!; try done. by left.
Qed.

(** The outcome of copyinstr(): the string with its NUL; or -1, at an address
    the user has not mapped or after [max] bytes without a NUL. *)
Definition instr_result (m : gmap Z Z) (va max : Z) (r : Z * list Z) : Prop :=
  ∃ n, 0 ≤ n ≤ max ∧ (∀ i, 0 ≤ i < n → umapped m T (va + i) ∧ uld m T (va + i) ≠ 0) ∧
  ((n < max ∧ umapped m T (va + n) ∧ uld m T (va + n) = 0 ∧ r = (0, uld_bytes m T va (n + 1))) ∨
   (n < max ∧ ¬ umapped m T (va + n) ∧ r = (-1, uld_bytes m T va n)) ∨
   (n = max ∧ r = (-1, uld_bytes m T va n))).

Lemma copyinstr_ok s srcva max :
  pt_rep (mem s) root T → 0 ≤ srcva < 2 ^ 64 → 0 ≤ max < 2 ^ 64 →
  wp (copyinstr root srcva max) (λ r s', s' = s ∧ instr_result (mem s) srcva max r) nopanic s.
Proof.
  intros HT Hva Hmax. unfold copyinstr.
  apply (wp_loop _ (λ '(dst, va, l, got) s', s' = s ∧ 0 ≤ va < 2 ^ 64 ∧
    if (got : bool) then instr_result (mem s) srcva max (0, dst)
    else 0 ≤ l ≤ max ∧ dst = uld_bytes (mem s) T srcva (max - l) ∧ (0 < l → va = srcva + (max - l)) ∧
         ∀ i, 0 ≤ i < max - l → umapped (mem s) T (srcva + i) ∧ uld (mem s) T (srcva + i) ≠ 0)
    (λ x _, if x.2 then 0 else x.1.2)).
  2: { cbn iota. split_and!; try done; try lia. by rewrite Z.sub_diag. }
  2: { cbn [snd fst]. lia. }
  intros [[[dst va] l] got] s' (-> & Hva' & HI). destruct got; cbn [negb andb].
  { apply wp_ret. done. }
  destruct HI as (Hl & -> & Heq & Hm). destruct (Z.ltb_spec 0 l) as [Hpos|Hz].
  - specialize (Heq Hpos). apply wp_bind, wp_walkaddr; [done|lia|].
    destruct (Z.eqb_spec (xlate (mem s) T va) 0) as [E|E].
    + apply wp_ret. split; [done|]. exists (max - l). split; [lia|]. split; [done|]. right. left.
      split_and!; [lia| |done]. rewrite <- Heq. intros Hu. by apply Hu.
    + wp_go. destruct (chunk_spec va l Hpos) as (Hc & Hce & Hcn). pose proof (PGROUNDDOWN_bounds va).
      assert (va < MAXVA) by (unfold xlate in E; destruct (Z.leb_spec MAXVA va); [done|lia]).
      change (xlate (mem s) T va + (va - PGROUNDDOWN va)) with (upa (mem s) T va).
      assert (∀ i, 0 ≤ i < chunk va l → umapped (mem s) T (srcva + (max - l + i)) ∧
        uld (mem s) T (srcva + (max - l + i)) = ld8 (mem s) (upa (mem s) T va + i)) as Hchunk.
      { intros i Hi. replace (srcva + (max - l + i)) with (va + i) by lia. by apply uld_chunk; [|lia]. }
      assert (∀ n, 0 ≤ n ≤ chunk va l →
        uld_bytes (mem s) T srcva (max - l) ++ ld_bytes (mem s) (upa (mem s) T va) n =
        uld_bytes (mem s) T srcva (max - l + n)) as Happ.
      { intros n Hn. rewrite uld_bytes_app, <- Heq, uld_bytes_chunk by lia. done. }
      assert (∀ n, n ≤ chunk va l → (∀ i, 0 ≤ i < n → ld8 (mem s) (upa (mem s) T va + i) ≠ 0) →
        ∀ i, 0 ≤ i < max - l + n → umapped (mem s) T (srcva + i) ∧ uld (mem s) T (srcva + i) ≠ 0) as Hnz'.
      { intros n Hn Hnz i Hi. destruct (decide (i < max - l)); [apply Hm; lia|].
        destruct (Hchunk (i - (max - l)) ltac:(lia)) as [Hu Hv].
        replace (max - l + (i - (max - l))) with i in * by lia. rewrite Hv. split; [done|]. apply Hnz. lia. }
      rewrite u64_small by (consts; lia).
      destruct (copystr_spec (Z.to_nat (chunk va l)) (mem s) (upa (mem s) T va)
        (uld_bytes (mem s) T srcva (max - l)) l) as [(n & Hn & Hz0 & Hnz & ->)|[Hnz ->]];
        rewrite Z2Nat.id in * by lia; apply wp_ret; cbn [fst snd].
      * split; [|lia]. split; [done|]. split; [consts; lia|]. destruct (Hchunk n ltac:(lia)) as [Hu Hv].
        exists (max - l + n). split; [lia|]. split; [apply Hnz'; [lia|done]|]. left.
        split; [lia|]. split; [done|]. split; [congruence|]. rewrite Happ by lia. do 2 f_equal. lia.
      * split; [|lia]. split; [done|]. split; [consts; lia|].
        replace (max - (l - chunk va l)) with (max - l + chunk va l) by lia.
        split_and!; [lia|lia|by rewrite Happ by lia|lia|]. by apply Hnz'.
  - apply wp_ret. assert (l = 0) as -> by lia. rewrite Z.sub_0_r in *. split; [done|]. exists max.
    split; [lia|]. split; [done|]. by right; right.
Qed.

End Copies.
