(* ===== verification/Uvm.v ===== *)
(** The user part of an address space: uvmalloc(), uvmdealloc(), uvmunmap() and
    uvmcopy() against an ownership invariant.

    [uvm A root T s P] says that exactly the pages of [P] are mapped below the
    trapframe, each by a readable leaf to a page of RAM that the allocator counts
    once, no two to the same page and none to a page table.  A leaf need not have
    PTE_U: exec() puts a page without it below the stack with uvmclear(), as a
    guard. *)

From S2P Require Import Prelude Mem Layout Kalloc Vm PageTable VmProofs UserMem.

(** the page a leaf maps *)
Definition upage (m : gmap Z Z) (T : ptree) (va : Z) : Z := PTE2PA (pte_of m T va).

Lemma leaf_user pa perm : pte_pa pa → Z.testbit (leaf pa perm) 4 = Z.testbit perm 4.
Proof.
  intros Hpa. unfold leaf. rewrite PA2PTE_eq by done. rewrite !Z.lor_spec. change (Z.testbit PTE_V 4) with false. rewrite orb_false_r.
  rewrite Z.shiftl_spec_low by lia. done.
Qed.

Section Uvm.
Context `{PA : PageAlloc}.

Record uvm (A : alloc_st) (root : Z) (T : ptree) (s : phys) (P : Z → Prop) : Prop := {
  uv_vm : vm_inv A root T s;
  uv_leaf va : aligned va → 0 ≤ va < TRAPFRAME → P va → ∃ pa perm,
    pte_of (mem s) T va = leaf pa perm ∧ 0 ≤ perm < 1024 ∧ Z.testbit perm 1 = true ∧
    phys_page pa ∧ refs A !! pa = Some 1 ∧ ¬ table root T pa;
  uv_inj va va' : aligned va → 0 ≤ va < TRAPFRAME → P va → aligned va' → 0 ≤ va' < TRAPFRAME → P va' →
    upage (mem s) T va = upage (mem s) T va' → va = va';
  uv_none va : aligned va → 0 ≤ va < TRAPFRAME → ¬ P va → Z.testbit (pte_of (mem s) T va) 0 = false;
  uv_high va : aligned va → TRAPFRAME ≤ va < MAXVA → Z.testbit (pte_of (mem s) T va) 4 = false;
}.

(** The pages an address space is made of. *)
Definition foot (root : Z) (T : ptree) (m : gmap Z Z) (P : Z → Prop) (p : Z) : Prop :=
  table root T p ∨ ∃ va, aligned va ∧ 0 ≤ va < TRAPFRAME ∧ P va ∧ p = upage m T va.

(** Mappings and contents of the pages of [P] are the same. *)
Definition ukeep (m : gmap Z Z) (T : ptree) (m' : gmap Z Z) (T' : ptree) (P : Z → Prop) : Prop :=
  ∀ va, aligned va → 0 ≤ va < TRAPFRAME → P va →
    pte_of m' T' va = pte_of m T va ∧ ∀ a, in_page (upage m T va) a → ld8 m' a = ld8 m a.

Lemma ukeep_refl m T P : ukeep m T m T P.
Proof. done. Qed.

Lemma ukeep_trans m T m1 T1 m2 T2 (P : Z → Prop) :
  ukeep m T m1 T1 P → ukeep m1 T1 m2 T2 P → ukeep m T m2 T2 P.
Proof.
  intros H1 H2 va Ha Hr Hp. destruct (H1 va Ha Hr Hp) as [E1 B1]. destruct (H2 va Ha Hr Hp) as [E2 B2].
  split; [congruence|]. intros a Hin. rewrite B2; [by apply B1|]. unfold upage in *. by rewrite E1.
Qed.

Lemma ukeep_weaken m T m' T' (P P' : Z → Prop) : (∀ va, P' va → P va) → ukeep m T m' T' P → ukeep m T m' T' P'.
Proof. intros HP H va Ha Hr Hp. apply H; auto. Qed.

Lemma uvm_iff A root T s (P P' : Z → Prop) :
  (∀ va, aligned va → 0 ≤ va < TRAPFRAME → P va ↔ P' va) → uvm A root T s P → uvm A root T s P'.
Proof.
  intros HP []. constructor; [done| | | |done].
  - intros va Ha Hr Hp. apply uv_leaf0; [done..|]. by apply HP.
  - intros va va' Ha Hr Hp Ha' Hr' Hp'. apply uv_inj0; try done; by apply HP.
  - intros va Ha Hr Hp. apply uv_none0; [done..|]. by rewrite HP.
Qed.

Lemma uv_upage A root T s P va :
  uvm A root T s P → aligned va → 0 ≤ va < TRAPFRAME → P va →
  phys_page (upage (mem s) T va) ∧ refs A !! upage (mem s) T va = Some 1 ∧ ¬ table root T (upage (mem s) T va).
Proof.
  intros HU Ha Hr HP. destruct (uv_leaf _ _ _ _ _ HU va Ha Hr HP) as (pa & perm & E & Hperm & _ & Hpa & Hrf & Ht).
  unfold upage. rewrite E, leaf_pa by auto with cmem. done.
Qed.

Lemma foot_refs A root T s P p : uvm A root T s P → foot root T (mem s) P p → phys_page p ∧ is_Some (refs A !! p).
Proof.
  intros HU [Ht|(va & Ha & Hr & HP & ->)].
  - split; [|by apply (vi_tables (uv_vm _ _ _ _ _ HU))].
    by apply (pr_page _ _ _ (vi_tree (uv_vm _ _ _ _ _ HU))).
  - destruct (uv_upage _ _ _ _ _ _ HU Ha Hr HP) as (Hp & Hrf & _). eauto.
Qed.

(** An address space is untouched by changes outside its pages. *)
Lemma uvm_frame A A' root T s s' P :
  uvm A root T s P → pg_rep A' s' →
  (∀ p c, foot root T (mem s) P p → refs A !! p = Some c → refs A' !! p = Some c) →
  (∀ p a, foot root T (mem s) P p → in_page p a → ld8 (mem s') a = ld8 (mem s) a) →
  uvm A' root T s' P ∧ ukeep (mem s) T (mem s') T P.
Proof.
  intros HU HA' Hrf Hm.
  assert (∀ va, pte_of (mem s') T va = pte_of (mem s) T va) as Hpte.
  { intros va. apply (pte_of_frame _ root). intros p a Hp. apply Hm. by left. }
  assert (∀ va, upage (mem s') T va = upage (mem s) T va) as Hup by (intros va; unfold upage; by rewrite Hpte).
  split.
  - constructor.
    + constructor; [done| |].
      * apply (pt_rep_frame _ _ _ (vi_tree (uv_vm _ _ _ _ _ HU))). intros p a Hp. apply Hm. by left.
      * intros p Hp. apply Hrf; [by left|]. by apply (vi_owned (uv_vm _ _ _ _ _ HU)).
    + intros va Ha Hr HP. destruct (uv_leaf _ _ _ _ _ HU va Ha Hr HP) as (pa & perm & E & Hperm & Hb & Hpa & Hc & Ht).
      exists pa, perm. rewrite Hpte. split_and!; try done; try lia. apply Hrf; [|done].
      right. exists va. split_and!; try done; try lia. unfold upage. by rewrite E, leaf_pa by auto with cmem.
    + intros va va' Ha Hr HP Ha' Hr' HP'. rewrite !Hup. by apply (uv_inj _ _ _ _ _ HU).
    + intros va. rewrite Hpte. apply (uv_none _ _ _ _ _ HU).
    + intros va. rewrite Hpte. apply (uv_high _ _ _ _ _ HU).
  - intros va Ha Hr HP. split; [done|]. intros a Hin. eapply Hm; [|done]. right. eauto 10.
Qed.

(** * The copies' view of the address space *)

Lemma PGROUNDDOWN_range va hi : aligned hi → 0 ≤ va < hi → 0 ≤ PGROUNDDOWN va < hi.
Proof. intros Ha H. rewrite PGROUNDDOWN_eq. unfold aligned in *. consts. Z.div_mod_to_equations. lia. Qed.

Lemma pte_of_page m T va : pte_of m T (PGROUNDDOWN va) = pte_of m T va.
Proof. unfold pte_of, pte_slot. by rewrite !PX_PGROUNDDOWN by lia. Qed.

Lemma uvm_xlate A root T s (P : Z → Prop) va :
  uvm A root T s P → (∀ v, P v ∨ ¬ P v) → 0 ≤ va → 
  xlate (mem s) T va ≠ 0 → 0 ≤ PGROUNDDOWN va < TRAPFRAME ∧ P (PGROUNDDOWN va) ∧
    xlate (mem s) T va = upage (mem s) T (PGROUNDDOWN va).
Proof.
  intros HU HdP Hva. unfold xlate, upage. destruct (Z.leb_spec MAXVA va) as [|Hlt]; [done|].
  unfold user_pa. set (v := PGROUNDDOWN va).
  assert (0 ≤ v < MAXVA) as Hv by (by apply PGROUNDDOWN_range). pose proof (PGROUNDDOWN_aligned va : aligned v) as Hav.
  destruct (Z.testbit (pte_of (mem s) T v) 0) eqn:E0; [|done].
  destruct (Z.testbit (pte_of (mem s) T v) 4) eqn:E4; [|done]. cbn [andb]. intros _.
  assert (v < TRAPFRAME) as HT.
  { destruct (decide (v < TRAPFRAME)); [done|]. by rewrite (uv_high _ _ _ _ _ HU) in E4 by (done || lia). }
  split; [lia|]. split; [|done]. destruct (HdP v) as [|Hn]; [done|].
  by rewrite (uv_none _ _ _ _ _ HU) in E0 by (done || lia).
Qed.

Lemma uvm_uspace A root T s (P : Z → Prop) :
  uvm A root T s P → (∀ v, P v ∨ ¬ P v) → uspace (mem s) root T.
Proof.
  intros HU HdP. constructor; [apply HU| |].
  - intros va Hva Hm. destruct (uvm_xlate _ _ _ _ _ va HU HdP Hva Hm) as (Hr & HP & ->).
    apply (uv_upage _ _ _ _ _ _ HU); [apply PGROUNDDOWN_aligned|done|done].
  - intros va va' Hva Hva' Hm E. unfold umapped in Hm.
    destruct (uvm_xlate _ _ _ _ _ va HU HdP Hva Hm) as (Hr & HP & E1).
    destruct (uvm_xlate _ _ _ _ _ va' HU HdP Hva' ltac:(congruence)) as (Hr' & HP' & E2).
    apply (uv_inj _ _ _ _ _ HU); try apply PGROUNDDOWN_aligned; try done. congruence.
Qed.

(** [va] is in a page of the image that the process may access. *)
Lemma uvm_umapped A root T s (P : Z → Prop) va :
  uvm A root T s P → 0 ≤ va < TRAPFRAME → P (PGROUNDDOWN va) →
  umapped (mem s) T va ↔ Z.testbit (pte_of (mem s) T (PGROUNDDOWN va)) 4 = true.
Proof.
  intros HU Hva HP. assert (0 ≤ PGROUNDDOWN va < TRAPFRAME) as Hr by (by apply PGROUNDDOWN_range).
  destruct (uv_leaf _ _ _ _ _ HU _ (PGROUNDDOWN_aligned va) Hr HP) as (pa & perm & E & Hperm & Hb & Hpa & _).
  unfold umapped, xlate. assert ((MAXVA <=? va) = false) as -> by (consts; lia). unfold user_pa. rewrite E, leaf_valid.
  destruct (Z.testbit (leaf pa perm) 4); cbn [andb]; [|done].
  rewrite leaf_pa by auto with cmem. destruct Hpa as [_ Hpa]. consts. split; [done|lia].
Qed.

(** * Growing *)

(** Growing an address space takes pages from the free list only, all of them for
    the address space, and leaves the allocated pages that are not its own tables
    alone. *)
Record ugrow (A : alloc_st) (root : Z) (T : ptree) (s : phys) (P : Z → Prop)
    (A' : alloc_st) (T' : ptree) (s' : phys) (P' : Z → Prop) : Prop := {
  ug_uvm : uvm A' root T' s' P';
  ug_keep : ukeep (mem s) T (mem s') T' P;
  ug_refs p c : refs A !! p = Some c → refs A' !! p = Some c;
  ug_mem p a : is_Some (refs A !! p) → ¬ table root T p → in_page p a → ld8 (mem s') a = ld8 (mem s) a;
  ug_free p : p ∈ free A' → p ∈ free A;
  ug_table p : table root T' p → table root T p ∨ p ∈ free A;
  ug_foot p : foot root T' (mem s') P' p → foot root T (mem s) P p ∨ p ∈ free A;
  ug_high va : aligned va → TRAPFRAME ≤ va < MAXVA → pte_of (mem s') T' va = pte_of (mem s) T va;
  ug_sub va : aligned va → 0 ≤ va < TRAPFRAME → P va → P' va;
  ug_old p : table root T p → table root T' p;
  ug_leak p : p ∈ free A → p ∈ free A' ∨ foot root T' (mem s') P' p;
}.

Lemma free_not_refs A s p : pg_rep A s → p ∈ free A → refs A !! p = None.
Proof.
  intros HA Hp. destruct (refs A !! p) eqn:E; [|done]. exfalso.
  destruct (pg_refs_page A s p HA ltac:(eauto)) as [_ Hn]. done.
Qed.

Lemma ugrow_refl A root T s P : uvm A root T s P → ugrow A root T s P A T s P.
Proof. intros HU. constructor; auto using ukeep_refl. Qed.

Lemma ugrow_iff A root T s P A' T' s' (P' P'' : Z → Prop) :
  (∀ va, aligned va → 0 ≤ va < TRAPFRAME → P' va ↔ P'' va) →
  ugrow A root T s P A' T' s' P' → ugrow A root T s P A' T' s' P''.
Proof.
  intros HP []. constructor; try done; [by eapply uvm_iff| | |].
  - intros p [Ht|(va & Ha & Hr & HPv & ->)]; apply ug_foot0; [by left|]. right. exists va.
    split_and!; try done; try lia. by apply HP.
  - intros va Ha Hr HPv. apply HP; auto.
  - intros p Hp. destruct (ug_leak0 p Hp) as [|[|(va & Ha & Hr & HPv & ->)]]; [by left|by right; left|].
    right. right. exists va. split_and!; try done; try lia. by apply HP.
Qed.

Lemma ugrow_trans A root T s P A1 T1 s1 P1 A2 T2 s2 P2 :
  pg_rep A s → (∀ va, P va → P1 va) →
  ugrow A root T s P A1 T1 s1 P1 → ugrow A1 root T1 s1 P1 A2 T2 s2 P2 → ugrow A root T s P A2 T2 s2 P2.
Proof.
  intros HA HP [] []. constructor; auto.
  - eapply ukeep_trans; [done|]. by eapply ukeep_weaken.
  - intros p a [c Hc] Ht Hin. rewrite ug_mem1 with (p := p); [by apply (ug_mem0 p); eauto|eauto| |done].
    intros Ht1. destruct (ug_table0 p Ht1) as [|Hf]; [done|]. by rewrite (free_not_refs A s p HA Hf) in Hc.
  - intros p Hp. destruct (ug_table1 p Hp); auto.
  - intros p Hp. destruct (ug_foot1 p Hp); auto.
  - intros va Ha Hr. by rewrite ug_high1, ug_high0.
  - intros p Hp. destruct (ug_leak0 p Hp) as [|[|(va & Ha & Hr & HPv & ->)]]; [auto|right; left; auto|].
    right. right. exists va. split_and!; try lia; auto. unfold upage. by rewrite (proj1 (ug_keep1 va Ha Hr HPv)).
Qed.

(** A fresh page is not part of any address space. *)
Lemma vm_fresh A root T s x fl s1 m1 :
  vm_inv A root T s → free A = x :: fl → pg_rep (mkAlloc fl (<[x := 1]> (refs A))) s1 →
  same_outside x (mem s) (mem s1) → same_outside x (mem s) m1 →
  vm_inv (mkAlloc fl (<[x := 1]> (refs A))) root T (set_mem m1 s1) ∧
  (∀ va, pte_of m1 T va = pte_of (mem s) T va).
Proof.
  intros HI Hfl HA1 Hs1 Hm1. pose proof (not_table_free _ _ _ _ _ _ HI Hfl) as Hnx.
  assert (phys_page x) as Hx by (eapply (pg_free_page A s); [apply HI|rewrite Hfl; set_solver]).
  assert (∀ p a, table root T p → in_page p a → ld8 m1 a = ld8 (mem s) a) as Hm.
  { intros p a Hp Ha. apply Hm1. eapply pages_apart; [|apply Hx| |exact Ha].
    - by eapply table_aligned; [apply HI|].
    - by intros ->. }
  split; [|intros va; by apply (pte_of_frame _ root)].
  constructor.
  - apply pg_rep_mem; [done|]. intros y a Hy Ha. cbn [free] in Hy.
    pose proof (pg_nodup A s (vi_alloc HI)) as Hnd. rewrite Hfl in Hnd. apply NoDup_cons in Hnd as [Hxfl _].
    assert (¬ in_page x a).
    { eapply pages_apart; [|apply Hx| |exact Ha].
      - eapply (pg_free_page A s); [apply HI|]. rewrite Hfl. set_solver.
      - by intros ->. }
    by rewrite Hm1, Hs1.
  - by apply (pt_rep_frame _ _ _ (vi_tree HI)).
  - intros p Hp. cbn [refs]. rewrite lookup_insert. case_decide; [done|]. by apply (vi_owned HI).
Qed.

Lemma npages_page va : aligned va → npages va PGSIZE = 1 ∧ first_page va = va ∧ last_page va PGSIZE = va.
Proof.
  intros Ha. unfold npages, first_page, last_page. rewrite (PGROUNDDOWN_id va) by done.
  assert (PGROUNDDOWN (va + PGSIZE - 1) = va) as ->; [|by rewrite Z.sub_diag].
  rewrite PGROUNDDOWN_eq. unfold aligned in Ha. consts. Z.div_mod_to_equations. lia.
Qed.

Lemma in_span_page va va' : aligned va → aligned va' → in_span va PGSIZE va' ↔ va' = va.
Proof.
  intros Ha Ha'. destruct (npages_page va Ha) as (_ & E1 & E2). unfold in_span. rewrite E1, E2.
  rewrite (PGROUNDDOWN_id va') by done. lia.
Qed.

(** What the tables and the new page look like once the fresh page [x], with
    contents [m1], has been mapped at [va]. *)
Section MapPage.
Context (A : alloc_st) (root : Z) (T : ptree) (s : phys) (P : Z → Prop).
Context (x : Z) (fl : list Z) (s1 : phys) (m1 : gmap Z Z) (va perm : Z).
Context (HU : uvm A root T s P) (Hfl : free A = x :: fl).
Context (HA1 : pg_rep (mkAlloc fl (<[x := 1]> (refs A))) s1).
Context (Hs1 : same_outside x (mem s) (mem s1)) (Hm1 : same_outside x (mem s) m1).
Context (Ha : aligned va) (Hr : 0 ≤ va < TRAPFRAME) (HP : ¬ P va).
Context (Hperm : 0 ≤ perm < 1024) (Hpu : Z.testbit perm 1 = true).
Context (A2 : alloc_st) (T2 : ptree) (s2 : phys) (used : list Z).
Context (HG : grow root (mkAlloc fl (<[x := 1]> (refs A))) T (set_mem m1 s1) A2 T2 s2 used).
Context (HL : ∀ va', 0 ≤ va' < MAXVA → pte_of (mem s2) T2 va' =
  if decide (in_span va PGSIZE va') then leaf (x + (PGROUNDDOWN va' - first_page va)) perm else pte_of m1 T va').

Lemma map_x : phys_page x ∧ refs A !! x = None ∧ (x ∉ used) ∧ ¬ table root T x.
Proof using All.
  pose proof (vi_alloc (uv_vm _ _ _ _ _ HU)) as HA.
  split_and!.
  - eapply (pg_free_page A s); [done|rewrite Hfl; set_solver].
  - apply (free_not_refs A s); [done|rewrite Hfl; set_solver].
  - pose proof (pg_nodup A s HA) as Hnd. rewrite Hfl in Hnd. apply NoDup_cons in Hnd as [Hn _].
    pose proof (g_free HG) as E. cbn [free] in E. rewrite E in Hn. set_solver.
  - by eapply not_table_free; [apply HU|].
Qed.

Lemma map_used p : p ∈ used → p ∈ free A.
Proof using All. intros Hp. pose proof (g_free HG) as E. cbn [free] in E. rewrite Hfl, E. set_solver. Qed.

(** pages that were allocated and are not tables keep their bytes *)
Lemma map_mem p a : is_Some (refs A !! p) → ¬ table root T p → in_page p a → ld8 (mem s2) a = ld8 (mem s) a.
Proof using All.
  intros [c Hc] Ht Hin. pose proof (vi_alloc (uv_vm _ _ _ _ _ HU)) as HA.
  destruct (pg_refs_page A s p HA ltac:(eauto)) as [Hpp Hpf]. destruct map_x as (Hx & Hxr & Hxu & Hxt).
  rewrite (g_frame HG).
  - cbn [mem set_mem]. apply Hm1. eapply pages_apart; [apply Hpp|apply Hx|congruence|done].
  - intros q Hq. eapply pages_apart; [apply Hpp| |by intros ->|done].
    by eapply table_aligned; [apply (vi_tree (uv_vm _ _ _ _ _ HU))|].
  - intros q Hq. pose proof (map_used q Hq) as Hqf.
    eapply pages_apart; [apply Hpp|apply (pg_free_page A s q HA Hqf)|by intros ->|done].
Qed.

Lemma map_new a : in_page x a → ld8 (mem s2) a = ld8 m1 a.
Proof using All.
  intros Hin. destruct map_x as (Hx & Hxr & Hxu & Hxt). rewrite (g_frame HG); [done| |].
  - intros q Hq. eapply pages_apart; [apply Hx| |by intros ->|done].
    by eapply table_aligned; [apply (vi_tree (uv_vm _ _ _ _ _ HU))|].
  - intros q Hq. eapply pages_apart; [apply Hx| |by intros ->|done].
    apply (pg_free_page A s q (vi_alloc (uv_vm _ _ _ _ _ HU))). by apply map_used.
Qed.

Lemma map_pte va' : aligned va' → 0 ≤ va' < MAXVA →
  pte_of (mem s2) T2 va' = if decide (va' = va) then leaf x perm else pte_of (mem s) T va'.
Proof using All.
  intros Ha' Hr'. rewrite HL by done. destruct (vm_fresh _ _ _ _ _ _ _ _ (uv_vm _ _ _ _ _ HU) Hfl HA1 Hs1 Hm1) as [_ ->].
  rewrite (decide_ext _ (va' = va)) by by apply in_span_page.
  case_decide; [|done]. subst va'. unfold first_page. f_equal. lia.
Qed.

Lemma uvm_map : ugrow A root T s P A2 T2 s2 (λ v, P v ∨ v = va).
Proof using All.
  destruct map_x as (Hx & Hxr & Hxu & Hxt).
  assert (∀ p, table root T2 p → table root T p ∨ p ∈ free A) as Htab.
  { intros p Hp. destruct (g_new HG p Hp) as [|Hu]; [by left|right; by apply map_used]. }
  assert (∀ p c, refs A !! p = Some c → refs A2 !! p = Some c) as Hrefs.
  { intros p c Hp. apply (g_refs HG). cbn [refs]. rewrite lookup_insert_ne; [done|congruence]. }
  assert (∀ p, is_Some (refs A !! p) → ¬ table root T p → ¬ table root T2 p) as Hnt.
  { intros p [c Hc] Ht Ht2. destruct (Htab p Ht2) as [|Hf]; [done|].
    by rewrite (free_not_refs A s p (vi_alloc (uv_vm _ _ _ _ _ HU)) Hf) in Hc. }
  assert (∀ v, aligned v → 0 ≤ v < TRAPFRAME → P v → pte_of (mem s2) T2 v = pte_of (mem s) T v) as Hold.
  { intros v Hv Hv' HPv. rewrite map_pte by (done || (consts; lia)). rewrite decide_False; [done|congruence]. }
  assert (pte_of (mem s2) T2 va = leaf x perm) as Hva.
  { rewrite map_pte by (done || (consts; lia)). by rewrite decide_True. }
  assert (upage (mem s2) T2 va = x) as Hupx by (unfold upage; rewrite Hva, leaf_pa by auto with cmem; done).
  assert (∀ v, aligned v → 0 ≤ v < TRAPFRAME → P v → upage (mem s2) T2 v = upage (mem s) T v) as Hup.
  { intros v Hv Hv' HPv. unfold upage. by rewrite Hold. }
  assert (∀ v, aligned v → 0 ≤ v < TRAPFRAME → P v → upage (mem s) T v ≠ x) as Hne.
  { intros v Hv Hv' HPv E. destruct (uv_upage _ _ _ _ _ _ HU Hv Hv' HPv) as (_ & Hrf & _). congruence. }
  constructor; [| |exact Hrefs|exact map_mem| |exact Htab| | | |exact (g_old HG)|].
  - constructor.
    + apply HG.
    + intros v Hv Hv' [HPv| ->].
      * rewrite Hold by done.
        destruct (uv_leaf _ _ _ _ _ HU v Hv Hv' HPv) as (pa & pm & E & Hpm & Hb & Hpa & Hc & Ht).
        exists pa, pm. split_and!; try done; try lia; [by apply Hrefs|apply Hnt; eauto].
      * exists x, perm. split_and!; try done; try lia.
        -- apply (g_refs HG). cbn [refs]. by rewrite lookup_insert_eq.
        -- intros Ht. destruct (g_new HG x Ht); done.
    + intros v v' Hv Hvr HPv Hv' Hvr' HPv'.
      destruct HPv as [HPv| ->], HPv' as [HPv'| ->]; rewrite ?Hupx, ?(Hup v), ?(Hup v') by done; try done.
      * by apply (uv_inj _ _ _ _ _ HU).
      * intros E. by apply Hne in E.
      * intros E. symmetry in E. by apply Hne in E.
    + intros v Hv Hv' Hn. rewrite map_pte by (done || (consts; lia)). rewrite decide_False by tauto.
      apply (uv_none _ _ _ _ _ HU); tauto.
    + intros v Hv Hv'. rewrite map_pte by (done || (consts; lia)).
      rewrite decide_False by (consts; lia). by apply (uv_high _ _ _ _ _ HU).
  - intros v Hv Hv' HPv. split; [by apply Hold|]. intros a Hin.
    destruct (uv_upage _ _ _ _ _ _ HU Hv Hv' HPv) as (_ & Hrf & Ht). eapply map_mem; [|done|done]. eauto.
  - intros p Hp. pose proof (g_free HG) as E. cbn [free] in E. rewrite Hfl, E. set_solver.
  - intros p [Hp|(v & Hv & Hv' & HPv & ->)].
    + destruct (Htab p Hp); [by left; left|by right].
    + destruct HPv as [HPv| ->].
      * rewrite Hup by done. left. right. eauto 10.
      * rewrite Hupx. right. rewrite Hfl. set_solver.
  - intros v Hv Hv'. rewrite map_pte by (done || (consts; lia)). by rewrite decide_False by (consts; lia).
  - intros v _ _ HPv. by left.
  - intros p Hp. pose proof (g_free HG) as E. cbn [free] in E. rewrite Hfl, E in Hp.
    apply elem_of_cons in Hp as [->|[Hp|Hp]%elem_of_app]; [|right; left; by apply (g_tab HG)|by left].
    right. right. exists va. split_and!; try done; try lia.
Qed.
End MapPage.

(** kalloc() of a page, filled by [fill], and mappages() of it at [va]: the
    body of the loops of uvmalloc() and uvmcopy(). *)
Lemma wp_map_fresh A root T s P x fl s1 m1 va perm (Q : Z → phys → Prop) (E : string → phys → Prop) :
  uvm A root T s P → free A = x :: fl → pg_rep (mkAlloc fl (<[x := 1]> (refs A))) s1 →
  same_outside x (mem s) (mem s1) → same_outside x (mem s) m1 →
  aligned va → 0 ≤ va < TRAPFRAME → ¬ P va → 0 ≤ perm < 1024 → Z.testbit perm 1 = true →
  (∀ A2 T2 s2, ugrow A root T s P A2 T2 s2 (λ v, P v ∨ v = va) →
     Z.of_nat (length (free A)) ≤ Z.of_nat (length (free A2)) + 3 →
     pte_of (mem s2) T2 va = leaf x perm → (∀ a, in_page x a → ld8 (mem s2) a = ld8 m1 a) → Q 0 s2) →
  (∀ s', Z.of_nat (length (free A)) < 3 → E "assert failed" s') →
  wp (mappages root va PGSIZE x perm) Q E (set_mem m1 s1).
Proof.
  intros HU Hfl HA1 Hs1 Hm1 Ha Hr HP Hperm Hpu HQ HE.
  assert (phys_page x) as Hx by (eapply (pg_free_page A s); [apply HU|rewrite Hfl; set_solver]).
  destruct (vm_fresh _ _ _ _ _ _ _ _ (uv_vm _ _ _ _ _ HU) Hfl HA1 Hs1 Hm1) as [HI1 Hpte].
  destruct (npages_page va Ha) as (Hn & _).
  eapply wp_mono; [apply (mappages_ok root _ T _ va PGSIZE x perm HI1)| |]; try (consts; lia).
  - by apply phys_page_pte.
  - rewrite Hn. destruct Hx as [_ Hx]. consts. lia.
  - intros va' Hva' Hsp. cbn [mem set_mem]. rewrite Hpte.
    assert (pte_of (mem s) T va' = pte_of (mem s) T va) as ->.
    { unfold in_span in Hsp. destruct (npages_page va Ha) as (_ & E1 & E2). rewrite E1, E2 in Hsp.
      assert (PGROUNDDOWN va' = PGROUNDDOWN va) as E3 by (rewrite (PGROUNDDOWN_id va) by done; lia).
      apply PX_page in E3 as (E4 & E5 & E6); [|consts; lia|done].
      unfold pte_of, pte_slot. by rewrite E4, E5, E6. }
    by apply (uv_none _ _ _ _ _ HU).
  - intros r s2 (-> & A2 & T2 & used & HG & Hu & HL). rewrite Hn in Hu.
    pose proof (g_free HG) as Hfree. cbn [free] in Hfree.
    apply (HQ A2 T2).
    + by apply (uvm_map A root T s P x fl s1 m1 va perm HU Hfl HA1 Hs1 Hm1 Ha Hr HP Hperm Hpu A2 T2 s2 used HG HL).
    + rewrite Hfl, Hfree. cbn [length]. rewrite length_app. lia.
    + rewrite (map_pte A root T s P x fl s1 m1 va perm HU Hfl HA1 Hs1 Hm1 Ha Hr HP Hperm Hpu A2 T2 s2 used HG HL)
        by (done || (consts; lia)). by rewrite decide_True.
    + exact (map_new A root T s P x fl s1 m1 va perm HU Hfl HA1 Hs1 Hm1 Ha Hr HP Hperm Hpu A2 T2 s2 used HG HL).
  - intros msg s' [-> Hlen]. cbn [free] in Hlen. apply HE. rewrite Hfl. cbn [length]. lia.
Qed.

(** * uvmalloc *)

Definition below (sz : Z) (va : Z) : Prop := va < PGROUNDUP sz.

(** The pages from [lo] to [hi] are fresh: mapped with [perm] and zero. *)
Definition zeroed (m : gmap Z Z) (T : ptree) (lo hi perm : Z) : Prop :=
  ∀ va, aligned va → lo ≤ va < hi →
    (∃ pa, phys_page pa ∧ pte_of m T va = leaf pa perm) ∧ ∀ a, in_page (upage m T va) a → ld8 m a = 0.

Lemma aligned_next a : aligned a → aligned (a + PGSIZE).
Proof. unfold aligned. consts. intros. Z.div_mod_to_equations. lia. Qed.

Lemma PGROUNDUP_loop sz a : 0 ≤ sz → sz + PGSIZE ≤ 2 ^ 64 → aligned a → sz ≤ a → a ≤ PGROUNDUP sz → a = PGROUNDUP sz.
Proof.
  intros H1 H2 H3 H4 H5. destruct (PGROUNDUP_spec sz H1 H2) as [Ha Hb].
  unfold aligned in *. consts. Z.div_mod_to_equations. lia.
Qed.

Lemma PGROUNDUP_lt sz a : 0 ≤ sz → sz + PGSIZE ≤ 2 ^ 64 → aligned a → a < sz → a + PGSIZE ≤ PGROUNDUP sz.
Proof.
  intros H1 H2 H3 H4. destruct (PGROUNDUP_spec sz H1 H2) as [Ha Hb].
  unfold aligned in *. consts. Z.div_mod_to_equations. lia.
Qed.

Lemma zeroed_grow A root T s P A' T' s' P' lo hi perm :
  ugrow A root T s P A' T' s' P' → 0 ≤ lo → hi ≤ TRAPFRAME → (∀ va, lo ≤ va < hi → P va) →
  zeroed (mem s) T lo hi perm → zeroed (mem s') T' lo hi perm.
Proof.
  intros HG Hlo Hhi HP Hz va Ha Hr. destruct (ug_keep _ _ _ _ _ _ _ _ _ HG va Ha ltac:(lia) (HP va Hr)) as [E B].
  destruct (Hz va Ha Hr) as [Hp H0]. unfold upage in *. rewrite E. split; [done|].
  intros a Hin. rewrite B by done. by apply H0.
Qed.

Definition ualloc_inv A root T s oldsz newsz perm (a : Z) (s1 : phys) : Prop :=
  ∃ A1 T1, ugrow A root T s (below oldsz) A1 T1 s1 (λ v, v < a) ∧
    aligned a ∧ PGROUNDUP oldsz ≤ a ≤ PGROUNDUP newsz ∧ zeroed (mem s1) T1 (PGROUNDUP oldsz) a perm ∧
    Z.of_nat (length (free A)) * PGSIZE ≤ Z.of_nat (length (free A1)) * PGSIZE + 3 * (a - PGROUNDUP oldsz).

Lemma uvmalloc_ok A root T s oldsz newsz xperm :
  let perm := Z.lor (Z.lor PTE_R PTE_U) xperm in
  uvm A root T s (below oldsz) → 0 ≤ oldsz ≤ newsz → newsz ≤ TRAPFRAME → 0 ≤ xperm < 1024 →
  wp (uvmalloc root oldsz newsz xperm)
    (λ r s', r = newsz ∧ ∃ A' T', ugrow A root T s (below oldsz) A' T' s' (below newsz) ∧
             zeroed (mem s') T' (PGROUNDUP oldsz) (PGROUNDUP newsz) perm ∧
             Z.of_nat (length (free A)) ≤ Z.of_nat (length (free A')) + 3 * ((PGROUNDUP newsz - PGROUNDUP oldsz) / PGSIZE))
    (oom (3 * ((PGROUNDUP newsz - PGROUNDUP oldsz) / PGSIZE)) A) s.
Proof.
  intros perm HU Hsz Hmax Hx.
  destruct (PGROUNDUP_spec oldsz ltac:(lia) ltac:(consts; lia)) as [Hao Hbo].
  destruct (PGROUNDUP_spec newsz ltac:(lia) ltac:(consts; lia)) as [Han Hbn].
  assert (0 ≤ perm < 1024) as Hperm by (apply lor_flags; [by cbv|done]).
  assert (Z.testbit perm 1 = true) as Hpu by (unfold perm; by rewrite !Z.lor_spec).
  assert (aligned TRAPFRAME) as HTF by done.
  assert (PGROUNDUP oldsz ≤ PGROUNDUP newsz ≤ TRAPFRAME) as Hle
    by (unfold aligned in *; consts; Z.div_mod_to_equations; lia).
  unfold uvmalloc. bool_false (newsz <? oldsz).
  apply (wp_loop _ (ualloc_inv A root T s oldsz newsz perm) (λ a _, PGROUNDUP newsz - a)); [|exists A, T|consts; lia].
  2: { split; [by apply ugrow_refl|]. split; [done|]. split; [lia|]. split; [|consts; lia]. intros va _ Hva. lia. }
  intros a s1 (A1 & T1 & HG1 & Haa & Har & Hz & Hlen). pose proof (ug_uvm _ _ _ _ _ _ _ _ _ HG1) as HU1.
  destruct (Z.ltb_spec a newsz) as [Hlt|Hge].
  - pose proof (PGROUNDUP_lt newsz a ltac:(lia) ltac:(consts; lia) Haa Hlt) as Hnext.
    assert (3 ≤ 3 * ((PGROUNDUP newsz - a) / PGSIZE)) as H3.
    { assert (1 ≤ (PGROUNDUP newsz - a) / PGSIZE); [|lia]. apply Z.div_le_lower_bound; consts; lia. }
    assert (∀ n, Z.of_nat (length (free A1)) < n → n ≤ 3 →
      Z.of_nat (length (free A)) < 3 * ((PGROUNDUP newsz - PGROUNDUP oldsz) / PGSIZE)) as Hoom.
    { clear -Hlen Hnext Han Hao Haa Har. intros n Hn H3. unfold aligned in *. consts. Z.div_mod_to_equations. lia. }
    wp_mem. apply (wp_pg_alloc A1); [apply HU1| |].
    2: { intros s2 Hnil. split; [done|]. apply (Hoom 1); [|lia]. rewrite Hnil. simpl. lia. }
    intros x fl s2 Hfl Hxp HA2 Hs2. assert ((x =? 0) = false) as -> by (destruct Hxp as [_ Hxp]; consts; lia).
    wp_mem.
    apply (wp_map_fresh A1 root T1 s1 (λ v, v < a) x fl s2); try done; try lia.
    + eapply same_outside_trans; [done|]. apply same_outside_memset.
    + intros A3 T3 s3 HG3 Hl3 Hpte Hnew. wp_mem.
      rewrite u64_small by (consts; lia). split; [|consts; lia]. exists A3, T3. split.
      { eapply ugrow_trans; [apply HU| |exact HG1|].
        - unfold below. simpl. lia.
        - eapply ugrow_iff; [|exact HG3]. intros va Hva Hvr. simpl.
          clear -Hva Haa. unfold aligned in *. consts. Z.div_mod_to_equations. lia. }
      split; [by apply aligned_next|]. split; [consts; lia|]. split; [|consts; lia].
      intros va Hva Hvr. destruct (decide (va < a)).
      * eapply (zeroed_grow _ _ _ _ _ _ _ _ _ (PGROUNDUP oldsz) a); [exact HG3|lia|lia|simpl; lia|done|done|lia].
      * assert (va = a) as -> by (clear -Hva Haa Hvr n; unfold aligned in *; consts; Z.div_mod_to_equations; lia).
        split; [eauto|]. unfold upage. rewrite Hpte, leaf_pa by auto with cmem.
        intros b Hb. rewrite Hnew by done. rewrite ld8_memset. unfold in_page in Hb. by rewrite (proj2 (andb_true_iff _ _)) by lia.
    + intros s3 Hl3. split; [done|]. by apply (Hoom 3).
  - apply wp_ret. assert (a = PGROUNDUP newsz) as -> by (apply PGROUNDUP_loop; try done; consts; lia).
    split; [done|]. exists A1, T1. split; [done|]. split; [done|].
    clear -Hlen Han Hao Haa. unfold aligned in *. consts. Z.div_mod_to_equations. lia.
Qed.

(** * Shrinking *)

(** Unmapping with [do_free] gives the pages of [P] that are not in [P'] back
    to the allocator and changes nothing else. *)
Record ushrink (A : alloc_st) (root : Z) (T : ptree) (s : phys) (P : Z → Prop)
    (A' : alloc_st) (s' : phys) (P' : Z → Prop) : Prop := {
  uh_uvm : uvm A' root T s' P';
  uh_sub va : aligned va → 0 ≤ va < TRAPFRAME → P' va → P va;
  uh_keep : ukeep (mem s) T (mem s') T P';
  uh_free p : p ∈ free A' ↔ p ∈ free A ∨
    ∃ va, aligned va ∧ 0 ≤ va < TRAPFRAME ∧ P va ∧ ¬ P' va ∧ p = upage (mem s) T va;
  uh_refs p : refs A' !! p = if decide (p ∈ free A') then None else refs A !! p;
  uh_mem p a : is_Some (refs A' !! p) → ¬ table root T p → in_page p a → ld8 (mem s') a = ld8 (mem s) a;
  uh_high va : aligned va → TRAPFRAME ≤ va < MAXVA → pte_of (mem s') T va = pte_of (mem s) T va;
}.

Lemma ushrink_refl A root T s P : uvm A root T s P → ushrink A root T s P A s P.
Proof.
  intros HU. constructor; auto using ukeep_refl; [naive_solver|]. intros p.
  case_decide as Hp; [|done]. eapply free_not_refs; [apply HU|done].
Qed.

Lemma ushrink_iff A root T s P A' s' (P' P'' : Z → Prop) :
  (∀ va, aligned va → 0 ≤ va < TRAPFRAME → P' va ↔ P'' va) →
  ushrink A root T s P A' s' P' → ushrink A root T s P A' s' P''.
Proof.
  intros HP []. constructor; try done.
  - by eapply uvm_iff.
  - intros va Ha Hr HP''. apply uh_sub0; [done..|]. by apply HP.
  - intros va Ha Hr HP''. apply uh_keep0; [done..|]. by apply HP.
  - intros p. rewrite uh_free0. split; intros [|(va & Ha & Hr & Hp & Hn & ->)]; [by left| |by left|];
      right; exists va; split_and!; try done; try lia; intros Hq; apply Hn; by apply HP.
Qed.

Lemma ushrink_trans A root T s P A1 s1 P1 A2 s2 P2 :
  (∀ va, P1 va ∨ ¬ P1 va) →
  ushrink A root T s P A1 s1 P1 → ushrink A1 root T s1 P1 A2 s2 P2 → ushrink A root T s P A2 s2 P2.
Proof.
  intros HdP1 H1 H2.
  assert (∀ va, aligned va → 0 ≤ va < TRAPFRAME → P1 va → upage (mem s1) T va = upage (mem s) T va) as Hup.
  { intros va Ha Hr Hp. unfold upage. by rewrite (proj1 (uh_keep _ _ _ _ _ _ _ _ H1 va Ha Hr Hp)). }
  destruct H1, H2. constructor; auto.
  - eapply ukeep_trans; [|done]. intros va Ha Hr HP2. apply uh_keep0; auto.
  - intros p. rewrite uh_free1, uh_free0. split.
    + intros [[|(va & Ha & Hr & Hp & Hn & ->)]|(va & Ha & Hr & Hp & Hn & ->)]; [by left|right..].
      * exists va. split_and!; auto; lia.
      * exists va. split_and!; auto; try lia.
    + intros [|(va & Ha & Hr & Hp & Hn & ->)]; [by left; left|]. destruct (HdP1 va) as [Hp1|Hp1].
      * right. exists va. split_and!; auto; try lia. by rewrite Hup.
      * left. right. exists va. split_and!; auto; lia.
  - intros p. rewrite uh_refs1, uh_refs0. repeat case_decide; try done. exfalso. set_solver.
  - intros p a Hp Ht Hin. rewrite uh_mem1 with (p := p) by done. apply (uh_mem0 p); [|done..].
    destruct Hp as [c Hc]. rewrite uh_refs1 in Hc. case_decide; [done|eauto].
  - intros va Ha Hr. by rewrite uh_high1, uh_high0.
Qed.

(** The state once the page [pa] mapped at [va] has been freed ([s1]) and the
    leaf entry cleared ([s2]). *)
Section DropPage.
Context (A : alloc_st) (root : Z) (T : ptree) (s : phys) (P : Z → Prop) (va r : Z) (s1 : phys).
Let pa := upage (mem s) T va.
Let A1 := mkAlloc (pa :: free A) (delete pa (refs A)).
Let s2 := set_mem (st64 (mem s1) r 0) s1.
Context (HU : uvm A root T s P) (Ha : aligned va) (Hr : 0 ≤ va < TRAPFRAME) (HP : P va).
Context (Hsl : pte_slot T va = Some r) (HA1 : pg_rep A1 s1) (Hs1 : same_outside pa (mem s) (mem s1)).

Lemma drop_pa : phys_page pa ∧ refs A !! pa = Some 1 ∧ ¬ table root T pa.
Proof using HU Ha Hr HP. by apply (uv_upage _ _ _ _ _ _ HU). Qed.

Lemma drop_other p a : p ≠ pa → phys_page p → in_page p a → ld8 (mem s1) a = ld8 (mem s) a.
Proof using HU Ha Hr HP Hs1.
  intros Hne Hp Hin. apply Hs1. eapply pages_apart; [apply Hp|apply drop_pa|done|done].
Qed.

Lemma drop_tables p a : table root T p → in_page p a → ld8 (mem s1) a = ld8 (mem s) a.
Proof using HU Ha Hr HP Hs1.
  intros Hp. apply drop_other; [|by apply (pr_page _ _ _ (vi_tree (uv_vm _ _ _ _ _ HU)))].
  intros ->. by apply drop_pa.
Qed.

Lemma drop_vm : vm_inv A1 root T s1.
Proof using HU Ha Hr HP Hs1 HA1.
  pose proof (uv_vm _ _ _ _ _ HU) as HI. constructor; [done| |].
  - apply (pt_rep_frame _ _ _ (vi_tree HI)). exact drop_tables.
  - intros p Hp. cbn [refs A1]. rewrite lookup_delete_ne; [by apply (vi_owned HI)|].
    intros <-. by apply drop_pa.
Qed.

Lemma drop_grow : grow root A1 T s1 A1 T s2 [].
Proof using HU Ha Hr HP Hs1 HA1 Hsl.
  apply (grow_leaf root A1 T s1 va r 0 drop_vm Hsl); [consts; lia|lia].
Qed.

Lemma drop_pte v : aligned v → 0 ≤ v < MAXVA →
  pte_of (mem s2) T v = if decide (v = va) then 0 else pte_of (mem s) T v.
Proof using HU Ha Hr HP Hs1 HA1 Hsl.
  intros Hv Hvr. destruct (grow_leaf root A1 T s1 va r 0 drop_vm Hsl ltac:(consts; lia) ltac:(lia)) as [_ HL].
  rewrite HL by done. rewrite !PGROUNDDOWN_id by done. case_decide; [done|].
  apply (pte_of_frame _ root). exact drop_tables.
Qed.

Lemma drop_keep v : aligned v → 0 ≤ v < TRAPFRAME → v ≠ va → pte_of (mem s2) T v = pte_of (mem s) T v.
Proof using HU Ha Hr HP Hs1 HA1 Hsl.
  intros Hv Hvr Hn. rewrite drop_pte by (done || (consts; lia)). by rewrite decide_False.
Qed.

Lemma drop_ne v : aligned v → 0 ≤ v < TRAPFRAME → P v → v ≠ va → upage (mem s) T v ≠ pa.
Proof using HU Ha Hr HP. intros Hv Hvr HPv Hn E. apply Hn. by apply (uv_inj _ _ _ _ _ HU). Qed.

Lemma drop_mem p a : is_Some (refs A1 !! p) → ¬ table root T p → in_page p a → ld8 (mem s2) a = ld8 (mem s) a.
Proof using HU Ha Hr HP Hs1 HA1 Hsl.
  intros Hp Ht Hin. destruct (pg_refs_page A1 s1 p HA1 Hp) as [Hpg Hpf].
  rewrite (g_frame drop_grow); [| |intros q Hq; by apply elem_of_nil in Hq].
  - apply (drop_other p); [|done|done]. intros ->. apply Hpf. cbn [free A1]. by left.
  - intros q Hq. eapply pages_apart; [apply Hpg| |by intros ->|done].
    by eapply table_aligned; [apply (vi_tree drop_vm)|].
Qed.

Lemma drop_uvm : uvm A1 root T s2 (λ v, P v ∧ v ≠ va).
Proof using HU Ha Hr HP Hs1 HA1 Hsl.
  constructor; [apply drop_grow| | | |].
  - intros v Hv Hvr [HPv Hn]. rewrite drop_keep by done.
    destruct (uv_leaf _ _ _ _ _ HU v Hv Hvr HPv) as (p & pm & E & Hpm & Hb & Hp & Hc & Ht).
    exists p, pm. split_and!; try done; try lia. cbn [refs A1]. rewrite lookup_delete_ne; [done|].
    intros E'. apply (drop_ne v Hv Hvr HPv Hn). unfold upage. rewrite E, leaf_pa by auto with cmem. done.
  - intros v v' Hv Hvr [HPv Hn] Hv' Hvr' [HPv' Hn']. unfold upage. rewrite !drop_keep by done.
    by apply (uv_inj _ _ _ _ _ HU).
  - intros v Hv Hvr Hn. rewrite drop_pte by (done || (consts; lia)). case_decide; [done|].
    apply (uv_none _ _ _ _ _ HU); tauto.
  - intros v Hv Hvr. rewrite drop_pte by (done || (consts; lia)). rewrite decide_False by (consts; lia).
    by apply (uv_high _ _ _ _ _ HU).
Qed.

Lemma ushrink_page : ushrink A root T s P A1 s2 (λ v, P v ∧ v ≠ va).
Proof using HU Ha Hr HP Hs1 HA1 Hsl.
  constructor; [exact drop_uvm|tauto| | | |exact drop_mem|].
  - intros v Hv Hvr [HPv Hn]. split; [by apply drop_keep|]. intros a Hin.
    destruct (uv_upage _ _ _ _ _ _ HU Hv Hvr HPv) as (_ & Hrf & Ht). eapply drop_mem; [|exact Ht|exact Hin].
    cbn [refs A1]. rewrite lookup_delete_ne; [eauto|]. intros E. by apply (drop_ne v).
  - intros p. cbn [free A1]. rewrite elem_of_cons. split.
    + intros [->|]; [|by left]. right. exists va. split_and!; try done; try lia; tauto.
    + intros [|(v & Hv & Hvr & HPv & Hn & ->)]; [by right|]. left. destruct (decide (v = va)); [by subst|tauto].
  - intros p. cbn [free refs A1]. destruct (decide (p = pa)) as [->|Hn].
    + rewrite lookup_delete_eq. rewrite decide_True by by left. done.
    + rewrite lookup_delete_ne by done. case_decide as Hf; [|done].
      apply elem_of_cons in Hf as [|Hf]; [done|]. eapply free_not_refs; [apply HU|done].
  - intros v Hv Hvr. rewrite drop_pte by (done || (consts; lia)). by rewrite decide_False by (consts; lia).
Qed.
End DropPage.

Lemma pte_of_valid_slot m T va : Z.testbit (pte_of m T va) 0 = true → ∃ r, pte_slot T va = Some r.
Proof. unfold pte_of. destruct (pte_slot T va); [eauto|done]. Qed.

Lemma uleaf_flags perm : 0 ≤ perm < 1024 → Z.testbit perm 1 = true → (Z.lor perm PTE_V =? PTE_V) = false.
Proof.
  intros Hperm Hb. apply Z.eqb_neq. intros E. assert (Z.testbit (Z.lor perm PTE_V) 1 = Z.testbit PTE_V 1) as E' by by rewrite E.
  rewrite Z.lor_spec, Hb in E'. done.
Qed.

Definition unmap_inv A root T s P va hi (a : Z) (s1 : phys) : Prop :=
  ∃ A1, ushrink A root T s P A1 s1 (λ v, P v ∧ ¬ va ≤ v < a) ∧ aligned a ∧ va ≤ a ≤ hi.

(** One iteration of uvmunmap() with [do_free]. *)
Lemma unmap_step A root T s P va hi a s1 :
  unmap_inv A root T s P va hi a s1 → (∀ v, P v ∨ ¬ P v) → aligned hi → hi ≤ TRAPFRAME → a < hi → 0 ≤ va →
  (∀ v, aligned v → va ≤ v < hi → P v) →
  wp (let! pte := walk root a false in
      if pte =? 0 then panic "uvmunmap: walk" else
      let! v := load64 pte in
      if negb (c_true (Z.land v PTE_V)) then panic "uvmunmap: not mapped" else
      if PTE_FLAGS v =? PTE_V then panic "uvmunmap: not a leaf" else
      do! when true (pg_free (PTE2PA v)) in
      do! store64 pte 0 in
      ret (inl (B := unit) (u64 (a + PGSIZE))))
    (λ x s2, match x with inl a' => unmap_inv A root T s P va hi a' s2 ∧ 0 ≤ hi - a' < hi - a | inr _ => False end)
    nopanic s1.
Proof.
  intros (A1 & HS & Haa & Har) HdP Hah Hhi Hlt Hva HPr. pose proof (uh_uvm _ _ _ _ _ _ _ _ HS) as HU1.
  assert (P a ∧ ¬ va ≤ a < a) as HPa by (split; [apply HPr; [done|lia]|lia]).
  assert (a + PGSIZE ≤ hi) as Hnext by (unfold aligned in *; consts; Z.div_mod_to_equations; lia).
  destruct (uv_leaf _ _ _ _ _ HU1 a Haa ltac:(lia) HPa) as (pa & perm & E & Hperm & Hb & Hpa & Hrf & Ht).
  destruct (pte_of_valid_slot (mem s1) T a) as [r Hsl]; [rewrite E; apply leaf_valid|].
  apply wp_bind, (wp_walk_lookup root T); [apply HU1|consts; lia|]. rewrite Hsl. cbn [default from_option id].
  rewrite (pte_slot_nonzero _ _ _ _ _ (vi_tree (uv_vm _ _ _ _ _ HU1)) Hsl). wp_mem.
  rewrite (pte_of_slot _ _ _ _ Hsl), E, PTE_V_testbit, leaf_valid. cbn [negb].
  rewrite leaf_flags, uleaf_flags, leaf_pa by auto with cmem. unfold when. cbn iota. wp_mem.
  assert (upage (mem s1) T a = pa) as Hup by (unfold upage; rewrite E, leaf_pa by auto with cmem; done).
  eapply wp_mono; [apply (pg_free_ok A1 (mkAlloc (pa :: free A1) (delete pa (refs A1)))); [apply HU1|]| |done].
  { unfold spec_free. by rewrite Hrf. }
  intros [] s2 [HA2 Hs2]. wp_mem. rewrite u64_small by (consts; lia). split; [|consts; lia].
  eexists. split; [|split; [by apply aligned_next|consts; lia]].
  eapply ushrink_trans; [|exact HS|].
  - intros v. simpl. destruct (HdP v); [|tauto]. destruct (decide (va ≤ v < a)); tauto.
  - eapply ushrink_iff; [|eapply (ushrink_page A1 root T s1 _ a r s2 HU1); rewrite ?Hup; try done; lia].
    intros v Hv Hvr. simpl. clear -Hv Haa Har. unfold aligned in *.
    assert (v < a + PGSIZE → v < a ∨ v = a) by (consts; Z.div_mod_to_equations; lia).
    split; [intros [[HPv H1] H2]; split; [done|lia]|intros [HPv H1]; split; [split; [done|]|]; consts; lia].
Qed.

Lemma uvmunmap_ok A root T s P va n :
  uvm A root T s P → (∀ v, P v ∨ ¬ P v) → aligned va → 0 ≤ va → 0 ≤ n → va + n * PGSIZE ≤ TRAPFRAME →
  (∀ v, aligned v → va ≤ v < va + n * PGSIZE → P v) →
  wp (uvmunmap root va n true)
    (λ _ s', ∃ A', ushrink A root T s P A' s' (λ v, P v ∧ ¬ va ≤ v < va + n * PGSIZE)) nopanic s.
Proof.
  intros HU HdP Ha Hva Hn Hmax HPr. unfold uvmunmap. unfold aligned in Ha. rewrite Ha. cbn [negb Z.eqb].
  rewrite u64_small by (consts; lia). set (hi := va + n * PGSIZE) in *.
  assert (aligned hi) as Hah by (unfold hi, aligned; rewrite Z.mod_add by done; done).
  apply (wp_loop _ (unmap_inv A root T s P va hi) (λ a _, hi - a)).
  - intros a s1 HI. destruct (Z.ltb_spec a hi) as [Hlt|Hge].
    + eapply wp_post; [by apply (unmap_step A root T s P va hi)|]. intros [a'|] s2; [done|tauto].
    + apply wp_ret. destruct HI as (A1 & HS & Haa & Har). assert (a = hi) as -> by lia. eauto.
  - exists A. split; [|split; [done|consts; lia]]. eapply ushrink_iff; [|by apply ushrink_refl].
    intros v _ _. simpl. split; [intros Hv; split; [done|lia]|tauto].
  - consts. lia.
Qed.

(** * uvmdealloc *)

Lemma uvmdealloc_ok A root T s oldsz newsz :
  uvm A root T s (below oldsz) → 0 ≤ newsz ≤ oldsz → oldsz ≤ TRAPFRAME →
  wp (uvmdealloc root oldsz newsz)
    (λ r s', r = newsz ∧ ∃ A', ushrink A root T s (below oldsz) A' s' (below newsz)) nopanic s.
Proof.
  intros HU Hsz Hmax.
  destruct (PGROUNDUP_spec oldsz ltac:(lia) ltac:(consts; lia)) as [Hao Hbo].
  destruct (PGROUNDUP_spec newsz ltac:(lia) ltac:(consts; lia)) as [Han Hbn].
  assert (aligned TRAPFRAME) as HTF by done.
  assert (PGROUNDUP newsz ≤ PGROUNDUP oldsz ≤ TRAPFRAME) as Hle
    by (unfold aligned in *; consts; Z.div_mod_to_equations; lia).
  assert (∀ v, below oldsz v ∨ ¬ below oldsz v) as Hd by (intros v; unfold below; lia).
  unfold uvmdealloc. destruct (Z.leb_spec oldsz newsz) as [Hge|Hlt].
  { apply wp_ret. assert (oldsz = newsz) as -> by lia. split; [done|]. exists A. by apply ushrink_refl. }
  set (k := (PGROUNDUP oldsz - PGROUNDUP newsz) / PGSIZE) in *.
  assert (PGROUNDUP oldsz = PGROUNDUP newsz + k * PGSIZE ∧ 0 ≤ k < 2 ^ 31) as [Hk Hk31]
    by (unfold k, aligned in *; consts; Z.div_mod_to_equations; lia).
  assert (u64 (s32 k) = k) as -> by (unfold s32; rewrite swrap_small by lia; apply u64_small; lia).
  apply wp_bind. apply wp_when.
  - intros _. eapply wp_post; [by apply (uvmunmap_ok A root T s (below oldsz)); try (unfold below; lia)|].
    intros [] s' (A' & HS). apply wp_ret. split; [done|]. exists A'. eapply ushrink_iff; [|done].
    intros v _ _. unfold below. simpl. lia.
  - intros Hf. apply wp_ret. split; [done|]. exists A.
    eapply ushrink_iff; [|by apply ushrink_refl]. intros v _ _. unfold below. lia.
Qed.

(** * uvmcopy *)

(** Page by page below [hi], the child maps a copy of the parent's page with the
    parent's flags. *)
Definition copied (m : gmap Z Z) (TO : ptree) (m' : gmap Z Z) (TN : ptree) (hi : Z) : Prop :=
  ∀ va, aligned va → 0 ≤ va < hi →
    PTE_FLAGS (pte_of m' TN va) = PTE_FLAGS (pte_of m TO va) ∧
    ∀ i, 0 ≤ i < PGSIZE → ld8 m' (upage m' TN va + i) = ld8 m (upage m TO va + i).

Lemma copied_grow m TO A root T s P A' T' s' P' hi :
  ugrow A root T s P A' T' s' P' → hi ≤ TRAPFRAME → (∀ va, 0 ≤ va < hi → P va) →
  copied m TO (mem s) T hi → copied m TO (mem s') T' hi.
Proof.
  intros HG Hhi HP Hc va Ha Hr. destruct (ug_keep _ _ _ _ _ _ _ _ _ HG va Ha ltac:(lia) (HP va Hr)) as [E B].
  destruct (Hc va Ha Hr) as [Hf Hb]. unfold upage in *. rewrite E. split; [done|].
  intros i Hi. rewrite B; [by apply Hb|]. unfold in_page. lia.
Qed.

(** The other address space while this one grows. *)
Lemma ugrow_other A root T s P A' T' s' P' rootO TO PO :
  ugrow A root T s P A' T' s' P' → uvm A rootO TO s PO → pg_rep A s →
  (∀ p, foot rootO TO (mem s) PO p → ¬ table root T p) →
  uvm A' rootO TO s' PO ∧ ukeep (mem s) TO (mem s') TO PO.
Proof.
  intros HG HO HA Hd. apply (uvm_frame A A' rootO TO s s' PO HO).
  - apply (ug_uvm _ _ _ _ _ _ _ _ _ HG).
  - intros p c _. apply (ug_refs _ _ _ _ _ _ _ _ _ HG).
  - intros p a Hp. apply (ug_mem _ _ _ _ _ _ _ _ _ HG); [by eapply foot_refs|by apply Hd].
Qed.

Section Copy.
Context (A : alloc_st) (rootO rootN : Z) (TO TN : ptree) (s : phys) (sz : Z).
Context (HO : uvm A rootO TO s (below sz)) (HN : uvm A rootN TN s (λ _, False)).
Context (Hsz : 0 ≤ sz ≤ TRAPFRAME).
Context (Hdisj : ∀ p, foot rootO TO (mem s) (below sz) p → ¬ table rootN TN p).

Definition ucopy_inv (i : Z) (s1 : phys) : Prop :=
  ∃ A1 T1, ugrow A rootN TN s (λ _, False) A1 T1 s1 (λ v, v < i) ∧ aligned i ∧ 0 ≤ i ≤ PGROUNDUP sz ∧
    copied (mem s) TO (mem s1) T1 i ∧
    Z.of_nat (length (free A)) * PGSIZE ≤ Z.of_nat (length (free A1)) * PGSIZE + 3 * i.

Lemma memmove_page x pa m m1 :
  phys_page x → phys_page pa → pa ≠ x → same_outside x m m1 →
  same_outside x m (memmove m1 x pa PGSIZE) ∧
  ∀ i, 0 ≤ i < PGSIZE → ld8 (memmove m1 x pa PGSIZE) (x + i) = ld8 m (pa + i).
Proof.
  intros Hx Hpa Hne Hout. split.
  - intros a Ha. rewrite ld8_memmove by done. unfold in_page in Ha.
    bool_false ((x <=? a) && (a <? x + PGSIZE)). by apply Hout.
  - intros i Hi. rewrite ld8_memmove by done. bool_true ((x <=? x + i) && (x + i <? x + PGSIZE)).
    replace (pa + (x + i - x)) with (pa + i) by lia. apply Hout.
    eapply pages_apart; [apply Hpa|apply Hx|done|]. unfold in_page. lia.
Qed.

(** One iteration. *)
Lemma ucopy_page A1 T1 s1 i x fl s2 perm (Q : Z → phys → Prop) (E : string → phys → Prop) :
  let pa := upage (mem s) TO i in
  ugrow A rootN TN s (λ _, False) A1 T1 s1 (λ v, v < i) → aligned i → 0 ≤ i < PGROUNDUP sz → i < TRAPFRAME →
  copied (mem s) TO (mem s1) T1 i → pte_of (mem s) TO i = leaf pa perm → 0 ≤ perm < 1024 → Z.testbit perm 1 = true →
  free A1 = x :: fl → pg_rep (mkAlloc fl (<[x := 1]> (refs A1))) s2 → same_outside x (mem s1) (mem s2) →
  (∀ A3 T3 s3, ugrow A rootN TN s (λ _, False) A3 T3 s3 (λ v, v < i + PGSIZE) → copied (mem s) TO (mem s3) T3 (i + PGSIZE) →
     Z.of_nat (length (free A1)) ≤ Z.of_nat (length (free A3)) + 3 → Q 0 s3) →
  (∀ s', Z.of_nat (length (free A1)) < 3 → E "assert failed" s') →
  wp (mappages rootN i PGSIZE x (Z.lor perm PTE_V)) Q E (set_mem (memmove (mem s2) x pa PGSIZE) s2).
Proof using All.
  intros pa HG1 Hai Hi HiT Hc Hpte Hperm Hpu Hfl HA2 Hs2 HQ HE.
  pose proof (ug_uvm _ _ _ _ _ _ _ _ _ HG1) as HU1.
  destruct (uv_upage _ _ _ _ _ _ HO Hai ltac:(lia) (proj2 Hi)) as (Hpa & Hparf & _). fold pa in Hpa, Hparf.
  assert (phys_page x) as Hx by (eapply (pg_free_page A1 s1); [apply HU1|rewrite Hfl; set_solver]).
  assert (pa ≠ x) as Hne.
  { intros ->. pose proof (ug_refs _ _ _ _ _ _ _ _ _ HG1 _ _ Hparf) as E1.
    rewrite (free_not_refs A1 s1 x) in E1; [done|apply HU1|rewrite Hfl; set_solver]. }
  destruct (ugrow_other _ _ _ _ _ _ _ _ _ _ _ _ HG1 HO ltac:(apply HO) Hdisj) as [_ HkO].
  destruct (HkO i Hai ltac:(lia) (proj2 Hi)) as [_ Hbytes].
  destruct (memmove_page x pa (mem s1) (mem s2) Hx Hpa Hne Hs2) as [Hout Hnew].
  apply (wp_map_fresh A1 rootN T1 s1 (λ v, v < i) x fl s2); try done; try lia.
  - apply lor_flags; [done|by cbv].
  - by rewrite Z.lor_spec, Hpu.
  - intros A3 T3 s3 HG3 Hl3 Hpte3 Hnew3. apply (HQ A3 T3); [| |done].
    + eapply ugrow_trans; [apply HO|tauto|exact HG1|]. eapply ugrow_iff; [|exact HG3].
      intros v Hv Hvr. simpl. clear -Hv Hai. unfold aligned in *. consts. Z.div_mod_to_equations. lia.
    + intros va Hva Hvr. destruct (decide (va < i)).
      * eapply (copied_grow _ _ _ _ _ _ _ _ _ _ _ i); [exact HG3|lia|simpl; lia|done|done|lia].
      * assert (va = i) as -> by (clear -Hva Hai Hvr n; unfold aligned in *; consts; Z.div_mod_to_equations; lia).
        unfold upage at 1. rewrite Hpte3, Hpte. assert (0 ≤ Z.lor perm PTE_V < 1024) as Hp2 by (apply lor_flags; [done|by cbv]).
        rewrite !leaf_flags, leaf_pa by auto with cmem. split; [by rewrite <- Z.lor_assoc|].
        intros k Hk. rewrite Hnew3 by (unfold in_page; lia). rewrite Hnew by done.
        apply Hbytes. unfold in_page. fold pa. lia.
Qed.

Lemma uvmcopy_ok :
  wp (uvmcopy rootO rootN sz)
    (λ r s', r = 0 ∧ ∃ A' T', ugrow A rootN TN s (λ _, False) A' T' s' (below sz) ∧
       copied (mem s) TO (mem s') T' (PGROUNDUP sz))
    (oom (3 * (PGROUNDUP sz / PGSIZE)) A) s.
Proof using All.
  destruct (PGROUNDUP_spec sz ltac:(lia) ltac:(consts; lia)) as [Has Hbs].
  assert (aligned TRAPFRAME) as HTF by done.
  assert (PGROUNDUP sz ≤ TRAPFRAME) as Hle by (clear HO HN Hdisj; unfold aligned in *; consts; Z.div_mod_to_equations; lia).
  unfold uvmcopy. apply (wp_loop _ ucopy_inv (λ i _, PGROUNDUP sz - i)); [|exists A, TN|consts; lia].
  2: { split; [eapply ugrow_iff; [|by apply ugrow_refl]; simpl; lia|].
       split; [done|]. split; [lia|]. split; [|lia]. intros va _ Hva. lia. }
  intros i s1 (A1 & T1 & HG1 & Hai & Hir & Hc & Hlen). pose proof (ug_uvm _ _ _ _ _ _ _ _ _ HG1) as HU1.
  destruct (Z.ltb_spec i sz) as [Hlt|Hge].
  2: { apply wp_ret. assert (i = PGROUNDUP sz) as -> by (apply PGROUNDUP_loop; try done; consts; lia). eauto. }
  pose proof (PGROUNDUP_lt sz i ltac:(lia) ltac:(consts; lia) Hai Hlt) as Hnext.
  assert (i < PGROUNDUP sz) as Hib by (consts; lia).
  assert (∀ n, Z.of_nat (length (free A1)) < n → n ≤ 3 →
    Z.of_nat (length (free A)) < 3 * (PGROUNDUP sz / PGSIZE)) as Hoom.
  { clear -Hlen Hnext Has Hai Hir. intros n Hn H3. unfold aligned in *. consts. Z.div_mod_to_equations. lia. }
  destruct (ugrow_other _ _ _ _ _ _ _ _ _ _ _ _ HG1 HO ltac:(apply HO) Hdisj) as [HO1 HkO].
  destruct (HkO i Hai ltac:(lia) Hib) as [Hpte1 _].
  destruct (uv_leaf _ _ _ _ _ HO i Hai ltac:(lia) Hib) as (pa & perm & E & Hperm & Hb & Hpa & _).
  assert (upage (mem s) TO i = pa) as Hup by (unfold upage; rewrite E, leaf_pa by auto with cmem; done).
  destruct (pte_of_valid_slot (mem s1) TO i) as [r Hsl]; [rewrite Hpte1, E; apply leaf_valid|].
  apply wp_bind, (wp_walk_lookup rootO TO); [apply HO1|consts; lia|]. rewrite Hsl. cbn [default from_option id].
  rewrite (pte_slot_nonzero _ _ _ _ _ (vi_tree (uv_vm _ _ _ _ _ HO1)) Hsl). wp_mem.
  rewrite (pte_of_slot _ _ _ _ Hsl), Hpte1, E, PTE_V_testbit, leaf_valid. cbn [negb].
  rewrite leaf_flags, leaf_pa by auto with cmem. wp_mem.
  apply (wp_pg_alloc A1); [apply HU1| |].
  2: { intros s2 Hnil. split; [done|]. apply (Hoom 1); [|lia]. rewrite Hnil. simpl. lia. }
  intros x fl s2 Hfl Hxp HA2 Hs2. assert ((x =? 0) = false) as -> by (destruct Hxp as [_ Hxp]; consts; lia).
  wp_mem. rewrite <- Hup.
  apply (ucopy_page A1 T1 s1 i x fl s2); rewrite ?Hup; try done; try lia.
  - intros A3 T3 s3 HG3 Hc3 Hl3. wp_mem. rewrite u64_small by (consts; lia). split; [|consts; lia].
    exists A3, T3. split; [done|]. split; [by apply aligned_next|]. split; [consts; lia|]. split; [done|consts; lia].
  - intros s3 Hl3. split; [done|]. by apply (Hoom 3).
Qed.

End Copy.

(** * uvmclear *)

Lemma leaf_clear pa perm : pte_pa pa → Z.land (leaf pa perm) (Z.lnot PTE_U) = leaf pa (Z.land perm (Z.lnot PTE_U)).
Proof.
  intros Hpa. unfold leaf. rewrite PA2PTE_eq by done. apply Z.bits_inj'. intros n Hn.
  rewrite !Z.land_spec, !Z.lor_spec, Z.land_spec, Z.lnot_spec by done. destruct (decide (n = 4)) as [->|Hne].
  - rewrite Z.shiftl_spec_low by lia. change (Z.testbit PTE_U 4) with true. change (Z.testbit PTE_V 4) with false. cbn. by rewrite !andb_false_r.
  - assert (Z.testbit PTE_U n = false) as -> by (change PTE_U with (2 ^ 4); apply Z.pow2_bits_false; lia). cbn. by rewrite !andb_true_r.
Qed.

Lemma clear_flags perm : 0 ≤ perm < 1024 → Z.testbit perm 1 = true →
  0 ≤ Z.land perm (Z.lnot PTE_U) < 1024 ∧ Z.testbit (Z.land perm (Z.lnot PTE_U)) 1 = true.
Proof.
  intros Hp Hb. split; [|by rewrite Z.land_spec, Hb]. assert (0 ≤ Z.land perm (Z.lnot PTE_U) ≤ perm); [|lia].
  apply Z.ldiff_le; [lia|]. apply Z.bits_inj'. intros n Hn. rewrite Z.ldiff_spec, Z.land_spec, Z.bits_0. destruct (Z.testbit perm n); [by rewrite andb_false_r|done].
Qed.

(** uvmclear() takes a page away from the process and leaves it in the image. *)
Lemma uvmclear_ok A root T s P va :
  uvm A root T s P → aligned va → 0 ≤ va < TRAPFRAME → P va →
  wp (uvmclear root va) (λ _ s', uvm A root T s' P ∧
    (∀ v, aligned v → 0 ≤ v < MAXVA → pte_of (mem s') T v =
       if decide (v = va) then Z.land (pte_of (mem s) T va) (Z.lnot PTE_U) else pte_of (mem s) T v) ∧
    (∀ a, (∀ p, table root T p → ¬ in_page p a) → ld8 (mem s') a = ld8 (mem s) a)) nopanic s.
Proof.
  intros HU Ha Hr HP. destruct (uv_leaf _ _ _ _ _ HU va Ha Hr HP) as (pa & perm & E & Hperm & Hb & Hpa & Hrf & Ht).
  destruct (pte_of_valid_slot (mem s) T va) as [r Hsl]; [rewrite E; apply leaf_valid|].
  destruct (clear_flags perm Hperm Hb) as [Hperm' Hb']. assert (pte_pa pa) as Hpp by auto with cmem.
  unfold uvmclear. apply wp_bind, (wp_walk_lookup root T); [apply HU|consts; lia|]. rewrite Hsl. cbn [default from_option id].
  rewrite (pte_slot_nonzero _ _ _ _ _ (vi_tree (uv_vm _ _ _ _ _ HU)) Hsl). wp_mem.
  rewrite (pte_of_slot _ _ _ _ Hsl), E, leaf_clear by done.
  destruct (grow_leaf root A T s va r (leaf pa (Z.land perm (Z.lnot PTE_U))) (uv_vm _ _ _ _ _ HU) Hsl ltac:(consts; lia) ltac:(by apply leaf_range)) as [HG HL].
  set (s' := set_mem _ s) in *.
  assert (∀ v, aligned v → 0 ≤ v < MAXVA → pte_of (mem s') T v = if decide (v = va) then leaf pa (Z.land perm (Z.lnot PTE_U)) else pte_of (mem s) T v) as Hpte.
  { intros v Hv Hvr. rewrite HL by done. by rewrite !PGROUNDDOWN_id by done. }
  assert (∀ v, aligned v → 0 ≤ v < TRAPFRAME → upage (mem s') T v = upage (mem s) T v) as Hup.
  { intros v Hv Hvr. unfold upage. rewrite Hpte by (done || (consts; lia)). case_decide as Hd; [|done]. subst v. by rewrite E, !leaf_pa. }
  split; [|split; [done|]].
  - constructor; [apply HG| | | |].
    + intros v Hv Hvr HPv. rewrite Hpte by (done || (consts; lia)). case_decide as Hd; [|by apply (uv_leaf _ _ _ _ _ HU)].
      subst v. exists pa, (Z.land perm (Z.lnot PTE_U)). split_and!; done || lia.
    + intros v v' Hv Hvr HPv Hv' Hvr' HPv'. rewrite !Hup by done. by apply (uv_inj _ _ _ _ _ HU).
    + intros v Hv Hvr Hn. rewrite Hpte by (done || (consts; lia)). rewrite decide_False by (by intros ->). by apply (uv_none _ _ _ _ _ HU).
    + intros v Hv Hvr. rewrite Hpte by (done || (consts; lia)). rewrite decide_False by lia. by apply (uv_high _ _ _ _ _ HU).
  - intros a Hna. apply (g_frame HG); [done|]. intros p Hp. by apply elem_of_nil in Hp.
Qed.

End Uvm.
