(* ===== verification/VmSpec.v ===== *)
(** What kernel/vm.c guarantees: the properties of its mapping, growing,
    copying and user-memory routines, with witnesses on a concrete machine. *)

From S2P Require Import Prelude Mem Layout Kalloc Vm PageTable VmProofs UserMem Uvm.

Section Spec.
Context `{PA : PageAlloc}.

Lemma wp_enough {X} (m : M phys X) Q n A s :
  wp m Q (oom n A) s → n ≤ Z.of_nat (length (free A)) → ∃ r s', m s = Ret r s' ∧ Q r s'.
Proof.
  unfold wp. intros Hw Hn. destruct (m s); try done; [eauto|]. destruct Hw as [_ Hlt]. lia.
Qed.

Lemma wp_ret_form {X} (m : M phys X) Q s : wp m Q nopanic s → ∃ r s', m s = Ret r s' ∧ Q r s'.
Proof. apply wp_returns. Qed.

(** Stores to user pages keep the address space. *)
Lemma uvm_write A root T s (P : Z → Prop) d src k m' :
  uvm A root T s P → (∀ v, P v ∨ ¬ P v) → 0 ≤ d → (∀ i, 0 ≤ i < k → umapped (mem s) T (d + i)) →
  uwrote (mem s) T d src k m' → uvm A root T (set_mem m' s) P.
Proof.
  intros HU HdP Hd Hm HW. pose proof (uvm_uspace _ _ _ _ _ HU HdP) as HUS.
  pose proof (uwrote_table _ _ _ HUS d src k m' HW Hd Hm) as Htab.
  assert (∀ v, pte_of m' T v = pte_of (mem s) T v) as Hpte by (intros v; by apply (pte_of_frame _ root)).
  assert (∀ v, upage m' T v = upage (mem s) T v) as Hup by (intros v; unfold upage; by rewrite Hpte).
  pose proof (uv_vm _ _ _ _ _ HU) as HI. constructor; cbn [mem set_mem].
  - constructor; [|by apply (pt_rep_frame _ _ _ (vi_tree HI))|apply HI].
    apply pg_rep_mem; [apply HI|]. intros x a Hx Ha. apply (uw_old _ _ _ _ _ _ HW). intros i Hi ->.
    destruct (uvm_xlate A root T s P (d + i) HU HdP ltac:(lia) (Hm i Hi)) as (Hr & HPv & E).
    destruct (uv_upage A root T s P _ HU (PGROUNDDOWN_aligned _) Hr HPv) as (Hpp & Hrf & _).
    refine (pages_apart _ _ _ _ _ _ Ha (upa_in_page (mem s) T (d + i))).
    + apply (pg_free_page A s x (vi_alloc HI) Hx).
    + apply xlate_aligned.
    + rewrite E. intros ->. by rewrite (free_not_refs A s _ (vi_alloc HI) Hx) in Hrf.
  - intros va. rewrite Hpte. apply (uv_leaf _ _ _ _ _ HU).
  - intros va va'. rewrite !Hup. apply (uv_inj _ _ _ _ _ HU).
  - intros va. rewrite Hpte. apply (uv_none _ _ _ _ _ HU).
  - intros va. rewrite Hpte. apply (uv_high _ _ _ _ _ HU).
Qed.

Lemma below_dec sz v : below sz v ∨ ¬ below sz v.
Proof. unfold below. lia. Qed.

Lemma uld_bytes_lookup m T va n i : (i < Z.to_nat n)%nat → uld_bytes m T va n !! i = Some (uld m T (va + Z.of_nat i)).
Proof.
  intros Hi. unfold uld_bytes. rewrite list_lookup_fmap, lookup_seqZ_lt by lia. simpl. do 2 f_equal. 
Qed.

Lemma length_uld_bytes m T va n : length (uld_bytes m T va n) = Z.to_nat n.
Proof. unfold uld_bytes. by rewrite length_fmap, length_seqZ. Qed.

Lemma roundtrip A root T s (P : Z → Prop) d src :
  let n := Z.of_nat (length src) in
  uvm A root T s P → (∀ v, P v ∨ ¬ P v) → 0 ≤ d < 2 ^ 64 → accessible (mem s) T d n → Forall (λ b, 0 ≤ b < 256) src →
  ∃ s', copyout root d src n s = Ret 0 s' ∧ uvm A root T s' P ∧ copyin root d n s' = Ret (0, src) s' ∧
        uld_bytes (mem s') T d n = src ∧
        (∀ va, pte_of (mem s') T va = pte_of (mem s) T va) ∧
        (∀ va, 0 ≤ va → umapped (mem s) T va → ¬ d ≤ va < d + n → uld (mem s') T va = uld (mem s) T va) ∧
        (∀ a, (∀ i, 0 ≤ i < n → a ≠ upa (mem s) T (d + i)) → ld8 (mem s') a = ld8 (mem s) a).
Proof.
  intros n HU HP Hd Hm Hsrc. pose proof (uvm_uspace _ _ _ _ _ HU HP) as HUS.
  assert (n < 2 ^ 64) as Hn.
  { destruct (decide (0 < n)); [|consts; lia]. pose proof (accessible_max _ _ _ _ Hm ltac:(done)). consts. lia. }
  destruct (wp_ret_form _ _ _ (copyout_ok root T s d src HUS Hd Hn)) as (r & s' & E & Hs' & k & HW & Hmk & Hcase).
  assert (r = 0 ∧ k = n) as [-> ->].
  { destruct Hcase as [[-> ->]|(-> & Hk & Hno)]; [done|]. destruct Hno. by apply Hm. }
  pose proof (uvm_write _ _ _ _ _ _ _ _ _ HU HP (proj1 Hd) Hm HW) as HU'. rewrite <- Hs' in HU'.
  assert (∀ va, pte_of (mem s') T va = pte_of (mem s) T va) as Hpte.
  { intros va. apply (pte_of_frame _ root). eapply (uwrote_table _ _ _ HUS); [exact HW|lia|done]. }
  assert (uld_bytes (mem s') T d n = src) as Hb.
  { apply list_eq_same_length with (n := length src); [done|rewrite length_uld_bytes; unfold n; lia|].
    intros i x y Hi Hx Hy. rewrite uld_bytes_lookup in Hx by (unfold n; lia). injection Hx as <-.
    rewrite (uwrote_uld _ _ _ HUS d src _ (mem s') _ HW ltac:(lia) ltac:(lia) Hm); [|lia|apply Hm; unfold n; lia].
    rewrite decide_True by (unfold n; lia). replace (Z.to_nat (d + Z.of_nat i - d)) with i by lia. rewrite Hy. simpl.
    rewrite Forall_lookup in Hsrc. apply Z.mod_small, (Hsrc i y Hy). }
  exists s'. split; [done|]. split; [done|]. split; [|split; [done|split; [done|split]]].
  - destruct (wp_ret_form _ _ _ (copyin_ok root T s' d n (us_tree _ _ _ (uvm_uspace _ _ _ _ _ HU' HP)) Hd ltac:(lia)))
      as (r & s2 & E2 & -> & [[-> _]|(k & Hk & -> & Hno)]).
    + by rewrite E2, Hb.
    + destruct Hno. by apply (accessible_pte (mem s) _ _ d n).
  - intros va Hva Hmv Hno. rewrite (uwrote_uld _ _ _ HUS d src _ (mem s') _ HW ltac:(lia) ltac:(lia) Hm) by done. by rewrite decide_False.
  - apply HW.
Qed.

(** * Properties *)

(** C11: mappages() maps exactly the pages of the range.  In an address space
    [T] where none of them is mapped and with two free pages per page to map
    (for missing tables), it returns 0; afterwards the leaf entry of a virtual
    address is the requested frame with the requested permissions and PTE_V on
    the range, and is what it was everywhere else; tables that had to be created
    came off the free list, and no byte outside the old tables and those pages
    changed. *)
Theorem mappages_maps A root T s va size pa perm :
  vm_inv A root T s → 0 ≤ va → 0 < size → va + size ≤ MAXVA →
  pte_pa pa → pa + npages va size * PGSIZE ≤ 2 ^ 56 → 0 ≤ perm < 1024 →
  (∀ va', 0 ≤ va' < MAXVA → in_span va size va' → Z.testbit (pte_of (mem s) T va') 0 = false) →
  2 * npages va size ≤ Z.of_nat (length (free A)) →
  ∃ s' A' T' used, mappages root va size pa perm s = Ret 0 s' ∧
    vm_inv A' root T' s' ∧ free A = used ++ free A' ∧
    (∀ va', 0 ≤ va' < MAXVA → pte_of (mem s') T' va' =
       if decide (in_span va size va') then leaf (pa + (PGROUNDDOWN va' - first_page va)) perm
       else pte_of (mem s) T va') ∧
    (∀ a, (∀ p, table root T p → ¬ in_page p a) → (∀ p, p ∈ used → ¬ in_page p a) →
       ld8 (mem s') a = ld8 (mem s) a).
Proof.
  intros HI Hva Hsz Hmax Hpa Hpa2 Hperm Hun Hfree.
  destruct (wp_enough _ _ _ _ _ (mappages_ok root A T s va size pa perm HI Hva Hsz Hmax Hpa Hpa2 Hperm Hun) Hfree)
    as (r & s' & E & -> & A' & T' & used & HG & _ & HL).
  exists s', A', T', used. split; [done|]. split; [apply HG|]. split; [apply HG|]. split; [done|]. apply HG.
Qed.

(** C19: what copyout() stores is what copyin() reads.  In a process image,
    copying a buffer to a range of addresses the process may access (pages with
    PTE_U: not the guard page of its stack) succeeds, keeps the address space and
    every leaf entry, and reading the range back returns the buffer; every other
    address the process may access reads as before, and no byte of memory changes
    but those of the range. *)
Theorem copyout_copyin_roundtrip A root T s sz dstva src :
  let n := Z.of_nat (length src) in
  uvm A root T s (below sz) → 0 ≤ dstva < 2 ^ 64 → accessible (mem s) T dstva n → Forall (λ b, 0 ≤ b < 256) src →
  ∃ s', copyout root dstva src n s = Ret 0 s' ∧ uvm A root T s' (below sz) ∧ copyin root dstva n s' = Ret (0, src) s' ∧
        (∀ va, pte_of (mem s') T va = pte_of (mem s) T va) ∧
        (∀ va, 0 ≤ va → umapped (mem s) T va → ¬ dstva ≤ va < dstva + n → uld (mem s') T va = uld (mem s) T va) ∧
        (∀ a, (∀ i, 0 ≤ i < n → a ≠ upa (mem s) T (dstva + i)) → ld8 (mem s') a = ld8 (mem s) a).
Proof.
  intros n HU Hd Hm Hb. destruct (roundtrip A root T s _ dstva src HU (below_dec sz) Hd Hm Hb) as (s' & H1 & H2 & H3 & _ & H4 & H5 & H6).
  exists s'. split_and!; done.
Qed.

(** copyin() copies the bytes of the whole range when every address of it
    is mapped for the user, and fails with -1 at the first one that is not; it
    changes no memory, whatever addresses the user passes. *)
Theorem copyin_reads_or_fails root T s srcva len :
  pt_rep (mem s) root T → 0 ≤ srcva < 2 ^ 64 → 0 ≤ len < 2 ^ 64 →
  (copyin root srcva len s = Ret (0, uld_bytes (mem s) T srcva len) s ∧
     ∀ i, 0 ≤ i < len → umapped (mem s) T (srcva + i)) ∨
  (∃ k, 0 ≤ k < len ∧ ¬ umapped (mem s) T (srcva + k) ∧
     copyin root srcva len s = Ret (-1, uld_bytes (mem s) T srcva k) s).
Proof.
  intros HT Hs Hl. destruct (wp_ret_form _ _ _ (copyin_ok root T s srcva len HT Hs Hl)) as (r & s' & E & -> & [[-> Hm]|(k & Hk & -> & Hn)]).
  - by left.
  - right. eauto.
Qed.

(** C34: copyinstr() returns 0 exactly for a string whose bytes up to and
    including the first NUL are mapped and fit in [max]; the result is those
    bytes.  Otherwise it returns -1, at an unmapped address or after [max]
    bytes without a NUL.  It changes no memory. *)
Theorem copyinstr_string_or_error root T s srcva max :
  pt_rep (mem s) root T → 0 ≤ srcva < 2 ^ 64 → 0 ≤ max < 2 ^ 64 →
  ∃ r, copyinstr root srcva max s = Ret r s ∧ instr_result T (mem s) srcva max r.
Proof.
  intros HT Hs Hm. destruct (wp_ret_form _ _ _ (copyinstr_ok root T s srcva max HT Hs Hm)) as (r & s' & E & -> & HR). eauto.
Qed.

(** C32: uvmalloc() grows a process image from [oldsz] to [newsz]: the pages that
    were mapped keep frame, permissions and contents, the new ones are distinct
    fresh frames of zeroes with the requested permissions, and pages that belong
    to anyone else keep their contents and reference counts.  At most three
    pages leave the free list per page of growth. *)
Theorem uvmalloc_grows A root T s oldsz newsz xperm :
  uvm A root T s (below oldsz) → 0 ≤ oldsz ≤ newsz → newsz ≤ TRAPFRAME → 0 ≤ xperm < 1024 →
  3 * ((PGROUNDUP newsz - PGROUNDUP oldsz) / PGSIZE) ≤ Z.of_nat (length (free A)) →
  ∃ s' A' T', uvmalloc root oldsz newsz xperm s = Ret newsz s' ∧
    ugrow A root T s (below oldsz) A' T' s' (below newsz) ∧
    zeroed (mem s') T' (PGROUNDUP oldsz) (PGROUNDUP newsz) (Z.lor (Z.lor PTE_R PTE_U) xperm) ∧
    Z.of_nat (length (free A)) ≤ Z.of_nat (length (free A')) + 3 * ((PGROUNDUP newsz - PGROUNDUP oldsz) / PGSIZE).
Proof.
  intros HU Hsz Hmax Hx Hfree.
  destruct (wp_enough _ _ _ _ _ (uvmalloc_ok A root T s oldsz newsz xperm HU Hsz Hmax Hx) Hfree)
    as (r & s' & E & -> & A' & T' & HG & Hz). eauto 10.
Qed.

(** C33: uvmdealloc() shrinks a process image from [oldsz] to [newsz] without
    panicking: exactly the frames of the pages above [newsz] return to the free
    list and lose their reference, the remaining pages keep mapping, flags and
    contents, and so does everything that belongs to anyone else.  The image may
    have pages user mode cannot reach, such as the guard page of exec(). *)
Theorem uvmdealloc_shrinks A root T s oldsz newsz :
  uvm A root T s (below oldsz) → 0 ≤ newsz ≤ oldsz → oldsz ≤ TRAPFRAME →
  ∃ s' A', uvmdealloc root oldsz newsz s = Ret newsz s' ∧
    ushrink A root T s (below oldsz) A' s' (below newsz).
Proof.
  intros HU Hsz Hmax. destruct (wp_ret_form _ _ _ (uvmdealloc_ok A root T s oldsz newsz HU Hsz Hmax))
    as (r & s' & E & -> & A' & HS). eauto.
Qed.

(** C4: uvmcopy() gives the child its own copy of the parent's memory.  From
    disjoint address spaces, the child empty, it returns 0; the child then maps
    the same pages, each with the same contents and exactly the flags of the
    parent's entry (a guard page without PTE_U, as exec() leaves below the stack,
    is one in the child too), the parent is unchanged, and the two share no page. *)
Theorem uvmcopy_copies A old new TO TN s sz :
  uvm A old TO s (below sz) → uvm A new TN s (λ _, False) → 0 ≤ sz ≤ TRAPFRAME →
  (∀ p, foot old TO (mem s) (below sz) p → ¬ table new TN p) →
  3 * (PGROUNDUP sz / PGSIZE) ≤ Z.of_nat (length (free A)) →
  ∃ s' A' T', uvmcopy old new sz s = Ret 0 s' ∧
    uvm A' new T' s' (below sz) ∧ copied (mem s) TO (mem s') T' (PGROUNDUP sz) ∧
    uvm A' old TO s' (below sz) ∧ ukeep (mem s) TO (mem s') TO (below sz) ∧
    ∀ p, foot old TO (mem s') (below sz) p → ¬ foot new T' (mem s') (below sz) p.
Proof.
  intros HO HN Hsz Hdisj Hfree.
  destruct (wp_enough _ _ _ _ _ (uvmcopy_ok A old new TO TN s sz HO HN Hsz Hdisj) Hfree)
    as (r & s' & E & -> & A' & T' & HG & Hc).
  destruct (ugrow_other _ _ _ _ _ _ _ _ _ _ _ _ HG HO ltac:(apply HO) Hdisj) as [HO' Hk].
  exists s', A', T'. split; [done|]. split; [apply HG|]. split; [done|]. split; [done|]. split; [done|].
  intros p Hp Hn.
  assert (foot old TO (mem s) (below sz) p) as Hp0.
  { destruct Hp as [|(va & Ha & Hr & HP & ->)]; [by left|]. right. exists va. split_and!; try done; try lia.
    unfold upage. by rewrite (proj1 (Hk va Ha Hr HP)). }
  destruct (foot_refs _ _ _ _ _ _ HO Hp0) as [_ [c Hrf]].
  destruct (ug_foot _ _ _ _ _ _ _ _ _ HG p Hn) as [[Ht|(va & _ & _ & [] & _)]|Hf].
  - by apply (Hdisj p).
  - by rewrite (free_not_refs A s p ltac:(apply HO) Hf) in Hrf.
Qed.

End Spec.

(** * Witnesses *)

(** A machine with the kernel image of the repository: the pages after the
    image are two empty page tables and a free list of 24 pages. *)
Module Machine0.
Import Image0.

Definition pg (i : Z) : Z := page0 + 4096 * i.
Definition free0 : list Z := pg <$> seqZ 2 24.
Fixpoint chain (l : list Z) : gmap Z Z :=
  match l with [] => ∅ | x :: l' => st64 (chain l') x (default 0 (head l')) end.
Definition machine0 : phys :=
  mkPhys (chain free0) false (pg 2) 24 26 (<[PGNUM (pg 0) := 1]> {[ PGNUM (pg 1) := 1 ]}).
Definition A0 : alloc_st := mkAlloc free0 (<[pg 0 := 1]> {[ pg 1 := 1 ]}).
Definition empty_tree : ptree := mkTree ∅ ∅.

Lemma machine0_rep : alloc_rep A0 machine0.
Proof.
  assert (Forall (λ x, kpage x ∧ rc machine0 (PGNUM x) = 0) free0) as Hf.
  { repeat constructor; try done; vm_compute; done. }
  constructor; try reflexivity.
  - repeat split; vm_compute; reflexivity.
  - apply (bool_decide_unpack _). vm_compute. done.
  - intros x Hx. rewrite Forall_forall in Hf. by apply Hf.
  - intros p c Hp. assert ((p = pg 0 ∨ p = pg 1) ∧ c = 1) as [Hp' ->].
    { cbn [refs A0] in Hp. apply lookup_insert_Some in Hp as [[<- <-]|[_ Hp]]; [auto|].
      apply lookup_singleton_Some in Hp as [<- <-]. auto. }
    destruct Hp' as [->| ->]; (split; [repeat constructor; vm_compute; done|]);
      (split; [apply (bool_decide_unpack _); vm_compute; done|]); split; try lia; vm_compute; reflexivity.
  - right. done.
Qed.

Lemma chain_zero l a : (∀ x, x ∈ l → a < x ∨ x + 8 ≤ a) → ld8 (chain l) a = 0.
Proof.
  induction l as [|x l IH]; intros H; cbn [chain]; [apply ld8_empty|].
  rewrite ld8_st64; [apply IH|]; set_solver.
Qed.

Lemma table_zero i a : 0 ≤ i < 2 → in_page (pg i) a → ld8 (mem machine0) a = 0.
Proof.
  intros Hi Ha. apply chain_zero. intros x Hx. unfold free0 in Hx. apply list_elem_of_fmap in Hx as (j & -> & Hj%elem_of_seqZ).
  unfold in_page, pg in *. consts. lia.
Qed.

Lemma empty_rep i : 0 ≤ i < 2 → pt_rep (mem machine0) (pg i) empty_tree.
Proof.
  intros Hi. constructor; cbn [lev1 lev0 empty_tree]; try done.
  - intros p [->|[[k Hk]|[k Hk]]]; [|done..]. unfold phys_page, aligned, pg, page0. consts. Z.div_mod_to_equations. lia.
  - intros k Hk. rewrite lookup_empty. symmetry. apply (entry_page_zero (pg i)); [done|].
    intros a. by apply table_zero.
Qed.

Lemma empty_uvm i : 0 ≤ i < 2 → uvm A0 (pg i) empty_tree machine0 (below 0).
Proof.
  intros Hi. constructor; unfold below; change (PGROUNDUP 0) with 0.
  - constructor; [exact machine0_rep|by apply empty_rep|].
    intros p [->|[[k Hk]|[k Hk]]]; [|done..]. assert (i = 0 ∨ i = 1) as [->| ->] by lia; vm_compute; eauto.
  - lia.
  - lia.
  - done.
  - done.
Qed.

(** An image of three pages at table [pg 0], made by uvmalloc(), next to the empty
    address space at [pg 1]. *)
Lemma image_plain :
  ∃ A T s, uvm A (pg 0) T s (below 12288) ∧ uvm A (pg 1) empty_tree s (λ _, False) ∧
    (∀ p, foot (pg 0) T (mem s) (below 12288) p → ¬ table (pg 1) empty_tree p) ∧
    (∀ va, aligned va → 0 ≤ va < 12288 → Z.testbit (pte_of (mem s) T va) 4 = true) ∧
    15 ≤ Z.of_nat (length (free A)).
Proof.
  assert (uvm A0 (pg 1) empty_tree machine0 (λ _, False)) as H1.
  { eapply uvm_iff; [|by apply (empty_uvm 1)]. unfold below. change (PGROUNDUP 0) with 0. intros; lia. }
  destruct (wp_enough _ _ _ _ _ (uvmalloc_ok A0 (pg 0) empty_tree machine0 0 12288 4 (empty_uvm 0 ltac:(lia))
    ltac:(lia) ltac:(consts; lia) ltac:(lia)) ltac:(by vm_compute)) as (r & s & _ & _ & A & T & HG & Hz & Hl).
  change (PGROUNDUP 0) with 0 in *. change (PGROUNDUP 12288) with 12288 in Hz, Hl. change (Z.of_nat (length (free A0))) with 24 in Hl.
  change (3 * ((12288 - 0) / PGSIZE)) with 9 in Hl.
  assert (∀ p, foot (pg 1) empty_tree (mem machine0) (λ _, False) p → ¬ table (pg 0) empty_tree p) as Hd.
  { intros p [[->|[[k Hk]|[k Hk]]]|(va & _ & _ & [] & _)] [Ht|[[k' Hk']|[k' Hk']]]; done. }
  destruct (ugrow_other _ _ _ _ _ _ _ _ _ _ _ _ HG H1 machine0_rep Hd) as [H1' _].
  exists A, T, s. split; [apply HG|]. split; [done|]. split; [|split; [|lia]].
  - intros p Hp Ht. destruct (ug_foot _ _ _ _ _ _ _ _ _ HG p Hp) as [[H0|(va & _ & Hva & Hb & _)]|Hf].
    + apply (Hd p); [by left|done].
    + unfold below in Hb. change (PGROUNDUP 0) with 0 in Hb. lia.
    + assert (refs A0 !! p = None) as Hn by by eapply (free_not_refs A0 machine0); [apply machine0_rep|].
      destruct (vi_tables (uv_vm _ _ _ _ _ H1) p Ht) as [c Hc]. congruence.
  - intros va Ha Hr. destruct (Hz va Ha Hr) as [(pa & Hpa & E) _]. rewrite E, leaf_user by auto with cmem. done.
Qed.

(** The same image with a guard page in the middle, as exec() leaves it below the
    stack: the process may access the first and the last page only. *)
Definition guarded (m : gmap Z Z) (T : ptree) : Prop :=
  accessible m T 0 4096 ∧ accessible m T 8192 4096 ∧ ∀ i, 0 ≤ i < 4096 → ¬ umapped m T (4096 + i).

Lemma image :
  ∃ A T s, uvm A (pg 0) T s (below 12288) ∧ uvm A (pg 1) empty_tree s (λ _, False) ∧
    (∀ p, foot (pg 0) T (mem s) (below 12288) p → ¬ table (pg 1) empty_tree p) ∧
    15 ≤ Z.of_nat (length (free A)) ∧ guarded (mem s) T.
Proof.
  destruct image_plain as (A & T & s & HU & H1 & Hd & Hu & Hl). assert (PGROUNDUP 12288 = 12288) as E0 by done.
  destruct (wp_ret_form _ _ _ (uvmclear_ok A (pg 0) T s _ 4096 HU ltac:(done) ltac:(consts; lia) ltac:(unfold below; lia)))
    as (r & s' & _ & HU' & Hpte & Hm).
  assert (∀ v, aligned v → 0 ≤ v < 12288 → upage (mem s') T v = upage (mem s) T v) as Hup.
  { intros v Hv Hvr. unfold upage. rewrite Hpte by (done || (consts; lia)). case_decide as Hd'; [|done]. subst v.
    destruct (uv_leaf _ _ _ _ _ HU 4096 Hv ltac:(consts; lia) ltac:(unfold below; lia)) as (pa & perm & E & Hperm & Hb & Hpa & _).
    destruct (clear_flags perm Hperm Hb) as [Hperm' _]. rewrite E, leaf_clear, !leaf_pa by auto with cmem. done. }
  assert (∀ i j, 0 ≤ i < 3 → 0 ≤ j < 4096 → umapped (mem s') T (4096 * i + j) ↔ i ≠ 1) as Hacc.
  { intros i j Hi Hj. assert (PGROUNDDOWN (4096 * i + j) = 4096 * i) as Ep by (rewrite PGROUNDDOWN_eq; consts; Z.div_mod_to_equations; lia).
    assert (aligned (4096 * i)) as Ha by (rewrite <- Ep; apply PGROUNDDOWN_aligned).
    rewrite (uvm_umapped _ _ _ _ _ _ HU') by (rewrite ?Ep; unfold below; consts; lia). rewrite Ep, Hpte by (done || (consts; lia)).
    case_decide as Hd'.
    - rewrite Z.land_spec. change (Z.testbit (Z.lnot PTE_U) 4) with false. rewrite andb_false_r. split; [done|lia].
    - rewrite Hu by (done || lia). split; [lia|done]. }
  exists A, T, s'. split; [done|]. split; [|split; [|split; [done|]]].
  - apply (uvm_frame A A (pg 1) empty_tree s s' _ H1); [apply HU'|done|]. intros p a Hp Hin. apply Hm. intros q Hq Hqa.
    destruct (foot_refs _ _ _ _ _ _ H1 Hp) as [[Hpp _] _].
    refine (pages_apart p q a Hpp _ _ Hin Hqa); [by eapply table_aligned; [apply HU|]|].
    intros <-. apply (Hd p); [by left|]. by destruct Hp as [|(va & _ & _ & [] & _)].
  - intros p Hp. apply Hd. destruct Hp as [|(va & Ha & Hr & HP & ->)]; [by left|]. right. exists va.
    split_and!; try done; try lia. apply Hup; [done|]. unfold below in HP. lia.
  - split; [|split].
    + intros i Hi. apply (Hacc 0 i); lia.
    + intros i Hi. apply (Hacc 2 i); lia.
    + intros i Hi H. by apply (Hacc 1 i) in H.
Qed.

Lemma mappages_maps_witness :
  ∃ s' A' T' used, mappages (pg 0) 4000 8192 KERNBASE 6 machine0 = Ret 0 s' ∧
    vm_inv A' (pg 0) T' s' ∧ free A0 = used ++ free A' ∧
    (∀ va', 0 ≤ va' < MAXVA → pte_of (mem s') T' va' =
       if decide (in_span 4000 8192 va') then leaf (KERNBASE + (PGROUNDDOWN va' - first_page 4000)) 6
       else pte_of (mem machine0) empty_tree va') ∧
    (∀ a, (∀ p, table (pg 0) empty_tree p → ¬ in_page p a) → (∀ p, p ∈ used → ¬ in_page p a) →
       ld8 (mem s') a = ld8 (mem machine0) a).
Proof.
  apply (mappages_maps A0 (pg 0) empty_tree machine0 4000 8192 KERNBASE 6);
    [apply (empty_uvm 0); lia|lia|lia|consts; lia|split; [done|consts; lia]|by vm_compute|lia|done|by vm_compute].
Defined.

Lemma copyout_copyin_roundtrip_witness :
  ∃ A T s, uvm A (pg 0) T s (below 12288) ∧ guarded (mem s) T ∧
  ∃ s', copyout (pg 0) 9000 [104; 105; 33; 0] 4 s = Ret 0 s' ∧ uvm A (pg 0) T s' (below 12288) ∧
        copyin (pg 0) 9000 4 s' = Ret (0, [104; 105; 33; 0]) s' ∧
        ∀ va, 0 ≤ va → umapped (mem s) T va → ¬ 9000 ≤ va < 9004 → uld (mem s') T va = uld (mem s) T va.
Proof.
  destruct image as (A & T & s & HU & _ & _ & _ & Hg). exists A, T, s. split; [done|]. split; [done|].
  destruct (copyout_copyin_roundtrip A (pg 0) T s 12288 9000 [104; 105; 33; 0] HU) as (s' & H1 & H2 & H3 & _ & H4 & _);
    [lia|apply (accessible_sub _ _ 8192 4096); [apply Hg|simpl; lia|simpl; lia]|repeat constructor; lia|].
  exists s'. split_and!; [exact H1|exact H2|exact H3|exact H4].
Defined.

Lemma copyin_reads_or_fails_witness :
  (copyin (pg 0) 4096 3 machine0 = Ret (0, uld_bytes (mem machine0) empty_tree 4096 3) machine0 ∧
     ∀ i, 0 ≤ i < 3 → umapped (mem machine0) empty_tree (4096 + i)) ∨
  (∃ k, 0 ≤ k < 3 ∧ ¬ umapped (mem machine0) empty_tree (4096 + k) ∧
     copyin (pg 0) 4096 3 machine0 = Ret (-1, uld_bytes (mem machine0) empty_tree 4096 k) machine0).
Proof. apply (copyin_reads_or_fails (pg 0) empty_tree machine0); [by apply empty_rep|lia|lia]. Defined.

Lemma copyinstr_string_or_error_witness :
  ∃ A T s, uvm A (pg 0) T s (below 12288) ∧
  ∃ r, copyinstr (pg 0) 4000 128 s = Ret r s ∧ instr_result T (mem s) 4000 128 r.
Proof.
  destruct image as (A & T & s & HU & _). exists A, T, s. split; [done|].
  apply (copyinstr_string_or_error (pg 0) T s 4000 128); [apply HU|lia|lia].
Defined.

Lemma uvmalloc_grows_witness :
  ∃ s' A' T', uvmalloc (pg 0) 0 5000 PTE_W machine0 = Ret 5000 s' ∧
    ugrow A0 (pg 0) empty_tree machine0 (below 0) A' T' s' (below 5000) ∧
    zeroed (mem s') T' (PGROUNDUP 0) (PGROUNDUP 5000) (Z.lor (Z.lor PTE_R PTE_U) PTE_W) ∧
    Z.of_nat (length (free A0)) ≤ Z.of_nat (length (free A')) + 3 * ((PGROUNDUP 5000 - PGROUNDUP 0) / PGSIZE).
Proof.
  apply (uvmalloc_grows A0 (pg 0) empty_tree machine0 0 5000 PTE_W);
    [apply (empty_uvm 0); lia|lia|consts; lia|by vm_compute|by vm_compute].
Defined.

Lemma uvmdealloc_shrinks_witness :
  ∃ A T s, uvm A (pg 0) T s (below 12288) ∧ guarded (mem s) T ∧
  ∃ s' A', uvmdealloc (pg 0) 12288 100 s = Ret 100 s' ∧ ushrink A (pg 0) T s (below 12288) A' s' (below 100).
Proof.
  destruct image as (A & T & s & HU & _ & _ & _ & Hg). exists A, T, s. split; [done|]. split; [done|].
  apply (uvmdealloc_shrinks A (pg 0) T s 12288 100 HU); [lia|consts; lia].
Defined.

Lemma uvmcopy_copies_witness :
  ∃ A T s, uvm A (pg 0) T s (below 12288) ∧ guarded (mem s) T ∧
  ∃ s' A' T', uvmcopy (pg 0) (pg 1) 12288 s = Ret 0 s' ∧
    uvm A' (pg 1) T' s' (below 12288) ∧ copied (mem s) T (mem s') T' (PGROUNDUP 12288) ∧
    uvm A' (pg 0) T s' (below 12288) ∧ ukeep (mem s) T (mem s') T (below 12288) ∧
    ∀ p, foot (pg 0) T (mem s') (below 12288) p → ¬ foot (pg 1) T' (mem s') (below 12288) p.
Proof.
  destruct image as (A & T & s & HU & H1 & Hd & Hl & Hg). exists A, T, s. split; [done|]. split; [done|].
  apply (uvmcopy_copies A (pg 0) (pg 1) T empty_tree s 12288 HU H1); [consts; lia|done|].
  change (PGROUNDUP 12288 / PGSIZE) with 3. lia.
Defined.

End Machine0.
