(* ===== verification/State.v ===== *)
(** The kernel's data: the structures of kernel/*.h and the global state [K] that
    the process, file-system and device code shares.

    Tables are lists and pointers into them are indices ([None] is the null
    pointer); a pipe, which lives in a page of its own, is found by the address
    of the page.  [held] is the list of spinlocks the hart holds: Locks.v shows
    that spinlock.c behaves like it. *)

From S2P Require Import Prelude Mem Layout Kalloc.

(** * Names of locks and sleep channels *)

Inductive lockid :=
  | LkProc (i : nat) | LkWait | LkPid | LkBcache | LkBuf (i : nat) | LkInode (i : nat) | LkItable | LkLog
  | LkFtable | LkPipe (a : Z) | LkTicks | LkCons | LkUart | LkPr | LkDisk.
#[export] Instance lockid_eq_dec : EqDecision lockid.
Proof. solve_decision. Defined.

Inductive chan :=
  | ChLog | ChBuf (i : nat) | ChInode (i : nat) | ChPipeR (a : Z) | ChPipeW (a : Z) | ChProc (i : nat)
  | ChTicks | ChCons | ChUart | ChDesc | ChBufIo (i : nat).
#[export] Instance chan_eq_dec : EqDecision chan.
Proof. solve_decision. Defined.

Inductive procstate := UNUSED | USED | SLEEPING | RUNNABLE | RUNNING | ZOMBIE.
#[export] Instance procstate_eq_dec : EqDecision procstate.
Proof. solve_decision. Defined.

Inductive ftype := FD_NONE | FD_PIPE | FD_INODE | FD_DEVICE.
#[export] Instance ftype_eq_dec : EqDecision ftype.
Proof. solve_decision. Defined.

(** * Structures, with an update function per field *)

(** struct proc (proc.h) *)
Record proc := mkProc {
  p_state : procstate;
  p_chan : option chan;  (* None: the null pointer *)
  p_killed : Z;
  p_xstate : Z;
  p_pid : Z;
  p_parent : option nat;  (* index in proc[] *)
  p_kstack : Z;
  p_sz : Z;
  p_pagetable : Z;
  p_trapframe : Z;  (* physical address of the trapframe page *)
  p_context : list Z;  (* ra, sp, s0 ... s11 *)
  p_ofile : list (option nat);  (* indices in ftable *)
  p_cwd : option nat;  (* index in itable *)
  p_name : list Z;  (* 16 bytes *)
}.
Definition set_p_state (v : procstate) (r : proc) : proc :=
  mkProc v (p_chan r) (p_killed r) (p_xstate r) (p_pid r) (p_parent r) (p_kstack r) (p_sz r) (p_pagetable r) (p_trapframe r) (p_context r) (p_ofile r) (p_cwd r) (p_name r).
Definition set_p_chan (v : option chan) (r : proc) : proc :=
  mkProc (p_state r) v (p_killed r) (p_xstate r) (p_pid r) (p_parent r) (p_kstack r) (p_sz r) (p_pagetable r) (p_trapframe r) (p_context r) (p_ofile r) (p_cwd r) (p_name r).
Definition set_p_killed (v : Z) (r : proc) : proc :=
  mkProc (p_state r) (p_chan r) v (p_xstate r) (p_pid r) (p_parent r) (p_kstack r) (p_sz r) (p_pagetable r) (p_trapframe r) (p_context r) (p_ofile r) (p_cwd r) (p_name r).
Definition set_p_xstate (v : Z) (r : proc) : proc :=
  mkProc (p_state r) (p_chan r) (p_killed r) v (p_pid r) (p_parent r) (p_kstack r) (p_sz r) (p_pagetable r) (p_trapframe r) (p_context r) (p_ofile r) (p_cwd r) (p_name r).
Definition set_p_pid (v : Z) (r : proc) : proc :=
  mkProc (p_state r) (p_chan r) (p_killed r) (p_xstate r) v (p_parent r) (p_kstack r) (p_sz r) (p_pagetable r) (p_trapframe r) (p_context r) (p_ofile r) (p_cwd r) (p_name r).
Definition set_p_parent (v : option nat) (r : proc) : proc :=
  mkProc (p_state r) (p_chan r) (p_killed r) (p_xstate r) (p_pid r) v (p_kstack r) (p_sz r) (p_pagetable r) (p_trapframe r) (p_context r) (p_ofile r) (p_cwd r) (p_name r).
Definition set_p_kstack (v : Z) (r : proc) : proc :=
  mkProc (p_state r) (p_chan r) (p_killed r) (p_xstate r) (p_pid r) (p_parent r) v (p_sz r) (p_pagetable r) (p_trapframe r) (p_context r) (p_ofile r) (p_cwd r) (p_name r).
Definition set_p_sz (v : Z) (r : proc) : proc :=
  mkProc (p_state r) (p_chan r) (p_killed r) (p_xstate r) (p_pid r) (p_parent r) (p_kstack r) v (p_pagetable r) (p_trapframe r) (p_context r) (p_ofile r) (p_cwd r) (p_name r).
Definition set_p_pagetable (v : Z) (r : proc) : proc :=
  mkProc (p_state r) (p_chan r) (p_killed r) (p_xstate r) (p_pid r) (p_parent r) (p_kstack r) (p_sz r) v (p_trapframe r) (p_context r) (p_ofile r) (p_cwd r) (p_name r).
Definition set_p_trapframe (v : Z) (r : proc) : proc :=
  mkProc (p_state r) (p_chan r) (p_killed r) (p_xstate r) (p_pid r) (p_parent r) (p_kstack r) (p_sz r) (p_pagetable r) v (p_context r) (p_ofile r) (p_cwd r) (p_name r).
Definition set_p_context (v : list Z) (r : proc) : proc :=
  mkProc (p_state r) (p_chan r) (p_killed r) (p_xstate r) (p_pid r) (p_parent r) (p_kstack r) (p_sz r) (p_pagetable r) (p_trapframe r) v (p_ofile r) (p_cwd r) (p_name r).
Definition set_p_ofile (v : list (option nat)) (r : proc) : proc :=
  mkProc (p_state r) (p_chan r) (p_killed r) (p_xstate r) (p_pid r) (p_parent r) (p_kstack r) (p_sz r) (p_pagetable r) (p_trapframe r) (p_context r) v (p_cwd r) (p_name r).
Definition set_p_cwd (v : option nat) (r : proc) : proc :=
  mkProc (p_state r) (p_chan r) (p_killed r) (p_xstate r) (p_pid r) (p_parent r) (p_kstack r) (p_sz r) (p_pagetable r) (p_trapframe r) (p_context r) (p_ofile r) v (p_name r).
Definition set_p_name (v : list Z) (r : proc) : proc :=
  mkProc (p_state r) (p_chan r) (p_killed r) (p_xstate r) (p_pid r) (p_parent r) (p_kstack r) (p_sz r) (p_pagetable r) (p_trapframe r) (p_context r) (p_ofile r) (p_cwd r) v.

(** struct buf (buf.h) *)
Record buf := mkBuf {
  b_valid : bool;
  b_disk : Z;
  b_dev : Z;
  b_blockno : Z;
  b_locked : bool;  (* the sleeplock's locked and pid *)
  b_pid : Z;
  b_refcnt : Z;
  b_prev : Z;  (* NBUF stands for &bcache.head *)
  b_next : Z;
  b_data : list Z;
}.
Definition set_b_valid (v : bool) (r : buf) : buf :=
  mkBuf v (b_disk r) (b_dev r) (b_blockno r) (b_locked r) (b_pid r) (b_refcnt r) (b_prev r) (b_next r) (b_data r).
Definition set_b_disk (v : Z) (r : buf) : buf :=
  mkBuf (b_valid r) v (b_dev r) (b_blockno r) (b_locked r) (b_pid r) (b_refcnt r) (b_prev r) (b_next r) (b_data r).
Definition set_b_dev (v : Z) (r : buf) : buf :=
  mkBuf (b_valid r) (b_disk r) v (b_blockno r) (b_locked r) (b_pid r) (b_refcnt r) (b_prev r) (b_next r) (b_data r).
Definition set_b_blockno (v : Z) (r : buf) : buf :=
  mkBuf (b_valid r) (b_disk r) (b_dev r) v (b_locked r) (b_pid r) (b_refcnt r) (b_prev r) (b_next r) (b_data r).
Definition set_b_locked (v : bool) (r : buf) : buf :=
  mkBuf (b_valid r) (b_disk r) (b_dev r) (b_blockno r) v (b_pid r) (b_refcnt r) (b_prev r) (b_next r) (b_data r).
Definition set_b_pid (v : Z) (r : buf) : buf :=
  mkBuf (b_valid r) (b_disk r) (b_dev r) (b_blockno r) (b_locked r) v (b_refcnt r) (b_prev r) (b_next r) (b_data r).
Definition set_b_refcnt (v : Z) (r : buf) : buf :=
  mkBuf (b_valid r) (b_disk r) (b_dev r) (b_blockno r) (b_locked r) (b_pid r) v (b_prev r) (b_next r) (b_data r).
Definition set_b_prev (v : Z) (r : buf) : buf :=
  mkBuf (b_valid r) (b_disk r) (b_dev r) (b_blockno r) (b_locked r) (b_pid r) (b_refcnt r) v (b_next r) (b_data r).
Definition set_b_next (v : Z) (r : buf) : buf :=
  mkBuf (b_valid r) (b_disk r) (b_dev r) (b_blockno r) (b_locked r) (b_pid r) (b_refcnt r) (b_prev r) v (b_data r).
Definition set_b_data (v : list Z) (r : buf) : buf :=
  mkBuf (b_valid r) (b_disk r) (b_dev r) (b_blockno r) (b_locked r) (b_pid r) (b_refcnt r) (b_prev r) (b_next r) v.

(** struct log (log.c) *)
Record log := mkLog {
  log_start : Z;
  log_size : Z;
  log_outstanding : Z;
  log_committing : bool;
  log_dev : Z;
  lh_n : Z;
  lh_block : list Z;
}.
Definition set_log_start (v : Z) (r : log) : log :=
  mkLog v (log_size r) (log_outstanding r) (log_committing r) (log_dev r) (lh_n r) (lh_block r).
Definition set_log_size (v : Z) (r : log) : log :=
  mkLog (log_start r) v (log_outstanding r) (log_committing r) (log_dev r) (lh_n r) (lh_block r).
Definition set_log_outstanding (v : Z) (r : log) : log :=
  mkLog (log_start r) (log_size r) v (log_committing r) (log_dev r) (lh_n r) (lh_block r).
Definition set_log_committing (v : bool) (r : log) : log :=
  mkLog (log_start r) (log_size r) (log_outstanding r) v (log_dev r) (lh_n r) (lh_block r).
Definition set_log_dev (v : Z) (r : log) : log :=
  mkLog (log_start r) (log_size r) (log_outstanding r) (log_committing r) v (lh_n r) (lh_block r).
Definition set_lh_n (v : Z) (r : log) : log :=
  mkLog (log_start r) (log_size r) (log_outstanding r) (log_committing r) (log_dev r) v (lh_block r).
Definition set_lh_block (v : list Z) (r : log) : log :=
  mkLog (log_start r) (log_size r) (log_outstanding r) (log_committing r) (log_dev r) (lh_n r) v.

(** struct superblock (fs.h) *)
Record superblock := mkSb {
  sb_magic : Z; sb_size : Z; sb_nblocks : Z; sb_ninodes : Z; sb_nlog : Z; sb_logstart : Z; sb_inodestart : Z; sb_bmapstart : Z;
}.

(** struct inode (file.h) *)
Record inode := mkInode {
  i_dev : Z;
  i_inum : Z;
  i_ref : Z;
  i_locked : bool;  (* the sleeplock's locked and pid *)
  i_pid : Z;
  i_valid : bool;
  i_type : Z;
  i_major : Z;
  i_minor : Z;
  i_nlink : Z;
  i_size : Z;
  i_addrs : list Z;
}.
Definition set_i_dev (v : Z) (r : inode) : inode :=
  mkInode v (i_inum r) (i_ref r) (i_locked r) (i_pid r) (i_valid r) (i_type r) (i_major r) (i_minor r) (i_nlink r) (i_size r) (i_addrs r).
Definition set_i_inum (v : Z) (r : inode) : inode :=
  mkInode (i_dev r) v (i_ref r) (i_locked r) (i_pid r) (i_valid r) (i_type r) (i_major r) (i_minor r) (i_nlink r) (i_size r) (i_addrs r).
Definition set_i_ref (v : Z) (r : inode) : inode :=
  mkInode (i_dev r) (i_inum r) v (i_locked r) (i_pid r) (i_valid r) (i_type r) (i_major r) (i_minor r) (i_nlink r) (i_size r) (i_addrs r).
Definition set_i_locked (v : bool) (r : inode) : inode :=
  mkInode (i_dev r) (i_inum r) (i_ref r) v (i_pid r) (i_valid r) (i_type r) (i_major r) (i_minor r) (i_nlink r) (i_size r) (i_addrs r).
Definition set_i_pid (v : Z) (r : inode) : inode :=
  mkInode (i_dev r) (i_inum r) (i_ref r) (i_locked r) v (i_valid r) (i_type r) (i_major r) (i_minor r) (i_nlink r) (i_size r) (i_addrs r).
Definition set_i_valid (v : bool) (r : inode) : inode :=
  mkInode (i_dev r) (i_inum r) (i_ref r) (i_locked r) (i_pid r) v (i_type r) (i_major r) (i_minor r) (i_nlink r) (i_size r) (i_addrs r).
Definition set_i_type (v : Z) (r : inode) : inode :=
  mkInode (i_dev r) (i_inum r) (i_ref r) (i_locked r) (i_pid r) (i_valid r) v (i_major r) (i_minor r) (i_nlink r) (i_size r) (i_addrs r).
Definition set_i_major (v : Z) (r : inode) : inode :=
  mkInode (i_dev r) (i_inum r) (i_ref r) (i_locked r) (i_pid r) (i_valid r) (i_type r) v (i_minor r) (i_nlink r) (i_size r) (i_addrs r).
Definition set_i_minor (v : Z) (r : inode) : inode :=
  mkInode (i_dev r) (i_inum r) (i_ref r) (i_locked r) (i_pid r) (i_valid r) (i_type r) (i_major r) v (i_nlink r) (i_size r) (i_addrs r).
Definition set_i_nlink (v : Z) (r : inode) : inode :=
  mkInode (i_dev r) (i_inum r) (i_ref r) (i_locked r) (i_pid r) (i_valid r) (i_type r) (i_major r) (i_minor r) v (i_size r) (i_addrs r).
Definition set_i_size (v : Z) (r : inode) : inode :=
  mkInode (i_dev r) (i_inum r) (i_ref r) (i_locked r) (i_pid r) (i_valid r) (i_type r) (i_major r) (i_minor r) (i_nlink r) v (i_addrs r).
Definition set_i_addrs (v : list Z) (r : inode) : inode :=
  mkInode (i_dev r) (i_inum r) (i_ref r) (i_locked r) (i_pid r) (i_valid r) (i_type r) (i_major r) (i_minor r) (i_nlink r) (i_size r) v.

(** struct file (file.h) *)
Record file := mkFile {
  f_type : ftype;
  f_ref : Z;
  f_readable : bool;
  f_writable : bool;
  f_pipe : Z;  (* address of the pipe *)
  f_ip : option nat;  (* index in itable *)
  f_off : Z;
  f_major : Z;
}.
Definition set_f_type (v : ftype) (r : file) : file :=
  mkFile v (f_ref r) (f_readable r) (f_writable r) (f_pipe r) (f_ip r) (f_off r) (f_major r).
Definition set_f_ref (v : Z) (r : file) : file :=
  mkFile (f_type r) v (f_readable r) (f_writable r) (f_pipe r) (f_ip r) (f_off r) (f_major r).
Definition set_f_readable (v : bool) (r : file) : file :=
  mkFile (f_type r) (f_ref r) v (f_writable r) (f_pipe r) (f_ip r) (f_off r) (f_major r).
Definition set_f_writable (v : bool) (r : file) : file :=
  mkFile (f_type r) (f_ref r) (f_readable r) v (f_pipe r) (f_ip r) (f_off r) (f_major r).
Definition set_f_pipe (v : Z) (r : file) : file :=
  mkFile (f_type r) (f_ref r) (f_readable r) (f_writable r) v (f_ip r) (f_off r) (f_major r).
Definition set_f_ip (v : option nat) (r : file) : file :=
  mkFile (f_type r) (f_ref r) (f_readable r) (f_writable r) (f_pipe r) v (f_off r) (f_major r).
Definition set_f_off (v : Z) (r : file) : file :=
  mkFile (f_type r) (f_ref r) (f_readable r) (f_writable r) (f_pipe r) (f_ip r) v (f_major r).
Definition set_f_major (v : Z) (r : file) : file :=
  mkFile (f_type r) (f_ref r) (f_readable r) (f_writable r) (f_pipe r) (f_ip r) (f_off r) v.

(** struct pipe (pipe.c) *)
Record pipe := mkPipe {
  pi_data : list Z;
  pi_nread : Z;
  pi_nwrite : Z;
  pi_readopen : bool;
  pi_writeopen : bool;
}.
Definition set_pi_data (v : list Z) (r : pipe) : pipe :=
  mkPipe v (pi_nread r) (pi_nwrite r) (pi_readopen r) (pi_writeopen r).
Definition set_pi_nread (v : Z) (r : pipe) : pipe :=
  mkPipe (pi_data r) v (pi_nwrite r) (pi_readopen r) (pi_writeopen r).
Definition set_pi_nwrite (v : Z) (r : pipe) : pipe :=
  mkPipe (pi_data r) (pi_nread r) v (pi_readopen r) (pi_writeopen r).
Definition set_pi_readopen (v : bool) (r : pipe) : pipe :=
  mkPipe (pi_data r) (pi_nread r) (pi_nwrite r) v (pi_writeopen r).
Definition set_pi_writeopen (v : bool) (r : pipe) : pipe :=
  mkPipe (pi_data r) (pi_nread r) (pi_nwrite r) (pi_readopen r) v.

(** the input buffer of console.c *)
Record console := mkCons {
  c_buf : list Z;
  c_r : Z;
  c_w : Z;
  c_e : Z;
}.
Definition set_c_buf (v : list Z) (r : console) : console :=
  mkCons v (c_r r) (c_w r) (c_e r).
Definition set_c_r (v : Z) (r : console) : console :=
  mkCons (c_buf r) v (c_w r) (c_e r).
Definition set_c_w (v : Z) (r : console) : console :=
  mkCons (c_buf r) (c_r r) v (c_e r).
Definition set_c_e (v : Z) (r : console) : console :=
  mkCons (c_buf r) (c_r r) (c_w r) v.

(** the transmit buffer of uart.c and the device behind it *)
Record uart := mkUart {
  tx_buf : list Z;
  tx_w : Z;
  tx_r : Z;
  tx_lsr : list bool;  (* LSR_TX_IDLE as the next reads of LSR see it; idle afterwards *)
  rx : list Z;  (* bytes waiting in the receiver *)
  tx_out : list Z;  (* bytes written to THR, oldest first *)
}.
Definition set_tx_buf (v : list Z) (r : uart) : uart :=
  mkUart v (tx_w r) (tx_r r) (tx_lsr r) (rx r) (tx_out r).
Definition set_tx_w (v : Z) (r : uart) : uart :=
  mkUart (tx_buf r) v (tx_r r) (tx_lsr r) (rx r) (tx_out r).
Definition set_tx_r (v : Z) (r : uart) : uart :=
  mkUart (tx_buf r) (tx_w r) v (tx_lsr r) (rx r) (tx_out r).
Definition set_tx_lsr (v : list bool) (r : uart) : uart :=
  mkUart (tx_buf r) (tx_w r) (tx_r r) v (rx r) (tx_out r).
Definition set_rx (v : list Z) (r : uart) : uart :=
  mkUart (tx_buf r) (tx_w r) (tx_r r) (tx_lsr r) v (tx_out r).
Definition set_tx_out (v : list Z) (r : uart) : uart :=
  mkUart (tx_buf r) (tx_w r) (tx_r r) (tx_lsr r) (rx r) v.

(** * The kernel *)

Record K := mkK {
  phy : phys;  (* memory and kalloc.c *)
  held : list lockid;  (* spinlocks this hart holds, latest first *)
  intr : bool;  (* SIE while no lock is held, and mycpu()->intena, where push_off() saves it, while one is *)
  procs : list proc;
  cur : option nat;  (* mycpu()->proc *)
  initproc : option nat;
  nextpid : Z;
  ticks : Z;
  sched_id : Z;  (* index of the scheduler in use *)
  first : bool;  (* forkret()'s static *)
  bufs : list buf;  (* bcache.buf *)
  head_prev : Z;  (* bcache.head *)
  head_next : Z;
  lg : log;
  sb : superblock;
  itab : list inode;
  disk : gmap Z (list Z);  (* what the device holds *)
  dtrace : list (Z * list Z);  (* block writes, oldest first *)
  ftab : list file;
  pipes : gmap Z pipe;
  cons : console;
  uart0 : uart;
}.
Definition set_phy (v : phys) (r : K) : K :=
  mkK v (held r) (intr r) (procs r) (cur r) (initproc r) (nextpid r) (ticks r) (sched_id r) (first r) (bufs r) (head_prev r) (head_next r) (lg r) (sb r) (itab r) (disk r) (dtrace r) (ftab r) (pipes r) (cons r) (uart0 r).
Definition set_held (v : list lockid) (r : K) : K :=
  mkK (phy r) v (intr r) (procs r) (cur r) (initproc r) (nextpid r) (ticks r) (sched_id r) (first r) (bufs r) (head_prev r) (head_next r) (lg r) (sb r) (itab r) (disk r) (dtrace r) (ftab r) (pipes r) (cons r) (uart0 r).
Definition set_intr (v : bool) (r : K) : K :=
  mkK (phy r) (held r) v (procs r) (cur r) (initproc r) (nextpid r) (ticks r) (sched_id r) (first r) (bufs r) (head_prev r) (head_next r) (lg r) (sb r) (itab r) (disk r) (dtrace r) (ftab r) (pipes r) (cons r) (uart0 r).
Definition set_procs (v : list proc) (r : K) : K :=
  mkK (phy r) (held r) (intr r) v (cur r) (initproc r) (nextpid r) (ticks r) (sched_id r) (first r) (bufs r) (head_prev r) (head_next r) (lg r) (sb r) (itab r) (disk r) (dtrace r) (ftab r) (pipes r) (cons r) (uart0 r).
Definition set_cur (v : option nat) (r : K) : K :=
  mkK (phy r) (held r) (intr r) (procs r) v (initproc r) (nextpid r) (ticks r) (sched_id r) (first r) (bufs r) (head_prev r) (head_next r) (lg r) (sb r) (itab r) (disk r) (dtrace r) (ftab r) (pipes r) (cons r) (uart0 r).
Definition set_initproc (v : option nat) (r : K) : K :=
  mkK (phy r) (held r) (intr r) (procs r) (cur r) v (nextpid r) (ticks r) (sched_id r) (first r) (bufs r) (head_prev r) (head_next r) (lg r) (sb r) (itab r) (disk r) (dtrace r) (ftab r) (pipes r) (cons r) (uart0 r).
Definition set_nextpid (v : Z) (r : K) : K :=
  mkK (phy r) (held r) (intr r) (procs r) (cur r) (initproc r) v (ticks r) (sched_id r) (first r) (bufs r) (head_prev r) (head_next r) (lg r) (sb r) (itab r) (disk r) (dtrace r) (ftab r) (pipes r) (cons r) (uart0 r).
Definition set_ticks (v : Z) (r : K) : K :=
  mkK (phy r) (held r) (intr r) (procs r) (cur r) (initproc r) (nextpid r) v (sched_id r) (first r) (bufs r) (head_prev r) (head_next r) (lg r) (sb r) (itab r) (disk r) (dtrace r) (ftab r) (pipes r) (cons r) (uart0 r).
Definition set_sched_id (v : Z) (r : K) : K :=
  mkK (phy r) (held r) (intr r) (procs r) (cur r) (initproc r) (nextpid r) (ticks r) v (first r) (bufs r) (head_prev r) (head_next r) (lg r) (sb r) (itab r) (disk r) (dtrace r) (ftab r) (pipes r) (cons r) (uart0 r).
Definition set_first (v : bool) (r : K) : K :=
  mkK (phy r) (held r) (intr r) (procs r) (cur r) (initproc r) (nextpid r) (ticks r) (sched_id r) v (bufs r) (head_prev r) (head_next r) (lg r) (sb r) (itab r) (disk r) (dtrace r) (ftab r) (pipes r) (cons r) (uart0 r).
Definition set_bufs (v : list buf) (r : K) : K :=
  mkK (phy r) (held r) (intr r) (procs r) (cur r) (initproc r) (nextpid r) (ticks r) (sched_id r) (first r) v (head_prev r) (head_next r) (lg r) (sb r) (itab r) (disk r) (dtrace r) (ftab r) (pipes r) (cons r) (uart0 r).
Definition set_head_prev (v : Z) (r : K) : K :=
  mkK (phy r) (held r) (intr r) (procs r) (cur r) (initproc r) (nextpid r) (ticks r) (sched_id r) (first r) (bufs r) v (head_next r) (lg r) (sb r) (itab r) (disk r) (dtrace r) (ftab r) (pipes r) (cons r) (uart0 r).
Definition set_head_next (v : Z) (r : K) : K :=
  mkK (phy r) (held r) (intr r) (procs r) (cur r) (initproc r) (nextpid r) (ticks r) (sched_id r) (first r) (bufs r) (head_prev r) v (lg r) (sb r) (itab r) (disk r) (dtrace r) (ftab r) (pipes r) (cons r) (uart0 r).
Definition set_lg (v : log) (r : K) : K :=
  mkK (phy r) (held r) (intr r) (procs r) (cur r) (initproc r) (nextpid r) (ticks r) (sched_id r) (first r) (bufs r) (head_prev r) (head_next r) v (sb r) (itab r) (disk r) (dtrace r) (ftab r) (pipes r) (cons r) (uart0 r).
Definition set_sb (v : superblock) (r : K) : K :=
  mkK (phy r) (held r) (intr r) (procs r) (cur r) (initproc r) (nextpid r) (ticks r) (sched_id r) (first r) (bufs r) (head_prev r) (head_next r) (lg r) v (itab r) (disk r) (dtrace r) (ftab r) (pipes r) (cons r) (uart0 r).
Definition set_itab (v : list inode) (r : K) : K :=
  mkK (phy r) (held r) (intr r) (procs r) (cur r) (initproc r) (nextpid r) (ticks r) (sched_id r) (first r) (bufs r) (head_prev r) (head_next r) (lg r) (sb r) v (disk r) (dtrace r) (ftab r) (pipes r) (cons r) (uart0 r).
Definition set_disk (v : gmap Z (list Z)) (r : K) : K :=
  mkK (phy r) (held r) (intr r) (procs r) (cur r) (initproc r) (nextpid r) (ticks r) (sched_id r) (first r) (bufs r) (head_prev r) (head_next r) (lg r) (sb r) (itab r) v (dtrace r) (ftab r) (pipes r) (cons r) (uart0 r).
Definition set_dtrace (v : list (Z * list Z)) (r : K) : K :=
  mkK (phy r) (held r) (intr r) (procs r) (cur r) (initproc r) (nextpid r) (ticks r) (sched_id r) (first r) (bufs r) (head_prev r) (head_next r) (lg r) (sb r) (itab r) (disk r) v (ftab r) (pipes r) (cons r) (uart0 r).
Definition set_ftab (v : list file) (r : K) : K :=
  mkK (phy r) (held r) (intr r) (procs r) (cur r) (initproc r) (nextpid r) (ticks r) (sched_id r) (first r) (bufs r) (head_prev r) (head_next r) (lg r) (sb r) (itab r) (disk r) (dtrace r) v (pipes r) (cons r) (uart0 r).
Definition set_pipes (v : gmap Z pipe) (r : K) : K :=
  mkK (phy r) (held r) (intr r) (procs r) (cur r) (initproc r) (nextpid r) (ticks r) (sched_id r) (first r) (bufs r) (head_prev r) (head_next r) (lg r) (sb r) (itab r) (disk r) (dtrace r) (ftab r) v (cons r) (uart0 r).
Definition set_cons (v : console) (r : K) : K :=
  mkK (phy r) (held r) (intr r) (procs r) (cur r) (initproc r) (nextpid r) (ticks r) (sched_id r) (first r) (bufs r) (head_prev r) (head_next r) (lg r) (sb r) (itab r) (disk r) (dtrace r) (ftab r) (pipes r) v (uart0 r).
Definition set_uart0 (v : uart) (r : K) : K :=
  mkK (phy r) (held r) (intr r) (procs r) (cur r) (initproc r) (nextpid r) (ticks r) (sched_id r) (first r) (bufs r) (head_prev r) (head_next r) (lg r) (sb r) (itab r) (disk r) (dtrace r) (ftab r) (pipes r) (cons r) v.

(** * Access *)

Definition proc0 : proc :=
  mkProc UNUSED None 0 0 0 None 0 0 0 0 (replicate 14 0) (replicate 16 None) None (replicate 16 0).
Definition buf0 : buf := mkBuf false 0 0 0 false 0 0 0 0 (replicate 1024 0).
Definition inode0 : inode := mkInode 0 0 0 false 0 false 0 0 0 0 0 (replicate 13 0).
Definition file0 : file := mkFile FD_NONE 0 false false 0 None 0 0.
Definition pipe0 : pipe := mkPipe (replicate 512 0) 0 0 false false.

(** the data segment of a booting kernel over the disk [d] *)
Definition k_boot (d : gmap Z (list Z)) : K :=
  mkK (phys_boot ∅) [] false (replicate 64 proc0) None None 1 0 0 true (replicate 30 buf0) 0 0
    (mkLog 0 0 0 false 0 0 (replicate 30 0)) (mkSb 0 0 0 0 0 0 0 0) (replicate 50 inode0) d []
    (replicate 100 file0) ∅ (mkCons (replicate 128 0) 0 0 0) (mkUart (replicate 32 0) 0 0 [] [] []).

Definition proc_at (i : nat) (s : K) : proc := default proc0 (procs s !! i).
Definition buf_at (i : nat) (s : K) : buf := default buf0 (bufs s !! i).
Definition inode_at (i : nat) (s : K) : inode := default inode0 (itab s !! i).
Definition file_at (i : nat) (s : K) : file := default file0 (ftab s !! i).
Definition pipe_at (a : Z) (s : K) : pipe := default pipe0 (pipes s !! a).

Definition upd_proc (i : nat) (f : proc → proc) : M K unit := modify (λ s, set_procs (alter f i (procs s)) s).
Definition upd_buf (i : nat) (f : buf → buf) : M K unit := modify (λ s, set_bufs (alter f i (bufs s)) s).
Definition upd_inode (i : nat) (f : inode → inode) : M K unit := modify (λ s, set_itab (alter f i (itab s)) s).
Definition upd_file (i : nat) (f : file → file) : M K unit := modify (λ s, set_ftab (alter f i (ftab s)) s).
Definition upd_pipe (a : Z) (f : pipe → pipe) : M K unit :=
  modify (λ s, set_pipes (<[a := f (pipe_at a s)]> (pipes s)) s).
Definition upd_log (f : log → log) : M K unit := modify (λ s, set_lg (f (lg s)) s).

(** memory operations on the whole state *)
Definition phy_do {A} (m : M phys A) : M K A := lift phy set_phy m.

(** * Simplifying states *)

(** [kproj] computes the fields of an updated state; [kset] drops an update that
    a later one of the same field hides and moves [set_held] next to the state
    it started from.  Both work by conversion, one step at a time. *)
Ltac kproj_in f :=
  match goal with
  | |- context [f (?g ?v ?s)] => first [change (f (g v s)) with (f s) | change (f (g v s)) with v]
  end.
Ltac kproj := repeat first [
  kproj_in phy | kproj_in held | kproj_in intr | kproj_in procs | kproj_in cur | kproj_in initproc | kproj_in nextpid | kproj_in ticks | kproj_in sched_id | kproj_in first 
  | kproj_in bufs | kproj_in head_prev | kproj_in head_next | kproj_in lg | kproj_in sb | kproj_in itab | kproj_in disk | kproj_in dtrace | kproj_in ftab | kproj_in pipes | kproj_in cons | kproj_in uart0].

Ltac kset1 f :=
  match goal with
  | |- context [f ?h (?g ?v ?s)] =>
      first [change (f h (g v s)) with (f h s) | change (f h (g v s)) with (g v (f h s))]
  end.
Ltac kset := repeat kset1 set_held.
Ltac kst := kset; kproj.
