(* ===== verification/Sched.v ===== *)
(** The base of kernel/proc.c that everything else calls: locks as a hart uses
    them, the current process, sleep() and wakeup(), kill(), and the copies to
    user or kernel memory. *)

From S2P Require Import Prelude Mem Layout Kalloc Vm State.

(** * Spinlocks *)

Fixpoint unheld (l : lockid) (h : list lockid) : list lockid :=
  match h with
  | [] => []
  | x :: h' => if decide (x = l) then h' else x :: unheld l h'
  end.

Definition acquire (l : lockid) : M K unit := λ s,
  if decide (l ∈ held s) then Panic "acquire" s else Ret tt (set_held (l :: held s) s).
Definition release (l : lockid) : M K unit := λ s,
  if decide (l ∈ held s) then Ret tt (set_held (unheld l (held s)) s) else Panic "release" s.

(** * The current process *)

(** myproc(); the callers below dereference it. *)
Definition myproc : M K nat :=
  let! c := gets cur in
  match c with Some p => ret p | None => ub "myproc() is null" end.

Definition getproc (p : nat) : M K proc := gets (proc_at p).

Definition allocpid : M K Z :=
  do! acquire LkPid in
  let! pid := gets nextpid in
  do! modify (λ s, set_nextpid (s32 (nextpid s + 1)) s) in
  do! release LkPid in
  ret pid.

(** * Giving up the processor *)

(** intr_get() of riscv.h: interrupts are off while a lock is held *)
Definition interruptible (s : K) : bool := bool_decide (held s = []) && intr s.

(** mycpu()->noff is the number of spinlocks held *)
Definition sched : M K unit :=
  let! p := myproc in
  let! s := get in
  if negb (bool_decide (LkProc p ∈ held s)) then panic "sched p->lock" else
  if negb (length (held s) =? 1)%nat then panic "sched locks" else
  if bool_decide (p_state (proc_at p s) = RUNNING) then panic "sched running" else
  if interruptible s then panic "sched interruptible" else
  let! intena := gets intr in
  do! swtch in
  modify (set_intr intena).

Definition yield : M K unit :=
  let! p := myproc in
  do! acquire (LkProc p) in
  do! upd_proc p (set_p_state RUNNABLE) in
  do! sched in
  release (LkProc p).

Definition sleep (ch : chan) (lk : lockid) : M K unit :=
  let! p := myproc in
  do! acquire (LkProc p) in
  do! release lk in
  do! upd_proc p (set_p_chan (Some ch)) in
  do! upd_proc p (set_p_state SLEEPING) in
  do! sched in
  do! upd_proc p (set_p_chan None) in
  do! release (LkProc p) in
  acquire lk.

Definition nprocs : list nat := seq 0 64.

Definition wakeup1 (ch : chan) (p : nat) : M K unit :=
  let! c := gets cur in
  when (negb (bool_decide (c = Some p)))
    (do! acquire (LkProc p) in
     let! pr := getproc p in
     do! when (bool_decide (p_state pr = SLEEPING) && bool_decide (p_chan pr = Some ch))
           (upd_proc p (set_p_state RUNNABLE)) in
     release (LkProc p)).
Definition wakeup (ch : chan) : M K unit := for_each nprocs (wakeup1 ch).

(** * Killing *)

Definition kill (pid : Z) : M K Z :=
  let! r := for_some nprocs (λ p,
    do! acquire (LkProc p) in
    let! pr := getproc p in
    if p_pid pr =? pid then
      do! upd_proc p (set_p_killed 1) in
      do! when (bool_decide (p_state pr = SLEEPING)) (upd_proc p (set_p_state RUNNABLE)) in
      do! release (LkProc p) in
      ret (Some 0)
    else
      do! release (LkProc p) in
      ret None) in
  ret (default (-1) r).

Definition setkilled (p : nat) : M K unit :=
  do! acquire (LkProc p) in
  do! upd_proc p (set_p_killed 1) in
  release (LkProc p).

Definition killed (p : nat) : M K Z :=
  do! acquire (LkProc p) in
  let! pr := getproc p in
  do! release (LkProc p) in
  ret (p_killed pr).

(** * Copies *)

Section Copies.
Context `{PageAlloc}.

(** A destination or source is a user address or a buffer of the kernel; what a
    kernel buffer receives is returned. *)
Inductive dst := ToUser (va : Z) | ToKernel.
Inductive src := FromUser (va : Z) | FromKernel (b : list Z).

Definition either_copyout (d : dst) (b : list Z) : M K (Z * list Z) :=
  let! p := myproc in
  match d with
  | ToUser va =>
      let! pr := getproc p in
      let! r := phy_do (copyout (p_pagetable pr) va b (Z.of_nat (length b))) in
      ret (r, [])
  | ToKernel => ret (0, b)
  end.

Definition either_copyin (x : src) (len : Z) : M K (Z * list Z) :=
  let! p := myproc in
  match x with
  | FromUser va =>
      let! pr := getproc p in
      phy_do (copyin (p_pagetable pr) va len)
  | FromKernel b => ret (0, take (Z.to_nat len) b)
  end.

End Copies.

(** * Rules *)

Lemma wp_acquire l (Q : unit → K → Prop) E s :
  (l ∉ held s) → Q tt (set_held (l :: held s) s) → wp (acquire l) Q E s.
Proof. intros Hl HQ. unfold wp, acquire. by rewrite decide_False. Qed.

Lemma wp_release l (Q : unit → K → Prop) E s :
  l ∈ held s → Q tt (set_held (unheld l (held s)) s) → wp (release l) Q E s.
Proof. intros Hl HQ. unfold wp, release. by rewrite decide_True. Qed.

Lemma unheld_head l h : unheld l (l :: h) = h.
Proof. simpl. by rewrite decide_True. Qed.

Lemma set_held_id s : set_held (held s) s = s.
Proof. by destruct s. Qed.
Lemma set_procs_id s : set_procs (procs s) s = s.
Proof. by destruct s. Qed.

Lemma set_held_same s h : held s = h → set_held h s = s.
Proof. intros <-. apply set_held_id. Qed.

(** Leaving the critical section entered last. *)
Lemma wp_release_head l h (Q : unit → K → Prop) E s :
  held s = l :: h → Q tt (set_held h s) → wp (release l) Q E s.
Proof. intros Hh HQ. apply wp_release; rewrite Hh; [set_solver|by rewrite unheld_head]. Qed.

Lemma wp_myproc p (Q : nat → K → Prop) E s : cur s = Some p → Q p s → wp myproc Q E s.
Proof. intros Hc HQ. unfold myproc, wp, mbnd, gets. cbn [obind]. by rewrite Hc. Qed.

Ltac wp_k1 :=
  lazymatch goal with
  | |- wp (acquire _) _ _ _ => apply wp_acquire; [try done|]
  | |- wp (release _) _ _ _ => eapply wp_release_head; [reflexivity|]
  | |- wp (getproc _) _ _ _ => unfold getproc
  | |- wp (upd_proc _ _) _ _ _ => unfold upd_proc
  | |- wp (upd_buf _ _) _ _ _ => unfold upd_buf
  | |- wp (upd_inode _ _) _ _ _ => unfold upd_inode
  | |- wp (upd_file _ _) _ _ _ => unfold upd_file
  | |- wp (upd_pipe _ _) _ _ _ => unfold upd_pipe
  | |- wp (upd_log _) _ _ _ => unfold upd_log
  | |- wp myproc _ _ _ => eapply wp_myproc; [eassumption|]
  | _ => wp_step
  end; cbn beta iota zeta.
Ltac wp_k := repeat wp_k1.

(** What wakeup(ch) does to the process table. *)
Definition woken (ch : chan) (c : option nat) (i : nat) (p : proc) : proc :=
  if decide (c = Some i) then p
  else if bool_decide (p_state p = SLEEPING) && bool_decide (p_chan p = Some ch)
  then set_p_state RUNNABLE p else p.
Definition wake (ch : chan) (c : option nat) (n : nat) (ps : list proc) : list proc :=
  imap (λ i p, if decide (i < n)%nat then woken ch c i p else p) ps.

Lemma wake_0 ch c ps : wake ch c 0 ps = ps.
Proof.
  unfold wake. apply list_eq. intros i. rewrite list_lookup_imap. destruct (ps !! i); done.
Qed.

Lemma wake_S ch c n ps : wake ch c (S n) ps = alter (woken ch c n) n (wake ch c n ps).
Proof.
  apply list_eq. intros i. destruct (decide (i = n)) as [->|Hne].
  - rewrite list_lookup_alter_eq. unfold wake. rewrite !list_lookup_imap. destruct (ps !! n); simpl; [|done].
    rewrite decide_True, decide_False by lia. done.
  - rewrite list_lookup_alter_ne by done. unfold wake. rewrite !list_lookup_imap.
    destruct (ps !! i); simpl; [|done]. f_equal. apply decide_ext. lia.
Qed.

Definition proc_unlocked (s : K) : Prop := ∀ i, cur s ≠ Some i → LkProc i ∉ held s.

Lemma alter_id {A} (f : A → A) (l : list A) i : (∀ x, l !! i = Some x → f x = x) → alter f i l = l.
Proof.
  intros H. apply list_eq. intros j. destruct (decide (j = i)) as [->|Hne].
  - rewrite list_lookup_alter_eq. destruct (l !! i) eqn:E; simpl; [|done]. by rewrite H.
  - by rewrite list_lookup_alter_ne.
Qed.

Lemma proc_at_alter f i l (s : K) : procs s = l → alter f i l = alter (λ _, f (proc_at i s)) i l.
Proof.
  intros <-. apply list_alter_ext; [|done]. intros x Hx. unfold proc_at. by rewrite Hx.
Qed.

Lemma wp_wakeup1 ch p (Q : unit → K → Prop) E s :
  proc_unlocked s → Q tt (set_procs (alter (woken ch (cur s) p) p (procs s)) s) → wp (wakeup1 ch p) Q E s.
Proof.
  intros Hlk HQ. unfold wakeup1. wp_k. destruct (decide (cur s = Some p)) as [Hc|Hc].
  - rewrite bool_decide_true by done. apply wp_when_f; [done|].
    rewrite alter_id, set_procs_id in HQ; [done|]. intros x _. unfold woken. by rewrite decide_True.
  - rewrite bool_decide_false by done. apply wp_when_t; [done|]. wp_k; [by apply Hlk|].
    change (proc_at p (set_held _ s)) with (proc_at p s).
    rewrite (proc_at_alter _ p (procs s) s) in HQ by done. unfold woken in HQ. rewrite decide_False in HQ by done.
    apply wp_when; intros Hb; rewrite Hb in HQ; wp_k.
    + kst. rewrite set_held_id. by rewrite (proc_at_alter _ p (procs s) s) by done.
    + kst. rewrite set_held_id. rewrite alter_id, set_procs_id in HQ; [done|].
      intros x Hx. unfold proc_at. by rewrite Hx.
Qed.

Lemma nprocs_split d p l : nprocs = d ++ p :: l → p = length d ∧ (length d + S (length l) = 64)%nat.
Proof.
  intros Hd. assert (nprocs !! length d = Some p) as Hp by (rewrite Hd; by apply list_lookup_middle).
  unfold nprocs in Hp. apply lookup_seq in Hp as [-> _]. split; [done|].
  change (S (length l)) with (length ((0 + length d)%nat :: l)). rewrite <- length_app, <- Hd. done.
Qed.

Lemma wp_wakeup ch (Q : unit → K → Prop) E s :
  proc_unlocked s → Q tt (set_procs (wake ch (cur s) 64 (procs s)) s) → wp (wakeup ch) Q E s.
Proof.
  intros Hlk HQ. unfold wakeup.
  eapply wp_post; [eapply (wp_for_each nprocs [] nprocs _
    (λ l s', s' = set_procs (wake ch (cur s) (64 - length l) (procs s)) s))|]; [|done|..].
  - intros d p l s1 Hd ->. destruct (nprocs_split d p l Hd) as [-> Hlen]. apply wp_wakeup1; [exact Hlk|].
    cbn [length procs set_procs cur]. replace (64 - S (length l))%nat with (length d) by lia.
    replace (64 - length l)%nat with (S (length d)) by lia. by rewrite wake_S.
  - cbn. by rewrite wake_0, set_procs_id.
  - intros [] s1 ->. done.
Qed.

Lemma wp_killed p (Q : Z → K → Prop) E s :
  (LkProc p ∉ held s) → Q (p_killed (proc_at p s)) s → wp (killed p) Q E s.
Proof. intros Hl HQ. unfold killed. wp_k. kst. by rewrite set_held_id. Qed.

(** sleep(): the lock is released and the process marked SLEEPING on the channel
    before the processor is given away; when it runs again it holds the lock. *)
Definition asleep (p : nat) (ch : chan) (s : K) : K :=
  set_procs (alter (λ x, set_p_state SLEEPING (set_p_chan (Some ch) x)) p (procs s)) (set_held [LkProc p] s).
Definition awake (p : nat) (lk : lockid) (i : bool) (s : K) : K :=
  set_held [lk] (set_procs (alter (set_p_chan None) p (procs s)) (set_intr i s)).

Lemma alter_compose {A} (f g : A → A) (l : list A) i : alter f i (alter g i l) = alter (λ x, f (g x)) i l.
Proof.
  apply list_eq. intros j. destruct (decide (j = i)) as [->|].
  - rewrite !list_lookup_alter_eq. by destruct (l !! i).
  - by rewrite !list_lookup_alter_ne.
Qed.

Lemma sched_form p s :
  cur s = Some p → held s = [LkProc p] → p_state (proc_at p s) ≠ RUNNING →
  ∃ k, sched s = Swtch s k ∧ ∀ s', k s' = Ret tt (set_intr (intr s) s').
Proof.
  intros Hc Hh Hs. unfold sched, myproc, mbnd at 1. unfold mbnd at 1, gets. cbn [obind]. rewrite Hc. cbn [ret obind].
  unfold mbnd at 1, get. cbn [obind]. rewrite Hh, bool_decide_true by (by left). cbn [negb length Nat.eqb].
  rewrite bool_decide_false by done. unfold interruptible. rewrite Hh. cbn [bool_decide decide decide_rel list_eq_dec andb].
  eexists. split; [reflexivity|]. done.
Qed.

Lemma sleep_form ch lk p s :
  cur s = Some p → held s = [lk] → lk ≠ LkProc p → (p < length (procs s))%nat →
  ∃ k, sleep ch lk s = Swtch (asleep p ch s) k ∧ ∀ s', cur s' = Some p → held s' = [LkProc p] → k s' = Ret tt (awake p lk (intr s) s').
Proof.
  intros Hc Hh Hne Hp. unfold sleep, myproc, mbnd at 1. unfold mbnd at 1, gets. cbn [obind]. rewrite Hc. cbn [ret obind].
  unfold mbnd at 1, acquire. rewrite Hh, decide_False by set_solver. cbn [obind].
  unfold mbnd at 1, release. cbn [held set_held]. rewrite decide_True by set_solver. cbn [obind unheld].
  rewrite decide_False, decide_True by done.
  unfold mbnd at 1, upd_proc, modify. cbn [obind]. unfold mbnd at 1, modify. cbn [obind]. kst. rewrite alter_compose.
  lazymatch goal with |- context [mbnd sched _ ?x] => change x with (asleep p ch s) end.
  destruct (sched_form p (asleep p ch s)) as (k & Ek & Hk); [done|done| |].
  { unfold proc_at, asleep. cbn [procs set_procs]. rewrite list_lookup_alter_eq. destruct (lookup_lt_is_Some_2 _ _ Hp) as [x ->]. done. }
  unfold mbnd at 1. rewrite Ek. cbn [obind]. eexists. split; [reflexivity|].
  intros s' Hc' Hh'. cbn beta. rewrite Hk. cbn [obind]. unfold mbnd at 1. cbn [obind].
  unfold mbnd at 1. cbn [held set_procs set_intr]. rewrite Hh'. rewrite decide_True by set_solver. cbn [obind unheld held set_held].
  rewrite (decide_True (P := LkProc p = LkProc p)) by done. rewrite decide_False by set_solver. reflexivity.
Qed.

Lemma sat_sleep ch lk p s (Q : unit → K → Prop) E G R :
  cur s = Some p → held s = [lk] → lk ≠ LkProc p → (p < length (procs s))%nat →
  G (asleep p ch s) →
  (∀ s', R (asleep p ch s) s' → cur s' = Some p ∧ held s' = [LkProc p] ∧ Q tt (awake p lk (intr s) s')) →
  sat Q E G R (sleep ch lk s).
Proof.
  intros Hc Hh Hne Hp HG HR. destruct (sleep_form ch lk p s Hc Hh Hne Hp) as (k & -> & Hk). split; [exact HG|].
  intros s' HRs. destruct (HR s' HRs) as (Hc' & Hh' & HQ). by rewrite (Hk s' Hc' Hh').
Qed.

Lemma hsat_sleep {H} ch lk p s (Q : unit → H → K → Prop) E G (R : H → K → H → K → Prop) h :
  cur s = Some p → held s = [lk] → lk ≠ LkProc p → (p < length (procs s))%nat →
  G h (asleep p ch s) →
  (∀ h' s', R h (asleep p ch s) h' s' → cur s' = Some p ∧ held s' = [LkProc p] ∧ Q tt h' (awake p lk (intr s) s')) →
  hsat Q E G R h (sleep ch lk s).
Proof.
  intros Hc Hh Hne Hp HG HR. destruct (sleep_form ch lk p s Hc Hh Hne Hp) as (k & -> & Hk). split; [exact HG|].
  intros h' s' HRs. destruct (HR h' s' HRs) as (Hc' & Hh' & HQ). by rewrite (Hk s' Hc' Hh').
Qed.

(** * kill *)

Definition killed_proc (p : proc) : proc :=
  (if decide (p_state p = SLEEPING) then set_p_state RUNNABLE else id) (set_p_killed 1 p).

Definition kill_result (pid : Z) (s : K) : Z * K :=
  match list_find (λ p, p_pid p = pid) (procs s) with
  | Some (i, _) => (0, set_procs (alter killed_proc i (procs s)) s)
  | None => (-1, s)
  end.

Lemma wp_kill pid (Q : Z → K → Prop) E s :
  held s = [] → length (procs s) = 64%nat → Q (kill_result pid s).1 (kill_result pid s).2 → wp (kill pid) Q E s.
Proof.
  intros Hh Hlen HQ. unfold kill. apply wp_bind.
  apply (wp_for_some nprocs [] nprocs _ (λ d s', s' = s ∧ ∀ i, (i < length d)%nat → p_pid (proc_at i s) ≠ pid));
    [| |done|split; [done|simpl; lia]].
  - intros d p l s' Hd [-> Hno]. destruct (nprocs_split d p l Hd) as [-> Hl]. set (i := length d) in *.
    assert (∃ x, procs s !! i = Some x) as [x Hx] by (apply lookup_lt_is_Some_2; lia).
    assert (proc_at i s = x) as Hpx by (unfold proc_at; by rewrite Hx).
    wp_k; [by rewrite Hh; set_solver|]. change (proc_at i (set_held _ s)) with (proc_at i s). rewrite Hpx.
    destruct (Z.eqb_spec (p_pid x) pid) as [E'|E'].
    + assert (kill_result pid s = (0, set_procs (alter killed_proc i (procs s)) s)) as Hres.
      { unfold kill_result. rewrite (proj2 (list_find_Some _ _ i x)); [done|]. split; [done|]. split; [done|].
        intros j y Hj Hlt. specialize (Hno j Hlt). unfold proc_at in Hno. by rewrite Hj in Hno. }
      rewrite Hres in HQ. cbn [fst snd] in HQ. wp_k. apply wp_when; intros Hs; wp_k; cbn [default];
        kst; rewrite set_held_same by done.
      * rewrite alter_compose. erewrite (list_alter_ext _ killed_proc); [exact HQ|..|done].
        intros y Hy. rewrite Hy in Hx. injection Hx as ->. unfold killed_proc. rewrite decide_True by by apply bool_decide_eq_true in Hs. done.
      * erewrite (list_alter_ext _ killed_proc); [exact HQ|..|done].
        intros y Hy. rewrite Hy in Hx. injection Hx as ->. unfold killed_proc. rewrite decide_False by by apply bool_decide_eq_false in Hs. done.
    + wp_k. kst. split; [by rewrite set_held_same|]. intros j Hj. rewrite length_app in Hj. simpl in Hj.
      destruct (decide (j = i)) as [->|]; [by rewrite Hpx|]. apply Hno. lia.
  - intros s' [-> Hno]. apply wp_ret. cbn [default]. unfold kill_result in HQ.
    destruct (list_find _ (procs s)) as [[i x]|] eqn:Hf; [|done].
    apply list_find_Some in Hf as (Hx & Hpid & _). pose proof (lookup_lt_Some _ _ _ Hx).
    destruct (Hno i); [unfold nprocs; rewrite length_seq; lia|]. unfold proc_at. by rewrite Hx.
Qed.
