(* ===== verification/UserCtx.v ===== *)
(** The process a system call runs for: process [p] is current, not killed, and
    its address space is [T], an image of [sz] bytes.  The rules here let the
    pipe, console and file code copy from and to it. *)

From S2P Require Import Prelude Mem Layout Kalloc Vm PageTable VmProofs UserMem Uvm VmSpec State Sched.

Section User.
Context `{PA : PageAlloc} (p : nat) (root : Z) (T : ptree) (sz : Z).

Record user (s : K) : Prop := {
  u_cur : cur s = Some p;
  u_lt : (p < length (procs s))%nat;
  u_root : p_pagetable (proc_at p s) = root;
  u_alive : p_killed (proc_at p s) = 0;
  u_mem : ∃ A, uvm A root T (phy s) (below sz);
  u_max : sz ≤ TRAPFRAME;
}.

(** the byte at a user address *)
Definition ubyte (s : K) (va : Z) : Z := uld (mem (phy s)) T va.
Definition ubytes (s : K) (va n : Z) : list Z := uld_bytes (mem (phy s)) T va n.

(** the state differs only where user memory, locks, pipes or other processes' states do *)
Lemma user_same s s' :
  user s → cur s' = cur s → length (procs s') = length (procs s) →
  p_pagetable (proc_at p s') = p_pagetable (proc_at p s) → p_killed (proc_at p s') = p_killed (proc_at p s) →
  phy s' = phy s → user s'.
Proof. intros [] H1 H2 H3 H4 H5. split; rewrite ?H1, ?H2, ?H3, ?H4, ?H5; done. Qed.

Lemma wake_cur ch s : cur s = Some p → proc_at p (set_procs (wake ch (cur s) 64 (procs s)) s) = proc_at p s.
Proof.
  intros Hc. unfold proc_at. cbn [procs set_procs]. unfold wake. rewrite list_lookup_imap.
  destruct (procs s !! p); simpl; [|done]. unfold woken. case_decide; [|done]. by rewrite decide_True.
Qed.
Lemma length_wake ch c n ps : length (wake ch c n ps) = length ps.
Proof. unfold wake. apply length_imap. Qed.

Lemma user_wake ch s : user s → user (set_procs (wake ch (cur s) 64 (procs s)) s).
Proof.
  intros Hu. pose proof (u_cur s Hu) as Hc.
  apply (user_same s); [done|done|apply length_wake|by rewrite wake_cur|by rewrite wake_cur|done].
Qed.

Lemma user_awake lk i s : user s → user (awake p lk i s).
Proof.
  intros Hu. apply (user_same s); [done|done|apply length_alter|..|done];
    unfold proc_at, awake; cbn [procs set_procs set_held set_intr]; rewrite list_lookup_alter_eq; by destruct (procs s !! p).
Qed.

Lemma user_asleep ch s : user s → user (asleep p ch s).
Proof.
  intros Hu. apply (user_same s); [done|done|apply length_alter|..|done];
    unfold proc_at, asleep; cbn [procs set_procs set_held]; rewrite list_lookup_alter_eq; by destruct (procs s !! p).
Qed.

(** killed() of the current process *)
Lemma wp_user_killed s (Q : Z → K → Prop) E : user s → (LkProc p ∉ held s) → Q 0 s → wp (killed p) Q E s.
Proof. intros Hu Hl HQ. apply wp_killed; [done|]. by rewrite (u_alive s Hu). Qed.

(** copyin() and copyout() of a range the process may access *)
Lemma wp_user_copyin s va n (Q : Z * list Z → K → Prop) E :
  user s → 0 ≤ va < 2 ^ 64 → 0 ≤ n → accessible (mem (phy s)) T va n → Q (0, ubytes s va n) s → wp (phy_do (copyin root va n)) Q E s.
Proof.
  intros [_ _ _ _ [A HU] Hmax] Hva Hn Hm HQ.
  assert (n < 2 ^ 64) as Hn'.
  { destruct (decide (0 < n)); [|lia]. pose proof (accessible_max _ _ _ _ Hm ltac:(done)). consts. lia. }
  unfold phy_do. apply wp_lift.
  eapply wp_mono; [apply (copyin_ok root T); [apply (us_tree _ _ _ (uvm_uspace _ _ _ _ _ HU (below_dec sz)))|lia|lia]| |intros ??[]].
  intros r s' (-> & [[-> _]|(k & Hk & -> & Hno)]); [|by destruct Hno; apply Hm]. by destruct s.
Qed.

Lemma wp_user_copyout s va b (Q : Z → K → Prop) E :
  user s → 0 ≤ va < 2 ^ 64 → accessible (mem (phy s)) T va (Z.of_nat (length b)) → Forall (λ b, 0 ≤ b < 256) b →
  (∀ s', user s' → s' = set_phy (phy s') s → ubytes s' va (Z.of_nat (length b)) = b →
     (∀ x, pte_of (mem (phy s')) T x = pte_of (mem (phy s)) T x) →
     (∀ x, 0 ≤ x → umapped (mem (phy s)) T x → ¬ va ≤ x < va + Z.of_nat (length b) → ubyte s' x = ubyte s x) → Q 0 s') →
  wp (phy_do (copyout root va b (Z.of_nat (length b)))) Q E s.
Proof.
  intros Hu Hva Hm Hb HQ. destruct (u_mem s Hu) as [A HU].
  destruct (roundtrip A root T (phy s) _ va b HU (below_dec sz) Hva Hm Hb) as (s1 & E1 & HU1 & _ & E2 & Hpte & Hsame & _).
  unfold phy_do. apply wp_lift. eapply wp_eq; [exact E1|]. apply HQ; try done.
  destruct Hu. split; try done. exists A. done.
Qed.

End User.

(** A kernel whose process 0 has the address space at table [pg 0]. *)
Module User0.
Import Image0 Machine0.

Definition one_user : K := set_cur (Some 0%nat) (set_procs (replicate 64 (set_p_pagetable (pg 0) proc0)) (k_boot ∅)).
Lemma user_intro k A T ph sz :
  cur k = Some 0%nat → procs k = procs one_user → uvm A (pg 0) T ph (below sz) → sz ≤ TRAPFRAME →
  user 0 (pg 0) T sz (set_phy ph k).
Proof.
  intros Hc Hp HU Hm. split; cbn [cur procs set_phy]; [done|rewrite Hp; cbn; lia| | |by exists A|done]; unfold proc_at; cbn [procs set_phy]; by rewrite Hp.
Qed.
End User0.
