(* ===== verification/Locks.v ===== *)
(** kernel/spinlock.c on several harts: the lock word, holding(), the matched
    push_off() and pop_off(), and what they guarantee.

    A hart runs one memory access of acquire() or release() per step, so the
    steps of different harts interleave in every possible way; __sync_lock_test_and_set()
    is one step.  The code between the calls is arbitrary: in [Run] a hart may
    call acquire() or release() of any lock, and switch interrupts on or off when
    it is in no critical section, as usertrap() and the scheduler do. *)

From stdpp Require Import functions.
From S2P Require Import Prelude Mem Layout Kalloc Vm State Sched.

(** struct cpu (proc.h), and the hart's interrupt enable bit *)
Record cpu := mkCpu { noff : Z; intena : bool; sie : bool }.

Definition intr_set (b : bool) : M cpu unit := modify (λ c, mkCpu (noff c) (intena c) b).

Definition push_off : M cpu unit :=
  let! old := gets sie in
  do! intr_set false in
  let! c := get in
  do! when (noff c =? 0) (modify (λ c, mkCpu (noff c) old (sie c))) in
  modify (λ c, mkCpu (s32 (noff c + 1)) (intena c) (sie c)).

Definition pop_off : M cpu unit :=
  let! c := get in
  if sie c then panic "pop_off - interruptible" else
  if noff c <? 1 then panic "pop_off" else
  do! modify (λ c, mkCpu (s32 (noff c - 1)) (intena c) (sie c)) in
  let! c := get in
  when ((noff c =? 0) && intena c) (intr_set true).

(** struct spinlock; [lcpu] is the number of the hart cpu points to *)
Record spinlock := mkLock { locked : Z; lcpu : option nat }.
Definition initlock : spinlock := mkLock 0 None.

(** * Where a hart is *)

Inductive call := Acquire | Release.
Inductive pcs :=
  | Run
  | Hold1 (c : call) (l : lockid)   (* holding(): about to read lk->locked *)
  | Hold2 (c : call) (l : lockid)   (* holding(): about to read lk->cpu *)
  | Spin (l : lockid)               (* acquire(): about to swap *)
  | Take (l : lockid)               (* acquire(): about to set lk->cpu *)
  | Drop (l : lockid)               (* release(): about to clear lk->cpu *)
  | Free (l : lockid)               (* release(): about to clear lk->locked *)
  | Pop                             (* release(): about to call pop_off() *)
  | Crash (m : string).

(** [hheld] and [uie] only record the history: the locks taken and not given
    back, and the interrupt state the code outside critical sections chose *)
Record hart := mkHart { hc : cpu; pc : pcs; hheld : list lockid; uie : bool }.
Record st := mkSt { locks : lockid → spinlock; harts : nat → hart }.

Definition goto (p : pcs) (x : hart) : hart := mkHart (hc x) p (hheld x) (uie x).
Definition put_hart (h : nat) (x : hart) (s : st) : st := mkSt (locks s) (<[h := x]> (harts s)).
Definition put_lock (l : lockid) (k : spinlock) (s : st) : st := mkSt (<[l := k]> (locks s)) (harts s).

(** run push_off() or pop_off() on the hart *)
Definition on_cpu (m : M cpu unit) (p : pcs) (x : hart) : hart :=
  match m (hc x) with
  | Ret _ c => mkHart c p (hheld x) (uie x)
  | Panic msg c => mkHart c (Crash msg) (hheld x) (uie x)
  | _ => mkHart (hc x) (Crash "") (hheld x) (uie x)
  end.

(** what acquire() and release() do with the result of holding() *)
Definition after_holding (c : call) (l : lockid) (r : bool) : pcs :=
  match c, r with
  | Acquire, true => Crash "acquire"
  | Acquire, false => Spin l
  | Release, true => Drop l
  | Release, false => Crash "release"
  end.

Inductive action := Call (c : call) (l : lockid) | SetIntr (b : bool) | Next.

(** more locks than the memory has room for *)
Definition MAXLOCKS : Z := 2 ^ 30.

Definition step_hart (h : nat) (a : action) (s : st) : option st :=
  let x := harts s h in
  match a, pc x with
  | Call Acquire l, Run =>
      if Z.of_nat (length (hheld x)) <? MAXLOCKS then Some (put_hart h (on_cpu push_off (Hold1 Acquire l) x) s) else None
  | Call Release l, Run => Some (put_hart h (goto (Hold1 Release l) x) s)
  | SetIntr b, Run =>
      if noff (hc x) =? 0 then Some (put_hart h (mkHart (mkCpu (noff (hc x)) (intena (hc x)) b) Run (hheld x) b) s) else None
  | Next, Hold1 c l =>
      Some (put_hart h (goto (if locked (locks s l) =? 0 then after_holding c l false else Hold2 c l) x) s)
  | Next, Hold2 c l => Some (put_hart h (goto (after_holding c l (bool_decide (lcpu (locks s l) = Some h))) x) s)
  | Next, Spin l =>
      let old := locked (locks s l) in
      Some (put_hart h (goto (if old =? 0 then Take l else Spin l) x) (put_lock l (mkLock 1 (lcpu (locks s l))) s))
  | Next, Take l =>
      Some (put_hart h (mkHart (hc x) Run (l :: hheld x) (uie x)) (put_lock l (mkLock (locked (locks s l)) (Some h)) s))
  | Next, Drop l =>
      Some (put_hart h (mkHart (hc x) (Free l) (unheld l (hheld x)) (uie x)) (put_lock l (mkLock (locked (locks s l)) None) s))
  | Next, Free l => Some (put_hart h (goto Pop x) (put_lock l (mkLock 0 (lcpu (locks s l))) s))
  | Next, Pop => Some (put_hart h (on_cpu pop_off Run x) s)
  | _, _ => None
  end.

Definition step (s s' : st) : Prop := ∃ h a, step_hart h a s = Some s'.
Definition boot (s : st) : Prop :=
  (∀ l, locks s l = initlock) ∧ ∀ h, pc (harts s h) = Run ∧ hheld (harts s h) = [] ∧ noff (hc (harts s h)) = 0 ∧ sie (hc (harts s h)) = uie (harts s h).
Definition reachable (s : st) : Prop := ∃ s0, boot s0 ∧ rtc step s0 s.

(** * The invariant *)

(** how far noff is ahead of the locks the hart holds *)
Definition ahead (p : pcs) : Z :=
  match p with
  | Hold1 Acquire _ | Hold2 Acquire _ | Spin _ | Take _ | Free _ | Pop => 1
  | _ => 0
  end.
Definition crashed (x : hart) : Prop := ∃ m, pc x = Crash m.

Record hart_ok (x : hart) : Prop := {
  ho_nodup : NoDup (hheld x);
  ho_few : Z.of_nat (length (hheld x)) + ahead (pc x) ≤ MAXLOCKS;
  ho_noff : ¬ crashed x → noff (hc x) = Z.of_nat (length (hheld x)) + ahead (pc x);
  ho_on : ¬ crashed x → noff (hc x) = 0 → sie (hc x) = uie x;
  ho_off : noff (hc x) ≠ 0 → sie (hc x) = false ∧ intena (hc x) = uie x;
  ho_fresh : ∀ l, pc x = Spin l ∨ pc x = Take l ∨ pc x = Free l → l ∉ hheld x;
  ho_mine : ∀ l, pc x = Drop l → l ∈ hheld x;
}.

(** the hart has the lock, or is just taking it or giving it back *)
Definition owns (x : hart) (l : lockid) : Prop := l ∈ hheld x ∨ pc x = Take l ∨ pc x = Free l.

Record locks_ok (s : st) : Prop := {
  lo_cpu : ∀ h l, lcpu (locks s l) = Some h ↔ l ∈ hheld (harts s h);
  lo_bit : ∀ l, locked (locks s l) = 0 ∨ locked (locks s l) = 1;
  lo_free : ∀ h l, locked (locks s l) = 0 → ¬ owns (harts s h) l;
  lo_excl : ∀ h h' l, owns (harts s h) l → owns (harts s h') l → h = h';
}.

Definition inv (s : st) : Prop := (∀ h, hart_ok (harts s h)) ∧ locks_ok s.

Lemma push_off_ret c :
  push_off c = Ret tt (mkCpu (s32 (noff c + 1)) (if noff c =? 0 then sie c else intena c) false).
Proof. destruct c as [n i b]. unfold push_off, mbnd, gets, get, intr_set, modify, when. cbn. by destruct (n =? 0). Qed.

Lemma pop_off_ret c :
  sie c = false → 1 ≤ noff c →
  pop_off c = Ret tt (mkCpu (s32 (noff c - 1)) (intena c) ((s32 (noff c - 1) =? 0) && intena c)).
Proof.
  destruct c as [n i b]. cbn. intros -> Hn. unfold pop_off, mbnd, get, modify, when, intr_set. cbn.
  destruct (Z.ltb_spec n 1); [lia|]. cbn. destruct (s32 (n - 1) =? 0), i; done.
Qed.

Lemma unheld_spec l h : NoDup h → NoDup (unheld l h) ∧ ∀ x, x ∈ unheld l h ↔ x ∈ h ∧ x ≠ l.
Proof.
  induction 1 as [|y h Hy Hn [IH1 IH2]]; simpl; [split; [constructor|set_solver]|].
  destruct (decide (y = l)) as [->|Hne].
  - split; [done|]. intros x. rewrite elem_of_cons. split; [|naive_solver].
    intros Hx. split; [by right|]. intros ->. done.
  - split; [constructor; [rewrite IH2; naive_solver|done]|]. intros x. rewrite !elem_of_cons, IH2. naive_solver.
Qed.
Lemma unheld_length l h : l ∈ h → length h = S (length (unheld l h)).
Proof.
  induction h as [|y h IH]; [set_solver|]. simpl. intros Hl. destruct (decide (y = l)); [done|].
  simpl. rewrite <- IH; [done|]. set_solver.
Qed.

(** A step that changes only the hart. *)
Lemma inv_local s h x' :
  inv s → hart_ok x' → hheld x' = hheld (harts s h) → (∀ l, owns x' l → owns (harts s h) l) → inv (put_hart h x' s).
Proof.
  intros [Hh [Hc Hb Hf He]] Hx Hheld Hown. split; [|split]; cbn [locks harts put_hart].
  - intros h'. destruct (decide (h' = h)) as [->|]; [by rewrite fn_lookup_insert|by rewrite fn_lookup_insert_ne].
  - intros h' l. destruct (decide (h' = h)) as [->|]; [rewrite fn_lookup_insert, Hheld|rewrite fn_lookup_insert_ne by done]; apply Hc.
  - done.
  - intros h' l Hl. destruct (decide (h' = h)) as [->|]; [rewrite fn_lookup_insert|rewrite fn_lookup_insert_ne by done; eauto].
    intros Ho. by eapply Hf, Hown.
  - assert (∀ k l, owns (<[h:=x']> (harts s) k) l → owns (harts s k) l) as Hsub.
    { intros k l. destruct (decide (k = h)) as [->|]; [rewrite fn_lookup_insert; auto|by rewrite fn_lookup_insert_ne]. }
    intros h1 h2 l H1 H2. eapply He; eauto.
Qed.

(** A step that changes the hart and one lock. *)
Lemma inv_put s h x' l k :
  inv s → hart_ok x' →
  (∀ l', l' ≠ l → l' ∈ hheld x' ↔ l' ∈ hheld (harts s h)) →
  (∀ l', l' ≠ l → owns x' l' → owns (harts s h) l') →
  (locked k = 0 ∨ locked k = 1) →
  (∀ h', lcpu k = Some h' ↔ h' = h ∧ l ∈ hheld x' ∨ h' ≠ h ∧ l ∈ hheld (harts s h')) →
  (locked k = 0 → ¬ owns x' l) →
  (∀ h', h' ≠ h → owns (harts s h') l → locked k = 1 ∧ ¬ owns x' l) →
  inv (put_hart h x' (put_lock l k s)).
Proof.
  intros [Hh [Hc Hb Hf He]] Hx Hheld Hown Hbit Hcpu Hfree Hex. split; [|split]; cbn [locks harts put_hart put_lock].
  - intros h'. destruct (decide (h' = h)) as [->|]; [by rewrite fn_lookup_insert|by rewrite fn_lookup_insert_ne].
  - intros h' l'. destruct (decide (l' = l)) as [->|Hl].
    + rewrite fn_lookup_insert, Hcpu. destruct (decide (h' = h)) as [->|]; [rewrite fn_lookup_insert|rewrite fn_lookup_insert_ne by done]; naive_solver.
    + rewrite fn_lookup_insert_ne by done. rewrite Hc.
      destruct (decide (h' = h)) as [->|]; [rewrite fn_lookup_insert|rewrite fn_lookup_insert_ne by done]; [|done]. symmetry. auto.
  - intros l'. destruct (decide (l' = l)) as [->|]; [by rewrite fn_lookup_insert|by rewrite fn_lookup_insert_ne].
  - intros h' l' H0. destruct (decide (l' = l)) as [->|Hl]; [rewrite fn_lookup_insert in H0|rewrite fn_lookup_insert_ne in H0 by done];
      (destruct (decide (h' = h)) as [->|]; [rewrite fn_lookup_insert|rewrite fn_lookup_insert_ne by done]).
    + auto.
    + intros Ho. destruct (Hex h'); [done|done|]. lia.
    + intros Ho. by eapply Hf, Hown.
    + by apply Hf.
  - assert (∀ a b l', owns (<[h:=x']> (harts s) a) l' → owns (<[h:=x']> (harts s) b) l' → b ≠ h → a = b) as Hgen.
    { intros a b l' Ha Hb' Hne. rewrite fn_lookup_insert_ne in Hb' by done.
      destruct (decide (a = h)) as [->|Hah]; [rewrite fn_lookup_insert in Ha|rewrite fn_lookup_insert_ne in Ha by done; by eapply He].
      destruct (decide (l' = l)) as [->|]; [by destruct (Hex b)|]. eapply He; eauto. }
    intros a b l' Ha Hb'. destruct (decide (b = h)) as [->|]; [|by eapply Hgen].
    destruct (decide (a = h)) as [->|]; [done|]. symmetry. by eapply Hgen.
Qed.

Lemma hart_ok_goto p x :
  hart_ok x → ¬ crashed x → (ahead p = ahead (pc x) ∨ ∃ m, p = Crash m) →
  (∀ l, p = Spin l ∨ p = Take l ∨ p = Free l → l ∉ hheld x) → (∀ l, p = Drop l → l ∈ hheld x) → hart_ok (goto p x).
Proof.
  intros [] Hcr Hp Hf Hm. split; cbn [hheld hc pc uie goto]; auto.
  - destruct Hp as [->|[m ->]]; [done|]. simpl. destruct (pc x) as [|[]|[]| | | | | |]; simpl in *; lia.
  - intros Hc. destruct Hp as [->|[m ->]]; [auto|]. destruct Hc. by exists m.
Qed.

Lemma not_crashed x p : pc x = p → (∀ m, p ≠ Crash m) → ¬ crashed x.
Proof. intros <- Hp [m E]. by eapply Hp. Qed.

Lemma hart_ok_push l x :
  hart_ok x → pc x = Run → Z.of_nat (length (hheld x)) < MAXLOCKS → hart_ok (on_cpu push_off (Hold1 Acquire l) x).
Proof.
  intros [] Hpc Hlt. assert (¬ crashed x) as Hcr by (eapply not_crashed; eauto; done).
  assert (noff (hc x) = Z.of_nat (length (hheld x))) as Hn by (rewrite ho_noff0 by done; rewrite Hpc; simpl; lia).
  unfold MAXLOCKS in *. unfold on_cpu. rewrite push_off_ret. assert (s32 (noff (hc x) + 1) = noff (hc x) + 1) as Hs by (apply s32_small; lia).
  rewrite Hs. split; cbn [hheld hc pc uie noff sie intena ahead]; try done.
  - unfold MAXLOCKS. lia.
  - intros _. lia.
  - intros _ ?. lia.
  - intros _. split; [done|]. destruct (Z.eqb_spec (noff (hc x)) 0); [by apply ho_on0|]. by apply ho_off0.
  - naive_solver.
Qed.

Lemma hart_ok_pop x : hart_ok x → pc x = Pop → hart_ok (on_cpu pop_off Run x).
Proof.
  intros [] Hpc. assert (¬ crashed x) as Hcr by (eapply not_crashed; eauto; done).
  assert (noff (hc x) = Z.of_nat (length (hheld x)) + 1) as Hn by (rewrite ho_noff0 by done; rewrite Hpc; simpl; lia).
  rewrite Hpc in ho_few0. simpl in ho_few0. unfold MAXLOCKS in *.
  destruct ho_off0 as [Hsie Hint]; [lia|]. unfold on_cpu. rewrite pop_off_ret by (done || lia).
  assert (s32 (noff (hc x) - 1) = noff (hc x) - 1) as Hs by (apply s32_small; lia). rewrite Hs.
  split; cbn [hheld hc pc uie noff sie intena ahead]; try done.
  - unfold MAXLOCKS. lia.
  - intros _. lia.
  - intros _ H0. destruct (Z.eqb_spec (noff (hc x) - 1) 0); [done|lia].
  - intros H0. destruct (Z.eqb_spec (noff (hc x) - 1) 0); [lia|done].
  - naive_solver.
Qed.

Lemma on_cpu_frame m p x : hheld (on_cpu m p x) = hheld x.
Proof. unfold on_cpu. by destruct (m (hc x)). Qed.

(** the four steps that touch a lock *)
Lemma inv_spin s h l :
  inv s → pc (harts s h) = Spin l →
  inv (put_hart h (goto (if locked (locks s l) =? 0 then Take l else Spin l) (harts s h))
         (put_lock l (mkLock 1 (lcpu (locks s l))) s)).
Proof.
  intros HI Hpc. pose proof HI as [Hh [Hc Hb Hf He]]. pose proof (Hh h) as Hx.
  assert (l ∉ hheld (harts s h)) as Hl by (apply (ho_fresh _ Hx); auto).
  apply inv_put; [done|..].
  - apply hart_ok_goto; [done|by eapply not_crashed|left; rewrite Hpc; by destruct (_ =? 0)| |destruct (_ =? 0); naive_solver].
    intros l' Hl'. assert (l' = l) as -> by (destruct (_ =? 0); naive_solver). done.
  - done.
  - intros l' Hne [?|[E|E]]; [by left|cbn in E..]; destruct (_ =? 0); naive_solver.
  - by right.
  - intros h'. cbn [hheld goto lcpu]. rewrite Hc. destruct (decide (h' = h)) as [->|]; naive_solver.
  - done.
  - intros h' Hne Ho. split; [done|]. intros [?|[E|E]]; [done|cbn in E..]; destruct (Z.eqb_spec (locked (locks s l)) 0) as [E0|]; naive_solver.
Qed.

Lemma inv_take s h l :
  inv s → pc (harts s h) = Take l →
  inv (put_hart h (mkHart (hc (harts s h)) Run (l :: hheld (harts s h)) (uie (harts s h)))
         (put_lock l (mkLock (locked (locks s l)) (Some h)) s)).
Proof.
  intros HI Hpc. pose proof HI as [Hh [Hc Hb Hf He]]. pose proof (Hh h) as Hx.
  assert (owns (harts s h) l) as Ho by (right; by left).
  assert (locked (locks s l) = 1) as H1. { destruct (Hb l) as [E|]; [|done]. by destruct (Hf h l E). }
  apply inv_put; [done|..]; cbn [hheld locked lcpu].
  - destruct Hx. assert (¬ crashed (harts s h)) as Hcr by by eapply not_crashed.
    rewrite Hpc in *. simpl in *. split; cbn [hheld hc pc uie ahead length]; try done.
    + constructor; [|done]. auto.
    + lia.
    + intros _. rewrite ho_noff0 by done. lia.
    + intros _ ?. apply ho_on0; done.
    + naive_solver.
  - intros l' Hne. set_solver.
  - intros l' Hne [E|[E|E]]; cbn in E; [left; set_solver|done..].
  - by right.
  - intros h'. split; [intros [= <-]; left; set_solver|]. intros [[-> _]|[Hne Hl]]; [done|].
    destruct Hne. eapply He; [left; exact Hl|exact Ho].
  - lia.
  - intros h' Hne Ho'. destruct Hne. by eapply He.
Qed.

Lemma inv_drop s h l :
  inv s → pc (harts s h) = Drop l →
  inv (put_hart h (mkHart (hc (harts s h)) (Free l) (unheld l (hheld (harts s h))) (uie (harts s h)))
         (put_lock l (mkLock (locked (locks s l)) None) s)).
Proof.
  intros HI Hpc. pose proof HI as [Hh [Hc Hb Hf He]]. pose proof (Hh h) as Hx.
  pose proof (ho_mine _ Hx l Hpc) as Hl. destruct (unheld_spec l _ (ho_nodup _ Hx)) as [Hnd Hin].
  assert (owns (harts s h) l) as Ho by by left.
  assert (locked (locks s l) = 1) as H1. { destruct (Hb l) as [E|]; [|done]. by destruct (Hf h l E). }
  apply inv_put; [done|..]; cbn [hheld locked lcpu].
  - destruct Hx. assert (¬ crashed (harts s h)) as Hcr by by eapply not_crashed.
    pose proof (unheld_length _ _ Hl) as Hlen. rewrite Hpc in *. simpl in *. split; cbn [hheld hc pc uie ahead]; try done.
    + lia.
    + intros _. rewrite ho_noff0 by done. lia.
    + intros _ ?. apply ho_on0; done.
    + intros l' Hl'. assert (l' = l) as -> by naive_solver. rewrite Hin. naive_solver.
  - intros l' Hne. rewrite Hin. naive_solver.
  - intros l' Hne [E|[E|E]]; cbn in E; [left; apply Hin in E; naive_solver|naive_solver..].
  - by right.
  - intros h'. split; [done|]. intros [[_ E]|[Hne Hl']]; [apply Hin in E; naive_solver|].
    destruct Hne. eapply He; [left; exact Hl'|exact Ho].
  - lia.
  - intros h' Hne Ho'. destruct Hne. by eapply He.
Qed.

Lemma inv_free s h l :
  inv s → pc (harts s h) = Free l →
  inv (put_hart h (goto Pop (harts s h)) (put_lock l (mkLock 0 (lcpu (locks s l))) s)).
Proof.
  intros HI Hpc. pose proof HI as [Hh [Hc Hb Hf He]]. pose proof (Hh h) as Hx.
  assert (l ∉ hheld (harts s h)) as Hl by (apply (ho_fresh _ Hx); auto).
  assert (owns (harts s h) l) as Ho by (right; by right).
  apply inv_put; [done|..]; cbn [locked lcpu].
  - apply hart_ok_goto; [done|by eapply not_crashed|left; by rewrite Hpc|naive_solver|naive_solver].
  - done.
  - intros l' Hne [E|[E|E]]; cbn in E; [by left|done..].
  - by left.
  - intros h'. cbn [hheld goto]. rewrite Hc. destruct (decide (h' = h)) as [->|]; naive_solver.
  - intros _ [E|[E|E]]; cbn in E; done.
  - intros h' Hne Ho'. destruct Hne. by eapply He.
Qed.

Lemma inv_step s s' : inv s → step s s' → inv s'.
Proof.
  intros HI (h & a & E). pose proof HI as [Hh HL]. pose proof (Hh h) as Hx. unfold step_hart in E.
  destruct a as [[] l|b|], (pc (harts s h)) as [|c l'|c l'| | | | | |] eqn:Hpc; simplify_eq.
  - case_match eqn:Hlt; simplify_eq. apply inv_local; [done|apply hart_ok_push; [done|done|lia]|apply on_cpu_frame|].
    intros l'. unfold on_cpu. rewrite push_off_ret. intros [?|[E|E]]; [by left|done..].
  - apply inv_local; [done| |done|].
    + apply hart_ok_goto; [done|by eapply not_crashed|left; by rewrite Hpc|naive_solver..].
    + intros l' [?|[E|E]]; [by left|done..].
  - case_match eqn:H0; simplify_eq. apply Z.eqb_eq in H0. apply inv_local; [done| |done|intros l' [?|[E|E]]; [by left|done..]].
    destruct Hx. assert (¬ crashed (harts s h)) as Hcr by by eapply not_crashed. rewrite Hpc in *.
    split; cbn [hheld hc pc uie noff sie intena]; auto; naive_solver.
  - apply inv_local; [done| |done|].
    + apply hart_ok_goto; [done|by eapply not_crashed|..]; rewrite ?Hpc; case_match eqn:H0; destruct c; simpl; eauto; try naive_solver.
      intros l Hl. assert (l = l') as -> by naive_solver. intros Hin. apply Z.eqb_eq in H0. by apply (lo_free _ HL h l' H0); left.
    + intros l [?|[E|E]]; [by left|..]; cbn in E; case_match; destruct c; done.
  - apply inv_local; [done| |done|].
    + apply hart_ok_goto; [done|by eapply not_crashed|..]; rewrite ?Hpc; case_bool_decide as Hb; destruct c; simpl; eauto; try naive_solver;
        intros l Hl; (assert (l = l') as -> by naive_solver); by rewrite <- (lo_cpu _ HL).
    + intros l [?|[E|E]]; [by left|..]; cbn in E; case_bool_decide; destruct c; done.
  - by apply inv_spin.
  - by apply inv_take.
  - by apply inv_drop.
  - by apply inv_free.
  - apply inv_local; [done|by apply hart_ok_pop|apply on_cpu_frame|].
    destruct Hx. assert (¬ crashed (harts s h)) as Hcr by by eapply not_crashed.
    rewrite Hpc in *. simpl in *. destruct ho_off0; [rewrite ho_noff0 by done; lia|].
    intros l. unfold on_cpu. rewrite pop_off_ret; [|done|rewrite ho_noff0 by done; lia]. intros [?|[E|E]]; [by left|done..].
Qed.

Lemma inv_boot s : boot s → inv s.
Proof.
  intros [Hl Hh]. split; [|split].
  - intros h. destruct (Hh h) as (Hpc & Hheld & Hn & Hs).
    split; rewrite ?Hpc, ?Hheld, ?Hn; simpl; unfold MAXLOCKS; try done; try lia; [constructor|set_solver].
  - intros h l. rewrite Hl. destruct (Hh h) as (_ & -> & _). simpl. set_solver.
  - intros l. rewrite Hl. by left.
  - intros h l _. destruct (Hh h) as (Hpc & Hheld & _). unfold owns. rewrite Hpc, Hheld. set_solver.
  - intros h h' l Ho. destruct (Hh h) as (Hpc & Hheld & _). unfold owns in Ho. rewrite Hpc, Hheld in Ho. set_solver.
Qed.

Lemma reachable_inv s : reachable s → inv s.
Proof.
  intros (s0 & Hb & Hr). apply inv_boot in Hb. induction Hr as [|s1 s2 s3 Hs _ IH]; [done|]. apply IH. by eapply inv_step.
Qed.

(** C8: Spinlocks exclude.  In every state the harts can reach, under any
    interleaving of the memory accesses of acquire() and release(), a lock is in
    the hands of at most one hart, from the successful swap to the store that
    frees the word, and the word says so. *)
Theorem spinlock_exclusion s :
  reachable s →
  (∀ h h' l, owns (harts s h) l → owns (harts s h') l → h = h') ∧
  (∀ h l, owns (harts s h) l → locked (locks s l) = 1) ∧
  (∀ h l, l ∈ hheld (harts s h) ↔ lcpu (locks s l) = Some h).
Proof.
  intros [Hh [Hc Hb Hf He]]%reachable_inv. split; [done|]. split.
  - intros h l Ho. destruct (Hb l) as [E|]; [|done]. by destruct (Hf h l E).
  - intros h l. symmetry. apply Hc.
Qed.


(** Interrupts are off exactly as push_off() and pop_off() promise.  On a
    hart that did not panic, noff counts the locks held between calls,
    interrupts are off while any is held, and once the last one is released they
    are as the code outside critical sections left them. *)
Theorem spinlock_interrupts s h :
  reachable s → ¬ crashed (harts s h) →
  (pc (harts s h) = Run → noff (hc (harts s h)) = Z.of_nat (length (hheld (harts s h)))) ∧
  (hheld (harts s h) ≠ [] → sie (hc (harts s h)) = false) ∧
  (pc (harts s h) = Run → hheld (harts s h) = [] → sie (hc (harts s h)) = uie (harts s h)).
Proof.
  intros HR Hcr. destruct (reachable_inv s HR) as [Hh _]. destruct (Hh h). pose proof (ho_noff0 Hcr) as Hn. split; [|split].
  - intros Hpc. rewrite Hpc in Hn. simpl in Hn. lia.
  - intros Hne. apply ho_off0. assert (0 ≤ ahead (pc (harts s h))) by (by destruct (pc (harts s h)) as [|[]|[]| | | | | |]).
    destruct (hheld (harts s h)); [done|]. simpl in Hn. lia.
  - intros Hpc He. apply ho_on0; [done|]. rewrite Hn, Hpc, He. done.
Qed.

Module Locks0.

(** two harts contend for the clock's lock *)
Definition fresh : st := mkSt (λ _, initlock) (λ _, mkHart (mkCpu 0 false true) Run [] true).
Fixpoint run (l : list (nat * action)) (s : st) : option st :=
  match l with
  | [] => Some s
  | (h, a) :: l' => match step_hart h a s with Some s' => run l' s' | None => None end
  end.
Lemma run_reachable l : ∀ s s', reachable s → run l s = Some s' → reachable s'.
Proof.
  induction l as [|[h a] l IH]; simpl; intros s s' HR E; [by simplify_eq|].
  destruct (step_hart h a s) as [s1|] eqn:E1; [|done]. apply (IH s1); [|done].
  destruct HR as (s0 & Hb & Hr). exists s0. split; [done|]. eapply rtc_r; [done|]. by exists h, a.
Qed.
Lemma fresh_reachable : reachable fresh.
Proof. exists fresh. split; [|apply rtc_refl]. by repeat split. Qed.

Definition contend : list (nat * action) :=
  [(0%nat, Call Acquire LkTicks); (1%nat, Call Acquire LkTicks); (0%nat, Next); (1%nat, Next); (1%nat, Next); (0%nat, Next)].
Definition contended : st := default fresh (run contend fresh).
Lemma contended_reachable : reachable contended.
Proof. apply (run_reachable contend fresh); [apply fresh_reachable|reflexivity]. Qed.
Definition taken : st := default fresh (step_hart 1%nat Next contended).
Lemma taken_reachable : reachable taken.
Proof. apply (run_reachable (contend ++ [(1%nat, Next)]) fresh); [apply fresh_reachable|reflexivity]. Qed.

Lemma spinlock_exclusion_witness :
  pc (harts contended 0) = Spin LkTicks ∧ pc (harts contended 1) = Take LkTicks ∧ locked (locks contended LkTicks) = 1.
Proof.
  split; [reflexivity|]. split; [reflexivity|].
  apply (proj1 (proj2 (spinlock_exclusion contended contended_reachable)) 1%nat LkTicks). right. left. reflexivity.
Defined.


Lemma spinlock_interrupts_witness :
  hheld (harts taken 1) = [LkTicks] ∧ noff (hc (harts taken 1)) = 1 ∧ sie (hc (harts taken 1)) = false.
Proof.
  assert (¬ crashed (harts taken 1)) as Hc by (intros [m E]; discriminate E).
  destruct (spinlock_interrupts taken 1%nat taken_reachable Hc) as (H1 & H2 & _). split; [reflexivity|].
  split; [apply H1; reflexivity|apply H2; discriminate].
Defined.

End Locks0.
