(* ===== verification/Ring.v ===== *)
(** Circular doubly linked lists with a head, as bio.c keeps its buffers: a path
    from the head through the elements and back, in both directions. *)

From S2P Require Import Prelude.

(** the nodes of [l] in order from [x], ending at [e] *)
Fixpoint path (f : Z → Z) (x : Z) (l : list Z) (e : Z) : Prop :=
  match l with
  | [] => f x = e
  | y :: l' => f x = y ∧ path f y l' e
  end.

Record ring (nxt prv : Z → Z) (h : Z) (l : list Z) : Prop := {
  ring_nodup : NoDup (h :: l);
  ring_next : path nxt h l h;
  ring_prev : path prv h (reverse l) h;
}.

Definition fupd (f : Z → Z) (x y : Z) : Z → Z := λ z, if z =? x then y else f z.

Lemma fupd_eq f x y : fupd f x y x = y.
Proof. unfold fupd. by rewrite Z.eqb_refl. Qed.
Lemma fupd_ne f x y z : z ≠ x → fupd f x y z = f z.
Proof. unfold fupd. intros Hz. by apply Z.eqb_neq in Hz as ->. Qed.

Lemma path_app f x l1 b l2 e : path f x (l1 ++ b :: l2) e ↔ path f x l1 b ∧ path f b l2 e.
Proof. revert x. induction l1 as [|y l1 IH]; intros x; simpl; [tauto|]. rewrite IH. tauto. Qed.

Lemma path_ext f g x l e : (∀ z, z ∈ x :: l → g z = f z) → path f x l e → path g x l e.
Proof.
  revert x. induction l as [|y l IH]; intros x H; simpl.
  - intros <-. apply H. set_solver.
  - intros [<- Hp]. split; [apply H; set_solver|]. apply IH; [|done]. intros z Hz. apply H. set_solver.
Qed.

(** redirecting the last link of a path *)
Lemma path_redirect f x l e e' :
  NoDup (x :: l) → path f x l e → path (fupd f (default x (last l)) e') x l e'.
Proof.
  revert x. induction l as [|y l IH]; intros x Hnd; simpl.
  - intros _. by rewrite fupd_eq.
  - intros [Hy Hp]. apply NoDup_cons in Hnd as [Hx Hnd].
    assert (default x (last (y :: l)) = default y (last l)) as -> by (rewrite last_cons; by destruct (last l)).
    split; [|by apply IH]. rewrite fupd_ne; [done|]. intros ->. apply Hx.
    destruct (last l) eqn:E; simpl; [|set_solver]. apply last_Some_elem_of in E. set_solver.
Qed.

Lemma path_head f x l e : path f x l e → f x = default e (head l).
Proof. destruct l; simpl; [done|tauto]. Qed.

Lemma last_reverse_head (l : list Z) : head (reverse l) = last l.
Proof. by rewrite head_reverse. Qed.

Lemma nodup_rev (h : Z) l : NoDup (h :: l) → NoDup (h :: reverse l).
Proof. intros H. by rewrite reverse_Permutation. Qed.

Lemma nodup_parts (h b : Z) l1 l2 :
  NoDup (h :: l1 ++ b :: l2) → NoDup (h :: l1) ∧ NoDup (h :: l2) ∧ NoDup (h :: l1 ++ l2).
Proof.
  intros [Hh (H1 & H12 & [Hb H2]%NoDup_cons)%NoDup_app]%NoDup_cons.
  rewrite !NoDup_cons, NoDup_app. set_solver.
Qed.

Lemma nodup_disj (h x : Z) l1 l2 : NoDup (h :: l1 ++ l2) → x ∈ h :: l1 → x ∈ l2 → False.
Proof. intros [Hh (_ & H12 & _)%NoDup_app]%NoDup_cons Hx Hx2. set_solver. Qed.

Lemma ring_ext n p n' p' h r :
  (∀ x, x ∈ h :: r → n' x = n x) → (∀ x, x ∈ h :: r → p' x = p x) → ring n p h r → ring n' p' h r.
Proof.
  intros Hn Hp []. constructor; [done| |].
  - eapply path_ext; [|done]. done.
  - eapply path_ext; [|done]. intros z Hz. apply Hp. apply elem_of_cons in Hz as [->|Hz]; [set_solver|].
    rewrite elem_of_reverse in Hz. set_solver.
Qed.

Lemma default_last_in h (l : list Z) : default h (last l) ∈ h :: l.
Proof. destruct (last l) eqn:E; simpl; [|set_solver]. apply last_Some_elem_of in E. set_solver. Qed.
Lemma default_head_in h (l : list Z) : default h (head l) ∈ h :: l.
Proof. destruct l; simpl; set_solver. Qed.

Section Ring.
Context (nxt prv : Z → Z) (h : Z).

(** the neighbours of an element *)
Lemma ring_prev_of l1 b l2 : ring nxt prv h (l1 ++ b :: l2) → prv b = default h (last l1).
Proof.
  intros [_ _ Hp]. rewrite reverse_app, reverse_cons, <- app_assoc in Hp. apply path_app in Hp as [_ Hp].
  apply path_head in Hp. by rewrite last_reverse_head in Hp.
Qed.
Lemma ring_next_of l1 b l2 : ring nxt prv h (l1 ++ b :: l2) → nxt b = default h (head l2).
Proof. intros [_ Hn _]. apply path_app in Hn as [_ Hn]. by apply path_head in Hn. Qed.

(** unlinking [b] *)
Lemma ring_unlink l1 b l2 : ring nxt prv h (l1 ++ b :: l2) →
  ring (fupd nxt (prv b) (nxt b)) (fupd prv (nxt b) (prv b)) h (l1 ++ l2).
Proof.
  intros HR. pose proof (ring_prev_of _ _ _ HR) as Ep. pose proof (ring_next_of _ _ _ HR) as En.
  destruct HR as [Hnd Hn Hp]. pose proof Hn as Hn0. apply path_app in Hn as [Hn1 Hn2].
  rewrite reverse_app, reverse_cons, <- app_assoc in Hp. apply path_app in Hp as [Hp1 Hp2].
  assert (NoDup (h :: l1) ∧ NoDup (h :: l2) ∧ NoDup (h :: l1 ++ l2)) as (Hd1 & Hd2 & Hd) by by apply nodup_parts in Hnd.
  constructor; [done| |].
  - rewrite Ep. pose proof (path_redirect nxt h l1 b (nxt b) Hd1 Hn1) as Hr. rewrite En in *.
    destruct l2 as [|y l2]; simpl in *; [by rewrite app_nil_r|]. apply path_app. split; [done|].
    destruct Hn2 as [_ Hn2]. eapply path_ext; [|exact Hn2]. intros z Hz. apply fupd_ne. intros ->.
    by apply (nodup_disj h _ l1 _ Hd (default_last_in h l1)).
  - rewrite En, Ep. rewrite reverse_app.
    assert (NoDup (h :: reverse l2)) as Hd2' by by apply nodup_rev.
    pose proof (path_redirect prv h (reverse l2) b (default h (last l1)) Hd2' Hp1) as Hr.
    rewrite last_reverse in Hr.
    destruct (reverse l1) as [|y r1] eqn:Er.
    + rewrite app_nil_r. rewrite <- last_reverse_head, Er in Hr |- *. done.
    + apply path_app. simpl in Hp2. destruct Hp2 as [Hy Hp2]. rewrite <- last_reverse_head, Er in Hr |- *. simpl in Hr |- *.
      split; [done|]. eapply path_ext; [|exact Hp2]. intros z Hz. apply fupd_ne. intros ->.
      rewrite <- Er, elem_of_reverse in Hz.
      refine (nodup_disj h _ l2 l1 _ (default_head_in h l2) Hz). clear -Hd. rewrite NoDup_cons, NoDup_app in *. set_solver.
Qed.

(** linking a new element after the head *)
Lemma ring_push l b : ring nxt prv h l → b ∉ h :: l →
  ring (fupd (fupd nxt b (nxt h)) h b) (fupd (fupd prv b h) (nxt h) b) h (b :: l).
Proof.
  intros [Hnd Hn Hp] Hb. pose proof (path_head _ _ _ _ Hn) as Eh. constructor.
  - rewrite !NoDup_cons in *. set_solver.
  - simpl. split; [by rewrite fupd_eq|].
    assert (b ≠ h) by set_solver.
    destruct l as [|y l]; simpl in *.
    + rewrite fupd_ne, fupd_eq by done. done.
    + destruct Hn as [Hy Hn]. split; [by rewrite fupd_ne, fupd_eq|].
      eapply path_ext; [|exact Hn]. intros z Hz. rewrite !fupd_ne; [done|set_solver|].
      rewrite NoDup_cons in Hnd. set_solver.
  - rewrite reverse_cons.
    assert (path (fupd (fupd prv b h) (nxt h) b) h (reverse l) b) as Hr.
    { rewrite Eh. pose proof (path_redirect prv h (reverse l) h b) as Hr. rewrite last_reverse in Hr.
      eapply path_ext; [|apply Hr; [|done]].
      - intros z Hz. unfold fupd. destruct (z =? default h (head l)); [done|].
        assert (z ≠ b) as ->%Z.eqb_neq; [|done]. intros ->. apply Hb.
        apply elem_of_cons in Hz as [->|Hz%elem_of_reverse]; set_solver.
      - by apply nodup_rev. }
    destruct (reverse l) eqn:Er.
    + simpl in *. split; [done|]. rewrite Eh, fupd_ne, fupd_eq; [done|].
      pose proof (default_head_in h l). intros ->. set_solver.
    + rewrite <- Er in *. apply path_app. split; [done|]. simpl. rewrite Eh, fupd_ne, fupd_eq; [done|].
      pose proof (default_head_in h l). intros ->. set_solver.
Qed.

End Ring.
