(* ===== verification/Fifo.v ===== *)
(** Ring buffers: [size] bytes addressed by two counters that wrap at [mod_],
    as pipe.c, console.c and uart.c use them.  [queue] is what such a buffer
    holds, oldest byte first. *)

From S2P Require Import Prelude.

(** buf[k % size] *)
Definition ring_at (size : Z) (buf : list Z) (k : Z) : Z := default 0 (buf !! Z.to_nat (k mod size)).

Section Ring.
Context (mod_ size : Z) (Hsize : 0 < size) (Hmod : (size | mod_)) (Hroom : size < mod_).

Definition count (r w : Z) : Z := (w - r) mod mod_.
Definition queue (buf : list Z) (r w : Z) : list Z := (λ i, ring_at size buf (r + i)) <$> seqZ 0 (count r w).
Definition ring_ok (buf : list Z) (r w : Z) : Prop :=
  length buf = Z.to_nat size ∧ 0 ≤ r < mod_ ∧ 0 ≤ w < mod_ ∧ count r w ≤ size.

Lemma count_range r w : 0 ≤ count r w < mod_.
Proof. apply Z.mod_pos_bound. lia. Qed.

Lemma length_queue buf r w : length (queue buf r w) = Z.to_nat (count r w).
Proof. unfold queue. rewrite length_fmap. apply length_seqZ. Qed.

Lemma ring_at_mod buf k : ring_at size buf (k mod mod_) = ring_at size buf k.
Proof. unfold ring_at. by rewrite (Z.mod_mod_divide k mod_ size Hmod). Qed.

Lemma queue_lookup buf r w i : queue buf r w !! i = if decide (Z.of_nat i < count r w) then Some (ring_at size buf (r + Z.of_nat i)) else None.
Proof.
  unfold queue. rewrite list_lookup_fmap. case_decide.
  - rewrite lookup_seqZ_lt by lia. done.
  - rewrite lookup_seqZ_ge by lia. done.
Qed.

Lemma queue_empty buf r w : 0 ≤ r < mod_ → 0 ≤ w < mod_ → r = w ↔ queue buf r w = [].
Proof.
  intros Hr Hw. rewrite <- length_zero_iff_nil, length_queue. pose proof (count_range r w). unfold count in *. split.
  - intros ->. by rewrite Z.sub_diag, Zmod_0_l.
  - intros E. assert ((w - r) mod mod_ = 0) as E0 by lia. apply Z.mod_divide in E0 as [z Hz]; [|lia]. assert (z = 0) by nia. lia.
Qed.

Lemma count_push r w : 0 ≤ r < mod_ → 0 ≤ w < mod_ → count r w < size → count r ((w + 1) mod mod_) = count r w + 1.
Proof.
  intros Hr Hw Hlt. pose proof (count_range r w). unfold count in *. rewrite Zminus_mod_idemp_l.
  replace (w + 1 - r) with (w - r + 1) by lia. rewrite <- Zplus_mod_idemp_l. apply Z.mod_small. lia.
Qed.

Lemma count_pop r w : 0 ≤ r < mod_ → 0 ≤ w < mod_ → 0 < count r w → count ((r + 1) mod mod_) w = count r w - 1.
Proof.
  intros Hr Hw Hlt. pose proof (count_range r w). unfold count in *. rewrite Zminus_mod_idemp_r.
  replace (w - (r + 1)) with (w - r + - 1) by lia. rewrite <- Zplus_mod_idemp_l. apply Z.mod_small. lia.
Qed.

Lemma count_unpush r w : 0 ≤ r < mod_ → 0 ≤ w < mod_ → 0 < count r w → count r ((w - 1) mod mod_) = count r w - 1.
Proof.
  intros Hr Hw Hlt. pose proof (count_range r w). unfold count in *. rewrite Zminus_mod_idemp_l.
  replace (w - 1 - r) with (w - r + - 1) by lia. rewrite <- Zplus_mod_idemp_l. apply Z.mod_small. lia.
Qed.

(** two places of the ring differ when their distance is less than its size *)
Lemma ring_ne r i j : 0 ≤ i < j → j - i < size → (r + i) mod size ≠ (r + j) mod size.
Proof.
  intros Hij Hlt E. assert ((r + j - (r + i)) mod size = 0) as E0.
  { rewrite Zminus_mod, E, Z.sub_diag. apply Zmod_0_l. }
  rewrite Z.mod_small in E0 by lia. lia.
Qed.

Lemma ring_put_at buf k v k' :
  length buf = Z.to_nat size → ring_at size (<[Z.to_nat (k mod size) := v]> buf) k' =
    if decide (k' mod size = k mod size) then v else ring_at size buf k'.
Proof.
  intros Hlen. unfold ring_at. pose proof (Z.mod_pos_bound k size Hsize). pose proof (Z.mod_pos_bound k' size Hsize).
  destruct (decide (k' mod size = k mod size)) as [->|].
  - by rewrite list_lookup_insert_eq by lia.
  - rewrite list_lookup_insert_ne by lia. done.
Qed.

(** buf[w++ % size] = v *)
Lemma queue_push buf r w v :
  ring_ok buf r w → count r w < size →
  ring_ok (<[Z.to_nat (w mod size) := v]> buf) r ((w + 1) mod mod_) ∧
  queue (<[Z.to_nat (w mod size) := v]> buf) r ((w + 1) mod mod_) = queue buf r w ++ [v].
Proof.
  intros (Hlen & Hr & Hw & Hc) Hlt. pose proof (count_range r w) as Hc0. pose proof (count_push r w Hr Hw Hlt) as Hp.
  assert (w mod size = (r + count r w) mod size) as Hwr.
  { unfold count. rewrite <- Zplus_mod_idemp_r, (Z.mod_mod_divide _ mod_ size Hmod).
    rewrite Zplus_mod_idemp_r. f_equal. lia. }
  split.
  - split; [by rewrite length_insert|]. split; [done|]. split; [apply Z.mod_pos_bound; lia|]. lia.
  - apply list_eq. intros i. rewrite queue_lookup, Hp, ring_put_at by done.
    destruct (decide (Z.of_nat i < count r w)) as [Hi|Hi].
    + rewrite decide_True by lia. rewrite lookup_app_l by (rewrite length_queue; lia). rewrite queue_lookup, (decide_True (P := Z.of_nat i < count r w)) by done.
      rewrite decide_False; [done|]. rewrite Hwr. apply ring_ne; lia.
    + rewrite lookup_app_r by (rewrite length_queue; lia). rewrite length_queue. destruct (decide (Z.of_nat i = count r w)) as [Hi'|].
      * rewrite decide_True by lia. rewrite Hi', <- Hwr, decide_True by done. replace (i - _)%nat with 0%nat by lia. done.
      * rewrite decide_False by lia. rewrite lookup_ge_None_2; [done|]. simpl. lia.
Qed.

(** v = buf[r++ % size] *)
Lemma queue_pop buf r w :
  ring_ok buf r w → r ≠ w →
  ring_ok buf ((r + 1) mod mod_) w ∧ queue buf r w = ring_at size buf r :: queue buf ((r + 1) mod mod_) w.
Proof.
  intros (Hlen & Hr & Hw & Hc) Hne. pose proof (count_range r w) as Hc0.
  assert (0 < count r w) as Hpos.
  { destruct (decide (count r w = 0)) as [E|]; [|lia]. destruct Hne. apply (queue_empty buf); [done..|].
    apply length_zero_iff_nil. by rewrite length_queue, E. }
  pose proof (count_pop r w Hr Hw Hpos) as Hp. split.
  - split; [done|]. split; [apply Z.mod_pos_bound; lia|]. split; [done|lia].
  - apply list_eq. intros [|i]; simpl.
    + rewrite queue_lookup, decide_True by lia. by rewrite Z.add_0_r.
    + rewrite !queue_lookup, Hp. destruct (decide (Z.of_nat (S i) < count r w)); [rewrite decide_True by lia|by rewrite decide_False by lia].
      f_equal. rewrite <- (ring_at_mod buf ((r + 1) mod mod_ + Z.of_nat i)), <- (ring_at_mod buf (r + Z.of_nat (S i))).
      rewrite Zplus_mod_idemp_l. do 2 f_equal. lia.
Qed.

(** w-- *)
Lemma queue_unpush buf r w :
  ring_ok buf r w → r ≠ w →
  ring_ok buf r ((w - 1) mod mod_) ∧ queue buf r w = queue buf r ((w - 1) mod mod_) ++ [ring_at size buf ((w - 1) mod mod_)].
Proof.
  intros (Hlen & Hr & Hw & Hc) Hne. pose proof (count_range r w) as Hc0.
  assert (0 < count r w) as Hpos.
  { destruct (decide (count r w = 0)) as [E|]; [|lia]. destruct Hne. apply (queue_empty buf); [done..|].
    apply length_zero_iff_nil. by rewrite length_queue, E. }
  pose proof (count_unpush r w Hr Hw Hpos) as Hp. split.
  - split; [done|]. split; [done|]. split; [apply Z.mod_pos_bound; lia|lia].
  - apply list_eq. intros i. rewrite queue_lookup. destruct (decide (Z.of_nat i < count r w - 1)) as [Hi|Hi].
    + rewrite decide_True by lia. rewrite lookup_app_l by (rewrite length_queue; lia). by rewrite queue_lookup, decide_True by lia.
    + rewrite lookup_app_r by (rewrite length_queue; lia). rewrite length_queue, Hp. destruct (decide (Z.of_nat i < count r w)) as [Hi'|].
      * replace (i - _)%nat with 0%nat by lia. simpl. f_equal. rewrite <- (ring_at_mod buf (r + Z.of_nat i)). f_equal.
        replace (Z.of_nat i) with (count r w - 1) by lia. unfold count. rewrite <- Zplus_mod_idemp_r, <- Zminus_mod_idemp_l.
        rewrite Zmod_mod, Zminus_mod_idemp_l, Zplus_mod_idemp_r. f_equal. lia.
      * rewrite lookup_ge_None_2; [done|]. simpl. lia.
Qed.

End Ring.
