(* ===== verification/Bio.v ===== *)
(** kernel/sleeplock.c and kernel/bio.c: sleep locks and the buffer cache.

    The cache is a table of NBUF buffers on a doubly linked list in order of
    use; [BHEAD] stands for the list head &bcache.head.  The device below it is
    reduced to its contract: virtio_disk_rw() returns when the transfer of one
    block is complete, and the writes are recorded in order in [dtrace].  The
    driver's code is [drv_disk_rw] of Virtio.v; VirtioSpec.v shows that it keeps
    this contract when the queue is idle. *)

From S2P Require Import Prelude Mem Layout Kalloc State Sched.

Definition BSIZE : Z := 1024.
Definition zero_block : list Z := replicate 1024 0.

(** * Sleep locks *)

Inductive slock := SlBuf (i : nat) | SlInode (i : nat).
Definition sl_lk (l : slock) : lockid := match l with SlBuf i => LkBuf i | SlInode i => LkInode i end.
Definition sl_chan (l : slock) : chan := match l with SlBuf i => ChBuf i | SlInode i => ChInode i end.
Definition sl_locked (l : slock) (s : K) : bool :=
  match l with SlBuf i => b_locked (buf_at i s) | SlInode i => i_locked (inode_at i s) end.
Definition sl_pid (l : slock) (s : K) : Z :=
  match l with SlBuf i => b_pid (buf_at i s) | SlInode i => i_pid (inode_at i s) end.
Definition put_sl (l : slock) (locked : bool) (pid : Z) (s : K) : K :=
  match l with
  | SlBuf i => set_bufs (alter (λ b, set_b_pid pid (set_b_locked locked b)) i (bufs s)) s
  | SlInode i => set_itab (alter (λ b, set_i_pid pid (set_i_locked locked b)) i (itab s)) s
  end.
Definition set_sl (l : slock) (locked : bool) (pid : Z) : M K unit := modify (put_sl l locked pid).

Definition initsleeplock (l : slock) : M K unit := set_sl l false 0.

Definition acquiresleep (l : slock) : M K unit :=
  do! acquire (sl_lk l) in
  do! loop (λ _ : unit,
    let! b := gets (sl_locked l) in
    if b then do! sleep (sl_chan l) (sl_lk l) in ret (inl tt) else ret (inr tt)) tt in
  let! p := myproc in
  let! pr := getproc p in
  do! set_sl l true (p_pid pr) in
  release (sl_lk l).

Definition releasesleep (l : slock) : M K unit :=
  do! acquire (sl_lk l) in
  do! set_sl l false 0 in
  do! wakeup (sl_chan l) in
  release (sl_lk l).

Definition holdingsleep (l : slock) : M K bool :=
  do! acquire (sl_lk l) in
  let! p := myproc in
  let! s := get in
  let r := sl_locked l s && (sl_pid l s =? p_pid (proc_at p s)) in
  do! release (sl_lk l) in
  ret r.

(** * The device *)

Definition blk (s : K) (b : Z) : list Z := default zero_block (disk s !! b).

Definition virtio_disk_rw (i : nat) (write : bool) : M K unit :=
  let! s := get in
  let b := buf_at i s in
  if write then
    do! modify (λ s, set_dtrace (dtrace s ++ [(b_blockno b, b_data b)])
                       (set_disk (<[b_blockno b := b_data b]> (disk s)) s)) in
    upd_buf i (set_b_disk 0)
  else upd_buf i (λ b', set_b_disk 0 (set_b_data (blk s (b_blockno b)) b')).

(** * The buffer cache *)

Definition BHEAD : Z := NBUF.
Definition nbufs : list nat := seq 0 30.

Definition b_next_of (x : Z) (s : K) : Z := if x =? BHEAD then head_next s else b_next (buf_at (Z.to_nat x) s).
Definition b_prev_of (x : Z) (s : K) : Z := if x =? BHEAD then head_prev s else b_prev (buf_at (Z.to_nat x) s).
Definition put_next (x y : Z) (s : K) : K :=
  if x =? BHEAD then set_head_next y s else set_bufs (alter (set_b_next y) (Z.to_nat x) (bufs s)) s.
Definition put_prev (x y : Z) (s : K) : K :=
  if x =? BHEAD then set_head_prev y s else set_bufs (alter (set_b_prev y) (Z.to_nat x) (bufs s)) s.
Definition set_next (x y : Z) : M K unit := modify (put_next x y).
Definition set_prev (x y : Z) : M K unit := modify (put_prev x y).

(** link b right after the head: the last four statements of brelse() *)
Definition link_front (b : Z) : M K unit :=
  let! n := gets (b_next_of BHEAD) in
  do! set_next b n in
  do! set_prev b BHEAD in
  let! n := gets (b_next_of BHEAD) in
  do! set_prev n b in
  set_next BHEAD b.

Definition binit : M K unit :=
  do! set_prev BHEAD BHEAD in
  do! set_next BHEAD BHEAD in
  for_each nbufs (λ i,
    let b := Z.of_nat i in
    let! n := gets (b_next_of BHEAD) in
    do! set_next b n in
    do! set_prev b BHEAD in
    do! initsleeplock (SlBuf i) in
    let! n := gets (b_next_of BHEAD) in
    do! set_prev n b in
    set_next BHEAD b).

(** the scan of the list from [x] along [step] for a buffer that satisfies [c] *)
Definition scan (step : Z → K → Z) (c : buf → bool) (x : Z) : M K (option nat) :=
  loop (λ b,
    if b =? BHEAD then ret (inr None) else
    let! s := get in
    if c (buf_at (Z.to_nat b) s) then ret (inr (Some (Z.to_nat b)))
    else ret (inl (step b s))) x.

Definition bget (dev blockno : Z) : M K nat :=
  do! acquire LkBcache in
  let! h := gets (b_next_of BHEAD) in
  let! r := scan b_next_of (λ b, (b_dev b =? dev) && (b_blockno b =? blockno)) h in
  match r with
  | Some i =>
      do! upd_buf i (λ b, set_b_refcnt (u32 (b_refcnt b + 1)) b) in
      do! release LkBcache in
      do! acquiresleep (SlBuf i) in
      ret i
  | None =>
      let! t := gets (b_prev_of BHEAD) in
      let! r := scan b_prev_of (λ b, b_refcnt b =? 0) t in
      match r with
      | Some i =>
          do! upd_buf i (λ b, set_b_refcnt 1 (set_b_valid false (set_b_blockno blockno (set_b_dev dev b)))) in
          do! release LkBcache in
          do! acquiresleep (SlBuf i) in
          ret i
      | None => panic "bget: no buffers"
      end
  end.

Definition bread (dev blockno : Z) : M K nat :=
  let! i := bget dev blockno in
  let! s := get in
  do! when (negb (b_valid (buf_at i s)))
        (do! virtio_disk_rw i false in upd_buf i (set_b_valid true)) in
  ret i.

Definition bwrite (i : nat) : M K unit :=
  let! h := holdingsleep (SlBuf i) in
  if negb h then panic "bwrite" else virtio_disk_rw i true.

Definition brelse (i : nat) : M K unit :=
  let! h := holdingsleep (SlBuf i) in
  if negb h then panic "brelse" else
  do! releasesleep (SlBuf i) in
  do! acquire LkBcache in
  do! upd_buf i (λ b, set_b_refcnt (u32 (b_refcnt b - 1)) b) in
  let! s := get in
  let b := Z.of_nat i in
  do! when (b_refcnt (buf_at i s) =? 0)
        (do! set_prev (b_next_of b s) (b_prev_of b s) in
         let! s := get in
         do! set_next (b_prev_of b s) (b_next_of b s) in
         link_front b) in
  release LkBcache.

Definition bpin (i : nat) : M K unit :=
  do! acquire LkBcache in
  do! upd_buf i (λ b, set_b_refcnt (u32 (b_refcnt b + 1)) b) in
  release LkBcache.

Definition bunpin (i : nat) : M K unit :=
  do! acquire LkBcache in
  do! upd_buf i (λ b, set_b_refcnt (u32 (b_refcnt b - 1)) b) in
  release LkBcache.

(** * Rules for sleep locks that nobody else holds *)

Lemma held_put_sl l b pid s : held (put_sl l b pid s) = held s.
Proof. by destruct l. Qed.
Lemma set_held_put_sl h l b pid s : set_held h (put_sl l b pid s) = put_sl l b pid (set_held h s).
Proof. by destruct l. Qed.
Lemma procs_put_sl l b pid s : procs (put_sl l b pid s) = procs s.
Proof. by destruct l. Qed.
Lemma cur_put_sl l b pid s : cur (put_sl l b pid s) = cur s.
Proof. by destruct l. Qed.
Lemma sl_not_proc l i : sl_lk l ≠ LkProc i.
Proof. by destruct l. Qed.

Lemma wp_acquiresleep l p (Q : unit → K → Prop) E s :
  cur s = Some p → (sl_lk l ∉ held s) → sl_locked l s = false →
  Q tt (put_sl l true (p_pid (proc_at p s)) s) → wp (acquiresleep l) Q E s.
Proof.
  intros Hc Hl Hu HQ. unfold acquiresleep. do 3 wp_k1.
  apply (wp_loop_n _ (λ n _ s', s' = set_held (sl_lk l :: held s) s) _ _ 0).
  - intros n [] s' ->. wp_k. unfold set_sl. wp_k.
    apply wp_release_head with (h := held s); [by rewrite held_put_sl|].
    rewrite set_held_put_sl. kst. by rewrite set_held_id.
  - done.
  - lia.
Qed.

Lemma wp_releasesleep l (Q : unit → K → Prop) E s :
  (sl_lk l ∉ held s) → proc_unlocked s →
  Q tt (set_procs (wake (sl_chan l) (cur s) 64 (procs s)) (put_sl l false 0 s)) → wp (releasesleep l) Q E s.
Proof.
  intros Hl Hp HQ. unfold releasesleep. wp_k. unfold set_sl. wp_k. apply wp_wakeup.
  - intros i. rewrite cur_put_sl, held_put_sl. kst. intros Hi [Heq|Hin]%elem_of_cons; [by apply (sl_not_proc l i)|by apply (Hp i)].
  - apply wp_release_head with (h := held s); [kst; by rewrite held_put_sl|].
    rewrite cur_put_sl, procs_put_sl. kst. rewrite set_held_put_sl. kst. by rewrite set_held_id.
Qed.

Lemma wp_holdingsleep l p (Q : bool → K → Prop) E s :
  cur s = Some p → (sl_lk l ∉ held s) →
  Q (sl_locked l s && (sl_pid l s =? p_pid (proc_at p s))) s → wp (holdingsleep l) Q E s.
Proof.
  intros Hc Hl HQ. unfold holdingsleep. wp_k. kst. by rewrite set_held_id.
Qed.
