(* ===== verification/BioProofs.v ===== *)
(** The buffer cache keeps, for every block, one current copy.

    [bc l s] is the invariant of the cache, [l] its buffers from the most to the
    least recently used; [view s b] is the contents of block [b] as the file
    system sees it: the cached copy if there is one, the block on disk if not. *)

From S2P Require Import Prelude Mem Layout Kalloc State Sched Ring Bio.

Definition in_tab (x : Z) : Prop := 0 ≤ x < 30.

Record bc (l : list Z) (s : K) : Prop := {
  bc_len : length (bufs s) = 30%nat;
  bc_ring : ring (λ x, b_next_of x s) (λ x, b_prev_of x s) BHEAD l;
  bc_all : l ≡ₚ seqZ 0 30;
  bc_uniq i j : (i < 30)%nat → (j < 30)%nat → b_dev (buf_at i s) ≠ 0 →
    b_dev (buf_at i s) = b_dev (buf_at j s) → b_blockno (buf_at i s) = b_blockno (buf_at j s) → i = j;
  bc_size i : (i < 30)%nat → length (b_data (buf_at i s)) = 1024%nat;
  bc_disk b : length (blk s b) = 1024%nat;
  bc_ref i : (i < 30)%nat → 0 ≤ b_refcnt (buf_at i s) < 2 ^ 32;
  bc_clean i : (i < 30)%nat → b_refcnt (buf_at i s) = 0 → b_valid (buf_at i s) = true →
    b_data (buf_at i s) = blk s (b_blockno (buf_at i s));
  bc_unlk i : (i < 30)%nat → b_refcnt (buf_at i s) = 0 → b_locked (buf_at i s) = false;
  bc_dev i : (i < 30)%nat → b_valid (buf_at i s) = true → b_dev (buf_at i s) = ROOTDEV;
}.

Definition is_buf (dev bn : Z) (b : buf) : bool := (b_dev b =? dev) && (b_blockno b =? bn).
Definition hit (s : K) (dev bn : Z) : option nat := fst <$> list_find (λ b, is_buf dev bn b = true) (bufs s).
Definition view (s : K) (bn : Z) : list Z :=
  match hit s ROOTDEV bn with
  | Some i => if b_valid (buf_at i s) then b_data (buf_at i s) else blk s bn
  | None => blk s bn
  end.

Lemma buf_at_lookup i s b : bufs s !! i = Some b → buf_at i s = b.
Proof. unfold buf_at. by intros ->. Qed.
Lemma buf_at_in i s : (i < length (bufs s))%nat → bufs s !! i = Some (buf_at i s).
Proof. intros Hi. destruct (lookup_lt_is_Some_2 _ _ Hi) as [b Hb]. by rewrite (buf_at_lookup _ _ _ Hb). Qed.

Section Cache.
Context (l : list Z) (s : K) (HB : bc l s).

Lemma hit_Some dev bn i : hit s dev bn = Some i → (i < 30)%nat ∧ is_buf dev bn (buf_at i s) = true.
Proof using HB.
  unfold hit. destruct (list_find _ _) as [[j b]|] eqn:E; [|done]. intros [= <-].
  apply list_find_Some in E as (Hj & Hb & _). rewrite (buf_at_lookup _ _ _ Hj).
  split; [|done]. apply lookup_lt_Some in Hj. by rewrite (bc_len _ _ HB) in Hj.
Qed.

Lemma hit_None dev bn i : hit s dev bn = None → (i < 30)%nat → is_buf dev bn (buf_at i s) = false.
Proof using HB.
  unfold hit. destruct (list_find _ _) as [[j b]|] eqn:E; [done|]. intros _ Hi.
  apply list_find_None in E. rewrite Forall_lookup in E.
  apply not_true_is_false. apply (E i). apply buf_at_in. by rewrite (bc_len _ _ HB).
Qed.

Lemma is_buf_eq dev bn b : is_buf dev bn b = true ↔ b_dev b = dev ∧ b_blockno b = bn.
Proof. unfold is_buf. rewrite andb_true_iff, !Z.eqb_eq. done. Qed.

Lemma hit_unique dev bn i : dev ≠ 0 → (i < 30)%nat → is_buf dev bn (buf_at i s) = true → hit s dev bn = Some i.
Proof using HB.
  intros Hdev Hi Hb. destruct (hit s dev bn) as [j|] eqn:E.
  - apply hit_Some in E as [Hj Hbj]. apply is_buf_eq in Hb as [H1 H2], Hbj as [H3 H4]. f_equal.
    apply (bc_uniq _ _ HB); [done..| | |]; congruence.
  - by rewrite (hit_None dev bn i E Hi) in Hb.
Qed.

Lemma view_size bn : length (view s bn) = 1024%nat.
Proof using HB.
  unfold view. destruct (hit s ROOTDEV bn) as [i|] eqn:E; [|apply (bc_disk _ _ HB)].
  apply hit_Some in E as [Hi _]. destruct (b_valid _); [by apply (bc_size _ _ HB)|apply (bc_disk _ _ HB)].
Qed.

Lemma list_in_tab x : x ∈ l ↔ in_tab x.
Proof using HB. rewrite (bc_all _ _ HB), elem_of_seqZ. unfold in_tab. lia. Qed.

(** following the list finds the first buffer that satisfies the condition *)
Lemma wp_scan (step : Z → K → Z) (c : buf → bool) r (Q : option nat → K → Prop) E :
  path (λ x, step x s) BHEAD r BHEAD → (∀ x, x ∈ r → in_tab x) → (length r < 100)%nat →
  (∀ r1 x r2, r = r1 ++ x :: r2 → c (buf_at (Z.to_nat x) s) = true →
     (∀ y, y ∈ r1 → c (buf_at (Z.to_nat y) s) = false) → Q (Some (Z.to_nat x)) s) →
  ((∀ y, y ∈ r → c (buf_at (Z.to_nat y) s) = false) → Q None s) →
  wp (scan step c (step BHEAD s)) Q E s.
Proof using HB.
  intros Hp Hr Hlen HS HN. unfold scan.
  apply (wp_loop_n _ (λ n x s', s' = s ∧ ∃ r1 r2, r = r1 ++ r2 ∧ x = default BHEAD (head r2) ∧ n = Z.of_nat (length r2) ∧
      ∀ y, y ∈ r1 → c (buf_at (Z.to_nat y) s) = false) _ _ (Z.of_nat (length r))).
  - intros n x s' (-> & r1 & r2 & Er & -> & -> & Hno). destruct r2 as [|x r2]; cbn [head default from_option id].
    + apply wp_ret. apply HN. by rewrite Er, app_nil_r.
    + assert (in_tab x) as Hx by (apply Hr; set_solver). unfold in_tab in Hx.
      assert ((x =? BHEAD) = false) as -> by (unfold BHEAD; consts; lia). wp_go.
      destruct (c (buf_at (Z.to_nat x) s)) eqn:Hc; apply wp_ret.
      * by apply (HS r1 x r2).
      * exists (Z.of_nat (length r2)). split; [simpl; lia|]. split; [done|]. exists (r1 ++ [x]), r2.
        split; [by rewrite <- app_assoc|]. split; [|split; [done|]].
        -- rewrite Er in Hp. apply path_app in Hp as [_ Hp]. by apply path_head in Hp.
        -- intros y [Hy| ->%list_elem_of_singleton]%elem_of_app; auto.
  - split; [done|]. exists [], r. split; [done|]. split; [by apply path_head in Hp|]. split; [done|]. set_solver.
  - lia.
Qed.

(** ** Changing one buffer *)

Lemma alter_buf f r : (r < 30)%nat → alter f r (bufs s) = <[r := f (buf_at r s)]> (bufs s).
Proof using HB.
  intros Hr. assert (r < length (bufs s))%nat as Hlt by by rewrite (bc_len _ _ HB).
  apply list_eq. intros j. destruct (decide (j = r)) as [->|Hne].
  - rewrite list_lookup_alter_eq, list_lookup_insert_eq by done. by rewrite (buf_at_in r s Hlt).
  - by rewrite list_lookup_alter_ne, list_lookup_insert_ne.
Qed.

Definition with_buf (r : nat) (b : buf) : K := set_bufs (<[r := b]> (bufs s)) s.

Lemma buf_at_with r b j : (r < 30)%nat → buf_at j (with_buf r b) = if decide (j = r) then b else buf_at j s.
Proof using HB.
  intros Hr. unfold buf_at, with_buf. kproj. case_decide as Hj.
  - subst j. rewrite list_lookup_insert_eq; [done|]. by rewrite (bc_len _ _ HB).
  - by rewrite list_lookup_insert_ne.
Qed.

(** what the new contents of a buffer must satisfy *)
Record buf_ok (r : nat) (b : buf) : Prop := {
  bo_links : b_next b = b_next (buf_at r s) ∧ b_prev b = b_prev (buf_at r s);
  bo_uniq j : (j < 30)%nat → j ≠ r → b_dev b ≠ 0 → is_buf (b_dev b) (b_blockno b) (buf_at j s) = false;
  bo_size : length (b_data b) = 1024%nat;
  bo_ref : 0 ≤ b_refcnt b < 2 ^ 32;
  bo_clean : b_refcnt b = 0 → b_valid b = true → b_data b = blk s (b_blockno b);
  bo_unlk : b_refcnt b = 0 → b_locked b = false;
  bo_dev : b_valid b = true → b_dev b = ROOTDEV;
}.

Lemma links_with r b x : (r < 30)%nat → buf_ok r b → b_next_of x (with_buf r b) = b_next_of x s ∧ b_prev_of x (with_buf r b) = b_prev_of x s.
Proof using HB.
  intros Hr [[En Ep] _ _ _ _ _ _]. unfold b_next_of, b_prev_of. rewrite (buf_at_with r b _ Hr).
  case_decide as Hx; [rewrite En, Ep, <- Hx|]; done.
Qed.

Lemma bc_with r b : (r < 30)%nat → buf_ok r b → bc l (with_buf r b).
Proof using HB.
  intros Hr Hb. pose proof (buf_at_with r b) as Hat.
  constructor; try (intros i Hi; rewrite Hat by done; case_decide; [apply Hb|by apply HB]).
  - unfold with_buf. kproj. rewrite length_insert. apply (bc_len _ _ HB).
  - eapply ring_ext; [..|apply (bc_ring _ _ HB)]; intros x _; by apply links_with.
  - apply (bc_all _ _ HB).
  - intros i j Hi Hj. rewrite !Hat by done. repeat case_decide; subst; try done; intros Hd E1 E2.
    + pose proof (bo_uniq _ _ Hb j Hj ltac:(done) Hd) as Hn. unfold is_buf in Hn. lia.
    + pose proof (bo_uniq _ _ Hb i Hi ltac:(done) ltac:(congruence)) as Hn. unfold is_buf in Hn. lia.
    + by apply (bc_uniq _ _ HB).
  - intros i Hi. rewrite Hat by done. case_decide; [apply (bo_size _ _ Hb)|by apply (bc_size _ _ HB)].
  - apply (bc_disk _ _ HB).
Qed.

End Cache.

(** what a block reads as after a buffer was changed *)
Lemma view_with l s r b bn : bc l s → (r < 30)%nat → buf_ok s r b →
  view (with_buf s r b) bn =
  if is_buf ROOTDEV bn b then (if b_valid b then b_data b else blk s bn)
  else if is_buf ROOTDEV bn (buf_at r s) then blk s bn else view s bn.
Proof.
  intros HB Hr Hb. pose proof (bc_with l s HB r b Hr Hb) as HB'. pose proof (buf_at_with l s HB r b) as Hat.
  unfold view at 1. change (blk (with_buf s r b)) with (blk s).
  destruct (is_buf ROOTDEV bn b) eqn:Eb.
  - rewrite (hit_unique l _ HB' ROOTDEV bn r); [|done|done|by rewrite Hat, decide_True by done].
    by rewrite Hat, decide_True by done.
  - destruct (is_buf ROOTDEV bn (buf_at r s)) eqn:Er.
    + destruct (hit (with_buf s r b) ROOTDEV bn) as [i|] eqn:Eh; [|done].
      apply (hit_Some l _ HB') in Eh as [Hi Hib]. rewrite Hat in Hib by done. case_decide; [congruence|].
      apply is_buf_eq in Er as [E1 E2], Hib as [E3 E4]. exfalso.
      assert (i = r) by (apply (bc_uniq _ _ HB); [done..|by rewrite E3|congruence|congruence]). done.
    + unfold view. destruct (hit s ROOTDEV bn) as [i|] eqn:Eh.
      * apply (hit_Some l _ HB) in Eh as [Hi Hib]. assert (i ≠ r) as Hne by congruence.
        rewrite (hit_unique l _ HB' ROOTDEV bn i); [|done|done|by rewrite Hat, decide_False by done].
        by rewrite Hat, decide_False by done.
      * destruct (hit (with_buf s r b) ROOTDEV bn) as [i|] eqn:Eh'; [|done].
        apply (hit_Some l _ HB') in Eh' as [Hi Hib]. rewrite Hat in Hib by done. case_decide; [congruence|].
        by rewrite (hit_None l s HB _ _ i Eh Hi) in Hib.
Qed.

(** * bget and bread *)

Definition pid_of (p : nat) (s : K) : Z := p_pid (proc_at p s).

(** the buffer as bget() leaves it *)
Definition taken (pid : Z) (b : buf) : buf := set_b_pid pid (set_b_locked true b).
Definition ref_up (b : buf) : buf := set_b_refcnt (u32 (b_refcnt b + 1)) b.
Definition recycled (dev bn : Z) (b : buf) : buf :=
  set_b_refcnt 1 (set_b_valid false (set_b_blockno bn (set_b_dev dev b))).

Lemma set_bufs_set_bufs a b s : set_bufs a (set_bufs b s) = set_bufs a s.
Proof. done. Qed.

Lemma wp_bget_tail s l p i (f : buf → buf) (Q : nat → K → Prop) E :
  bc l s → cur s = Some p → (LkBcache ∉ held s) → (LkBuf i ∉ held s) → (i < 30)%nat →
  b_locked (f (buf_at i s)) = false →
  Q i (with_buf s i (taken (pid_of p s) (f (buf_at i s)))) →
  wp (do! upd_buf i f in do! release LkBcache in do! acquiresleep (SlBuf i) in ret i) Q E
    (set_held (LkBcache :: held s) s).
Proof.
  intros HB Hc Hl Hli Hi Hu HQ. wp_k. kst. rewrite set_held_id.
  assert (buf_at i (set_bufs (alter f i (bufs s)) s) = f (buf_at i s)) as Hb.
  { unfold buf_at. kproj. rewrite list_lookup_alter_eq, (buf_at_in i s) by by rewrite (bc_len _ _ HB). done. }
  apply (wp_acquiresleep (SlBuf i) p); [done|done|by cbn [sl_locked]; rewrite Hb|].
  wp_k. unfold put_sl. kproj. rewrite alter_compose, set_bufs_set_bufs, (alter_buf l) by done. exact HQ.
Qed.

Section Bread.
Context (l : list Z) (s : K) (p : nat) (bn : Z).
Context (HB : bc l s) (Hcur : cur s = Some p) (Hlc : LkBcache ∉ held s) (Hlb : ∀ i, LkBuf i ∉ held s).

(** the block can be brought into the cache: its buffer is not in use, or there
    is a buffer to recycle *)
Definition available : Prop :=
  match hit s ROOTDEV bn with
  | Some i => b_locked (buf_at i s) = false ∧ b_refcnt (buf_at i s) + 1 < 2 ^ 32
  | None => ∃ i, (i < 30)%nat ∧ b_refcnt (buf_at i s) = 0
  end.

(** the least recently used buffer nobody holds *)
Definition victim (i : nat) : Prop :=
  b_refcnt (buf_at i s) = 0 ∧ ∃ l1 l2, l = l1 ++ Z.of_nat i :: l2 ∧ ∀ x, x ∈ l2 → b_refcnt (buf_at (Z.to_nat x) s) ≠ 0.

(** the buffer bread() returns *)
Definition got (i : nat) (b : buf) : Prop :=
  (i < 30)%nat ∧ buf_ok s i b ∧ b_dev b = ROOTDEV ∧ b_blockno b = bn ∧ b_valid b = true ∧ b_locked b = true ∧
  b_pid b = pid_of p s ∧ b_data b = view s bn ∧
  match hit s ROOTDEV bn with
  | Some j => i = j ∧ b_refcnt b = b_refcnt (buf_at j s) + 1
  | None => victim i ∧ b_refcnt b = 1
  end.

Lemma wp_bget (Q : nat → K → Prop) E :
  available →
  (∀ i, hit s ROOTDEV bn = Some i → Q i (with_buf s i (taken (pid_of p s) (ref_up (buf_at i s))))) →
  (∀ i, (i < 30)%nat → hit s ROOTDEV bn = None → victim i →
     Q i (with_buf s i (taken (pid_of p s) (recycled ROOTDEV bn (buf_at i s))))) →
  wp (bget ROOTDEV bn) Q E s.
Proof using All.
  intros Hav Hhit Hmiss. unfold bget. wp_k.
  set (s0 := set_held (LkBcache :: held s) s).
  assert (bc l s0) as HB0 by (destruct HB; by constructor).
  pose proof (λ x, proj1 (list_in_tab l s HB x)) as Htab.
  assert (length l = 30)%nat as Hlen by (rewrite (bc_all _ _ HB), length_seqZ; done).
  apply (wp_scan l s0 HB0 b_next_of _ l); [apply (bc_ring _ _ HB0)|done|lia| |].
  - intros r1 x r2 Er Hc _. assert (in_tab x) as Hx by (apply Htab; rewrite Er; set_solver). unfold in_tab in Hx.
    assert (hit s ROOTDEV bn = Some (Z.to_nat x)) as Hh by (apply (hit_unique l s HB); [done|lia|exact Hc]).
    unfold available in Hav. rewrite Hh in Hav.
    apply (wp_bget_tail s l p (Z.to_nat x)); [done..|lia|apply Hav|]. by apply Hhit.
  - intros Hno. assert (hit s ROOTDEV bn = None) as Hh.
    { destruct (hit s ROOTDEV bn) as [i|] eqn:Eh; [|done]. apply (hit_Some l s HB) in Eh as [Hi Hib].
      assert (Z.of_nat i ∈ l) as Hin by (apply (list_in_tab l s HB); unfold in_tab; lia).
      specialize (Hno _ Hin). rewrite Nat2Z.id in Hno. unfold is_buf in Hib. unfold s0 in Hno.
      change (buf_at i (set_held _ s)) with (buf_at i s) in Hno. congruence. }
    wp_k. apply (wp_scan l s0 HB0 b_prev_of _ (reverse l)); [apply (bc_ring _ _ HB0)| | | |].
    + intros x Hx. apply Htab. by rewrite elem_of_reverse in Hx.
    + rewrite length_reverse. lia.
    + intros r1 x r2 Er Hc Hr1. assert (in_tab x) as Hx.
      { apply Htab. rewrite <- elem_of_reverse, Er. set_solver. } unfold in_tab in Hx.
      change (buf_at (Z.to_nat x) s0) with (buf_at (Z.to_nat x) s) in Hc.
      assert (b_refcnt (buf_at (Z.to_nat x) s) = 0) as Hr0 by lia.
      apply (wp_bget_tail s l p (Z.to_nat x)); [done..|lia| |].
      * apply (bc_unlk _ _ HB); [lia|done].
      * apply Hmiss; [lia|done|]. split; [done|]. exists (reverse r2), (reverse r1). split.
        -- rewrite Z2Nat.id by lia. by rewrite <- (reverse_involutive l), Er, reverse_app, reverse_cons, <- app_assoc.
        -- intros y Hy. rewrite elem_of_reverse in Hy. specialize (Hr1 y Hy).
           change (buf_at (Z.to_nat y) s0) with (buf_at (Z.to_nat y) s) in Hr1. lia.
    + intros Hno'. unfold available in Hav. rewrite Hh in Hav. destruct Hav as (i & Hi & Hr).
      assert (Z.of_nat i ∈ reverse l) as Hin by (rewrite elem_of_reverse; apply (list_in_tab l s HB); unfold in_tab; lia).
      specialize (Hno' _ Hin). rewrite Nat2Z.id in Hno'. change (buf_at i s0) with (buf_at i s) in Hno'. lia.
Qed.

Lemma upd_with f i b : (i < 30)%nat → set_bufs (alter f i (bufs (with_buf s i b))) (with_buf s i b) = with_buf s i (f b).
Proof using HB.
  intros Hi. unfold with_buf. kproj. rewrite set_bufs_set_bufs. f_equal.
  apply list_eq. intros j. assert (i < length (bufs s))%nat by by rewrite (bc_len _ _ HB).
  destruct (decide (j = i)) as [->|Hne].
  - rewrite list_lookup_alter_eq, !list_lookup_insert_eq by done. done.
  - by rewrite list_lookup_alter_ne, !list_lookup_insert_ne.
Qed.

(** the read of a buffer that is not valid *)
Definition filled (b : buf) : buf := set_b_valid true (set_b_disk 0 (set_b_data (blk s bn) b)).

Lemma wp_fill i b (Q : nat → K → Prop) E :
  (i < 30)%nat → b_blockno b = bn →
  Q i (with_buf s i (if b_valid b then b else filled b)) →
  wp (let! s := get in
      do! when (negb (b_valid (buf_at i s)))
            (do! virtio_disk_rw i false in upd_buf i (set_b_valid true)) in ret i) Q E (with_buf s i b).
Proof using HB.
  intros Hi Hbn HQ. do 2 wp_k1. wp_k1. rewrite (buf_at_with l s HB), decide_True by done.
  apply wp_when; intros Hv; destruct (b_valid b) eqn:Ev; try done.
  - unfold virtio_disk_rw. wp_k.
    rewrite (buf_at_with l s HB), decide_True, Hbn by done. change (blk (with_buf s i b)) with (blk s).
    rewrite !upd_with by done. exact HQ.
Qed.

Lemma others_differ i j : hit s ROOTDEV bn = Some i → (j < 30)%nat → j ≠ i → is_buf ROOTDEV bn (buf_at j s) = false.
Proof using HB.
  intros Hh Hj Hne. apply not_true_is_false. intros Hb.
  pose proof (hit_unique l s HB ROOTDEV bn j ltac:(done) Hj Hb). congruence.
Qed.

Lemma wp_bread (Q : nat → K → Prop) E :
  available → (∀ i b, got i b → Q i (with_buf s i b)) → wp (bread ROOTDEV bn) Q E s.
Proof using All.
  intros Hav HQ. unfold bread. apply wp_bind, wp_bget; [done| |].
  - intros i Hh. destruct (hit_Some l s HB _ _ _ Hh) as [Hi Hb]. apply is_buf_eq in Hb as [Hd Hbn].
    unfold available in Hav. rewrite Hh in Hav. pose proof (bc_ref _ _ HB i Hi).
    assert (u32 (b_refcnt (buf_at i s) + 1) = b_refcnt (buf_at i s) + 1) as Hu by (apply u32_small; lia).
    apply wp_fill; [done|done|]. apply HQ. unfold got, view. rewrite Hh.
    cbn [b_valid taken ref_up set_b_pid set_b_locked set_b_refcnt].
    destruct (b_valid (buf_at i s)) eqn:Ev;
      (split; [done|]; split; [|split_and!; try done; exact Hu]);
      (constructor; cbn; rewrite ?Hu, ?Hd, ?Hbn; try done; try lia).
    + intros j Hj Hne _. by eapply others_differ.
    + by apply (bc_size _ _ HB).
    + intros j Hj Hne _. by eapply others_differ.
    + apply (bc_disk _ _ HB).
  - intros i Hi Hh [Hr Hvic]. apply wp_fill; [done|done|]. apply HQ. unfold got, view. rewrite Hh.
    split; [done|]. split; [|split_and!; done]. constructor; cbn; try done; try lia.
    + intros j Hj Hne _. by apply (hit_None l s HB).
    + apply (bc_disk _ _ HB).
Qed.

Lemma got_bc i b : got i b → bc l (with_buf s i b).
Proof using HB. intros (Hi & Hok & _). by apply bc_with. Qed.

Lemma got_view i b x : got i b → view (with_buf s i b) x = view s x.
Proof using HB.
  intros (Hi & Hok & Hd & Hbn & Hv & _ & _ & Hdata & Href). rewrite (view_with l) by done. rewrite Hv, Hdata.
  destruct (is_buf ROOTDEV x b) eqn:Ex.
  - unfold is_buf in Ex. rewrite Hd, Hbn in Ex. assert (x = bn) as -> by lia. done.
  - destruct (is_buf ROOTDEV x (buf_at i s)) eqn:Ex'; [|done].
    assert (hit s ROOTDEV x = Some i) as Hh by (by apply (hit_unique l s HB)).
    destruct (hit s ROOTDEV bn) as [j|] eqn:Hhb.
    + destruct Href as [-> _]. apply (hit_Some l s HB) in Hhb as [_ Hb]. apply is_buf_eq in Hb as [_ E1].
      apply is_buf_eq in Ex' as [_ E2]. unfold is_buf in Ex. rewrite Hd, Hbn in Ex. lia.
    + unfold view. rewrite Hh. destruct (b_valid (buf_at i s)) eqn:Ev; [|done].
      rewrite (bc_clean _ _ HB i Hi) by (done || apply Href). apply is_buf_eq in Ex' as [_ ->]. done.
Qed.

End Bread.

(** * Relinking *)

(** everything about a buffer but its place in the list *)
Definition core (b : buf) : buf := set_b_prev 0 (set_b_next 0 b).
Definition rest (s : K) : K := set_procs [] (set_bufs [] (set_head_prev 0 (set_head_next 0 s))).
Definition pids (s : K) : list Z := p_pid <$> procs s.

(** only links differ *)
Record relinked (s s' : K) : Prop := {
  rl_rest : rest s' = rest s;
  rl_procs : procs s' = procs s;
  rl_len : length (bufs s') = length (bufs s);
  rl_core i : core (buf_at i s') = core (buf_at i s);
}.

Lemma relinked_refl s : relinked s s.
Proof. done. Qed.
Lemma relinked_trans s1 s2 s3 : relinked s1 s2 → relinked s2 s3 → relinked s1 s3.
Proof. intros [] []. constructor; congruence. Qed.

Lemma buf_at_alter f i j s :
  buf_at j (set_bufs (alter f i (bufs s)) s) =
  if decide (j = i ∧ (i < length (bufs s))%nat) then f (buf_at i s) else buf_at j s.
Proof.
  unfold buf_at. kproj. case_decide as H.
  - destruct H as [-> Hi]. rewrite list_lookup_alter_eq. by destruct (lookup_lt_is_Some_2 _ _ Hi) as [b ->].
  - destruct (decide (j = i)) as [->|]; [|by rewrite list_lookup_alter_ne].
    rewrite list_lookup_alter_eq. destruct (bufs s !! i) eqn:E; [|done].
    exfalso. apply H. split; [done|]. by eapply lookup_lt_Some.
Qed.

Definition node (x : Z) : Prop := 0 ≤ x ≤ 30.

Section Links.
Context (s : K) (Hlen : length (bufs s) = 30%nat).

Lemma relinked_next x v : relinked s (put_next x v s).
Proof using Hlen.
  unfold put_next. destruct (x =? BHEAD); [done|]. constructor; [done|done|by kproj; rewrite length_alter|].
  intros i. rewrite buf_at_alter. by case_decide as H; [destruct H as [-> _]|].
Qed.
Lemma relinked_prev x v : relinked s (put_prev x v s).
Proof using Hlen.
  unfold put_prev. destruct (x =? BHEAD); [done|]. constructor; [done|done|by kproj; rewrite length_alter|].
  intros i. rewrite buf_at_alter. by case_decide as H; [destruct H as [-> _]|].
Qed.

Lemma next_put_next x v y : node x → node y → b_next_of y (put_next x v s) = fupd (λ z, b_next_of z s) x v y.
Proof using Hlen.
  unfold node, put_next, b_next_of, fupd, BHEAD. change NBUF with 30. intros Hx Hy.
  destruct (Z.eqb_spec x 30) as [->|], (Z.eqb_spec y 30) as [->|]; rewrite ?buf_at_alter; try done.
  - destruct (Z.eqb_spec 30 x); [lia|done].
  - destruct (Z.eqb_spec y x) as [->|]; [rewrite decide_True by lia; done|].
    rewrite decide_False by lia. done.
Qed.
Lemma prev_put_prev x v y : node x → node y → b_prev_of y (put_prev x v s) = fupd (λ z, b_prev_of z s) x v y.
Proof using Hlen.
  unfold node, put_prev, b_prev_of, fupd, BHEAD. change NBUF with 30. intros Hx Hy.
  destruct (Z.eqb_spec x 30) as [->|], (Z.eqb_spec y 30) as [->|]; rewrite ?buf_at_alter; try done.
  - destruct (Z.eqb_spec 30 x); [lia|done].
  - destruct (Z.eqb_spec y x) as [->|]; [rewrite decide_True by lia; done|].
    rewrite decide_False by lia. done.
Qed.
Lemma prev_put_next x v y : b_prev_of y (put_next x v s) = b_prev_of y s.
Proof using Hlen.
  unfold put_next, b_prev_of. destruct (x =? BHEAD); [done|]. destruct (y =? BHEAD); [done|].
  rewrite buf_at_alter. case_decide as H; [|done]. by destruct H as [-> _].
Qed.
Lemma next_put_prev x v y : b_next_of y (put_prev x v s) = b_next_of y s.
Proof using Hlen.
  unfold put_prev, b_next_of. destruct (x =? BHEAD); [done|]. destruct (y =? BHEAD); [done|].
  rewrite buf_at_alter. case_decide as H; [|done]. by destruct H as [-> _].
Qed.
End Links.

(** the cache invariant only sees links through the ring *)
Lemma bc_relink l l' s s' : bc l s → relinked s s' → l' ≡ₚ l →
  ring (λ x, b_next_of x s') (λ x, b_prev_of x s') BHEAD l' → bc l' s'.
Proof.
  intros HB [Hr Hp Hlen Hc] Hl HR.
  assert (∀ b, blk s' b = blk s b) as Hblk by (intros b; change (blk (rest s') b = blk (rest s) b); by rewrite Hr).
  assert (∀ i, b_valid (buf_at i s') = b_valid (buf_at i s)) as Ev by (intros i; exact (f_equal b_valid (Hc i))).
  assert (∀ i, b_dev (buf_at i s') = b_dev (buf_at i s)) as Ed by (intros i; exact (f_equal b_dev (Hc i))).
  assert (∀ i, b_blockno (buf_at i s') = b_blockno (buf_at i s)) as Eb by (intros i; exact (f_equal b_blockno (Hc i))).
  assert (∀ i, b_locked (buf_at i s') = b_locked (buf_at i s)) as El by (intros i; exact (f_equal b_locked (Hc i))).
  assert (∀ i, b_refcnt (buf_at i s') = b_refcnt (buf_at i s)) as Er by (intros i; exact (f_equal b_refcnt (Hc i))).
  assert (∀ i, b_data (buf_at i s') = b_data (buf_at i s)) as Ea by (intros i; exact (f_equal b_data (Hc i))).
  destruct HB. constructor; try done; try (intros *; rewrite ?Ev, ?Ed, ?Eb, ?El, ?Er, ?Ea, ?Hblk; auto).
  - congruence.
  - by rewrite Hl.
Qed.

Lemma view_relink l l' s s' bn : bc l s → bc l' s' → relinked s s' → view s' bn = view s bn.
Proof.
  intros HB HB' [Hr Hp Hlen Hc].
  assert (∀ b, blk s' b = blk s b) as Hblk by (intros b; change (blk (rest s') b = blk (rest s) b); by rewrite Hr).
  assert (∀ i, is_buf ROOTDEV bn (buf_at i s') = is_buf ROOTDEV bn (buf_at i s)) as Ei.
  { intros i. change (is_buf ROOTDEV bn (core (buf_at i s')) = is_buf ROOTDEV bn (core (buf_at i s))). by rewrite Hc. }
  unfold view. destruct (hit s ROOTDEV bn) as [i|] eqn:Hh.
  - destruct (hit_Some l s HB _ _ _ Hh) as [Hi Hb]. rewrite <- Ei in Hb.
    rewrite (hit_unique l' s' HB' ROOTDEV bn i ltac:(done) Hi Hb), Hblk.
    change (b_valid (buf_at i s')) with (b_valid (core (buf_at i s'))).
    change (b_data (buf_at i s')) with (b_data (core (buf_at i s'))). by rewrite Hc.
  - destruct (hit s' ROOTDEV bn) as [i|] eqn:Hh'; [|apply Hblk].
    destruct (hit_Some l' s' HB' _ _ _ Hh') as [Hi Hb]. by rewrite Ei, (hit_None l s HB _ _ _ Hh Hi) in Hb.
Qed.

Section Front.
Context (s : K) (Hlen : length (bufs s) = 30%nat) (b : Z) (l1 l2 : list Z).
Context (HR : ring (λ x, b_next_of x s) (λ x, b_prev_of x s) BHEAD (l1 ++ b :: l2)).
Context (Hn : ∀ x, x ∈ l1 ++ b :: l2 → in_tab x).

Lemma front_nodes x : x ∈ BHEAD :: l1 ++ b :: l2 → node x.
Proof using Hn Hlen. intros [->|Hx]%elem_of_cons; [done|]. specialize (Hn x Hx). unfold in_tab, node in *. lia. Qed.

(** taking the buffer out of the list *)
Definition unlinked : K :=
  let s1 := put_prev (b_next_of b s) (b_prev_of b s) s in put_next (b_prev_of b s1) (b_next_of b s1) s1.

Lemma unlinked_ring : relinked s unlinked ∧ ring (λ x, b_next_of x unlinked) (λ x, b_prev_of x unlinked) BHEAD (l1 ++ l2).
Proof using All.
  pose proof front_nodes as Hnode.
  assert (node b ∧ node (b_next_of b s) ∧ node (b_prev_of b s)) as (Nb & Nn & Np).
  { split; [apply Hnode; set_solver|]. rewrite (ring_next_of _ _ _ _ _ _ HR), (ring_prev_of _ _ _ _ _ _ HR).
    split; apply Hnode.
    - pose proof (default_head_in BHEAD l2). set_solver.
    - pose proof (default_last_in BHEAD l1). set_solver. }
  unfold unlinked. set (nb := b_next_of b s) in *. set (pb := b_prev_of b s) in *. set (s1 := put_prev nb pb s).
  assert (length (bufs s1) = 30%nat) as L1 by (unfold s1; by rewrite (rl_len _ _ (relinked_prev s Hlen nb pb))).
  assert (b_prev_of b s1 = pb) as ->.
  { unfold s1. rewrite (prev_put_prev s Hlen) by done. unfold fupd. by destruct (b =? nb). }
  assert (b_next_of b s1 = nb) as -> by apply (next_put_prev s Hlen). cbn zeta. split.
  - eapply relinked_trans; [by apply relinked_prev|by apply relinked_next].
  - refine (ring_ext _ _ _ _ _ _ _ _ (ring_unlink _ _ _ _ _ _ HR)); intros x Hx; cbn beta; fold nb pb.
    + rewrite (next_put_next s1 L1) by (done || (apply Hnode; set_solver)). unfold fupd.
      destruct (x =? pb); [done|]. apply (next_put_prev s Hlen).
    + rewrite (prev_put_next s1 L1). apply (prev_put_prev s Hlen); [done|apply Hnode; set_solver].
Qed.
End Front.

Section Push.
Context (s : K) (Hlen : length (bufs s) = 30%nat) (b : Z) (r : list Z).
Context (HR : ring (λ x, b_next_of x s) (λ x, b_prev_of x s) BHEAD r).
Context (Hn : ∀ x, x ∈ r → in_tab x) (Hb : in_tab b) (Hnb : b ∉ r).

Definition pushed : K :=
  let n := b_next_of BHEAD s in put_next BHEAD b (put_prev n b (put_prev b BHEAD (put_next b n s))).

Lemma pushed_ring : relinked s pushed ∧ ring (λ x, b_next_of x pushed) (λ x, b_prev_of x pushed) BHEAD (b :: r).
Proof using All.
  assert (∀ x, x ∈ BHEAD :: b :: r → node x) as Hnode.
  { intros x [->|[->|Hx]%elem_of_cons]%elem_of_cons; [done| |specialize (Hn x Hx)]; unfold in_tab, node in *; lia. }
  assert (b ∉ BHEAD :: r) as Hnb' by (intros [->|?]%elem_of_cons; [by vm_compute in Hb; destruct Hb|done]).
  assert (node b ∧ node BHEAD) as [Nb Nh] by (split; [apply Hnode; set_solver|done]).
  unfold pushed. set (n := b_next_of BHEAD s).
  assert (node n) as Nn.
  { unfold n. pose proof (path_head _ _ _ _ (ring_next _ _ _ _ HR)) as E. cbn beta in E. rewrite E. apply Hnode.
    pose proof (default_head_in BHEAD r). set_solver. }
  set (s1 := put_next b n s). assert (length (bufs s1) = 30%nat) as L1 by (unfold s1; by rewrite (rl_len _ _ (relinked_next s Hlen b n))).
  set (s2 := put_prev b BHEAD s1). assert (length (bufs s2) = 30%nat) as L2 by (unfold s2; by rewrite (rl_len _ _ (relinked_prev s1 L1 b BHEAD))).
  set (s3 := put_prev n b s2). assert (length (bufs s3) = 30%nat) as L3 by (unfold s3; by rewrite (rl_len _ _ (relinked_prev s2 L2 n b))).
  cbn zeta. split.
  - do 3 (eapply relinked_trans; [|by first [apply relinked_prev|apply relinked_next]]). by apply relinked_next.
  - refine (ring_ext _ _ _ _ _ _ _ _ (ring_push _ _ _ _ b HR Hnb')); intros x Hx; cbn beta; fold n.
    + rewrite (next_put_next s3 L3) by auto. unfold fupd at 1 2. destruct (x =? BHEAD); [done|].
      unfold s3. rewrite (next_put_prev s2 L2). unfold s2. rewrite (next_put_prev s1 L1). apply (next_put_next s Hlen); auto.
    + rewrite (prev_put_next s3 L3). unfold s3. rewrite (prev_put_prev s2 L2) by auto. unfold fupd at 1 2.
      destruct (x =? n); [done|]. unfold s2. rewrite (prev_put_prev s1 L1) by auto. unfold fupd.
      destruct (x =? b); [done|]. apply (prev_put_next s Hlen).
Qed.

Lemma wp_link_front (Q : unit → K → Prop) E :
  (relinked s pushed → ring (λ x, b_next_of x pushed) (λ x, b_prev_of x pushed) BHEAD (b :: r) → Q tt pushed) →
  wp (link_front b) Q E s.
Proof using All.
  intros HQ. unfold link_front, set_prev, set_next. wp_k.
  assert (b_next_of BHEAD (put_prev b BHEAD (put_next b (b_next_of BHEAD s) s)) = b_next_of BHEAD s) as ->.
  { rewrite (next_put_prev _); [|by rewrite (rl_len _ _ (relinked_next s Hlen _ _))].
    rewrite (next_put_next s Hlen); [|unfold in_tab, node in *; lia|done]. apply fupd_ne.
    unfold BHEAD. consts. unfold in_tab in Hb. lia. }
  destruct pushed_ring. by apply HQ.
Qed.
End Push.

Lemma wp_move_front s l1 b l2 (Q : unit → K → Prop) E :
  length (bufs s) = 30%nat → ring (λ x, b_next_of x s) (λ x, b_prev_of x s) BHEAD (l1 ++ b :: l2) →
  (∀ x, x ∈ l1 ++ b :: l2 → in_tab x) →
  (∀ s', relinked s s' → ring (λ x, b_next_of x s') (λ x, b_prev_of x s') BHEAD (b :: l1 ++ l2) → Q tt s') →
  wp (do! set_prev (b_next_of b s) (b_prev_of b s) in
      let! s := get in
      do! set_next (b_prev_of b s) (b_next_of b s) in
      link_front b) Q E s.
Proof.
  intros Hlen HR Hn HQ. unfold set_prev, set_next. wp_k.
  destruct (unlinked_ring s Hlen b l1 l2 HR Hn) as [Hl HR1].
  apply (wp_link_front (unlinked s b)) with (r := l1 ++ l2).
  - by rewrite (rl_len _ _ Hl).
  - done.
  - set_solver.
  - apply Hn. set_solver.
  - pose proof (ring_nodup _ _ _ _ HR) as Hnd. apply NoDup_cons in Hnd as [_ Hnd].
    apply NoDup_app in Hnd as (_ & Hd & [Hb _]%NoDup_cons). set_solver.
  - intros Hl2 HR2. apply HQ; [by eapply relinked_trans|done].
Qed.

(** * brelse, bwrite, bpin, bunpin *)

Lemma pids_wake ch c n ps : p_pid <$> wake ch c n ps = p_pid <$> ps.
Proof.
  apply list_eq. intros i. unfold wake. rewrite !list_lookup_fmap, list_lookup_imap.
  destruct (ps !! i); simpl; [|done]. f_equal. unfold woken. by repeat case_match.
Qed.

Lemma pid_of_pids p s s' : pids s' = pids s → pid_of p s' = pid_of p s.
Proof.
  intros H. unfold pid_of, proc_at. apply (f_equal (λ x, x !! p)) in H. unfold pids in H.
  rewrite !list_lookup_fmap in H. by destruct (procs s !! p), (procs s' !! p); simplify_eq/=.
Qed.

(** the state a call leaves: the same file system, seen through a cache that may
    hold other blocks *)
Record same_fs (s s' : K) : Prop := {
  sf_rest : rest s' = rest s;
  sf_pids : pids s' = pids s;
  sf_view x : view s' x = view s x;
}.

Definition dropped (b : buf) : buf := set_b_refcnt (b_refcnt b - 1) (set_b_pid 0 (set_b_locked false b)).

(** the list after brelse() of buffer [i] with [n] references *)
Definition lru_after (l : list Z) (i : nat) (n : Z) (l' : list Z) : Prop :=
  if n =? 1 then ∃ l1 l2, l = l1 ++ Z.of_nat i :: l2 ∧ l' = Z.of_nat i :: l1 ++ l2 else l' = l.

Section Use.
Context (l : list Z) (s : K) (p i : nat).
Context (HB : bc l s) (Hcur : cur s = Some p) (Hlc : LkBcache ∉ held s) (Hlb : LkBuf i ∉ held s).
Context (Hun : proc_unlocked s) (Hi : (i < 30)%nat).
Context (Hlk : b_locked (buf_at i s) = true) (Hpid : b_pid (buf_at i s) = pid_of p s).

Lemma holds_buf : sl_locked (SlBuf i) s && (sl_pid (SlBuf i) s =? p_pid (proc_at p s)) = true.
Proof using Hlk Hpid. unfold sl_locked, sl_pid. rewrite Hlk, Hpid. apply Z.eqb_refl. Qed.

Lemma dropped_ok :
  1 ≤ b_refcnt (buf_at i s) →
  (b_refcnt (buf_at i s) = 1 → b_valid (buf_at i s) = true → b_data (buf_at i s) = blk s (b_blockno (buf_at i s))) →
  buf_ok s i (dropped (buf_at i s)).
Proof using HB Hi Hlk.
  intros Hr Hcl. pose proof (bc_ref _ _ HB i Hi). constructor; cbn; try done; try lia.
  - intros j Hj Hne Hd. apply not_true_is_false. intros [E1 E2]%is_buf_eq.
    apply Hne. by apply (bc_uniq _ _ HB); rewrite ?E1.
  - by apply (bc_size _ _ HB).
  - intros Hz. apply Hcl. lia.
  - apply (bc_dev _ _ HB i Hi).
Qed.

(** brelse(): the buffer is unlocked, loses one reference and, when nobody else
    uses it, becomes the most recently used one *)
Lemma wp_brelse (Q : unit → K → Prop) E :
  1 ≤ b_refcnt (buf_at i s) →
  (b_refcnt (buf_at i s) = 1 → b_valid (buf_at i s) = true → b_data (buf_at i s) = blk s (b_blockno (buf_at i s))) →
  (∀ s' l', bc l' s' → same_fs s s' → core (buf_at i s') = core (dropped (buf_at i s)) →
     (∀ j, j ≠ i → core (buf_at j s') = core (buf_at j s)) → lru_after l i (b_refcnt (buf_at i s)) l' → Q tt s') →
  wp (brelse i) Q E s.
Proof using All.
  intros Hr Hcl HQ. pose proof (dropped_ok Hr Hcl) as Hok. pose proof (bc_ref _ _ HB i Hi) as Hrange.
  pose proof (bc_with l s HB i _ Hi Hok) as HB1.
  unfold brelse. apply wp_bind. apply (wp_holdingsleep (SlBuf i) p); [done|done|]. rewrite holds_buf. cbn [negb].
  apply wp_bind. apply wp_releasesleep; [done|done|]. unfold put_sl. wp_k. kst.
  set (ps := wake _ _ _ _). set (b1 := dropped (buf_at i s)).
  match goal with |- context [b_refcnt (buf_at i ?x) =? 0] =>
    replace x with (set_held (LkBcache :: held s) (set_procs ps (with_buf s i b1))) end.
  2: { unfold with_buf. rewrite alter_compose, (alter_buf l s HB) by done. unfold b1, dropped.
       rewrite <- (u32_small (b_refcnt (buf_at i s) - 1)) by lia. done. }
  set (s1 := with_buf s i b1) in *. set (s2 := set_held _ (set_procs ps s1)).
  assert (buf_at i s2 = b1) as Hb1 by (change (buf_at i s1 = b1); unfold s1; by rewrite (buf_at_with l s HB), decide_True).
  assert (∀ j, j ≠ i → buf_at j s1 = buf_at j s) as Hoth.
  { intros j Hj. unfold s1. by rewrite (buf_at_with l s HB), decide_False. }
  assert (same_fs s (set_procs ps s1)) as Hsf.
  { constructor; [done|apply pids_wake|]. intros x. change (view s1 x = view s x). unfold s1.
    rewrite (view_with l s i b1 x HB Hi Hok). unfold b1 at 1. change (is_buf ROOTDEV x (dropped (buf_at i s))) with (is_buf ROOTDEV x (buf_at i s)).
    destruct (is_buf ROOTDEV x (buf_at i s)) eqn:Ex; [|done]. unfold view.
    by rewrite (hit_unique l s HB ROOTDEV x i ltac:(done) Hi Ex). }
  rewrite Hb1. apply wp_when; intros Hz.
  - destruct (list_elem_of_split l (Z.of_nat i)) as (l1 & l2 & El).
    { apply (list_in_tab l s HB). unfold in_tab. lia. }
    assert (∀ x, x ∈ l1 ++ Z.of_nat i :: l2 → in_tab x) as Htab by (rewrite <- El; intros x; apply (list_in_tab l s HB)).
    apply (wp_move_front s2 l1 (Z.of_nat i) l2); [apply (bc_len _ _ HB1)|rewrite <- El; apply (bc_ring _ _ HB1)|done|].
    intros s3 Hrl HR3. assert (held s3 = LkBcache :: held s) as Hh3 by exact (f_equal held (rl_rest _ _ Hrl)).
    eapply wp_release_head; [exact Hh3|].
    assert (relinked (set_procs ps s1) (set_held (held s) s3)) as Hrl'.
    { destruct Hrl as [R1 R2 R3 R4]. constructor; [|done|done|done].
      change (set_held (held s) (rest s3) = set_held (held s) (rest s2)). by rewrite R1. }
    assert (bc l (set_procs ps s1)) as HB1' by (destruct HB1; by constructor).
    assert (bc (Z.of_nat i :: l1 ++ l2) (set_held (held s) s3)) as HB3.
    { eapply bc_relink; [exact HB1'|exact Hrl'|rewrite El; apply Permutation_middle|exact HR3]. }
    apply (HQ _ _ HB3).
    + destruct Hsf. constructor.
      * by rewrite (rl_rest _ _ Hrl').
      * unfold pids in *. by rewrite (rl_procs _ _ Hrl').
      * intros x. by rewrite (view_relink _ _ _ _ x HB1' HB3 Hrl').
    + rewrite (rl_core _ _ Hrl' i). by change (buf_at i (set_procs ps s1)) with (buf_at i s2); rewrite Hb1.
    + intros j Hj. rewrite (rl_core _ _ Hrl' j). change (buf_at j (set_procs ps s1)) with (buf_at j s1). by rewrite Hoth.
    + unfold lru_after. cbn in Hz. btrue (b_refcnt (buf_at i s) =? 1). by exists l1, l2.
  - eapply wp_release_head; [done|]. unfold s2. kst. rewrite (set_held_same s1) by done.
    apply (HQ _ l); [destruct HB1; by constructor|done| | |].
    + by change (buf_at i (set_procs ps s1)) with (buf_at i s2); rewrite Hb1.
    + intros j Hj. change (buf_at j (set_procs ps s1)) with (buf_at j s1). by rewrite Hoth.
    + unfold lru_after. cbn in Hz. by bfalse (b_refcnt (buf_at i s) =? 1).
Qed.

(** bwrite(): the block on disk becomes the buffer's contents *)
Definition written : K :=
  let b := buf_at i s in
  set_dtrace (dtrace s ++ [(b_blockno b, b_data b)])
    (set_disk (<[b_blockno b := b_data b]> (disk s)) (with_buf s i (set_b_disk 0 b))).

Lemma wp_bwrite (Q : unit → K → Prop) E : Q tt written → wp (bwrite i) Q E s.
Proof using HB Hcur Hlb Hi Hlk Hpid.
  intros HQ. unfold bwrite. apply wp_bind. apply (wp_holdingsleep (SlBuf i) p); [done|done|]. rewrite holds_buf. cbn [negb].
  unfold virtio_disk_rw. wp_k. rewrite (alter_buf l s HB) by done. exact HQ.
Qed.

Lemma blk_written x : blk written x = if decide (x = b_blockno (buf_at i s)) then b_data (buf_at i s) else blk s x.
Proof.
  unfold written, blk. kproj. case_decide as H; [subst; by rewrite lookup_insert_eq|].
  by rewrite lookup_insert_ne.
Qed.

Lemma written_buf j : buf_at j written = if decide (j = i) then set_b_disk 0 (buf_at i s) else buf_at j s.
Proof using HB Hi Hlk. change (buf_at j written) with (buf_at j (with_buf s i (set_b_disk 0 (buf_at i s)))). by apply (buf_at_with l). Qed.

Lemma disk_ok : b_valid (buf_at i s) = true → 1 ≤ b_refcnt (buf_at i s) → buf_ok s i (set_b_disk 0 (buf_at i s)).
Proof using HB Hi Hlk.
  intros Hv Hr. constructor; cbn; try done.
  - intros j Hj Hne Hd. apply not_true_is_false. intros [E1 E2]%is_buf_eq.
    apply Hne. by apply (bc_uniq _ _ HB); rewrite ?E1.
  - by apply (bc_size _ _ HB).
  - by apply (bc_ref _ _ HB).
  - lia.
  - lia.
  - apply (bc_dev _ _ HB i Hi).
Qed.

(** the other buffers hold other blocks *)
Lemma other_block j : b_valid (buf_at i s) = true → (j < 30)%nat → j ≠ i → b_valid (buf_at j s) = true →
  b_blockno (buf_at j s) ≠ b_blockno (buf_at i s).
Proof using HB Hi Hlk.
  intros Hv Hj Hne Hvj E. apply Hne. pose proof (bc_dev _ _ HB i Hi Hv) as E1. pose proof (bc_dev _ _ HB j Hj Hvj) as E2.
  apply (bc_uniq _ _ HB); rewrite ?E1, ?E2; done.
Qed.

Lemma bc_written : b_valid (buf_at i s) = true → 1 ≤ b_refcnt (buf_at i s) → bc l written.
Proof using HB Hi Hlk.
  intros Hv Hr. pose proof (bc_with l s HB i _ Hi (disk_ok Hv Hr)) as HB1. destruct HB1. constructor; try done.
  - intros x. rewrite blk_written. case_decide; [by apply (bc_size _ _ HB)|apply (bc_disk _ _ HB)].
  - intros j Hj Hrj Hvj. rewrite blk_written. rewrite written_buf in *. case_decide as Hji; cbn in *; [lia|].
    rewrite decide_False by by apply other_block. by apply (bc_clean _ _ HB).
Qed.

Lemma view_written x : b_valid (buf_at i s) = true → 1 ≤ b_refcnt (buf_at i s) → view written x = view s x.
Proof using HB Hi Hlk.
  intros Hv Hr. pose proof (bc_written Hv Hr) as HB'.
  assert (∀ j, is_buf ROOTDEV x (buf_at j written) = is_buf ROOTDEV x (buf_at j s)) as Ei.
  { intros j. rewrite written_buf. case_decide; [by subst|done]. }
  unfold view. destruct (hit s ROOTDEV x) as [j|] eqn:Hh.
  - destruct (hit_Some l s HB _ _ _ Hh) as [Hj Hb]. rewrite <- Ei in Hb.
    rewrite (hit_unique l _ HB' ROOTDEV x j ltac:(done) Hj Hb), written_buf, blk_written. rewrite Ei in Hb.
    case_decide as Hji; cbn; [subst j; by rewrite Hv|]. destruct (b_valid (buf_at j s)) eqn:Hvj; [done|].
    rewrite decide_False; [done|]. intros ->. apply Hji.
    apply is_buf_eq in Hb as [E1 E2]. pose proof (bc_dev _ _ HB i Hi Hv). apply (bc_uniq _ _ HB); rewrite ?E1; done.
  - destruct (hit written ROOTDEV x) as [j|] eqn:Hh'.
    { destruct (hit_Some l _ HB' _ _ _ Hh') as [Hj Hb]. by rewrite Ei, (hit_None l s HB _ _ _ Hh Hj) in Hb. }
    rewrite blk_written. rewrite decide_False; [done|]. intros ->.
    pose proof (hit_None l s HB _ _ i Hh Hi) as Hn. unfold is_buf in Hn. rewrite (bc_dev _ _ HB i Hi Hv) in Hn. lia.
Qed.

End Use.

(** bpin() and bunpin() *)
Lemma wp_bpin s i (Q : unit → K → Prop) E : (LkBcache ∉ held s) →
  Q tt (set_bufs (alter (λ b, set_b_refcnt (u32 (b_refcnt b + 1)) b) i (bufs s)) s) → wp (bpin i) Q E s.
Proof. intros Hl HQ. unfold bpin. wp_k. kst. by rewrite set_held_id. Qed.

Lemma wp_bunpin s i (Q : unit → K → Prop) E : (LkBcache ∉ held s) →
  Q tt (set_bufs (alter (λ b, set_b_refcnt (u32 (b_refcnt b - 1)) b) i (bufs s)) s) → wp (bunpin i) Q E s.
Proof. intros Hl HQ. unfold bunpin. wp_k. kst. by rewrite set_held_id. Qed.
