(* ===== verification/Blocks.v ===== *)
(** The buffer cache as log.c and fs.c use it.

    [cinv p P H s]: process [p] runs alone in the cache, holding the buffers [H]
    (locked, one reference each); the blocks [P] are pinned by the log (one
    reference each).  The rules say what bread(), brelse(), bwrite(), bpin() and
    bunpin() do to [P], [H], the logical blocks [view] and the disk. *)

From S2P Require Import Prelude Mem Layout Kalloc State Sched Ring Bio BioProofs.

Definition pinned (P : list Z) (b : buf) : bool := bool_decide (b_dev b = ROOTDEV ∧ b_blockno b ∈ P).

Record cinv (p : nat) (P : list Z) (H : list nat) (s : K) : Prop := {
  ci_bc : ∃ l, bc l s;
  ci_cur : cur s = Some p;
  ci_held : held s = [];
  ci_hand i : i ∈ H → (i < 30)%nat ∧ b_dev (buf_at i s) = ROOTDEV ∧ b_valid (buf_at i s) = true ∧ b_pid (buf_at i s) = pid_of p s;
  ci_lock i : (i < 30)%nat → b_locked (buf_at i s) = bool_decide (i ∈ H);
  ci_ref i : (i < 30)%nat → b_refcnt (buf_at i s) = b2z (bool_decide (i ∈ H)) + b2z (pinned P (buf_at i s));
  ci_pin b : b ∈ P → ∃ i, (i < 30)%nat ∧ is_buf ROOTDEV b (buf_at i s) = true ∧ b_valid (buf_at i s) = true;
  ci_nodup : NoDup P ∧ NoDup H;
}.

(** the buffers held, by the block they hold *)
Definition holds (s : K) (i : nat) (bn : Z) : Prop := b_blockno (buf_at i s) = bn.

Lemma b2z_range b : 0 ≤ b2z b ≤ 1.
Proof. destruct b; simpl; lia. Qed.

Section Rules.
Context (p : nat) (P : list Z) (H : list nat) (s : K) (HC : cinv p P H s).

Lemma hand_view i : i ∈ H → view s (b_blockno (buf_at i s)) = b_data (buf_at i s).
Proof using HC.
  intros Hi. destruct (ci_bc _ _ _ _ HC) as [l HB]. destruct (ci_hand _ _ _ _ HC i Hi) as (Hlt & Hd & Hv & _).
  unfold view. rewrite (hit_unique l s HB ROOTDEV _ i); [by rewrite Hv|done|done|]. apply is_buf_eq. done.
Qed.

(** a block that is neither pinned nor held is on disk as it reads *)
Lemma clean_view bn : bn ∉ P → (∀ i, i ∈ H → b_blockno (buf_at i s) ≠ bn) → view s bn = blk s bn.
Proof using HC.
  intros HP Hh. destruct (ci_bc _ _ _ _ HC) as [l HB]. unfold view.
  destruct (hit s ROOTDEV bn) as [i|] eqn:E; [|done]. destruct (hit_Some l s HB _ _ _ E) as [Hi Hb].
  apply is_buf_eq in Hb as [Hd Hbn]. destruct (b_valid (buf_at i s)) eqn:Hv; [|done]. rewrite <- Hbn.
  apply (bc_clean _ _ HB i Hi); [|done]. rewrite (ci_ref _ _ _ _ HC i Hi).
  rewrite bool_decide_false by (intros Hin; by apply (Hh i)). unfold pinned.
  rewrite bool_decide_false; [done|]. rewrite Hbn. tauto.
Qed.

(** every buffer in use is held or pinned *)
Lemma free_buf : (length P + length H < 30)%nat → ∃ i, (i < 30)%nat ∧ b_refcnt (buf_at i s) = 0.
Proof using HC.
  intros Hlen. destruct (ci_bc _ _ _ _ HC) as [l HB].
  destruct (decide (Exists (λ i, b_refcnt (buf_at i s) = 0) (seq 0 30))) as [He|Hn].
  { apply Exists_exists in He as (i & Hi & Hr). apply elem_of_seq in Hi. exists i. split; [lia|done]. }
  exfalso. apply not_Exists_Forall in Hn; [|intros i; apply _]. rewrite Forall_forall in Hn.
  (* the unheld buffers are pinned, with distinct blocks *)
  set (U := filter (λ i, i ∉ H) (seq 0 30)).
  assert ((λ i, b_blockno (buf_at i s)) <$> U ⊆+ P) as Hsub.
  { apply NoDup_submseteq.
    - apply NoDup_fmap_2_strong; [|apply NoDup_filter, NoDup_seq].
      assert (∀ i, i ∈ U → (i < 30)%nat ∧ b_dev (buf_at i s) = ROOTDEV) as HU.
      { intros i [Hin Hi%elem_of_seq]%list_elem_of_filter. assert (i < 30)%nat as Hlt by lia. split; [done|].
        pose proof (ci_ref _ _ _ _ HC i Hlt) as Hr. rewrite bool_decide_false in Hr by done.
        unfold pinned in Hr. case_bool_decide as Hp; [tauto|]. destruct (Hn i); [apply elem_of_seq; lia|done]. }
      intros i j Hi Hj E. destruct (HU i Hi) as [? E1], (HU j Hj) as [? E2].
      apply (bc_uniq _ _ HB); [done..|by rewrite E1|congruence|done].
    - intros b (i & -> & [Hin Hi%elem_of_seq]%list_elem_of_filter)%list_elem_of_fmap. assert (i < 30)%nat as Hlt by lia.
      pose proof (ci_ref _ _ _ _ HC i Hlt) as Hr. rewrite bool_decide_false in Hr by done.
      unfold pinned in Hr. case_bool_decide as Hp; [tauto|]. destruct (Hn i); [apply elem_of_seq; lia|done]. }
  apply submseteq_length in Hsub. rewrite length_fmap in Hsub.
  assert (seq 0 30 ⊆+ U ++ H) as Hsub2.
  { apply NoDup_submseteq; [apply NoDup_seq|]. intros i Hi. destruct (decide (i ∈ H)); [set_solver|].
    apply elem_of_app. left. apply list_elem_of_filter. done. }
  apply submseteq_length in Hsub2. rewrite length_app, length_seq in Hsub2. lia.
Qed.

(** bread() of a block that is not held *)
Lemma wp_bread_c bn (Q : nat → K → Prop) E :
  (∀ i, i ∈ H → b_blockno (buf_at i s) ≠ bn) → bn ∈ P ∨ (length P + length H < 30)%nat →
  (∀ i s', (i ∉ H) → cinv p P (i :: H) s' → rest s' = rest s → procs s' = procs s → (∀ x, view s' x = view s x) →
     b_blockno (buf_at i s') = bn → (∀ j, j ∈ H → buf_at j s' = buf_at j s) → Q i s') →
  wp (bread ROOTDEV bn) Q E s.
Proof using HC.
  intros Hnot Hlen HQ. destruct (ci_bc _ _ _ _ HC) as [l HB].
  assert (∀ i, hit s ROOTDEV bn = Some i → i ∉ H) as Hfresh.
  { intros i Hh Hi. destruct (hit_Some l s HB _ _ _ Hh) as [_ [_ Hb]%is_buf_eq]. by apply (Hnot i). }
  apply (wp_bread l s p bn HB (ci_cur _ _ _ _ HC)); try (rewrite (ci_held _ _ _ _ HC); set_solver).
  { unfold available. destruct (hit s ROOTDEV bn) as [i|] eqn:Hh.
    2: { destruct Hlen as [Hin|Hlen]; [|by apply free_buf].
         destruct (ci_pin _ _ _ _ HC bn Hin) as (j & Hj & Hb & _). by rewrite (hit_None l s HB _ _ j Hh Hj) in Hb. }
    destruct (hit_Some l s HB _ _ _ Hh) as [Hi _]. rewrite (ci_lock _ _ _ _ HC i Hi), (ci_ref _ _ _ _ HC i Hi).
    rewrite bool_decide_false by by apply Hfresh. pose proof (b2z_range (pinned P (buf_at i s))). simpl. lia. }
  intros i b Hgot. pose proof (got_bc l s p bn HB i b Hgot) as HB'. pose proof (λ x, got_view l s p bn HB i b x Hgot) as Hview.
  destruct Hgot as (Hi & Hok & Hd & Hbn & Hv & Hlk & Hpid & _ & Href).
  pose proof (buf_at_with l s HB i b) as Hat.
  assert (i ∉ H) as HiH.
  { destruct (hit s ROOTDEV bn) as [j|] eqn:Hh; [destruct Href as [-> _]; by apply Hfresh|].
    intros Hin. destruct Href as [[Hr0 _] _]. rewrite (ci_ref _ _ _ _ HC i Hi), bool_decide_true in Hr0 by done.
    pose proof (b2z_range (pinned P (buf_at i s))). simpl in Hr0. lia. }
  assert (b_refcnt b = 1 + b2z (pinned P b)) as Hrb.
  { destruct (hit s ROOTDEV bn) as [j|] eqn:Hh.
    - destruct Href as [-> ->]. rewrite (ci_ref _ _ _ _ HC j Hi), bool_decide_false by done.
      destruct (hit_Some l s HB _ _ _ Hh) as [_ [Hdj Hbj]%is_buf_eq]. unfold pinned. rewrite Hd, Hbn, Hdj, Hbj.
      cbn [b2z]. lia.
    - destruct Href as [_ ->]. unfold pinned. rewrite bool_decide_false; [done|]. intros [_ Hin]. rewrite Hbn in Hin.
      destruct (ci_pin _ _ _ _ HC bn Hin) as (j & Hj & Hb & _). by rewrite (hit_None l s HB _ _ j Hh Hj) in Hb. }
  apply HQ; try done.
  - constructor.
    + by exists l.
    + apply (ci_cur _ _ _ _ HC).
    + apply (ci_held _ _ _ _ HC).
    + intros j [->|Hj]%elem_of_cons; rewrite Hat by done; [by rewrite decide_True|].
      rewrite decide_False by (by intros ->). by apply (ci_hand _ _ _ _ HC).
    + intros j Hj. rewrite Hat by done. case_decide as Hji.
      * subst j. rewrite bool_decide_true by set_solver. done.
      * rewrite (ci_lock _ _ _ _ HC j Hj). apply bool_decide_ext. set_solver.
    + intros j Hj. rewrite Hat by done. case_decide as Hji.
      * subst j. rewrite bool_decide_true by set_solver. done.
      * rewrite (ci_ref _ _ _ _ HC j Hj). do 2 f_equal. apply bool_decide_ext. set_solver.
    + intros x Hx. destruct (ci_pin _ _ _ _ HC x Hx) as (j & Hj & Hb & Hvj). exists j.
      rewrite Hat by done. split; [done|]. case_decide as Hji; [subst j|done]. split; [|done].
      apply is_buf_eq in Hb as [Hdj Hbj]. apply is_buf_eq. split; [done|]. rewrite Hbn.
      destruct (hit s ROOTDEV bn) as [k|] eqn:Hh.
      * destruct Href as [-> _]. destruct (hit_Some l s HB _ _ _ Hh) as [_ [_ Hk]%is_buf_eq]. congruence.
      * destruct Href as [[Hr0 _] _]. rewrite (ci_ref _ _ _ _ HC i Hi) in Hr0. unfold pinned in Hr0.
        rewrite (bool_decide_true (_ ∧ _)) in Hr0 by (rewrite Hbj; done). pose proof (b2z_range (bool_decide (i ∈ H))). simpl in Hr0. lia.
    + split; [apply (ci_nodup _ _ _ _ HC)|]. apply NoDup_cons. split; [done|apply (ci_nodup _ _ _ _ HC)].
  - by rewrite Hat, decide_True.
  - intros j Hj. rewrite Hat by done. by rewrite decide_False by (by intros ->).
Qed.

End Rules.

Lemma cinv_perm p P P' H H' s : P ≡ₚ P' → H ≡ₚ H' → cinv p P H s → cinv p P' H' s.
Proof.
  intros EP EH []. constructor; auto.
  - intros i. rewrite <- EH. auto.
  - intros i Hi. rewrite ci_lock0 by done. apply bool_decide_ext. by rewrite EH.
  - intros i Hi. rewrite ci_ref0 by done. unfold pinned. do 2 f_equal; apply bool_decide_ext; [by rewrite EH|by rewrite EP].
  - intros b. rewrite <- EP. auto.
  - by rewrite <- EP, <- EH.
Qed.

Section Held.
Context (p : nat) (P : list Z) (i : nat) (H : list nat) (s : K) (HC : cinv p P (i :: H) s).

Lemma hand_facts : (i < 30)%nat ∧ b_dev (buf_at i s) = ROOTDEV ∧ b_valid (buf_at i s) = true ∧
  b_pid (buf_at i s) = pid_of p s ∧ b_locked (buf_at i s) = true ∧
  b_refcnt (buf_at i s) = 1 + b2z (bool_decide (b_blockno (buf_at i s) ∈ P)).
Proof using HC.
  destruct (ci_hand _ _ _ _ HC i ltac:(set_solver)) as (Hi & Hd & Hv & Hp). split_and!; try done.
  - rewrite (ci_lock _ _ _ _ HC i Hi). by rewrite bool_decide_true by set_solver.
  - rewrite (ci_ref _ _ _ _ HC i Hi), bool_decide_true by set_solver. unfold pinned. simpl. do 2 f_equal.
    apply bool_decide_ext. tauto.
Qed.

Lemma hand_i_view : view s (b_blockno (buf_at i s)) = b_data (buf_at i s).
Proof using HC. apply (hand_view _ _ _ _ HC). set_solver. Qed.

Lemma hand_other j : j ∈ H → j ≠ i.
Proof using HC. intros Hj ->. pose proof (proj2 (ci_nodup _ _ _ _ HC)) as Hnd. by apply NoDup_cons in Hnd as [? _]. Qed.

Lemma hand_block j : j ∈ H → b_blockno (buf_at j s) ≠ b_blockno (buf_at i s).
Proof using HC.
  intros Hj E. destruct (ci_bc _ _ _ _ HC) as [l HB]. destruct hand_facts as (Hi & Hd & _).
  destruct (ci_hand _ _ _ _ HC j ltac:(set_solver)) as (Hjl & Hdj & _).
  apply (hand_other j Hj). apply (bc_uniq _ _ HB); [done..|by rewrite Hdj|congruence|done].
Qed.

(** brelse(): a block that is not pinned must be on disk as it is in the buffer *)
Lemma wp_brelse_c (Q : unit → K → Prop) E :
  (b_blockno (buf_at i s) ∉ P → b_data (buf_at i s) = blk s (b_blockno (buf_at i s))) →
  (∀ s', cinv p P H s' → same_fs s s' → (∀ j, j ∈ H → core (buf_at j s') = core (buf_at j s)) → Q tt s') →
  wp (brelse i) Q E s.
Proof using HC.
  intros Hcl HQ. destruct (ci_bc _ _ _ _ HC) as [l HB]. destruct hand_facts as (Hi & Hd & Hv & Hp & Hl & Hr).
  pose proof (b2z_range (bool_decide (b_blockno (buf_at i s) ∈ P))).
  apply (wp_brelse l s p i HB (ci_cur _ _ _ _ HC)); try done; try (rewrite (ci_held _ _ _ _ HC); set_solver); try lia.
  { intros k. rewrite (ci_held _ _ _ _ HC). set_solver. }
  { intros H1 _. apply Hcl. intros Hin. rewrite bool_decide_true in Hr by done. simpl in Hr. lia. }
  intros s' l' HB' Hsf Hci Hcj _. apply HQ; [|done|].
  - assert (∀ j, b_dev (buf_at j s') = b_dev (buf_at j s) ∧ b_blockno (buf_at j s') = b_blockno (buf_at j s) ∧
                 b_valid (buf_at j s') = b_valid (buf_at j s)) as Hsame.
    { intros j. destruct (decide (j = i)) as [->|Hne].
      - split; [exact (f_equal b_dev Hci)|]. split; [exact (f_equal b_blockno Hci)|exact (f_equal b_valid Hci)].
      - specialize (Hcj j Hne). split; [exact (f_equal b_dev Hcj)|]. split; [exact (f_equal b_blockno Hcj)|exact (f_equal b_valid Hcj)]. }
    assert (∀ j, pinned P (buf_at j s') = pinned P (buf_at j s)) as Hpin.
    { intros j. unfold pinned. destruct (Hsame j) as (-> & -> & _). done. }
    pose proof (proj2 (ci_nodup _ _ _ _ HC)) as Hnd. apply NoDup_cons in Hnd as [HiH Hnd].
    constructor.
    + by exists l'.
    + rewrite <- (ci_cur _ _ _ _ HC). exact (f_equal cur (sf_rest _ _ Hsf)).
    + rewrite <- (ci_held _ _ _ _ HC). exact (f_equal held (sf_rest _ _ Hsf)).
    + intros j Hj. destruct (Hsame j) as (-> & _ & ->). pose proof (hand_other j Hj) as Hne.
      destruct (ci_hand _ _ _ _ HC j ltac:(set_solver)) as (? & ? & ? & Hpj). split_and!; try done.
      rewrite (pid_of_pids p s s') by apply Hsf. rewrite <- Hpj. exact (f_equal b_pid (Hcj j Hne)).
    + intros j Hj. destruct (decide (j = i)) as [->|Hne].
      * rewrite bool_decide_false by done. exact (f_equal b_locked Hci).
      * transitivity (b_locked (buf_at j s)); [exact (f_equal b_locked (Hcj j Hne))|].
        rewrite (ci_lock _ _ _ _ HC j Hj). apply bool_decide_ext. set_solver.
    + intros j Hj. rewrite Hpin. destruct (decide (j = i)) as [->|Hne].
      * rewrite (bool_decide_false (i ∈ H)) by done. transitivity (b_refcnt (buf_at i s) - 1); [exact (f_equal b_refcnt Hci)|].
        rewrite (ci_ref _ _ _ _ HC i Hj), bool_decide_true by set_solver. simpl. lia.
      * transitivity (b_refcnt (buf_at j s)); [exact (f_equal b_refcnt (Hcj j Hne))|].
        rewrite (ci_ref _ _ _ _ HC j Hj). do 2 f_equal. apply bool_decide_ext. set_solver.
    + intros b Hb. destruct (ci_pin _ _ _ _ HC b Hb) as (j & Hj & Hbj & Hvj). exists j.
      destruct (Hsame j) as (E1 & E2 & E3). unfold is_buf. rewrite E1, E2, E3. done.
    + split; [apply (ci_nodup _ _ _ _ HC)|done].
  - intros j Hj. apply Hcj. by apply hand_other.
Qed.

(** changing a held buffer, and whether its block is pinned *)
Lemma change_ok b' :
  b_dev b' = ROOTDEV → b_blockno b' = b_blockno (buf_at i s) → b_next b' = b_next (buf_at i s) → b_prev b' = b_prev (buf_at i s) →
  length (b_data b') = 1024%nat → 1 ≤ b_refcnt b' < 2 ^ 32 → buf_ok s i b'.
Proof using HC.
  intros Ed Eb En Ep Hlen Hr. destruct (ci_bc _ _ _ _ HC) as [l HB]. destruct hand_facts as (Hi & Hd & _).
  constructor; try done; try lia.
  intros j Hj Hne _. rewrite Ed, Eb. apply not_true_is_false. intros [E1 E2]%is_buf_eq.
  apply Hne. apply (bc_uniq _ _ HB); [done..|by rewrite E1|congruence|done].
Qed.

Lemma cinv_change P' b' :
  buf_ok s i b' → b_dev b' = ROOTDEV → b_blockno b' = b_blockno (buf_at i s) → b_valid b' = true → b_locked b' = true →
  b_pid b' = pid_of p s → b_refcnt b' = 1 + b2z (bool_decide (b_blockno (buf_at i s) ∈ P')) →
  (∀ x, x ≠ b_blockno (buf_at i s) → x ∈ P' ↔ x ∈ P) → NoDup P' →
  cinv p P' (i :: H) (with_buf s i b').
Proof using HC.
  intros Hok Ed Eb Ev El Epid Er HP' Hnd. destruct (ci_bc _ _ _ _ HC) as [l HB]. destruct hand_facts as (Hi & Hd & Hv & _).
  pose proof (buf_at_with l s HB i b') as Hat.
  assert (∀ j, (j < 30)%nat → j ≠ i → pinned P' (buf_at j s) = pinned P (buf_at j s)) as Hpin.
  { intros j Hj Hne. unfold pinned. apply bool_decide_ext.
    split; intros [E1 E2]; (split; [done|]); apply HP'; try done; intros E; apply Hne; apply (bc_uniq _ _ HB); rewrite ?E1; done. }
  constructor.
  - exists l. by apply bc_with.
  - apply (ci_cur _ _ _ _ HC).
  - apply (ci_held _ _ _ _ HC).
  - intros j Hj. rewrite Hat by done. destruct (decide (j = i)) as [->|Hji]; [done|]. by apply (ci_hand _ _ _ _ HC).
  - intros j Hj. rewrite Hat by done. destruct (decide (j = i)) as [->|Hji]; [by rewrite bool_decide_true by set_solver|].
    by apply (ci_lock _ _ _ _ HC).
  - intros j Hj. rewrite Hat by done. destruct (decide (j = i)) as [->|Hji].
    + rewrite (bool_decide_true (i ∈ _)) by set_solver. rewrite Er. unfold pinned. rewrite Ed, Eb. cbn [b2z]. do 2 f_equal.
      apply bool_decide_ext. tauto.
    + rewrite Hpin by done. by apply (ci_ref _ _ _ _ HC).
  - intros x Hx. destruct (decide (x = b_blockno (buf_at i s))) as [->|Hne].
    + exists i. rewrite Hat, decide_True by done. split; [done|]. split; [|done]. by apply is_buf_eq.
    + destruct (ci_pin _ _ _ _ HC x (proj1 (HP' x Hne) Hx)) as (j & Hj & Hb & Hvj). exists j. rewrite Hat by done.
      rewrite decide_False; [done|]. intros ->. by apply is_buf_eq in Hb as [_ ?].
  - split; [done|apply (ci_nodup _ _ _ _ HC)].
Qed.

(** storing into a held buffer *)
Lemma cinv_data d : length d = 1024%nat → cinv p P (i :: H) (with_buf s i (set_b_data d (buf_at i s))).
Proof using HC.
  intros Hlen. destruct hand_facts as (Hi & Hd & Hv & Hp & Hl & Hr). apply cinv_change; try done.
  - apply change_ok; try done. cbn. pose proof (b2z_range (bool_decide (b_blockno (buf_at i s) ∈ P))). lia.
  - apply (ci_nodup _ _ _ _ HC).
Qed.

Lemma view_data d x : length d = 1024%nat →
  view (with_buf s i (set_b_data d (buf_at i s))) x = if decide (x = b_blockno (buf_at i s)) then d else view s x.
Proof using HC.
  intros Hlen. destruct (ci_bc _ _ _ _ HC) as [l HB]. destruct hand_facts as (Hi & Hd & Hv & Hp & Hl & Hr).
  rewrite (view_with l); [|done|done|].
  - destruct (decide (x = b_blockno (buf_at i s))) as [->|Hx]; unfold is_buf; cbn; rewrite Hd, Hv.
    + rewrite !Z.eqb_refl. done.
    + destruct (Z.eqb_spec (b_blockno (buf_at i s)) x); [congruence|done].
  - apply change_ok; try done. cbn. pose proof (b2z_range (bool_decide (b_blockno (buf_at i s) ∈ P))). lia.
Qed.

Lemma wp_upd_data f d (Q : unit → K → Prop) E :
  f (buf_at i s) = set_b_data d (buf_at i s) → Q tt (with_buf s i (set_b_data d (buf_at i s))) → wp (upd_buf i f) Q E s.
Proof using HC.
  intros Ef HQ. destruct (ci_bc _ _ _ _ HC) as [l HB]. unfold upd_buf. apply wp_modify.
  rewrite (alter_buf l s HB) by apply hand_facts. by rewrite Ef.
Qed.

(** bwrite() *)
Lemma wp_bwrite_c (Q : unit → K → Prop) E :
  (cinv p P (i :: H) (written s i) → (∀ x, view (written s i) x = view s x) → Q tt (written s i)) → wp (bwrite i) Q E s.
Proof using HC.
  intros HQ. destruct (ci_bc _ _ _ _ HC) as [l HB]. destruct hand_facts as (Hi & Hd & Hv & Hp & Hl & Hr).
  assert (1 ≤ b_refcnt (buf_at i s)) as Hr1 by (pose proof (b2z_range (bool_decide (b_blockno (buf_at i s) ∈ P))); lia).
  apply (wp_bwrite l s p i HB (ci_cur _ _ _ _ HC)); try done; [rewrite (ci_held _ _ _ _ HC); set_solver|].
  apply HQ.
  - assert (cinv p P (i :: H) (with_buf s i (set_b_disk 0 (buf_at i s)))) as HC'.
    { apply cinv_change; try done; [apply change_ok; try done|apply (ci_nodup _ _ _ _ HC)].
      - by apply (bc_size _ _ HB).
      - cbn. pose proof (bc_ref _ _ HB i Hi). lia. }
    destruct HC'. constructor; try done. exists l. by apply bc_written.
  - intros x. by apply (view_written l).
Qed.

(** pinning and unpinning *)
Lemma cinv_pin : (b_blockno (buf_at i s) ∉ P) →
  cinv p (b_blockno (buf_at i s) :: P) (i :: H) (set_bufs (alter (λ b, set_b_refcnt (u32 (b_refcnt b + 1)) b) i (bufs s)) s).
Proof using HC.
  intros Hn. destruct (ci_bc _ _ _ _ HC) as [l HB]. destruct hand_facts as (Hi & Hd & Hv & Hp & Hl & Hr).
  rewrite (alter_buf l s HB) by done. rewrite bool_decide_false in Hr by done. cbn [b2z] in Hr.
  apply cinv_change; try done; cbn; rewrite ?Hr; try done.
  - apply change_ok; try done; cbn; rewrite ?Hr; first [by apply (bc_size _ _ HB)|by cbv].
  - rewrite bool_decide_true by set_solver. done.
  - set_solver.
  - apply NoDup_cons. split; [done|apply (ci_nodup _ _ _ _ HC)].
Qed.

Lemma cinv_unpin P' : b_blockno (buf_at i s) ∈ P → (b_blockno (buf_at i s) ∉ P') → NoDup P' →
  (∀ x, x ≠ b_blockno (buf_at i s) → x ∈ P' ↔ x ∈ P) →
  cinv p P' (i :: H) (set_bufs (alter (λ b, set_b_refcnt (u32 (b_refcnt b - 1)) b) i (bufs s)) s).
Proof using HC.
  intros Hin Hn Hnd HP'. destruct (ci_bc _ _ _ _ HC) as [l HB]. destruct hand_facts as (Hi & Hd & Hv & Hp & Hl & Hr).
  rewrite (alter_buf l s HB) by done. rewrite bool_decide_true in Hr by done. cbn [b2z] in Hr.
  apply cinv_change; try done; cbn; rewrite ?Hr; try done.
  - apply change_ok; try done; cbn; rewrite ?Hr; first [by apply (bc_size _ _ HB)|by cbv].
  - rewrite bool_decide_false by done. done.
Qed.

Lemma count_same c : 1 ≤ c < 2 ^ 32 → let s' := with_buf s i (set_b_refcnt c (buf_at i s)) in
  same_fs s s' ∧ ∀ j, b_blockno (buf_at j s') = b_blockno (buf_at j s) ∧ b_data (buf_at j s') = b_data (buf_at j s).
Proof using HC.
  intros Hc. destruct (ci_bc _ _ _ _ HC) as [l HB]. destruct hand_facts as (Hi & Hd & Hv & _). cbn zeta. split.
  - split; [done..|]. intros x. rewrite (view_with l); [|done|done|].
    + change (is_buf ROOTDEV x (set_b_refcnt c (buf_at i s))) with (is_buf ROOTDEV x (buf_at i s)).
      destruct (is_buf ROOTDEV x (buf_at i s)) eqn:Ex; [|done]. unfold view.
      by rewrite (hit_unique l s HB ROOTDEV x i ltac:(done) Hi Ex).
    + apply change_ok; try done. by apply (bc_size _ _ HB).
  - intros j. rewrite (buf_at_with l s HB) by done. case_decide; [by subst|done].
Qed.

(** bpin() and bunpin() of a buffer in hand *)
Lemma wp_bpin_c (Q : unit → K → Prop) E : (b_blockno (buf_at i s) ∉ P) →
  (∀ s', cinv p (b_blockno (buf_at i s) :: P) (i :: H) s' → same_fs s s' → procs s' = procs s →
     (∀ j, b_blockno (buf_at j s') = b_blockno (buf_at j s) ∧ b_data (buf_at j s') = b_data (buf_at j s)) → Q tt s') →
  wp (bpin i) Q E s.
Proof using HC.
  intros Hn HQ. apply wp_bpin; [rewrite (ci_held _ _ _ _ HC); set_solver|]. apply HQ; [by apply cinv_pin|..|done|].
  all: destruct (ci_bc _ _ _ _ HC) as [l HB]; destruct hand_facts as (Hi & _ & _ & _ & _ & Hr);
    rewrite (alter_buf l s HB), Hr, bool_decide_false by done; apply count_same; by vm_compute.
Qed.

Lemma wp_bunpin_c P' (Q : unit → K → Prop) E :
  b_blockno (buf_at i s) ∈ P → (b_blockno (buf_at i s) ∉ P') → NoDup P' → (∀ x, x ≠ b_blockno (buf_at i s) → x ∈ P' ↔ x ∈ P) →
  (∀ s', cinv p P' (i :: H) s' → same_fs s s' → procs s' = procs s →
     (∀ j, b_blockno (buf_at j s') = b_blockno (buf_at j s) ∧ b_data (buf_at j s') = b_data (buf_at j s)) → Q tt s') →
  wp (bunpin i) Q E s.
Proof using HC.
  intros Hin Hn Hnd HP HQ. apply wp_bunpin; [rewrite (ci_held _ _ _ _ HC); set_solver|]. apply HQ; [by apply cinv_unpin|..|done|].
  all: destruct (ci_bc _ _ _ _ HC) as [l HB]; destruct hand_facts as (Hi & _ & _ & _ & _ & Hr);
    rewrite (alter_buf l s HB), Hr, bool_decide_true by done; apply count_same; by vm_compute.
Qed.

End Held.

(** ** One buffer in hand, relative to the state it was read in *)

Record hold (p : nat) (P : list Z) (H : list nat) (i : nat) (bn : Z) (d : list Z) (s0 s : K) : Prop := {
  ho_cinv : cinv p P (i :: H) s;
  ho_rest : rest s = rest s0;
  ho_pids : pids s = pids s0;
  ho_bn : b_blockno (buf_at i s) = bn;
  ho_data : b_data (buf_at i s) = d;
  ho_view x : view s x = if decide (x = bn) then d else view s0 x;
  ho_others j : j ∈ H → core (buf_at j s) = core (buf_at j s0);
}.

Lemma hold_bread p P H s bn (Q : nat → K → Prop) E : cinv p P H s →
  (∀ i, i ∈ H → b_blockno (buf_at i s) ≠ bn) → bn ∈ P ∨ (length P + length H < 30)%nat →
  (∀ i s', hold p P H i bn (view s bn) s s' → Q i s') → wp (bread ROOTDEV bn) Q E s.
Proof.
  intros HC Hn Hlen HQ. apply (wp_bread_c p P H s HC); [done..|]. intros i s' _ HC' Hr Hp Hv Hb Hsame.
  apply HQ. split; try done.
  - unfold pids. by rewrite Hp.
  - rewrite <- (hand_view _ _ _ _ HC' i), Hb by set_solver. apply Hv.
  - intros x. rewrite Hv. case_decide; congruence.
  - intros j Hj. by rewrite Hsame.
Qed.

Section Hold.
Context {p : nat} {P : list Z} {H : list nat} {i : nat} {bn : Z} {d : list Z} {s0 s : K} (HO : hold p P H i bn d s0 s).

Lemma hold_len : length d = 1024%nat.
Proof using HO.
  destruct (ci_bc _ _ _ _ (ho_cinv _ _ _ _ _ _ _ _ HO)) as [l HB].
  rewrite <- (ho_data _ _ _ _ _ _ _ _ HO). apply (bc_size _ _ HB). by destruct (hand_facts _ _ _ _ _ (ho_cinv _ _ _ _ _ _ _ _ HO)).
Qed.

Lemma hold_upd f d' (Q : unit → K → Prop) E : f (buf_at i s) = set_b_data d' (buf_at i s) → length d' = 1024%nat →
  (∀ s', hold p P H i bn d' s0 s' → Q tt s') → wp (upd_buf i f) Q E s.
Proof using HO.
  destruct HO as [HC Hr Hp Hb Hd Hv Ho]. intros Hf Hlen HQ. destruct (ci_bc _ _ _ _ HC) as [l HB].
  destruct (hand_facts _ _ _ _ _ HC) as (Hi & _).
  apply (wp_upd_data _ _ _ _ _ HC f d'); [done|]. apply HQ. split; try done.
  - by apply cinv_data.
  - rewrite (buf_at_with l s HB), decide_True by done. done.
  - rewrite (buf_at_with l s HB), decide_True by done. done.
  - intros x. rewrite (view_data _ _ _ _ _ HC), Hb by done. case_decide; [done|]. rewrite Hv. by rewrite decide_False.
  - intros j Hj. rewrite (buf_at_with l s HB), decide_False; [by apply Ho| |done].
    intros ->. by apply (hand_other _ _ _ _ _ HC i Hj).
Qed.

Lemma hold_brelse (Q : unit → K → Prop) E : (bn ∉ P → d = blk s0 bn) →
  (∀ s', cinv p P H s' → rest s' = rest s0 → pids s' = pids s0 → (∀ x, view s' x = if decide (x = bn) then d else view s0 x) →
     (∀ j, j ∈ H → core (buf_at j s') = core (buf_at j s0)) → Q tt s') →
  wp (brelse i) Q E s.
Proof using HO.
  destruct HO as [HC Hr Hp Hb Hd Hv Ho]. intros Hcl HQ. apply (wp_brelse_c p P i H s HC).
  - rewrite Hb, Hd. intros Hn. rewrite (Hcl Hn). unfold blk. by rewrite (f_equal disk Hr : disk s = disk s0).
  - intros s' HC' [Hr' Hp' Hv'] Hc. apply HQ; [done|congruence|congruence| |].
    + intros x. by rewrite Hv'.
    + intros j Hj. by rewrite Hc, Ho.
Qed.

End Hold.
