(* ===== verification/BioSpec.v ===== *)
(** What the buffer cache promises: binit() builds it, bread() returns the current
    contents of a block and recycles the least recently used free buffer, brelse()
    keeps the order of use. *)

From S2P Require Import Prelude Mem Layout Kalloc State Sched Ring Bio BioProofs Blocks.

(** * binit() *)

(** the zeroed table of a booting kernel *)
Definition boot_cache (s : K) : Prop :=
  bufs s = replicate 30 buf0 ∧ held s = [] ∧ ∀ b, length (blk s b) = 1024%nat.

Section Binit.
Context (s0 : K) (H0 : boot_cache s0).

(** the first [k] buffers are on the list, newest first; the contents are still zero *)
Definition linked (k : Z) (s : K) : Prop :=
  relinked s0 s ∧ ring (λ x, b_next_of x s) (λ x, b_prev_of x s) BHEAD (reverse (seqZ 0 k)).

Lemma boot_len : length (bufs s0) = 30%nat.
Proof using H0. destruct H0 as [-> _]. done. Qed.

Lemma boot_buf i : buf_at i s0 = buf0.
Proof using H0.
  destruct H0 as [Hb _]. unfold buf_at. rewrite Hb. destruct (decide (i < 30)%nat).
  - by rewrite lookup_replicate_2.
  - by rewrite lookup_ge_None_2 by (rewrite length_replicate; lia).
Qed.

(** initsleeplock() of a zeroed lock changes nothing *)
Lemma init_same i s : relinked s0 s → put_sl (SlBuf i) false 0 s = s.
Proof using H0.
  intros HR. unfold put_sl. rewrite alter_id; [by destruct s|].
  intros b Hb. assert (core (buf_at i s) = core buf0) as Hc by (rewrite (rl_core _ _ HR i), boot_buf; done).
  rewrite (buf_at_lookup _ _ _ Hb) in Hc.
  pose proof (f_equal b_locked Hc : b_locked b = false). pose proof (f_equal b_pid Hc : b_pid b = 0). destruct b. cbn in *. by subst.
Qed.

(** one turn of the loop of binit() *)
Lemma wp_binit_one i s E : (i < 30)%nat → linked (Z.of_nat i) s →
  wp (let b := Z.of_nat i in
      let! n := gets (b_next_of BHEAD) in
      do! set_next b n in
      do! set_prev b BHEAD in
      do! initsleeplock (SlBuf i) in
      let! n := gets (b_next_of BHEAD) in
      do! set_prev n b in
      set_next BHEAD b) (λ _ s', linked (Z.of_nat i + 1) s') E s.
Proof using H0.
  intros Hi [HR Hring]. assert (length (bufs s) = 30%nat) as Hlen by (rewrite (rl_len _ _ HR); apply boot_len).
  assert (relinked s0 (put_prev (Z.of_nat i) BHEAD (put_next (Z.of_nat i) (b_next_of BHEAD s) s))) as HR2.
  { eapply relinked_trans; [exact HR|]. eapply relinked_trans; [by apply relinked_next|]. apply relinked_prev.
    by rewrite (rl_len _ _ (relinked_next s Hlen _ _)). }
  cbn zeta. unfold initsleeplock, set_sl, set_next, set_prev. wp_k. rewrite (init_same i _ HR2).
  rewrite (next_put_prev _) by by rewrite (rl_len _ _ (relinked_next s Hlen _ _)).
  rewrite (next_put_next s Hlen), fupd_ne by (unfold node, BHEAD; consts; lia).
  destruct (pushed_ring s Hlen (Z.of_nat i) (reverse (seqZ 0 (Z.of_nat i))) Hring) as [HR3 Hring3].
  { intros x Hx. rewrite elem_of_reverse, elem_of_seqZ in Hx. unfold in_tab. lia. }
  { unfold in_tab. lia. }
  { rewrite elem_of_reverse, elem_of_seqZ. lia. }
  split; [exact (relinked_trans _ _ _ HR HR3)|]. rewrite (seqZ_app 0 (Z.of_nat i) 1), reverse_app by lia. exact Hring3.
Qed.

Lemma wp_binit E : wp binit (λ _ s', linked 30 s') E s0.
Proof using H0.
  unfold binit. unfold set_prev at 1, set_next at 1. wp_k.
  set (s1 := put_next BHEAD BHEAD (put_prev BHEAD BHEAD s0)).
  eapply wp_post; [eapply (wp_for_each nbufs [] nbufs _ (λ l s, linked (30 - Z.of_nat (length l)) s))|].
  - intros d i l s Hd Hl. assert (i = length d ∧ length d + S (length l) = 30)%nat as [Hi Hlen].
    { split; [|pose proof (f_equal length Hd) as Hl'; rewrite length_app in Hl'; by cbn in Hl'].
      assert (nbufs !! length d = Some i) as Hx by (by rewrite Hd, list_lookup_middle).
      unfold nbufs in Hx. apply lookup_seq in Hx as [-> _]. done. }
    cbn [length] in Hl. replace (30 - Z.of_nat (S (length l))) with (Z.of_nat i) in Hl by lia.
    eapply wp_post; [apply (wp_binit_one i); [lia|done]|]. intros [] s'. by replace (30 - Z.of_nat (length l)) with (Z.of_nat i + 1) by lia.
  - done.
  - split; [done|]. constructor; [apply NoDup_singleton|done|done].
  - done.
Qed.

Lemma linked_zero s i : linked 30 s → b_dev (buf_at i s) = 0 ∧ b_refcnt (buf_at i s) = 0 ∧ b_valid (buf_at i s) = false ∧
  b_locked (buf_at i s) = false ∧ b_data (buf_at i s) = replicate 1024 0.
Proof using H0.
  intros [HR _]. assert (core (buf_at i s) = core buf0) as Hc by (rewrite (rl_core _ _ HR i), boot_buf; done).
  split_and!; [exact (f_equal b_dev Hc)|exact (f_equal b_refcnt Hc)|exact (f_equal b_valid Hc)|
    exact (f_equal b_locked Hc)|exact (f_equal b_data Hc)].
Qed.

Lemma linked_bc s c : linked 30 s → bc (reverse (seqZ 0 30)) (set_cur c s).
Proof using H0.
  intros HL. pose proof (λ i, linked_zero s i HL) as Hz. destruct HL as [HR Hring]. destruct H0 as (Hb & Hh & Hblk).
  assert (∀ i, buf_at i (set_cur c s) = buf_at i s) as Hat by done. constructor; try done.
  - rewrite <- boot_len. apply (rl_len _ _ HR).
  - by rewrite reverse_Permutation.
  - intros i j _ _. rewrite Hat. by destruct (Hz i) as [-> _].
  - intros i _. rewrite Hat. destruct (Hz i) as (_ & _ & _ & _ & ->). apply length_replicate.
  - intros b. change (length (blk s b) = 1024%nat). unfold blk. rewrite (f_equal disk (rl_rest _ _ HR) : disk s = disk s0). apply Hblk.
  - intros i _. rewrite Hat. destruct (Hz i) as (_ & -> & _). lia.
  - intros i _ _. rewrite Hat. by destruct (Hz i) as (_ & _ & -> & _).
  - intros i _ _. rewrite Hat. apply (Hz i).
  - intros i _. rewrite Hat. by destruct (Hz i) as (_ & _ & -> & _).
Qed.

Lemma linked_cinv s p : linked 30 s → cinv p [] [] (set_cur (Some p) s).
Proof using H0.
  intros HL. pose proof (λ i, linked_zero s i HL) as Hz. assert (∀ i, buf_at i (set_cur (Some p) s) = buf_at i s) as Hat by done.
  constructor.
  - exists (reverse (seqZ 0 30)). by apply linked_bc.
  - done.
  - destruct HL as [HR _], H0 as (_ & Hh & _). change (held s = []). by rewrite (f_equal held (rl_rest _ _ HR) : held s = held s0).
  - intros i []%not_elem_of_nil.
  - intros i _. rewrite Hat. destruct (Hz i) as (_ & _ & _ & -> & _). done.
  - intros i _. rewrite Hat. destruct (Hz i) as (_ & -> & _). unfold pinned.
    rewrite bool_decide_false by (intros []%not_elem_of_nil). rewrite bool_decide_false; [done|]. intros [_ []%not_elem_of_nil].
  - intros b []%not_elem_of_nil.
  - split; apply NoDup_nil_2.
Qed.

End Binit.

(** binit() builds the buffer cache.  From the zeroed table it links every buffer, the last one first,
    and establishes the cache invariant with no block cached, referenced or locked. *)
Theorem binit_builds_cache s :
  boot_cache s →
  ∃ s', binit s = Ret tt s' ∧ path (λ x, b_next_of x s') BHEAD (reverse (seqZ 0 30)) BHEAD ∧
        ∀ p, cinv p [] [] (set_cur (Some p) s').
Proof.
  intros H0. destruct (proj1 (wp_returns _ _ _) (wp_binit s H0 nopanic)) as ([] & s' & E & HL).
  exists s'. split; [done|]. split; [apply HL|]. intros p. by apply (linked_cinv s).
Qed.

(** C20: bread() returns the current contents of a block.  Under the cache invariant it comes back with the
    one buffer of the block, locked by the caller, holding what was last written to the block through the
    cache or, if it is not cached, what the disk holds; no block's contents change; and when the block was
    not cached, the buffer recycled is the least recently used one that nobody references. *)
Theorem bread_returns_current l s p bn :
  bc l s → cur s = Some p → held s = [] → available s bn →
  ∃ i s', bread ROOTDEV bn s = Ret i s' ∧ bc l s' ∧
    b_dev (buf_at i s') = ROOTDEV ∧ b_blockno (buf_at i s') = bn ∧ b_valid (buf_at i s') = true ∧
    b_locked (buf_at i s') = true ∧ b_pid (buf_at i s') = pid_of p s ∧ b_data (buf_at i s') = view s bn ∧
    (hit s ROOTDEV bn = None → victim l s i) ∧
    ∀ x, view s' x = view s x.
Proof.
  intros HB Hc Hh Hav.
  assert (wp (bread ROOTDEV bn) (λ i s', ∃ b, got l s p bn i b ∧ s' = with_buf s i b) nopanic s) as HW.
  { apply (wp_bread l s p bn HB Hc); rewrite ?Hh; [set_solver|set_solver|done|]. intros i b Hg. by exists b. }
  apply wp_returns in HW as (i & s' & E & b & Hg & ->). exists i, (with_buf s i b).
  pose proof Hg as (Hi & Hok & G1 & G2 & G3 & G4 & G5 & G6 & G7).
  rewrite (buf_at_with l s HB), decide_True by done.
  split_and!; try done; [by eapply got_bc|intros Hm; rewrite Hm in G7; apply G7|].
  intros x. by eapply got_view.
Qed.

(** bget() gives up only when it must: a block that is not cached while every buffer is referenced stops the
    kernel with "bget: no buffers", and no buffer has been touched. *)
Lemma bget_panics_when_full l s bn :
  bc l s → held s = [] → hit s ROOTDEV bn = None → (∀ i, (i < 30)%nat → b_refcnt (buf_at i s) ≠ 0) →
  bget ROOTDEV bn s = Panic "bget: no buffers" (set_held [LkBcache] s).
Proof.
  intros HB Hh Hmiss Hfull.
  assert (wp (bget ROOTDEV bn) (λ _ _, False) (λ m s', m = "bget: no buffers" ∧ s' = set_held [LkBcache] s) s) as HW.
  { unfold bget. apply wp_bind, wp_acquire; [rewrite Hh; set_solver|]. rewrite Hh. set (s0 := set_held [LkBcache] s).
    assert (bc l s0) as HB0 by (destruct HB; by constructor).
    pose proof (λ x, proj1 (list_in_tab l s HB x)) as Htab.
    assert (length l = 30)%nat as Hlen by (rewrite (bc_all _ _ HB), length_seqZ; done).
    wp_k. apply (wp_scan l s0 HB0 b_next_of _ l); [apply (bc_ring _ _ HB0)|done|lia| |].
    - intros r1 x r2 Er Hc _. assert (in_tab x) as Hx by (apply Htab; rewrite Er; set_solver). unfold in_tab in Hx.
      assert (hit s ROOTDEV bn = Some (Z.to_nat x)) as Hx' by (apply (hit_unique l s HB); [done|lia|exact Hc]). congruence.
    - intros _. wp_k. apply (wp_scan l s0 HB0 b_prev_of _ (reverse l)); [apply (bc_ring _ _ HB0)| | | |].
      + intros x Hx. apply Htab. by rewrite elem_of_reverse in Hx.
      + rewrite length_reverse. lia.
      + intros r1 x r2 Er Hc _. assert (in_tab x) as Hx by (apply Htab; rewrite <- elem_of_reverse, Er; set_solver).
        unfold in_tab in Hx. change (buf_at (Z.to_nat x) s0) with (buf_at (Z.to_nat x) s) in Hc.
        exfalso. apply (Hfull (Z.to_nat x)); lia.
      + intros _. done. }
  unfold wp in HW. by destruct (bget ROOTDEV bn s) as [| | | | |]; destruct HW as []; subst.
Qed.

(** C37: brelse() keeps the order of use.  A buffer the caller holds is unlocked and loses one reference;
    if that was the last one it moves to the front of the list, otherwise the list is unchanged; no block's
    contents change. *)
Theorem brelse_keeps_lru l s p i :
  bc l s → cur s = Some p → held s = [] → (i < 30)%nat →
  b_locked (buf_at i s) = true → b_pid (buf_at i s) = pid_of p s → 1 ≤ b_refcnt (buf_at i s) →
  (b_refcnt (buf_at i s) = 1 → b_valid (buf_at i s) = true → b_data (buf_at i s) = blk s (b_blockno (buf_at i s))) →
  ∃ s' l', brelse i s = Ret tt s' ∧ bc l' s' ∧ lru_after l i (b_refcnt (buf_at i s)) l' ∧
    b_locked (buf_at i s') = false ∧ b_refcnt (buf_at i s') = b_refcnt (buf_at i s) - 1 ∧ ∀ x, view s' x = view s x.
Proof.
  intros HB Hc Hh Hi Hlk Hpid Hr Hcl.
  assert (wp (brelse i) (λ _ s', ∃ l', bc l' s' ∧ lru_after l i (b_refcnt (buf_at i s)) l' ∧
    b_locked (buf_at i s') = false ∧ b_refcnt (buf_at i s') = b_refcnt (buf_at i s) - 1 ∧ ∀ x, view s' x = view s x) nopanic s) as HW.
  { apply (wp_brelse l s p i HB Hc); try done; try (rewrite Hh; set_solver); [intros j _; rewrite Hh; set_solver|].
    intros s' l' HB' Hsf Hci _ Hl. exists l'. split_and!; try done; [exact (f_equal b_locked Hci)|exact (f_equal b_refcnt Hci)|apply Hsf]. }
  apply wp_returns in HW as ([] & s' & E & l' & HW). by exists s', l'.
Qed.

(** * A concrete cache *)

Module Cache0.

(** the state a call returns in *)
Definition final {A} (o : outcome K A) : K := match o with Ret _ s => s | _ => k_boot ∅ end.

Lemma boot0 d : (∀ b, length (blk (k_boot d) b) = 1024%nat) → boot_cache (k_boot d).
Proof. intros Hd. by split_and!. Qed.

Lemma blank_disk b : length (blk (k_boot ∅) b) = 1024%nat.
Proof. unfold blk, k_boot. kproj. cbn [disk]. by rewrite lookup_empty. Qed.

(** the kernel once the cache is set up, running process 0 *)
Definition cache (d : gmap Z (list Z)) : K := set_cur (Some 0%nat) (final (binit (k_boot d))).

Lemma cache_linked d : (∀ b, length (blk (k_boot d) b) = 1024%nat) → linked (k_boot d) 30 (final (binit (k_boot d))).
Proof. intros Hd. by destruct (proj1 (wp_returns _ _ _) (wp_binit _ (boot0 d Hd) nopanic)) as ([] & s' & -> & HL). Qed.

Lemma binit_builds_cache_witness :
  boot_cache (k_boot ∅) ∧ ∃ s', binit (k_boot ∅) = Ret tt s' ∧ ∀ p, cinv p [] [] (set_cur (Some p) s').
Proof.
  split; [exact (boot0 ∅ blank_disk)|].
  destruct (binit_builds_cache (k_boot ∅) (boot0 ∅ blank_disk)) as (s' & E & _ & HC). by exists s'.
Defined.

Lemma cache_bc : bc (reverse (seqZ 0 30)) (cache ∅).
Proof. apply (linked_bc (k_boot ∅)); [apply boot0, blank_disk|apply cache_linked, blank_disk]. Qed.

Lemma bread_returns_current_witness :
  ∃ i s', bread ROOTDEV 7 (cache ∅) = Ret i s' ∧ b_data (buf_at i s') = view (cache ∅) 7.
Proof.
  destruct (bread_returns_current (reverse (seqZ 0 30)) (cache ∅) 0 7) as (i & s' & E & _ & _ & _ & _ & _ & _ & Hd & _).
  - apply cache_bc.
  - reflexivity.
  - vm_compute. reflexivity.
  - unfold available. replace (hit (cache ∅) ROOTDEV 7) with (@None nat) by (vm_compute; reflexivity).
    exists 0%nat. split; [lia|vm_compute; reflexivity].
  - exists i, s'. split; assumption.
Defined.

(** block 7 in hand *)
Definition reading : K := final (bread ROOTDEV 7 (cache ∅)).

Lemma cache_held : held (cache ∅) = [].
Proof. by vm_compute. Qed.
Lemma cache_available : available (cache ∅) 7.
Proof.
  unfold available. replace (hit (cache ∅) ROOTDEV 7) with (@None nat) by (vm_compute; reflexivity).
  exists 0%nat. split; [lia|vm_compute; reflexivity].
Qed.

Lemma reading_bc : bc (reverse (seqZ 0 30)) reading.
Proof.
  assert (wp (bread ROOTDEV 7) (λ i s', bc (reverse (seqZ 0 30)) s') nopanic (cache ∅)) as HW.
  { apply (wp_bread (reverse (seqZ 0 30)) (cache ∅) 0 7 cache_bc); rewrite ?cache_held.
    - reflexivity.
    - set_solver.
    - set_solver.
    - exact cache_available.
    - intros i b Hg. eapply got_bc; [apply cache_bc|exact Hg]. }
  destruct (proj1 (wp_returns _ _ _) HW) as (i & s' & E & HB). unfold reading. rewrite E. exact HB.
Qed.

Lemma reading_held : held reading = [].
Proof. by vm_compute. Qed.
Lemma reading_cur : cur reading = Some 0%nat.
Proof. by vm_compute. Qed.
Lemma reading_buf : b_locked (buf_at 0 reading) = true ∧ b_pid (buf_at 0 reading) = pid_of 0 reading ∧ b_refcnt (buf_at 0 reading) = 1 ∧
  b_data (buf_at 0 reading) = blk reading (b_blockno (buf_at 0 reading)).
Proof. by vm_compute. Qed.

Lemma brelse_keeps_lru_witness :
  ∃ s' l', brelse 0 reading = Ret tt s' ∧ lru_after (reverse (seqZ 0 30)) 0 (b_refcnt (buf_at 0 reading)) l'.
Proof.
  destruct reading_buf as (Hl & Hp & Hr & Hd).
  destruct (brelse_keeps_lru (reverse (seqZ 0 30)) reading 0 0 reading_bc reading_cur reading_held) as (s' & l' & E & _ & HL & _);
    [lia|assumption|assumption|rewrite Hr; lia|intros _ _; assumption|]. exists s', l'. split; assumption.
Defined.

End Cache0.
