(* ===== verification/Log.v ===== *)
(** kernel/log.c: the redo log. *)

From S2P Require Import Prelude Mem Layout Kalloc State Sched Bio.

(** * Integers in blocks *)

Definition get_u32 (off : nat) (d : list Z) : Z := le_val (take 4 (drop off d)).
Definition get_s32 (off : nat) (d : list Z) : Z := s32 (get_u32 off d).
Definition get_u16 (off : nat) (d : list Z) : Z := le_val (take 2 (drop off d)).
Definition get_s16 (off : nat) (d : list Z) : Z := s16 (get_u16 off d).
(** [d] with the bytes [l] at offset [off] *)
Definition splice (off : nat) (l d : list Z) : list Z := take off d ++ l ++ drop (off + length l) d.
Definition put_u32 (off : nat) (v : Z) (d : list Z) : list Z := splice off (le_bytes 4 v) d.
Definition put_u16 (off : nat) (v : Z) (d : list Z) : list Z := splice off (le_bytes 2 v) d.

(** the offset of block[i] in a struct logheader *)
Definition lh_off (i : Z) : nat := Z.to_nat (4 + 4 * i).

(** log.lh.block[i], an array of LOGSIZE ints *)
Definition lh_get (i : Z) : M K Z :=
  if (0 <=? i) && (i <? LOGSIZE) then gets (λ s, default 0 (lh_block (lg s) !! Z.to_nat i)) else ub "log.lh.block".
Definition lh_put (i v : Z) : M K unit :=
  if (0 <=? i) && (i <? LOGSIZE) then upd_log (λ g, set_lh_block (<[Z.to_nat i := v]> (lh_block g)) g) else ub "log.lh.block".

(** [for(tail = 0; tail < log.lh.n; tail++) body] *)
Definition for_logged (body : Z → M K unit) : M K unit :=
  loop (λ tail,
    let! g := gets lg in
    if tail <? lh_n g then do! body tail in ret (inl (tail + 1)) else ret (inr tt)) 0.

(** * Moving blocks *)

Definition install_one (recovering : bool) (tail : Z) : M K unit :=
  let! g := gets lg in
  let! lbuf := bread (log_dev g) (u32 (log_start g + tail + 1)) in
  let! b := lh_get tail in
  let! dbuf := bread (log_dev g) (u32 b) in
  let! s := get in
  do! upd_buf dbuf (set_b_data (b_data (buf_at lbuf s))) in
  do! bwrite dbuf in
  do! when (negb recovering) (bunpin dbuf) in
  do! brelse lbuf in
  brelse dbuf.
Definition install_trans (recovering : bool) : M K unit := for_logged (install_one recovering).

Definition read_head : M K unit :=
  let! g := gets lg in
  let! i := bread (log_dev g) (u32 (log_start g)) in
  let! s := get in
  let d := b_data (buf_at i s) in
  do! upd_log (set_lh_n (get_s32 0 d)) in
  do! for_logged (λ k, lh_put k (get_s32 (lh_off k) d)) in
  brelse i.

Definition write_head : M K unit :=
  let! g := gets lg in
  let! i := bread (log_dev g) (u32 (log_start g)) in
  do! upd_buf i (λ b, set_b_data (put_u32 0 (lh_n g) (b_data b)) b) in
  do! for_logged (λ k,
    let! v := lh_get k in
    upd_buf i (λ b, set_b_data (put_u32 (lh_off k) v (b_data b)) b)) in
  do! bwrite i in
  brelse i.

Definition write_log_one (tail : Z) : M K unit :=
  let! g := gets lg in
  let! to := bread (log_dev g) (u32 (log_start g + tail + 1)) in
  let! b := lh_get tail in
  let! from := bread (log_dev g) (u32 b) in
  let! s := get in
  do! upd_buf to (set_b_data (b_data (buf_at from s))) in
  do! bwrite to in
  do! brelse from in
  brelse to.
Definition write_log : M K unit := for_logged write_log_one.

Definition recover_from_log : M K unit :=
  do! read_head in
  do! install_trans true in
  do! upd_log (set_lh_n 0) in
  write_head.

(** sizeof(struct logheader) *)
Definition LH_SIZE : Z := 4 + 4 * LOGSIZE.

Definition initlog (dev : Z) (sb : superblock) : M K unit :=
  if BSIZE <=? LH_SIZE then panic "initlog: too big logheader" else
  do! upd_log (λ g, set_log_dev dev (set_log_size (s32 (sb_nlog sb)) (set_log_start (s32 (sb_logstart sb)) g))) in
  recover_from_log.

(** * Transactions *)

Definition commit : M K unit :=
  let! g := gets lg in
  when (0 <? lh_n g)
    (do! write_log in
     do! write_head in
     do! install_trans false in
     do! upd_log (set_lh_n 0) in
     write_head).

(** one turn of the while loop of begin_op(): [inr] is the break *)
Definition begin_turn : M K (unit + unit) :=
  let! g := gets lg in
  if log_committing g then
    do! sleep ChLog LkLog in ret (inl tt)
  else if LOGSIZE <? lh_n g + (log_outstanding g + 1) * MAXOPBLOCKS then
    do! sleep ChLog LkLog in ret (inl tt)
  else
    do! upd_log (λ g, set_log_outstanding (log_outstanding g + 1) g) in
    do! release LkLog in
    ret (inr tt).
Definition begin_op : M K unit :=
  do! acquire LkLog in
  loop (λ _ : unit, begin_turn) tt.

Definition end_op : M K unit :=
  do! acquire LkLog in
  do! upd_log (λ g, set_log_outstanding (log_outstanding g - 1) g) in
  let! g := gets lg in
  if log_committing g then panic "log.committing" else
  let do_commit := log_outstanding g =? 0 in
  do! (if do_commit then upd_log (set_log_committing true) else wakeup ChLog) in
  do! release LkLog in
  when do_commit
    (do! commit in
     do! acquire LkLog in
     do! upd_log (set_log_committing false) in
     do! wakeup ChLog in
     release LkLog).

(** the index of block [b] among the first [n] logged ones, or [n] *)
Fixpoint absorb (k : nat) (i b : Z) (bl : list Z) : Z :=
  match k with
  | O => i
  | S k' => if u32 (default 0 (bl !! Z.to_nat i)) =? b then i else absorb k' (i + 1) b bl
  end.

Definition log_write (i : nat) : M K unit :=
  do! acquire LkLog in
  let! s := get in
  let g := lg s in
  if (LOGSIZE <=? lh_n g) || (log_size g - 1 <=? lh_n g) then panic "too big a transaction" else
  if log_outstanding g <? 1 then panic "log_write outside of trans" else
  let b := b_blockno (buf_at i s) in
  let k := absorb (Z.to_nat (lh_n g)) 0 b (lh_block g) in
  do! lh_put k (s32 b) in
  do! when (k =? lh_n g)
        (do! bpin i in
         upd_log (λ g, set_lh_n (lh_n g + 1) g)) in
  release LkLog.
