(* ===== verification/LogDisk.v ===== *)
(** The log as a crash leaves it: the on-disk format of log.c, what recovery
    makes of a disk, and what a prefix of commit's writes leaves behind.

    A disk is a function from block numbers to blocks; [start] is the header
    block of the log, followed by its data blocks. *)

From S2P Require Import Prelude Mem Layout Kalloc State Sched Bio Log.

(** * Integers in blocks *)

Lemma length_splice off l d : (off + length l ≤ length d)%nat → length (splice off l d) = length d.
Proof. intros H. unfold splice. rewrite !length_app, length_take, length_drop. lia. Qed.

Lemma get_splice off l d : (off + length l ≤ length d)%nat → take (length l) (drop off (splice off l d)) = l.
Proof.
  intros H. unfold splice. rewrite drop_app_length' by (rewrite length_take; lia).
  by rewrite take_app_length.
Qed.

Lemma get_splice_ne o n off l d : (off + length l ≤ length d)%nat → (o + n ≤ off ∨ off + length l ≤ o)%nat →
  take n (drop o (splice off l d)) = take n (drop o d).
Proof.
  intros H [Hlt|Hge]; apply list_eq; intros k; destruct (decide (k < n)%nat) as [Hk|Hk];
    rewrite ?(lookup_take_ge _ n k) by lia; try done; rewrite !lookup_take_lt, !lookup_drop by done; unfold splice.
  - rewrite lookup_app_l by (rewrite length_take; lia). by rewrite lookup_take_lt by lia.
  - rewrite app_assoc, lookup_app_r by (rewrite length_app, length_take; lia).
    rewrite length_app, length_take, lookup_drop. f_equal. lia.
Qed.

Lemma get_put_u32 off v d : (off + 4 ≤ length d)%nat → get_u32 off (put_u32 off v d) = v mod 2 ^ 32.
Proof.
  intros H. unfold get_u32, put_u32. pose proof (get_splice off (le_bytes 4 v) d) as E.
  rewrite length_le_bytes in E. rewrite E by done. apply (le_val_bytes 4).
Qed.

Lemma get_put_u32_ne o off v d : (off + 4 ≤ length d)%nat → (o + 4 ≤ off ∨ off + 4 ≤ o)%nat →
  get_u32 o (put_u32 off v d) = get_u32 o d.
Proof. intros H Ho. unfold get_u32, put_u32. by rewrite get_splice_ne by by rewrite ?length_le_bytes. Qed.

Lemma length_put_u32 off v d : (off + 4 ≤ length d)%nat → length (put_u32 off v d) = length d.
Proof. intros H. apply length_splice. by rewrite length_le_bytes. Qed.

Lemma swrap_of_mod w x : swrap w (x mod 2 ^ w) = swrap w x.
Proof.
  unfold swrap. destruct (decide (2 ^ w = 0)) as [->|Hn]; [by rewrite Z.mod_0_r|]. by rewrite Z.mod_mod.
Qed.

Lemma get_put_s32 off v d : (off + 4 ≤ length d)%nat → - 2 ^ 31 ≤ v < 2 ^ 31 → get_s32 off (put_u32 off v d) = v.
Proof.
  intros H Hv. unfold get_s32. rewrite get_put_u32 by done. unfold s32. rewrite swrap_of_mod.
  by apply swrap_small.
Qed.

Lemma get_put_s32_ne o off v d : (off + 4 ≤ length d)%nat → (o + 4 ≤ off ∨ off + 4 ≤ o)%nat →
  get_s32 o (put_u32 off v d) = get_s32 o d.
Proof. intros H Ho. unfold get_s32. by rewrite get_put_u32_ne. Qed.

(** * The header block *)

Fixpoint put_blocks (k : Z) (bl d : list Z) : list Z :=
  match bl with
  | [] => d
  | b :: bl' => put_blocks (k + 1) bl' (put_u32 (lh_off k) b d)
  end.
(** a block [d] with the header for the blocks [bl] written over it *)
Definition enc (bl d : list Z) : list Z := put_blocks 0 bl (put_u32 0 (Z.of_nat (length bl)) d).

Definition int32 (b : Z) : Prop := - 2 ^ 31 ≤ b < 2 ^ 31.

Lemma length_put_blocks k bl d : 0 ≤ k → k + Z.of_nat (length bl) ≤ 200 → length d = 1024%nat →
  length (put_blocks k bl d) = 1024%nat.
Proof.
  revert k d. induction bl as [|b bl IH]; intros k d Hk Hn Hd; simpl in *; [done|].
  apply IH; [lia|lia|]. rewrite length_put_u32; [done|]. unfold lh_off. lia.
Qed.

Lemma get_put_blocks_lt o k bl d : 0 ≤ k → k + Z.of_nat (length bl) ≤ 200 → length d = 1024%nat → (o + 4 ≤ lh_off k)%nat →
  get_s32 o (put_blocks k bl d) = get_s32 o d.
Proof.
  revert k d. induction bl as [|b bl IH]; intros k d Hk Hn Hd Ho; simpl in *; [done|].
  rewrite IH; [|lia|lia| |]; unfold lh_off in *.
  - apply get_put_s32_ne; lia.
  - rewrite length_put_u32; [done|]. lia.
  - lia.
Qed.

Lemma get_put_blocks k bl d j b : 0 ≤ k → k + Z.of_nat (length bl) ≤ 200 → length d = 1024%nat →
  bl !! j = Some b → int32 b → get_s32 (lh_off (k + Z.of_nat j)) (put_blocks k bl d) = b.
Proof.
  revert k d j. induction bl as [|c bl IH]; intros k d j Hk Hn Hd Hj Hb; [done|]. simpl in *.
  assert (lh_off k + 4 ≤ length d)%nat as Hoff by (unfold lh_off; lia).
  destruct j as [|j]; simpl in Hj.
  - injection Hj as ->. rewrite Z.add_0_r. rewrite get_put_blocks_lt; [|lia|lia| |].
    + by apply get_put_s32.
    + by rewrite length_put_u32.
    + unfold lh_off. lia.
  - replace (k + Z.of_nat (S j)) with (k + 1 + Z.of_nat j) by lia. apply IH; [lia|lia| |done|done].
    by rewrite length_put_u32.
Qed.

Lemma enc_spec bl d : (length bl ≤ 30)%nat → length d = 1024%nat → Forall int32 bl →
  length (enc bl d) = 1024%nat ∧ get_s32 0 (enc bl d) = Z.of_nat (length bl) ∧
  ∀ j b, bl !! j = Some b → get_s32 (lh_off (Z.of_nat j)) (enc bl d) = b.
Proof.
  intros Hn Hd Hb. assert (length (put_u32 0 (Z.of_nat (length bl)) d) = 1024%nat) as Hl by (rewrite length_put_u32; lia).
  unfold enc. split_and!.
  - apply length_put_blocks; [lia|lia|done].
  - rewrite get_put_blocks_lt; [|lia|lia|done|unfold lh_off; lia]. apply get_put_s32; lia.
  - intros j b Hj. apply (get_put_blocks 0); [lia|lia|done|done|]. by eapply Forall_lookup_1.
Qed.

(** * Disks and writes *)

Definition disk_t : Type := Z → list Z.
Definition dset (D : disk_t) (b : Z) (d : list Z) : disk_t := λ x, if decide (x = b) then d else D x.
Definition apply_ws (ws : list (Z * list Z)) (D : disk_t) : disk_t := foldl (λ D w, dset D w.1 w.2) D ws.

Lemma apply_ws_app w1 w2 D : apply_ws (w1 ++ w2) D = apply_ws w2 (apply_ws w1 D).
Proof. unfold apply_ws. apply foldl_app. Qed.

Lemma apply_ws_out ws D x : x ∉ ws.*1 → apply_ws ws D x = D x.
Proof.
  revert D. induction ws as [|[b d] ws IH]; intros D Hx; [done|]. simpl in *.
  change (apply_ws ws (dset D b d) x = D x). rewrite IH by set_solver. unfold dset. rewrite decide_False; set_solver.
Qed.

Lemma apply_ws_in ws D j x d : NoDup (ws.*1) → ws !! j = Some (x, d) → apply_ws ws D x = d.
Proof.
  revert D j. induction ws as [|[b e] ws IH]; intros D j Hnd Hj; [done|]. simpl in Hnd. apply NoDup_cons in Hnd as [Hb Hnd].
  change (apply_ws ws (dset D b e) x = d). destruct j as [|j]; simpl in Hj.
  - injection Hj as -> ->. rewrite apply_ws_out by done. unfold dset. by rewrite decide_True.
  - by apply (IH _ j).
Qed.

(** * Recovery, as a function of the disk *)

Section Recovery.
Context (start : Z).

Definition hn (D : disk_t) : Z := get_s32 0 (D start).
Definition hblocks (D : disk_t) : list Z := (λ j, get_s32 (lh_off j) (D start)) <$> seqZ 0 (hn D).
Definition in_log (x : Z) : Prop := start ≤ x < start + 30.

(** the file system a disk stands for: logged blocks are read from the log *)
Definition recovered (D : disk_t) : disk_t := λ x,
  match list_find (λ b, b = x) (hblocks D) with
  | Some (j, _) => D (start + 1 + Z.of_nat j)
  | None => D x
  end.

Record log_wf (D : disk_t) : Prop := {
  lw_n : 0 ≤ hn D ≤ 29;
  lw_nodup : NoDup (hblocks D);
  lw_home b : b ∈ hblocks D → 0 ≤ b < 2 ^ 31 ∧ ¬ in_log b;
  lw_size : length (D start) = 1024%nat;
}.

Lemma length_hblocks D : 0 ≤ hn D → Z.of_nat (length (hblocks D)) = hn D.
Proof. intros H. unfold hblocks. rewrite length_fmap, length_seqZ. lia. Qed.

Lemma hblocks_header D D' : D' start = D start → hn D' = hn D ∧ hblocks D' = hblocks D.
Proof. intros E. unfold hblocks, hn. by rewrite E. Qed.

Lemma hblocks_enc D bl d : (length bl ≤ 30)%nat → length d = 1024%nat → Forall int32 bl → D start = enc bl d →
  hn D = Z.of_nat (length bl) ∧ hblocks D = bl.
Proof.
  intros Hn Hd Hb E. destruct (enc_spec bl d Hn Hd Hb) as (_ & E0 & Ej).
  assert (hn D = Z.of_nat (length bl)) as En by (unfold hn; by rewrite E). split; [done|].
  unfold hblocks. rewrite En, E. apply list_eq. intros j. rewrite list_lookup_fmap.
  destruct (bl !! j) as [b|] eqn:Hj.
  - apply lookup_lt_Some in Hj as Hlt. rewrite lookup_seqZ_lt by lia. simpl. f_equal. by apply (Ej j b).
  - apply lookup_ge_None in Hj. rewrite lookup_seqZ_ge by lia. done.
Qed.

Lemma recovered_in D j x : NoDup (hblocks D) → hblocks D !! j = Some x → recovered D x = D (start + 1 + Z.of_nat j).
Proof.
  intros Hnd Hj. unfold recovered. rewrite (proj2 (list_find_Some _ _ j x)); [done|]. split; [done|]. split; [done|].
  intros i y Hi Hlt ->. pose proof (NoDup_lookup _ _ _ _ Hnd Hi Hj). lia.
Qed.

Lemma recovered_out D x : x ∉ hblocks D → recovered D x = D x.
Proof.
  intros Hx. unfold recovered. destruct (list_find _ _) as [[j b]|] eqn:E; [|done].
  apply list_find_Some in E as (Hj & -> & _). apply list_elem_of_lookup_2 in Hj. done.
Qed.

(** the home writes of install_trans() and the writes of a whole recovery *)
Definition home_ws (bl : list Z) (V : Z → list Z) : list (Z * list Z) := imap (λ j b, (b, V (Z.of_nat j))) bl.
Definition recover_ws (D : disk_t) : list (Z * list Z) :=
  home_ws (hblocks D) (λ j, D (start + 1 + j)) ++ [(start, enc [] (D start))].

Lemma home_ws_fst bl V : (home_ws bl V).*1 = bl.
Proof. unfold home_ws. apply list_eq. intros j. rewrite list_lookup_fmap, list_lookup_imap. by destruct (bl !! j). Qed.

Lemma home_ws_lookup bl V j b : bl !! j = Some b → home_ws bl V !! j = Some (b, V (Z.of_nat j)).
Proof. intros H. unfold home_ws. by rewrite list_lookup_imap, H. Qed.

Lemma take_fst {A B} k (l : list (A * B)) : (take k l).*1 = take k (l.*1).
Proof. apply fmap_take. Qed.

Lemma in_log_cases x : in_log x → x = start ∨ ∃ j, 0 ≤ j < 29 ∧ x = start + 1 + j.
Proof. unfold in_log. intros H. destruct (decide (x = start)); [by left|right]. exists (x - start - 1). lia. Qed.

(** a crash during recovery loses nothing *)
Lemma recover_prefix D k : log_wf D →
  let D' := apply_ws (take k (recover_ws D)) D in
  log_wf D' ∧ ∀ x, ¬ in_log x → recovered D' x = recovered D x.
Proof.
  intros HW D'. destruct HW as [Hn Hnd Hh Hsz]. set (hw := home_ws (hblocks D) (λ j, D (start + 1 + j))) in *.
  assert (∀ ws x, ws ⊆ hw → in_log x → apply_ws ws D x = D x) as Hlog.
  { intros ws x Hsub Hx. apply apply_ws_out. intros Hin. apply list_elem_of_fmap in Hin as ([b d] & -> & Hin).
    apply Hsub in Hin. assert (b ∈ hw.*1) as Hb by (apply list_elem_of_fmap; by exists (b, d)). unfold hw in Hb.
    rewrite home_ws_fst in Hb. by apply (Hh b Hb). }
  assert (∀ x, apply_ws hw D x = recovered D x) as Hall.
  { intros x. destruct (decide (x ∈ hblocks D)) as [[j Hj]%list_elem_of_lookup_1|Hx].
    - rewrite (recovered_in D j x Hnd Hj). apply (apply_ws_in hw D j); [unfold hw; by rewrite home_ws_fst|].
      by apply home_ws_lookup.
    - rewrite recovered_out by done. apply apply_ws_out. unfold hw. by rewrite home_ws_fst. }
  destruct (decide (k ≤ length hw)%nat) as [Hk|Hk].
  - assert (D' = apply_ws (take k hw) D) as HD by (unfold D', recover_ws; fold hw; by rewrite take_app_le).
    assert (take k hw ⊆ hw) as Hsub by apply subseteq_take.
    assert (∀ x, in_log x → D' x = D x) as Hl by (intros x Hx; rewrite HD; by apply Hlog).
    assert (in_log start) as Hst by (unfold in_log; lia).
    destruct (hblocks_header D D' (Hl start Hst)) as [En Eb]. split.
    + constructor; rewrite ?En, ?Eb; try done. by rewrite Hl.
    + intros x Hx. destruct (decide (x ∈ hblocks D)) as [[j Hj]%list_elem_of_lookup_1|Hxh].
      * rewrite (recovered_in D j x Hnd Hj), (recovered_in D' j x); [|by rewrite Eb|by rewrite Eb].
        apply Hl. apply lookup_lt_Some in Hj. pose proof (length_hblocks D ltac:(lia)). unfold in_log. lia.
      * rewrite !recovered_out by by rewrite ?Eb. rewrite HD. apply apply_ws_out. rewrite take_fst. unfold hw. rewrite home_ws_fst.
        intros Hin. apply Hxh. by apply subseteq_take in Hin.
  - assert (D' = dset (apply_ws hw D) start (enc [] (D start))) as HD.
    { unfold D', recover_ws. fold hw. rewrite take_ge by (rewrite length_app; simpl; lia). by rewrite apply_ws_app. }
    assert (D' start = enc [] (D start)) as Est by (rewrite HD; unfold dset; by rewrite decide_True).
    destruct (hblocks_enc D' [] (D start) ltac:(simpl; lia) Hsz ltac:(done) Est) as [En Eb]. simpl in En. split.
    + constructor; rewrite ?En, ?Eb; [lia|by apply NoDup_nil|set_solver|]. rewrite Est. by apply (enc_spec []); [simpl; lia|..].
    + intros x Hx. rewrite recovered_out by (rewrite Eb; set_solver). rewrite HD. unfold dset. rewrite decide_False; [apply Hall|].
      intros ->. apply Hx. unfold in_log. lia.
Qed.

(** * Commit, as a list of writes *)

Definition log_ws (bl : list Z) (V : Z → list Z) : list (Z * list Z) := imap (λ j b, (start + 1 + Z.of_nat j, V b)) bl.
Definition inst_ws (bl : list Z) (V : Z → list Z) : list (Z * list Z) := (λ b, (b, V b)) <$> bl.
Definition commit_ws (D : disk_t) (bl : list Z) (V : Z → list Z) : list (Z * list Z) :=
  log_ws bl V ++ [(start, enc bl (D start))] ++ inst_ws bl V ++ [(start, enc [] (enc bl (D start)))].

(** what a block holds before and after the transaction *)
Definition after (D : disk_t) (bl : list Z) (V : Z → list Z) : disk_t := λ x, if decide (x ∈ bl) then V x else D x.

Context (D : disk_t) (bl : list Z) (V : Z → list Z).
Context (H0 : hn D = 0) (Hsz : length (D start) = 1024%nat) (Hnd : NoDup bl) (Hlen : (length bl ≤ 29)%nat).
Context (Hhome : ∀ b, b ∈ bl → 0 ≤ b < 2 ^ 31 ∧ ¬ in_log b).

Lemma bl_int32 : Forall int32 bl.
Proof using All. apply Forall_forall. intros b Hb. destruct (Hhome b Hb) as [? _]. unfold int32. lia. Qed.

Lemma log_ws_fst x : x ∈ (log_ws bl V).*1 → in_log x ∧ x ≠ start.
Proof using Hlen.
  intros (w & -> & (j & Hj)%list_elem_of_lookup_1)%list_elem_of_fmap. unfold log_ws in Hj. rewrite list_lookup_imap in Hj.
  destruct (bl !! j) as [b|] eqn:E; simplify_eq/=. apply lookup_lt_Some in E. clear -E Hlen. unfold in_log. lia.
Qed.

Lemma inst_ws_fst : (inst_ws bl V).*1 = bl.
Proof. unfold inst_ws. rewrite <- list_fmap_compose. apply list_fmap_id. Qed.

Definition D1 : disk_t := apply_ws (log_ws bl V) D.
Definition D2 : disk_t := dset D1 start (enc bl (D start)).

Lemma D1_log j b : bl !! j = Some b → D1 (start + 1 + Z.of_nat j) = V b.
Proof using All.
  intros Hj. unfold D1. apply (apply_ws_in _ _ j).
  - apply NoDup_alt. intros i k x. rewrite !list_lookup_fmap. unfold log_ws. rewrite !list_lookup_imap.
    destruct (bl !! i), (bl !! k); intros; simplify_eq/=. lia.
  - unfold log_ws. by rewrite list_lookup_imap, Hj.
Qed.

Lemma D1_home x : ¬ in_log x → D1 x = D x.
Proof using All. intros Hx. apply apply_ws_out. intros Hin. by apply log_ws_fst in Hin as [? _]. Qed.

(** after the header has been written the log holds the transaction, whatever
    part of the installation has been done *)
Lemma commit_logged k : let D' := apply_ws (take k (inst_ws bl V)) D2 in
  log_wf D' ∧ ∀ x, ¬ in_log x → recovered D' x = after D bl V x.
Proof using All.
  intros D'. assert (∀ x, in_log x → D' x = D2 x) as Hl.
  { intros x Hx. apply apply_ws_out. rewrite take_fst, inst_ws_fst. intros Hin%subseteq_take. by apply (Hhome x Hin). }
  assert (in_log start) as Hst by (unfold in_log; lia).
  assert (D' start = enc bl (D start)) as Est by (rewrite Hl by done; unfold D2, dset; by rewrite decide_True).
  destruct (hblocks_enc D' bl (D start) ltac:(lia) Hsz bl_int32 Est) as [En Eb]. split.
  - constructor; rewrite ?En, ?Eb; [lia|done|done|]. rewrite Est. apply enc_spec; [lia|done|apply bl_int32].
  - intros x Hx. unfold after. case_decide as Hin.
    + apply list_elem_of_lookup_1 in Hin as [j Hj]. rewrite (recovered_in D' j x); rewrite ?Eb; [|done|done].
      apply lookup_lt_Some in Hj as Hlt. rewrite Hl by (unfold in_log; lia). unfold D2, dset. rewrite decide_False by lia.
      by apply D1_log.
    + rewrite recovered_out by by rewrite Eb. unfold D'. rewrite apply_ws_out.
      * unfold D2, dset. rewrite decide_False by (intros ->; done). by apply D1_home.
      * rewrite take_fst, inst_ws_fst. by intros ?%subseteq_take.
Qed.

Lemma commit_prefix k : let D' := apply_ws (take k (commit_ws D bl V)) D in
  log_wf D' ∧ ∀ x, ¬ in_log x → recovered D' x = if decide (k ≤ length bl)%nat then D x else after D bl V x.
Proof using All.
  intros D'. assert (length (log_ws bl V) = length bl) as L1 by (unfold log_ws; by rewrite length_imap).
  assert (length (inst_ws bl V) = length bl) as L2 by (unfold inst_ws; by rewrite length_fmap).
  assert (in_log start) as Hst by (unfold in_log; lia).
  destruct (decide (k ≤ length bl)%nat) as [Hk|Hk].
  - assert (D' = apply_ws (take k (log_ws bl V)) D) as HD by (unfold D', commit_ws; by rewrite take_app_le by lia).
    assert (D' start = D start) as Est.
    { rewrite HD. apply apply_ws_out. rewrite take_fst. intros Hin%subseteq_take%log_ws_fst. tauto. }
    destruct (hblocks_header D D' Est) as [En Eb]. assert (hblocks D = []) as Eb0 by (unfold hblocks; by rewrite H0).
    split.
    + constructor; rewrite ?En, ?Eb, ?H0, ?Eb0; [lia|by apply NoDup_nil|set_solver|by rewrite Est].
    + intros x Hx. rewrite recovered_out by (rewrite Eb, Eb0; set_solver). rewrite HD. apply apply_ws_out.
      rewrite take_fst. intros Hin%subseteq_take%log_ws_fst. tauto.
  - assert (D' = apply_ws (take (k - S (length bl)) (inst_ws bl V ++ [(start, enc [] (enc bl (D start)))])) D2) as HD.
    { unfold D', commit_ws. rewrite (take_app_ge (log_ws bl V)) by lia. rewrite apply_ws_app. fold D1. rewrite L1.
      destruct (k - length bl)%nat as [|m] eqn:Em; [lia|]. replace (k - S (length bl))%nat with m by lia. done. }
    destruct (decide (k - S (length bl) ≤ length bl)%nat) as [Hk2|Hk2].
    + rewrite take_app_le in HD by lia. rewrite HD. apply commit_logged.
    + rewrite take_ge in HD by (rewrite length_app; simpl; lia). rewrite apply_ws_app in HD.
      destruct (commit_logged (length bl)) as [HW Hrec]. rewrite take_ge in HW, Hrec by lia.
      set (D3 := apply_ws (inst_ws bl V) D2) in *.
      assert (D' start = enc [] (enc bl (D start))) as Est by (rewrite HD; cbn; unfold dset; by rewrite decide_True).
      assert (length (enc bl (D start)) = 1024%nat) as He by (apply enc_spec; [lia|done|apply bl_int32]).
      destruct (hblocks_enc D' [] _ ltac:(simpl; lia) He ltac:(done) Est) as [En Eb]. simpl in En. split.
      * constructor; rewrite ?En, ?Eb; [lia|by apply NoDup_nil|set_solver|]. rewrite Est. by apply (enc_spec []); [simpl; lia|..].
      * intros x Hx. rewrite recovered_out by (rewrite Eb; set_solver). rewrite HD. cbn. unfold dset.
        rewrite decide_False by (intros ->; done). unfold after. case_decide as Hin.
        -- apply list_elem_of_lookup_1 in Hin as [j Hj]. unfold D3. apply (apply_ws_in _ _ j); [by rewrite inst_ws_fst|].
           unfold inst_ws. by rewrite list_lookup_fmap, Hj.
        -- unfold D3. rewrite apply_ws_out by by rewrite inst_ws_fst. unfold D2, dset.
           rewrite decide_False by (intros ->; done). by apply D1_home.
Qed.

End Recovery.
