(* ===== verification/LogProofs.v ===== *)
(** What the routines of log.c write to the disk. *)

From S2P Require Import Prelude Mem Layout Kalloc State Sched Ring Bio BioProofs Blocks Log LogDisk.

(** everything but the cache, the process states and the disk *)
Definition env (s : K) : K := set_disk ∅ (set_dtrace [] (rest s)).

(** one write of block [b] *)
Record wrote (s s' : K) (b : Z) (d : list Z) : Prop := {
  wr_env : env s' = env s;
  wr_pids : pids s' = pids s;
  wr_trace : dtrace s' = dtrace s ++ [(b, d)];
  wr_disk x : blk s' x = dset (blk s) b d x;
  wr_view x : view s' x = dset (view s) b d x;
}.

Lemma rest_blk s s' x : rest s' = rest s → blk s' x = blk s x.
Proof. intros E. unfold blk. by rewrite (f_equal disk E : disk s' = disk s). Qed.
Lemma rest_env s s' : rest s' = rest s → env s' = env s.
Proof. intros E. unfold env. by rewrite E. Qed.
Lemma rest_trace s s' : rest s' = rest s → dtrace s' = dtrace s.
Proof. intros E. exact (f_equal dtrace E). Qed.
Lemma env_lg s s' : env s' = env s → lg s' = lg s.
Proof. intros E. exact (f_equal lg E). Qed.

(** log.lh.block[k] *)
Lemma wp_lh_get k b (Q : Z → K → Prop) E s :
  lh_block (lg s) !! Z.to_nat k = Some b → 0 ≤ k < 30 → Q b s → wp (lh_get k) Q E s.
Proof. intros Hb Hk HQ. unfold lh_get. btrue ((0 <=? k) && (k <? LOGSIZE)). apply wp_gets. by rewrite Hb. Qed.

(** ** Two held buffers: copy one to the other, write it, release both *)

Section Copy.
Context (p : nat) (P : list Z) (s0 s : K) (i j : nat) (a c : Z).
Context (HC : cinv p P [i; j] s) (Hr : rest s = rest s0) (Hp : procs s = procs s0) (Hv : ∀ x, view s x = view s0 x).
Context (Hi : b_blockno (buf_at i s) = a) (Hj : b_blockno (buf_at j s) = c).

Definition filled_from : K := with_buf s i (set_b_data (b_data (buf_at j s)) (buf_at i s)).

Lemma from_data : b_data (buf_at j s) = view s0 c.
Proof using All. rewrite <- Hv, <- Hj. symmetry. apply (hand_view _ _ _ _ HC). set_solver. Qed.

Lemma filled_facts : i ≠ j ∧ a ≠ c ∧ length (view s0 c) = 1024%nat ∧
  cinv p P [i; j] filled_from ∧ (∀ x, view filled_from x = dset (view s0) a (view s0 c) x) ∧
  buf_at j filled_from = buf_at j s ∧ buf_at i filled_from = set_b_data (view s0 c) (buf_at i s).
Proof using All.
  destruct (ci_bc _ _ _ _ HC) as [l HB]. destruct (hand_facts _ _ _ _ _ HC) as (Hi30 & _).
  assert (i ≠ j) as Hij by (intros ->; by apply (hand_other _ _ _ _ _ HC j ltac:(set_solver))).
  assert (a ≠ c) as Hac by (rewrite <- Hi, <- Hj; intros E; by apply (hand_block _ _ _ _ _ HC j ltac:(set_solver))).
  assert (length (view s0 c) = 1024%nat) as Hlen by (rewrite <- Hv; by apply (view_size l)).
  unfold filled_from. rewrite from_data. split_and!; try done.
  - by apply cinv_data.
  - intros x. rewrite (view_data _ _ _ _ _ HC) by done. rewrite Hi. unfold dset. case_decide; [done|apply Hv].
  - by rewrite (buf_at_with l s HB), decide_False.
  - by rewrite (buf_at_with l s HB), decide_True.
Qed.

(** ... the destination: after bwrite() *)
Lemma wp_copy_write (Q : unit → K → Prop) E (k : M K unit) :
  (∀ s4, cinv p P [i; j] s4 → wrote s0 s4 a (view s0 c) → procs s4 = procs s0 →
     b_blockno (buf_at i s4) = a → b_data (buf_at i s4) = view s0 c → b_blockno (buf_at j s4) = c →
     b_data (buf_at j s4) = view s0 c → wp k Q E s4) →
  wp (do! upd_buf i (set_b_data (b_data (buf_at j s))) in do! bwrite i in k) Q E s.
Proof using All.
  intros HQ. destruct filled_facts as (Hij & Hac & Hlen & HC3 & Hv3 & Hbj & Hbi).
  destruct (ci_bc _ _ _ _ HC) as [l HB]. destruct (ci_bc _ _ _ _ HC3) as [l3 HB3]. destruct (hand_facts _ _ _ _ _ HC) as (Hi30 & _).
  apply wp_bind. apply (wp_upd_data _ _ _ _ _ HC _ (b_data (buf_at j s))); [done|]. fold filled_from.
  apply wp_bind, (wp_bwrite_c _ _ _ _ _ HC3). intros HC4 Hv4.
  pose proof (written_buf l3 filled_from i HB3 Hi30 (proj1 (proj2 (proj2 (proj2 (proj2 (hand_facts _ _ _ _ _ HC3))))))) as Hat.
  apply HQ; try done.
  - constructor.
    + unfold env. change (rest (written filled_from i)) with
        (set_dtrace (dtrace (written filled_from i)) (set_disk (disk (written filled_from i)) (rest s))). by rewrite Hr.
    + unfold pids. change (procs (written filled_from i)) with (procs s). by rewrite Hp.
    + change (dtrace s ++ [(b_blockno (buf_at i filled_from), b_data (buf_at i filled_from))] = dtrace s0 ++ [(a, view s0 c)]).
      rewrite Hbi, (rest_trace _ _ Hr). cbn. by rewrite Hi.
    + intros x. rewrite (blk_written filled_from i). rewrite Hbi. cbn. rewrite Hi. unfold dset.
      case_decide; [done|]. by apply rest_blk.
    + intros x. by rewrite Hv4, Hv3.
  - rewrite Hat, decide_True, Hbi by done. done.
  - rewrite Hat, decide_True, Hbi by done. done.
  - rewrite Hat, decide_False, Hbj by done. done.
  - rewrite Hat, decide_False, Hbj by done. apply from_data.
Qed.

End Copy.

Lemma wrote_same_fs s s1 s2 b d : wrote s s1 b d → same_fs s1 s2 → wrote s s2 b d.
Proof.
  intros [] []. constructor.
  - by rewrite (rest_env _ _ sf_rest).
  - congruence.
  - by rewrite (rest_trace _ _ sf_rest).
  - intros x. by rewrite (rest_blk _ _ _ sf_rest).
  - intros x. by rewrite sf_view.
Qed.

Section Steps.
Context (p : nat) (P : list Z) (s : K) (HC : cinv p P [] s) (tail b : Z).
Context (Hdev : log_dev (lg s) = ROOTDEV) (Htail : 0 ≤ tail < 29) (Hb : lh_block (lg s) !! Z.to_nat tail = Some b).
Context (Hst : 0 ≤ log_start (lg s) < 2 ^ 31 - 31) (Hbr : 0 ≤ b < 2 ^ 31).
Let lb := log_start (lg s) + tail + 1.
Context (Hne : b ≠ lb) (HlbP : lb ∉ P) (Hlen : (length P < 30)%nat).

(** an iteration of write_log(): the log block gets the cached block *)
Lemma wp_write_log_one E : b ∈ P →
  wp (write_log_one tail) (λ _ s', cinv p P [] s' ∧ wrote s s' lb (view s b)) E s.
Proof using All.
  intros HbP. unfold write_log_one. wp_k. rewrite Hdev. fold lb. rewrite (u32_small lb) by (unfold lb; lia).
  apply (wp_bread_c p P [] s HC); [set_solver|right; simpl; lia|]. intros i s1 _ HC1 Hr1 Hp1 Hv1 Hb1 _.
  apply wp_bind, (wp_lh_get tail b); [by rewrite (f_equal lg Hr1 : lg s1 = lg s)|lia|]. apply wp_bind. rewrite u32_small by lia.
  apply (wp_bread_c p P [i] s1 HC1); [intros j ->%list_elem_of_singleton; by rewrite Hb1|by left|].
  intros j s2 Hji HC2 Hr2 Hp2 Hv2 Hb2 Hsame. wp_k1. wp_k1.
  assert (cinv p P [i; j] s2) as HC2' by (eapply cinv_perm; [done|apply Permutation_swap|exact HC2]).
  apply (wp_copy_write p P s s2 i j lb b HC2'); try congruence; [by rewrite Hsame by set_solver|].
  intros s4 HC4 HW Hp4 Hbi Hdi Hbj Hdj. apply wp_bind.
  assert (cinv p P [j; i] s4) as HC4' by (eapply cinv_perm; [done|apply Permutation_swap|exact HC4]).
  apply (wp_brelse_c p P j [i] s4 HC4'); [by rewrite Hbj|]. intros s5 HC5 Hsf5 Hcore.
  specialize (Hcore i ltac:(set_solver)).
  assert (b_blockno (buf_at i s5) = lb) as Hbi5 by (rewrite <- Hbi; exact (f_equal b_blockno Hcore)).
  assert (b_data (buf_at i s5) = view s b) as Hdi5 by (rewrite <- Hdi; exact (f_equal b_data Hcore)).
  pose proof (wrote_same_fs _ _ _ _ _ HW Hsf5) as HW5.
  apply (wp_brelse_c p P i [] s5 HC5).
  - intros _. rewrite Hdi5, Hbi5, (wr_disk _ _ _ _ HW5). unfold dset. by rewrite decide_True.
  - intros s6 HC6 Hsf6 _. split; [done|]. by eapply wrote_same_fs.
Qed.

(** the two releases that end an iteration of install_trans() *)
Lemma wp_install_end E s4 i j P' :
  cinv p P' [i; j] s4 → wrote s s4 b (view s lb) → (lb ∉ P') → view s lb = blk s lb →
  b_blockno (buf_at i s4) = b → b_data (buf_at i s4) = view s lb → b_blockno (buf_at j s4) = lb → b_data (buf_at j s4) = view s lb →
  wp (do! brelse j in brelse i) (λ _ s', cinv p P' [] s' ∧ wrote s s' b (view s lb)) E s4.
Proof using All.
  intros HC4 HW HlbP' Hcl Hbi Hdi Hbj Hdj. apply wp_bind.
  assert (cinv p P' [j; i] s4) as HC4' by (eapply cinv_perm; [done|apply Permutation_swap|exact HC4]).
  apply (wp_brelse_c p P' j [i] s4 HC4').
  { intros _. rewrite Hbj, Hdj, (wr_disk _ _ _ _ HW). unfold dset. rewrite decide_False by congruence. done. }
  intros s5 HC5 Hsf5 Hcore. specialize (Hcore i ltac:(set_solver)). pose proof (wrote_same_fs _ _ _ _ _ HW Hsf5) as HW5.
  assert (b_blockno (buf_at i s5) = b) as Hbi5 by (rewrite <- Hbi; exact (f_equal b_blockno Hcore)).
  assert (b_data (buf_at i s5) = view s lb) as Hdi5 by (rewrite <- Hdi; exact (f_equal b_data Hcore)).
  apply (wp_brelse_c p P' i [] s5 HC5).
  - intros _. rewrite Hdi5, Hbi5, (wr_disk _ _ _ _ HW5). unfold dset. by rewrite decide_True.
  - intros s6 HC6 Hsf6 _. split; [done|]. by eapply wrote_same_fs.
Qed.

(** an iteration of install_trans(): the home block gets the log block *)
Lemma wp_install_one E rec P' : (rec = true ∧ P' = P ∧ P = []) ∨ (rec = false ∧ P = b :: P') →
  wp (install_one rec tail) (λ _ s', cinv p P' [] s' ∧ wrote s s' b (view s lb)) E s.
Proof using All.
  intros HP. unfold install_one. wp_k. rewrite Hdev. fold lb. rewrite (u32_small lb) by (unfold lb; lia).
  assert (view s lb = blk s lb) as Hcl by (apply (clean_view _ _ _ _ HC); [done|set_solver]).
  apply (wp_bread_c p P [] s HC); [set_solver|right; simpl; lia|]. intros j s1 _ HC1 Hr1 Hp1 Hv1 Hb1 _.
  apply wp_bind, (wp_lh_get tail b); [by rewrite (f_equal lg Hr1 : lg s1 = lg s)|lia|]. apply wp_bind. rewrite u32_small by lia.
  apply (wp_bread_c p P [j] s1 HC1); [intros i ->%list_elem_of_singleton; by rewrite Hb1| |].
  { destruct HP as [(_ & _ & ->)|(_ & ->)]; [right; simpl; lia|left; set_solver]. }
  intros i s2 Hji HC2 Hr2 Hp2 Hv2 Hb2 Hsame. wp_k1. wp_k1.
  apply (wp_copy_write p P s s2 i j b lb HC2); try congruence; [by rewrite Hsame by set_solver|].
  intros s4 HC4 HW Hp4 Hbi Hdi Hbj Hdj. apply wp_bind. destruct HP as [(-> & -> & _)|(-> & EP)]; cbn [negb when].
  - apply wp_ret. by apply (wp_install_end E s4 i j).
  - pose proof (proj1 (ci_nodup _ _ _ _ HC)) as Hnd. rewrite EP in Hnd. apply NoDup_cons in Hnd as [Hn Hnd].
    apply (wp_bunpin_c p P i [j] s4 HC4 P'); rewrite ?Hbi, ?EP; [set_solver|done|done|set_solver|].
    intros s5 HC5 Hsf5 Hp5 Hj5. apply (wp_install_end E s5 i j); rewrite ?(proj1 (Hj5 _)), ?(proj2 (Hj5 _)); try done.
    + by eapply wrote_same_fs.
    + rewrite EP in HlbP. set_solver.
Qed.

End Steps.

(** ** The loop over the logged blocks *)

Lemma wp_for_logged body n (I : Z → K → Prop) (Q : unit → K → Prop) E s : 0 ≤ n < 2 ^ 32 →
  (∀ k s, I k s → lh_n (lg s) = n) →
  (∀ k s, 0 ≤ k < n → I k s → wp (body k) (λ _ s', I (k + 1) s') E s) →
  I 0 s → (∀ s', I n s' → Q tt s') → wp (for_logged body) Q E s.
Proof.
  intros Hn HI Hbody H0 HQ. unfold for_logged.
  apply (wp_loop_n _ (λ m k s, m = n - k ∧ 0 ≤ k ≤ n ∧ I k s) _ _ n); [|split_and!; [lia..|done]|lia].
  intros m k s' (-> & Hk & HIk). wp_k1. apply wp_gets. rewrite (HI _ _ HIk). case_bool.
  - wp_k1. eapply wp_mono; [apply Hbody; [lia|done]| |intros ??; exact id]. intros [] s2 HI2. apply wp_ret. exists (n - (k + 1)). split_and!; try lia. done.
  - apply wp_ret. assert (k = n) as -> by lia. by apply HQ.
Qed.

(** a sequence of writes *)
Record wrotes (s s' : K) (ws : list (Z * list Z)) : Prop := {
  ws_env : env s' = env s;
  ws_pids : pids s' = pids s;
  ws_trace : dtrace s' = dtrace s ++ ws;
  ws_disk x : blk s' x = apply_ws ws (blk s) x;
  ws_view x : view s' x = apply_ws ws (view s) x;
}.

Lemma wrotes_nil s : wrotes s s [].
Proof. split; try done. by rewrite app_nil_r. Qed.

Lemma wrotes_snoc s s1 s2 ws b d : wrotes s s1 ws → wrote s1 s2 b d → wrotes s s2 (ws ++ [(b, d)]).
Proof.
  intros [] []. split; try congruence.
  - by rewrite wr_trace0, ws_trace0, app_assoc.
  - intros x. rewrite wr_disk0, apply_ws_app. cbn. unfold dset. by rewrite ws_disk0.
  - intros x. rewrite wr_view0, apply_ws_app. cbn. unfold dset. by rewrite ws_view0.
Qed.

Lemma apply_ws_ext ws D D' x : (∀ x, D x = D' x) → apply_ws ws D x = apply_ws ws D' x.
Proof.
  revert D D'. induction ws as [|w ws IH]; intros D D' HD; [done|]. cbn. apply IH. intros y. unfold dset. by rewrite HD.
Qed.

Lemma wrotes_app s s1 s2 ws ws' : wrotes s s1 ws → wrotes s1 s2 ws' → wrotes s s2 (ws ++ ws').
Proof.
  intros [] []. split; try congruence.
  - by rewrite ws_trace1, ws_trace0, app_assoc.
  - intros x. rewrite ws_disk1, apply_ws_app. by apply apply_ws_ext.
  - intros x. rewrite ws_view1, apply_ws_app. by apply apply_ws_ext.
Qed.

(** ** The log in memory *)

Definition logged (g : log) : list Z := take (Z.to_nat (lh_n g)) (lh_block g).

Record log_ok (g : log) : Prop := {
  lo_dev : log_dev g = ROOTDEV;
  lo_start : 0 ≤ log_start g < 2 ^ 31 - 31;
  lo_n : 0 ≤ lh_n g ≤ 29;
  lo_len : length (lh_block g) = 30%nat;
  lo_nodup : NoDup (logged g);
  lo_out b : b ∈ logged g → 0 ≤ b < 2 ^ 31 ∧ ¬ in_log (log_start g) b;
}.

Section Logged.
Context (g : log) (HG : log_ok g).

Lemma logged_len : Z.of_nat (length (logged g)) = lh_n g.
Proof using HG. unfold logged. rewrite length_take, (lo_len _ HG). pose proof (lo_n _ HG). lia. Qed.

Lemma logged_block k : 0 ≤ k < lh_n g → ∃ b, logged g !! Z.to_nat k = Some b ∧ lh_block g !! Z.to_nat k = Some b ∧ b ∈ logged g.
Proof using HG.
  intros Hk. destruct (lookup_lt_is_Some_2 (logged g) (Z.to_nat k)) as [b Hb]; [pose proof logged_len; lia|].
  exists b. split_and!; [done| |by eapply list_elem_of_lookup_2].
  unfold logged in Hb. by apply lookup_take_Some in Hb as [? _].
Qed.

End Logged.

Lemma logged_steps {s k} : log_ok (lg s) → 0 ≤ k < lh_n (lg s) →
  ∃ b, logged (lg s) !! Z.to_nat k = Some b ∧ lh_block (lg s) !! Z.to_nat k = Some b ∧ b ∈ logged (lg s) ∧
       0 ≤ b < 2 ^ 31 ∧ b ≠ log_start (lg s) + k + 1 ∧ (log_start (lg s) + k + 1 ∉ logged (lg s)) ∧ k < 29.
Proof.
  intros HG Hk. destruct (logged_block _ HG k Hk) as (b & Hb & Hb' & Hin). exists b. pose proof (lo_n _ HG).
  destruct (lo_out _ HG b Hin) as [Hr Ho]. split_and!; try done; try lia.
  - intros ->. apply Ho. unfold in_log. lia.
  - intros Hx. destruct (lo_out _ HG _ Hx) as [_ Hx']. apply Hx'. unfold in_log. lia.
Qed.

Lemma log_ws_take start bl V k b : bl !! k = Some b →
  take (S k) (log_ws start bl V) = take k (log_ws start bl V) ++ [(start + 1 + Z.of_nat k, V b)].
Proof. intros Hb. apply take_S_r. unfold log_ws. by rewrite list_lookup_imap, Hb. Qed.

(** write_log(): the cached contents of the logged blocks go to the log *)
Lemma wp_write_log p s E : cinv p (logged (lg s)) [] s → log_ok (lg s) →
  wp write_log (λ _ s', cinv p (logged (lg s)) [] s' ∧ wrotes s s' (log_ws (log_start (lg s)) (logged (lg s)) (view s))) E s.
Proof.
  intros HC HG. set (g := lg s). set (bl := logged g). set (ws := log_ws (log_start g) bl (view s)).
  pose proof (lo_n _ HG : 0 ≤ lh_n g ≤ 29). pose proof (logged_len _ HG : Z.of_nat (length bl) = lh_n g).
  unfold write_log. apply (wp_for_logged _ (lh_n g) (λ k s', cinv p bl [] s' ∧ wrotes s s' (take (Z.to_nat k) ws))); [lia|..].
  - intros k s' [_ HW]. by rewrite (env_lg _ _ (ws_env _ _ _ HW)).
  - intros k s' Hk [HC' HW]. pose proof (env_lg _ _ (ws_env _ _ _ HW)) as El. fold g in El.
    destruct (logged_steps HG Hk) as (b & Hb & Hb' & Hin & Hr & Hne & Hn & Hk'). fold g bl in Hb, Hb', Hin, Hne, Hn.
    eapply wp_mono; [apply (wp_write_log_one p bl s' HC' k b)|intros [] s2 [HC2 HW2]|intros ??; exact id];
      rewrite ?El; try done; try lia; try apply HG.
    + split; [done|]. replace (Z.to_nat (k + 1)) with (S (Z.to_nat k)) by lia. unfold ws. rewrite (log_ws_take _ _ _ _ _ Hb).
      fold ws. rewrite El in HW2. rewrite (ws_view _ _ _ HW) in HW2. rewrite apply_ws_out in HW2.
      * replace (log_start g + 1 + Z.of_nat (Z.to_nat k)) with (log_start g + k + 1) by lia. by eapply wrotes_snoc.
      * intros Hx. rewrite take_fst in Hx. apply subseteq_take in Hx.
        apply log_ws_fst in Hx as [Hx _]; [|lia]. by apply (lo_out _ HG b Hin).
  - split; [done|]. apply wrotes_nil.
  - intros s' [HC' HW]. split; [done|]. rewrite take_ge in HW; [done|]. unfold ws, log_ws. rewrite length_imap. lia.
Qed.

Lemma home_ws_take bl V k b : bl !! k = Some b → take (S k) (home_ws bl V) = take k (home_ws bl V) ++ [(b, V (Z.of_nat k))].
Proof. intros Hb. apply take_S_r. by apply home_ws_lookup. Qed.

(** install_trans(): the log blocks go home; in a commit each one is unpinned *)
Lemma wp_install_trans p s E (rec : bool) : let bl := logged (lg s) in
  cinv p (if rec then [] else bl) [] s → log_ok (lg s) →
  wp (install_trans rec) (λ _ s', cinv p [] [] s' ∧
    wrotes s s' (home_ws bl (λ j, view s (log_start (lg s) + 1 + j)))) E s.
Proof.
  intros bl HC HG. set (g := lg s). set (ws := home_ws bl (λ j, view s (log_start g + 1 + j))).
  pose proof (lo_n _ HG : 0 ≤ lh_n g ≤ 29). pose proof (logged_len _ HG : Z.of_nat (length bl) = lh_n g).
  unfold install_trans.
  apply (wp_for_logged _ (lh_n g) (λ k s', cinv p (if rec then [] else drop (Z.to_nat k) bl) [] s' ∧ wrotes s s' (take (Z.to_nat k) ws))); [lia|..].
  - intros k s' [_ HW]. by rewrite (env_lg _ _ (ws_env _ _ _ HW)).
  - intros k s' Hk [HC' HW]. pose proof (env_lg _ _ (ws_env _ _ _ HW)) as El. fold g in El.
    destruct (logged_steps HG Hk) as (b & Hb & Hb' & Hin & Hr & Hne & Hn & Hk'). fold g bl in Hb, Hb', Hin, Hne, Hn.
    eapply wp_mono; [apply (wp_install_one p _ s' HC' k b) with (P' := if rec then [] else drop (Z.to_nat (k + 1)) bl)|intros [] s2 [HC2 HW2]|intros ??; exact id];
      rewrite ?El; try done; try lia; try apply HG.
    + destruct rec; [set_solver|]. intros Hx%subseteq_drop. done.
    + destruct rec; cbn; [lia|]. rewrite length_drop. lia.
    + destruct rec; [by left|right]. split; [done|].
      replace (Z.to_nat (k + 1)) with (S (Z.to_nat k)) by lia. by apply drop_S.
    + split; [done|]. replace (Z.to_nat (k + 1)) with (S (Z.to_nat k)) by lia.
      unfold ws. rewrite (home_ws_take _ _ _ _ Hb). fold ws. rewrite El in HW2. rewrite (ws_view _ _ _ HW), apply_ws_out in HW2.
      * replace (log_start g + 1 + Z.of_nat (Z.to_nat k)) with (log_start g + k + 1) by lia. by eapply wrotes_snoc.
      * intros Hx. rewrite take_fst in Hx. apply subseteq_take in Hx. unfold ws in Hx. by rewrite home_ws_fst in Hx.
  - split; [by destruct rec|]. apply wrotes_nil.
  - intros s' [HC' HW]. rewrite take_ge in HW; [|unfold ws, home_ws; rewrite length_imap; lia]. split; [|done].
    destruct rec; [done|]. by rewrite drop_ge in HC' by lia.
Qed.

(** ** The header block *)

Lemma put_blocks_snoc k bl b d : put_blocks k (bl ++ [b]) d = put_u32 (lh_off (k + Z.of_nat (length bl))) b (put_blocks k bl d).
Proof.
  revert k d. induction bl as [|c bl IH]; intros k d; cbn [app put_blocks length]; [by rewrite Z.add_0_r|].
  rewrite IH. do 2 f_equal. lia.
Qed.

(** bwrite() and brelse() of a buffer in hand *)
Lemma wp_write_out p P H i bn d s0 s E : hold p P H i bn d s0 s →
  wp (do! bwrite i in brelse i) (λ _ s', cinv p P H s' ∧ wrote s0 s' bn d) E s.
Proof.
  intros [HC Hr Hp Hb Hd Hv Ho]. apply wp_bind, (wp_bwrite_c p P i H s HC). intros HC' Hv'.
  destruct (ci_bc _ _ _ _ HC) as [l HB]. destruct (hand_facts _ _ _ _ _ HC) as (Hi & _ & _ & _ & Hlk & _).
  pose proof (written_buf l s i HB Hi Hlk i) as Hat. rewrite decide_True in Hat by done.
  assert (wrote s0 (written s i) bn d) as HW.
  { constructor; try done.
    - unfold env. change (rest (written s i)) with
        (set_dtrace (dtrace (written s i)) (set_disk (disk (written s i)) (rest s))). by rewrite Hr.
    - change (dtrace s ++ [(b_blockno (buf_at i s), b_data (buf_at i s))] = dtrace s0 ++ [(bn, d)]).
      by rewrite Hb, Hd, (rest_trace _ _ Hr).
    - intros x. rewrite blk_written, Hb, Hd. unfold dset. case_decide; [done|by apply rest_blk].
    - intros x. by rewrite Hv', Hv. }
  apply (wp_brelse_c p P i H _ HC').
  - intros _. rewrite Hat. cbn. rewrite Hb, Hd, (wr_disk _ _ _ _ HW). unfold dset. by rewrite decide_True.
  - intros s' HC2 Hsf _. split; [done|]. by eapply wrote_same_fs.
Qed.

(** write_head(): the header block gets the logged list *)
Lemma wp_write_head p P s E : cinv p P [] s → log_ok (lg s) → (length P < 30)%nat →
  wp write_head (λ _ s', cinv p P [] s' ∧ wrote s s' (log_start (lg s)) (enc (logged (lg s)) (view s (log_start (lg s))))) E s.
Proof.
  intros HC HG Hlen. set (g := lg s). set (bl := logged g). set (d0 := view s (log_start g)).
  pose proof (lo_n _ HG : 0 ≤ lh_n g ≤ 29). pose proof (logged_len _ HG : Z.of_nat (length bl) = lh_n g) as Hbl.
  pose proof (lo_start _ HG : 0 ≤ log_start g < 2 ^ 31 - 31).
  unfold write_head. wp_k. rewrite (lo_dev _ HG). fold g. rewrite (u32_small (log_start g)) by lia.
  apply (hold_bread p P [] s); [done|set_solver|right; simpl; lia|]. intros i s1 HO. pose proof (hold_len HO) as Hd0.
  apply wp_bind, (hold_upd HO _ (put_u32 0 (lh_n g) d0)); [by rewrite (ho_data _ _ _ _ _ _ _ _ HO)|rewrite length_put_u32; fold d0 in Hd0; lia|].
  intros s2 HO2. apply wp_bind.
  apply (wp_for_logged _ (lh_n g) (λ k s', hold p P [] i (log_start g) (put_blocks 0 (take (Z.to_nat k) bl) (put_u32 0 (lh_n g) d0)) s s')); [lia|..].
  - intros k s' HO'. by rewrite (f_equal lg (ho_rest _ _ _ _ _ _ _ _ HO') : lg s' = g).
  - intros k s' Hk HO'. pose proof (f_equal lg (ho_rest _ _ _ _ _ _ _ _ HO') : lg s' = g) as El.
    destruct (logged_steps HG Hk) as (b & Hb & Hb' & _ & _ & _ & _ & Hk'). fold g bl in Hb, Hb'.
    apply wp_bind, (wp_lh_get k b); [by rewrite El|lia|].
    apply (hold_upd HO' _ (put_u32 (lh_off k) b (b_data (buf_at i s')))); [done|rewrite length_put_u32|].
    + by rewrite (ho_data _ _ _ _ _ _ _ _ HO'), (hold_len HO').
    + rewrite (ho_data _ _ _ _ _ _ _ _ HO'), (hold_len HO'). unfold lh_off. lia.
    + intros s3 HO3. rewrite (ho_data _ _ _ _ _ _ _ _ HO') in HO3.
      replace (Z.to_nat (k + 1)) with (S (Z.to_nat k)) by lia. rewrite (take_S_r _ _ _ Hb), put_blocks_snoc, length_take_le by lia.
      by rewrite Z.add_0_l, Z2Nat.id by lia.
  - by rewrite take_0.
  - intros s' HO'. rewrite take_ge in HO' by lia. rewrite <- Hbl in HO'. fold (enc bl d0) in HO'. by apply (wp_write_out _ _ _ _ _ _ _ _ _ HO').
Qed.

Lemma wrote_wrotes s s' b d : wrote s s' b d → wrotes s s' [(b, d)].
Proof. intros []. by split. Qed.

(** ** commit() *)

Lemma cinv_set_lg p P H s g : cinv p P H s → cinv p P H (set_lg g s).
Proof. intros [[l HB] H1 H2 H3 H4 H5 H6 H7]. split; try done. exists l. destruct HB. by split. Qed.

Lemma log_ok_zero g : log_ok g → log_ok (set_lh_n 0 g) ∧ logged (set_lh_n 0 g) = [].
Proof. intros [Hd Hs Hn Hl Hnd Ho]. split; [split; cbn; try done|done]; [by apply NoDup_nil|set_solver]. Qed.

(** what the committed transaction leaves *)
Record committed (s s' : K) (ws : list (Z * list Z)) : Prop := {
  cm_lg : lg s' = set_lh_n 0 (lg s);
  cm_env : set_lg (lg s) (env s') = env s;
  cm_pids : pids s' = pids s;
  cm_trace : dtrace s' = dtrace s ++ ws;
  cm_disk x : blk s' x = apply_ws ws (blk s) x;
  cm_view x : ¬ in_log (log_start (lg s)) x → view s' x = view s x;
}.

Section Commit.
Context (p : nat) (s : K) (HC : cinv p (logged (lg s)) [] s) (HG : log_ok (lg s)).
Let g := lg s.
Let start := log_start g.
Let bl := logged g.
Context (H0 : hn start (blk s) = 0).

Lemma head_clean : view s start = blk s start.
Proof using All.
  apply (clean_view _ _ _ _ HC); [|set_solver]. intros Hin. destruct (lo_out _ HG _ Hin) as [_ Ho]. apply Ho. unfold in_log, start, g. lia.
Qed.

Lemma head_facts : hn start (view s) = 0 ∧ length (view s start) = 1024%nat ∧ (length bl ≤ 29)%nat.
Proof using All.
  destruct (ci_bc _ _ _ _ HC) as [l HB]. unfold hn. rewrite head_clean. split_and!; [exact H0|apply (bc_disk _ _ HB)|].
  pose proof (logged_len _ HG : Z.of_nat (length bl) = lh_n g). pose proof (lo_n _ HG : 0 ≤ lh_n g ≤ 29). lia.
Qed.

Lemma head_not_logged : start ∉ (log_ws start bl (view s)).*1.
Proof using All. intros Hx. apply log_ws_fst in Hx; [tauto|]. apply head_facts. Qed.

(** after write_log() and write_head(), install_trans() writes the cached contents home *)
Lemma install_writes s1 s2 : wrotes s s1 (log_ws start bl (view s)) → wrote s1 s2 start (enc bl (view s1 start)) →
  home_ws bl (λ j, view s2 (start + 1 + j)) = inst_ws bl (view s).
Proof using All.
  intros HW1 HW2. apply list_eq. intros j. unfold home_ws, inst_ws. rewrite list_lookup_imap, list_lookup_fmap.
  destruct (bl !! j) as [b|] eqn:Hj; [|done]. cbn. do 2 f_equal.
  rewrite (wr_view _ _ _ _ HW2). unfold dset. rewrite decide_False by lia. rewrite (ws_view _ _ _ HW1).
  destruct head_facts as (F1 & F2 & F3). apply (D1_log start (view s) bl (view s)); try done.
  - apply (lo_nodup _ HG).
  - intros c Hc. by apply (lo_out _ HG).
Qed.

Lemma inst_ws_view x : apply_ws (inst_ws bl (view s)) (view s) x = view s x.
Proof using All.
  destruct (decide (x ∈ bl)) as [Hin|Hn].
  - apply list_elem_of_lookup_1 in Hin as [j Hj]. apply (apply_ws_in _ _ j); [rewrite inst_ws_fst; apply (lo_nodup _ HG)|].
    unfold inst_ws. by rewrite list_lookup_fmap, Hj.
  - apply apply_ws_out. by rewrite inst_ws_fst.
Qed.

(** the last write: the header with no blocks *)
Lemma commit_end s3 s4 :
  wrotes s s3 ((log_ws start bl (view s) ++ [(start, enc bl (blk s start))]) ++ inst_ws bl (view s)) →
  wrote (set_lg (set_lh_n 0 g) s3) s4 start (enc [] (view s3 start)) →
  committed s s4 (commit_ws start (blk s) bl (view s)).
Proof using All.
  intros HW HW4.
  assert (view s3 start = enc bl (blk s start)) as E3.
  { rewrite (ws_view _ _ _ HW), !apply_ws_app, apply_ws_out.
    - cbn. unfold dset. by rewrite decide_True.
    - rewrite inst_ws_fst. intros Hin. destruct (lo_out _ HG _ Hin) as [_ Ho]. apply Ho. unfold in_log, start, g. lia. }
  rewrite E3 in HW4. split.
  - exact (env_lg _ _ (wr_env _ _ _ _ HW4)).
  - rewrite (wr_env _ _ _ _ HW4). change (set_lg (lg s) (env s3) = env s). by rewrite (ws_env _ _ _ HW).
  - rewrite (wr_pids _ _ _ _ HW4). apply (ws_pids _ _ _ HW).
  - rewrite (wr_trace _ _ _ _ HW4). change (dtrace (set_lg (set_lh_n 0 g) s3)) with (dtrace s3). rewrite (ws_trace _ _ _ HW).
    unfold commit_ws. by rewrite <- !app_assoc.
  - intros x. rewrite (wr_disk _ _ _ _ HW4). change (blk (set_lg (set_lh_n 0 g) s3)) with (blk s3).
    unfold commit_ws. rewrite app_assoc, app_assoc, apply_ws_app. cbn. unfold dset. by rewrite (ws_disk _ _ _ HW).
  - intros x Hx. rewrite (wr_view _ _ _ _ HW4). unfold dset. rewrite decide_False by (intros ->; apply Hx; unfold in_log, start, g; lia).
    change (view (set_lg (set_lh_n 0 g) s3) x) with (view s3 x). rewrite (ws_view _ _ _ HW), apply_ws_app.
    transitivity (apply_ws (inst_ws bl (view s)) (view s) x); [|apply inst_ws_view].
    destruct (decide (x ∈ bl)) as [[j Hj]%list_elem_of_lookup_1|Hn].
    + assert (inst_ws bl (view s) !! j = Some (x, view s x)) by (unfold inst_ws; by rewrite list_lookup_fmap, Hj).
      by rewrite !(apply_ws_in (inst_ws bl (view s)) _ j x (view s x)) by (rewrite ?inst_ws_fst; done || apply (lo_nodup _ HG)).
    + rewrite !apply_ws_out; rewrite ?inst_ws_fst; try done. rewrite fmap_app. intros [Hl|Hl]%elem_of_app.
      * apply log_ws_fst in Hl as [Hl _]; [done|apply head_facts].
      * cbn in Hl. apply list_elem_of_singleton in Hl as ->. apply Hx. unfold in_log, start, g. lia.
Qed.

Lemma wp_commit E : (0 < lh_n g) →
  wp commit (λ _ s', cinv p [] [] s' ∧ committed s s' (commit_ws start (blk s) bl (view s))) E s.
Proof using All.
  intros Hn. destruct head_facts as (F1 & F2 & F3). pose proof head_not_logged as Hnl. pose proof head_clean as Hcl.
  unfold commit. apply wp_bind, wp_gets. fold g. btrue (0 <? lh_n g). cbn [when].
  apply wp_bind. eapply wp_mono; [by apply wp_write_log|intros [] s1 [HC1 HW1]|intros ??; exact id].
  pose proof (env_lg _ _ (ws_env _ _ _ HW1)) as El1.
  apply wp_bind. eapply wp_mono; [apply (wp_write_head p bl s1)|intros [] s2 [HC2 HW2]|intros ??; exact id]; [done|by rewrite El1|lia|].
  rewrite El1 in HW2. fold g start bl in HW1, HW2. pose proof (install_writes _ _ HW1 HW2) as Hinst.
  assert (view s1 start = blk s start) as Hs1 by (rewrite (ws_view _ _ _ HW1), apply_ws_out by done; exact Hcl).
  rewrite Hs1 in HW2. pose proof (env_lg _ _ (wr_env _ _ _ _ HW2)) as El2. rewrite El1 in El2.
  apply wp_bind. eapply wp_mono; [apply (wp_install_trans p s2 _ false); rewrite El2; done|intros [] s3 [HC3 HW3]|intros ??; exact id].
  rewrite El2 in HW3. fold g start bl in HW3. rewrite Hinst in HW3. pose proof (env_lg _ _ (ws_env _ _ _ HW3)) as El3. rewrite El2 in El3.
  pose proof (wrotes_app _ _ _ _ _ (wrotes_snoc _ _ _ _ _ _ HW1 HW2) HW3) as HW.
  apply wp_bind, wp_modify. rewrite El3. destruct (log_ok_zero g HG) as [HG' _].
  eapply wp_mono; [apply (wp_write_head p [])|intros [] s4 [HC4 HW4]|intros ??; exact id]; [by apply cinv_set_lg|exact HG'|simpl; lia|].
  split; [done|]. by apply (commit_end s3).
Qed.

End Commit.

(** ** Recovery *)

(** read_head(): the list of the header block, the array of LOGSIZE entries updated in place *)
Lemma wp_read_blocks bl g s1 (Q : unit → K → Prop) E (n : Z) (f : Z → Z) :
  n = Z.of_nat (length bl) → lg s1 = set_lh_n n g → 0 ≤ n ≤ 30 → length (lh_block g) = 30%nat →
  (∀ k b, bl !! k = Some b → f (Z.of_nat k) = b) →
  (∀ bs, length bs = 30%nat → take (Z.to_nat n) bs = bl → Q tt (set_lg (set_lh_n n (set_lh_block bs g)) s1)) →
  wp (for_logged (λ k, lh_put k (f k))) Q E s1.
Proof.
  intros En Eg Hn Hlen Hf HQ.
  apply (wp_for_logged _ n (λ k s', ∃ bs, s' = set_lg (set_lh_n n (set_lh_block bs g)) s1 ∧ length bs = 30%nat ∧
      take (Z.to_nat k) bs = take (Z.to_nat k) bl)); [lia|..].
  - intros k s' (bs & -> & _). done.
  - intros k s' Hk (bs & -> & Hbs & Hpre). unfold lh_put. btrue ((0 <=? k) && (k <? LOGSIZE)). apply wp_modify. kst.
    exists (<[Z.to_nat k := f k]> bs). split_and!; [done|by rewrite length_insert|].
    replace (Z.to_nat (k + 1)) with (S (Z.to_nat k)) by lia.
    destruct (lookup_lt_is_Some_2 bl (Z.to_nat k)) as [b Hb]; [lia|].
    rewrite (take_S_r bl _ _ Hb), (take_S_r _ _ b); [by rewrite take_insert_ge, Hpre by lia|].
    rewrite list_lookup_insert_eq by lia. rewrite <- (Hf _ _ Hb). f_equal. f_equal. lia.
  - exists (lh_block g). split_and!; [|done|by rewrite !take_0].
    replace (set_lh_n n (set_lh_block (lh_block g) g)) with (lg s1) by (rewrite Eg; by destruct g). by destruct s1.
  - intros s' (bs & -> & Hbs & Hpre). apply HQ; [done|]. by rewrite Hpre, firstn_all2 by lia.
Qed.

Lemma wp_read_head p s E : cinv p [] [] s → log_dev (lg s) = ROOTDEV → 0 ≤ log_start (lg s) < 2 ^ 31 - 31 →
  length (lh_block (lg s)) = 30%nat → log_wf (log_start (lg s)) (blk s) →
  wp read_head (λ _ s', ∃ bs, let g' := set_lh_n (hn (log_start (lg s)) (blk s)) (set_lh_block bs (lg s)) in
    cinv p [] [] s' ∧ log_ok g' ∧ logged g' = hblocks (log_start (lg s)) (blk s) ∧
    rest s' = set_lg g' (rest s) ∧ pids s' = pids s ∧ ∀ x, view s' x = view s x) E s.
Proof.
  intros HC Hdev Hst Hlen HW. set (start := log_start (lg s)) in *. set (D := blk s) in *. pose proof (lw_n _ _ HW) as Hn.
  assert (view s start = D start) as Hcl by (apply (clean_view _ _ _ _ HC); set_solver).
  unfold read_head. wp_k. rewrite Hdev. fold start. rewrite (u32_small start) by lia.
  apply (hold_bread p [] [] s); [done|set_solver|right; simpl; lia|]. intros i s1 HO. rewrite Hcl in HO.
  wp_k1. wp_k1. rewrite (ho_data _ _ _ _ _ _ _ _ HO). fold (hn start D). apply wp_bind, wp_modify.
  pose proof (f_equal lg (ho_rest _ _ _ _ _ _ _ _ HO) : lg s1 = lg s) as El. rewrite El.
  apply wp_bind, (wp_read_blocks (hblocks start D) (lg s) _ _ _ (hn start D)); [by rewrite length_hblocks by lia|done|lia|done|..].
  { intros k b (j & -> & [-> _]%lookup_seqZ)%list_lookup_fmap_Some. by rewrite Z.add_0_l. }
  intros bs Hbs Htk. change (wp (brelse i) (λ _ s', ∃ bs, let g' := set_lh_n (hn start D) (set_lh_block bs (lg s)) in
    cinv p [] [] s' ∧ log_ok g' ∧ logged g' = hblocks start D ∧
    rest s' = set_lg g' (rest s) ∧ pids s' = pids s ∧ ∀ x, view s' x = view s x) E (set_lg (set_lh_n (hn start D) (set_lh_block bs (lg s))) s1)).
  set (g' := set_lh_n (hn start D) (set_lh_block bs (lg s))). destruct HO as [HC1 Hr Hp Hb Hd Hv _].
  apply (wp_brelse_c p [] i [] _ (cinv_set_lg _ _ _ _ g' HC1)).
  { intros _. change (b_data (buf_at i s1) = blk s1 (b_blockno (buf_at i s1))). by rewrite Hd, Hb, (rest_blk _ _ _ Hr). }
  intros s' HC' [Hr' Hp' Hv'] _. exists bs. split_and!; [done| |exact Htk| | |].
  - destruct HW as [H1 H2 H3 H4]. rewrite <- Htk in H2, H3. by split.
  - rewrite Hr'. change (set_lg g' (rest s1) = set_lg g' (rest s)). by rewrite Hr.
  - by rewrite Hp'.
  - intros x. rewrite Hv'. change (view s1 x = view s x). rewrite Hv. case_decide; congruence.
Qed.

(** recover_from_log(): the blocks of the header go home, then the header is cleared *)
Lemma wp_recover_from_log p s E : cinv p [] [] s → log_dev (lg s) = ROOTDEV → 0 ≤ log_start (lg s) < 2 ^ 31 - 31 →
  length (lh_block (lg s)) = 30%nat → log_wf (log_start (lg s)) (blk s) →
  wp recover_from_log (λ _ s', cinv p [] [] s' ∧ dtrace s' = dtrace s ++ recover_ws (log_start (lg s)) (blk s) ∧
    (∀ x, blk s' x = apply_ws (recover_ws (log_start (lg s)) (blk s)) (blk s) x) ∧
    (∃ bs, lg s' = set_lh_n 0 (set_lh_block bs (lg s))) ∧ pids s' = pids s) E s.
Proof.
  intros HC Hdev Hst Hlen HW. unfold recover_from_log. apply wp_bind.
  assert (∀ x, view s x = blk s x) as Hcl by (intros x; apply (clean_view _ _ _ _ HC); set_solver).
  eapply wp_mono; [by apply (wp_read_head p)|intros [] s1 (bs & HC1 & HG & Hbl & Hr1 & Hp1 & Hv1)|intros ??; exact id].
  set (start := log_start (lg s)) in *. set (D := blk s) in *. set (g' := set_lh_n _ _) in *.
  pose proof (f_equal lg Hr1 : lg s1 = g') as El1.
  apply wp_bind. eapply wp_mono; [apply (wp_install_trans p s1 _ true); rewrite ?El1; done|intros [] s2 [HC2 HW2]|intros ??; exact id].
  rewrite El1, Hbl in HW2. change (log_start g') with start in HW2. pose proof (env_lg _ _ (ws_env _ _ _ HW2)) as El2. rewrite El1 in El2.
  apply wp_bind, wp_modify. rewrite El2. destruct (log_ok_zero g' HG) as [HG' _].
  eapply wp_mono; [apply (wp_write_head p [])|intros [] s3 [HC3 HW3]|intros ??; exact id]; [by apply cinv_set_lg|exact HG'|simpl; lia|].
  assert (wrote (set_lg (set_lh_n 0 g') s2) s3 start (enc [] (view s2 start))) as HW3' by exact HW3. clear HW3.
  assert (home_ws (hblocks start D) (λ j, view s1 (start + 1 + j)) = home_ws (hblocks start D) (λ j, D (start + 1 + j))) as Ews.
  { apply list_eq. intros j. unfold home_ws. rewrite !list_lookup_imap. by rewrite Hv1, Hcl. }
  assert (view s2 start = D start) as Es2.
  { rewrite (ws_view _ _ _ HW2), apply_ws_out, Hv1, Hcl; [done|]. rewrite home_ws_fst. intros Hin.
    destruct (lw_home _ _ HW _ Hin) as [_ Ho]. apply Ho. unfold in_log. lia. }
  rewrite Es2 in HW3'. rewrite Ews in HW2. split_and!; [done|..].
  - rewrite (wr_trace _ _ _ _ HW3'). change (dtrace (set_lg (set_lh_n 0 g') s2)) with (dtrace s2). rewrite (ws_trace _ _ _ HW2).
    rewrite (f_equal dtrace Hr1 : dtrace s1 = dtrace s). unfold recover_ws. by rewrite <- app_assoc.
  - intros x. rewrite (wr_disk _ _ _ _ HW3'). change (blk (set_lg (set_lh_n 0 g') s2)) with (blk s2). unfold recover_ws.
    rewrite apply_ws_app. cbn. unfold dset. case_decide; [done|]. rewrite (ws_disk _ _ _ HW2). apply apply_ws_ext. intros y.
    unfold blk. by rewrite (f_equal disk Hr1 : disk s1 = disk s).
  - exists bs. exact (env_lg _ _ (wr_env _ _ _ _ HW3')).
  - rewrite (wr_pids _ _ _ _ HW3'). change (pids s2 = pids s). by rewrite (ws_pids _ _ _ HW2).
Qed.
