(* ===== verification/LogOps.v ===== *)
(** log_write(), begin_op(), end_op(): what a file system call does with the log. *)

From S2P Require Import Prelude Mem Layout Kalloc State Sched Ring Bio BioProofs Blocks Log LogDisk LogProofs.

(** ** Absorption *)

Lemma absorb_spec k i b bl : 0 ≤ i →
  let r := absorb k i b bl in
  i ≤ r ≤ i + Z.of_nat k ∧ (∀ j, i ≤ j < r → u32 (default 0 (bl !! Z.to_nat j)) ≠ b) ∧
  (r < i + Z.of_nat k → u32 (default 0 (bl !! Z.to_nat r)) = b).
Proof.
  revert i. induction k as [|k IH]; intros i Hi; cbn [absorb]; [split_and!; lia|].
  destruct (Z.eqb_spec (u32 (default 0 (bl !! Z.to_nat i))) b) as [E|E]; [split_and!; lia || done|].
  destruct (IH (i + 1) ltac:(lia)) as (H1 & H2 & H3). cbn zeta. split_and!; [lia|lia| |].
  - intros j Hj. destruct (decide (j = i)) as [->|]; [done|]. apply H2. lia.
  - intros Hlt. apply H3. lia.
Qed.

(** the logged list after log_write() of block [b] *)
Definition add_block (b : Z) (bl : list Z) : list Z := if decide (b ∈ bl) then bl else bl ++ [b].

Section Absorb.
Context (g : log) (HG : log_ok g) (b : Z) (Hb : 0 ≤ b < 2 ^ 31).
Let k := absorb (Z.to_nat (lh_n g)) 0 b (lh_block g).

Lemma absorb_hit : k ≠ lh_n g → 0 ≤ k < lh_n g ∧ logged g !! Z.to_nat k = Some b.
Proof using All.
  intros Hk. pose proof (lo_n _ HG). destruct (absorb_spec (Z.to_nat (lh_n g)) 0 b (lh_block g)) as (H1 & _ & H3); [lia|]. fold k in H1, H3.
  split; [lia|]. destruct (logged_block _ HG k) as (c & Hc & Hc' & Hin); [lia|]. rewrite Hc. f_equal.
  rewrite Hc' in H3. cbn in H3. rewrite u32_small in H3; [apply H3; lia|]. destruct (lo_out _ HG c Hin). lia.
Qed.

Lemma absorb_miss : k = lh_n g → b ∉ logged g.
Proof using All.
  intros Hk [j Hj]%list_elem_of_lookup_1. pose proof (lo_n _ HG). pose proof (logged_len _ HG). pose proof (lookup_lt_Some _ _ _ Hj).
  destruct (absorb_spec (Z.to_nat (lh_n g)) 0 b (lh_block g)) as (_ & H2 & _); [lia|]. fold k in H2.
  apply (H2 (Z.of_nat j)); [lia|]. rewrite Nat2Z.id. unfold logged in Hj. apply lookup_take_Some in Hj as [-> _]. apply u32_small. lia.
Qed.

(** the log after a hit is the log itself *)
Lemma absorb_same : k ≠ lh_n g → set_lh_block (<[Z.to_nat k := b]> (lh_block g)) g = g.
Proof using All.
  intros Hk. destruct (absorb_hit Hk) as [Hr Hl]. unfold logged in Hl. apply lookup_take_Some in Hl as [Hl _].
  rewrite list_insert_id by done. by destruct g.
Qed.

Lemma absorb_new : k = lh_n g → lh_n g < 29 → ¬ in_log (log_start g) b →
  let g' := set_lh_n (lh_n g + 1) (set_lh_block (<[Z.to_nat k := b]> (lh_block g)) g) in
  logged g' = logged g ++ [b] ∧ log_ok g'.
Proof using All.
  intros Hk Hn Ho. pose proof (absorb_miss Hk) as Hmiss. destruct HG as [Hd Hs Hn0 Hlen Hnd Hout]. cbn zeta. rewrite Hk.
  assert (logged (set_lh_n (lh_n g + 1) (set_lh_block (<[Z.to_nat (lh_n g) := b]> (lh_block g)) g)) = logged g ++ [b]) as El.
  { unfold logged. cbn. replace (Z.to_nat (lh_n g + 1)) with (S (Z.to_nat (lh_n g))) by lia.
    rewrite (take_S_r _ _ b) by (rewrite list_lookup_insert_eq; [done|lia]). by rewrite take_insert_ge by lia. }
  split; [done|]. split; try done; rewrite ?El; cbn.
  - lia.
  - by rewrite length_insert.
  - apply NoDup_app. split_and!; [done|set_solver|apply NoDup_singleton].
  - intros x [Hx| ->%list_elem_of_singleton]%elem_of_app; [by apply Hout|done].
Qed.

End Absorb.

(** ** log_write() *)

(** what log_write() changes *)
Record noted (s s' : K) (b : Z) : Prop := {
  nt_ok : log_ok (lg s');
  nt_logged : logged (lg s') = add_block b (logged (lg s));
  nt_log : ∃ bs, lg s' = set_lh_n (Z.of_nat (length (logged (lg s')))) (set_lh_block bs (lg s));
  nt_rest : rest s' = set_lg (lg s') (rest s);
  nt_procs : procs s' = procs s;
  nt_view x : view s' x = view s x;
  nt_bufs j : b_blockno (buf_at j s') = b_blockno (buf_at j s) ∧ b_data (buf_at j s') = b_data (buf_at j s);
}.

Section Write.
Context (p : nat) (H : list nat) (i : nat) (s : K) (HC : cinv p (logged (lg s)) (i :: H) s) (HG : log_ok (lg s)).
Let g := lg s.
Let b := b_blockno (buf_at i s).
Context (Hsize : log_size g = 30) (Hout : 1 ≤ log_outstanding g) (Hb : 0 ≤ b < 2 ^ 31) (Ho : ¬ in_log (log_start g) b).

Lemma noted_same : b ∈ logged g → cinv p (logged g) (i :: H) s ∧ noted s s b.
Proof using All.
  intros Hin. split; [done|]. split; try done.
  - unfold add_block. by rewrite decide_True.
  - exists (lh_block g). rewrite (logged_len _ HG). fold g. by destruct g.
Qed.

Lemma noted_new g' bs : g' = set_lh_n (lh_n g + 1) (set_lh_block bs g) → log_ok g' → (b ∉ logged g) → logged g' = logged g ++ [b] →
  let s' := set_lg g' (set_bufs (alter (λ b, set_b_refcnt (u32 (b_refcnt b + 1)) b) i (bufs s)) s) in
  cinv p (logged g') (i :: H) s' ∧ noted s s' b.
Proof using All.
  intros Eg HG' Hn El s'. destruct (ci_bc _ _ _ _ HC) as [l HB].
  destruct (hand_facts _ _ _ _ _ HC) as (Hi & _ & _ & _ & _ & Hr). fold b g in Hr.
  split.
  - unfold s'. apply cinv_set_lg. eapply cinv_perm; [|reflexivity|by apply (cinv_pin p (logged g) i H s)].
    rewrite El. fold b. by rewrite Permutation_app_comm.
  - unfold s'. rewrite (alter_buf l s HB), Hr, bool_decide_false by done.
    destruct (count_same p (logged g) i H s HC (u32 (1 + b2z false + 1))) as [Hsf Hbufs]; [by vm_compute|].
    fold (with_buf s i (set_b_refcnt (u32 (1 + b2z false + 1)) (buf_at i s))). split; try done.
    + unfold add_block. by rewrite decide_False.
    + exists bs. change (lg (set_lg g' (with_buf s i (set_b_refcnt (u32 (1 + b2z false + 1)) (buf_at i s))))) with g'.
      rewrite (logged_len _ HG'). rewrite Eg. done.
    + apply (sf_view _ _ Hsf).
Qed.

Lemma wp_log_write E : lh_n g < 29 →
  wp (log_write i) (λ _ s', cinv p (logged (lg s')) (i :: H) s' ∧ noted s s' b) E s.
Proof using All.
  intros Hn. unfold log_write. pose proof (lo_n _ HG : 0 ≤ lh_n g ≤ 29).
  assert (held s = []) as Hh by apply (ci_held _ _ _ _ HC).
  apply wp_bind, wp_acquire; [rewrite Hh; set_solver|]. wp_k1. kst. fold g b.
  apply wp_get. change (lg (set_held (LkLog :: held s) s)) with g. change (b_blockno (buf_at i (set_held (LkLog :: held s) s))) with b.
  bfalse ((LOGSIZE <=? lh_n g) || (log_size g - 1 <=? lh_n g)). bfalse (log_outstanding g <? 1). rewrite s32_small by lia.
  set (k := absorb _ _ _ _). 
  assert (0 ≤ k ≤ lh_n g) as Hk by (destruct (absorb_spec (Z.to_nat (lh_n g)) 0 b (lh_block g)) as (Hk & _); unfold k; lia).
  unfold lh_put. btrue ((0 <=? k) && (k <? LOGSIZE)). apply wp_bind, wp_modify. kst. fold g. apply wp_bind, wp_when; intros Ek.
  - assert (k = lh_n g) as Ek' by lia. destruct (absorb_new g HG b Hb Ek' Hn Ho) as [El HG'].
    apply wp_bind, wp_bpin; [kproj; rewrite Hh; set_solver|]. apply wp_modify. eapply wp_release_head; [kproj; by rewrite Hh|]. kst.
    apply (noted_new _ (<[Z.to_nat k := b]> (lh_block g))) in HG' as [HC' HN]; [|done|by apply (absorb_miss g HG b Hb)|done].
    rewrite (set_held_same s []) by done. split; [exact HC'|exact HN].
  - assert (k ≠ lh_n g) as Ek' by lia. eapply wp_release_head; [kproj; by rewrite Hh|]. kst.
    pose proof (absorb_same g HG b Hb Ek') as Es. fold g k in Es. rewrite Es.
    destruct (absorb_hit g HG b Hb Ek') as [_ Hin%list_elem_of_lookup_2]. rewrite (set_held_same s []) by done.
    replace (set_lg g s) with s by (by destruct s). by apply noted_same.
Qed.

End Write.

(** ** end_op() *)

Lemma cinv_procs p P H s ps : p_pid <$> ps = p_pid <$> procs s → cinv p P H s → cinv p P H (set_procs ps s).
Proof.
  intros Hp [[l HB] H1 H2 H3 H4 H5 H6 H7]. split; try done.
  - exists l. destruct HB. by split.
  - intros i Hi. destruct (H3 i Hi) as (? & ? & ? & ?). split_and!; try done. by rewrite (pid_of_pids p s).
Qed.

Lemma cinv_unlocked p P H s : cinv p P H s → proc_unlocked s.
Proof. intros HC i _. rewrite (ci_held _ _ _ _ HC). set_solver. Qed.

(** what a completed transaction leaves: an idle log, the blocks at home *)
Record ended (s s' : K) : Prop := {
  en_lg : lg s' = set_log_outstanding 0 (set_log_committing false (set_lh_n 0 (lg s)));
  en_env : set_lg (lg s) (env s') = env s;
  en_pids : pids s' = pids s;
  en_trace : dtrace s' = dtrace s ++ (if 0 <? lh_n (lg s) then commit_ws (log_start (lg s)) (blk s) (logged (lg s)) (view s) else []);
  en_home x : ¬ in_log (log_start (lg s)) x → blk s' x = view s x ∧ view s' x = view s x;
}.

Section End.
Context (p : nat) (s : K) (HC : cinv p (logged (lg s)) [] s) (HG : log_ok (lg s)).
Let g := lg s.
Context (H0 : hn (log_start g) (blk s) = 0) (Hcom : log_committing g = false).

Lemma wp_commit_or_not E (s1 := set_lg (set_log_committing true (set_log_outstanding 0 g)) s) :
  wp commit (λ _ s', cinv p [] [] s' ∧ lg s' = set_lh_n 0 (lg s1) ∧ set_lg (lg s) (env s') = env s ∧ pids s' = pids s ∧
    dtrace s' = dtrace s ++ (if 0 <? lh_n g then commit_ws (log_start g) (blk s) (logged g) (view s) else []) ∧
    (∀ x, ¬ in_log (log_start g) x → view s' x = view s x)) E s1.
Proof using All.
  assert (cinv p (logged (lg s1)) [] s1) as HC1 by (by apply (cinv_set_lg p (logged g))).
  assert (log_ok (lg s1)) as HG1 by (destruct HG; by split).
  destruct (0 <? lh_n g) eqn:En.
  - eapply wp_mono; [apply (wp_commit p s1 HC1 HG1 H0); change (0 < lh_n g); lia| |intros ??; exact id].
    intros [] s' [HC' [L1 L2 L3 L4 L5 L6]]. split_and!; try done.
    transitivity (set_lg (lg s) (set_lg (lg s1) (env s'))); [done|]. by rewrite L2.
  - unfold commit. apply wp_bind, wp_gets. change (lh_n (lg s1)) with (lh_n g). rewrite En. cbn [when]. apply wp_ret.
    pose proof (lo_n _ HG : 0 ≤ lh_n g ≤ 29). assert (lh_n g = 0) as E0 by lia. rewrite app_nil_r. split_and!; try done.
    + unfold logged in HC1. change (lh_n (lg s1)) with (lh_n g) in HC1. by rewrite E0 in HC1.
    + unfold s1. kproj. cbn. fold g. unfold set_lh_n. by rewrite <- E0.
Qed.

Lemma wp_end_op_last E : log_outstanding g = 1 → wp end_op (λ _ s', cinv p [] [] s' ∧ ended s s') E s.
Proof using All.
  intros Ho. assert (held s = []) as Hh by apply (ci_held _ _ _ _ HC). unfold end_op.
  apply wp_bind, wp_acquire; [rewrite Hh; set_solver|]. apply wp_bind, wp_modify. apply wp_bind, wp_gets. kst. fold g.
  cbn [log_committing set_log_outstanding log_outstanding]. rewrite Hcom, Ho. btrue (1 - 1 =? 0).
  apply wp_bind, wp_modify. kst. apply wp_bind. eapply wp_release_head; [kproj; by rewrite Hh|]. kst. rewrite (set_held_same s []) by done.
  cbn [when]. apply wp_bind. eapply wp_mono; [apply wp_commit_or_not|intros [] s2 (HC2 & L1 & L2 & L3 & L4 & L5)|intros ??; exact id].
  assert (held s2 = []) as Hh2 by apply (ci_held _ _ _ _ HC2).
  apply wp_bind, wp_acquire; [rewrite Hh2; set_solver|]. apply wp_bind, wp_modify. kst.
  apply wp_bind, wp_wakeup; [intros j _; kproj; rewrite Hh2; set_solver|].
  eapply wp_release_head; [kproj; by rewrite Hh2|]. kst. rewrite (set_held_same s2 []) by done. rewrite L1.
  split; [by apply cinv_procs, cinv_set_lg; [apply pids_wake|]|]. split; try done.
  - rewrite <- L3. apply pids_wake.
  - intros x Hx. assert (view s2 x = blk s2 x) as Ev by (apply (clean_view _ _ _ _ HC2); set_solver).
    split; [|by apply L5]. rewrite <- (L5 x Hx). by rewrite Ev.
Qed.

(** an end_op() that is not the last one writes nothing *)
Lemma wp_end_op_more E : log_outstanding g ≠ 1 →
  wp end_op (λ _ s', s' = set_procs (wake ChLog (cur s) 64 (procs s)) (set_lg (set_log_outstanding (log_outstanding g - 1) g) s)) E s.
Proof using All.
  intros Ho. assert (held s = []) as Hh by apply (ci_held _ _ _ _ HC). unfold end_op.
  apply wp_bind, wp_acquire; [rewrite Hh; set_solver|]. apply wp_bind, wp_modify. apply wp_bind, wp_gets. kst. fold g.
  cbn [log_committing set_log_outstanding log_outstanding]. rewrite Hcom. bfalse (log_outstanding g - 1 =? 0).
  apply wp_bind, wp_wakeup; [intros j _; kproj; rewrite Hh; set_solver|].
  apply wp_bind. eapply wp_release_head; [kproj; by rewrite Hh|]. kst. rewrite (set_held_same s []) by done. done.
Qed.

End End.

(** ** begin_op() *)

(** begin_op() lets an operation in exactly when no commit is under way and the log has
    room for MAXOPBLOCKS blocks of every operation. *)
Definition admits (g : log) : bool := negb (log_committing g) && (lh_n g + (log_outstanding g + 1) * MAXOPBLOCKS <=? LOGSIZE).

Lemma wp_begin_op s (Q : unit → K → Prop) E : held s = [] → admits (lg s) = true →
  Q tt (set_lg (set_log_outstanding (log_outstanding (lg s) + 1) (lg s)) s) → wp begin_op Q E s.
Proof.
  intros Hh Ha HQ. unfold admits in Ha. unfold begin_op. apply wp_bind, wp_acquire; [rewrite Hh; set_solver|].
  apply (wp_loop_n _ (λ n _ s', n = 1 ∧ s' = set_held (LkLog :: held s) s)) with (n := 1); [|done|lia].
  intros n [] s' [-> ->]. unfold begin_turn. apply wp_bind, wp_gets. kproj. bfalse (log_committing (lg s)).
  bfalse (LOGSIZE <? lh_n (lg s) + (log_outstanding (lg s) + 1) * MAXOPBLOCKS).
  apply wp_bind, wp_modify. apply wp_bind. eapply wp_release_head; [kproj; by rewrite Hh|]. apply wp_ret. kst.
  by rewrite (set_held_same s []) by done.
Qed.

(** an operation begin_op() does not let in goes to sleep on the log, and is let in only once the log
    admits it.  [I n s]: the log is held by [p], and the rest of the system lets the operation in after at
    most [n] more wake-ups. *)
Section Wait.
Context (p : nat) (I : Z → K → Prop) (G : K → Prop) (R : K → K → Prop).
Context (HI : ∀ n s, I n s → cur s = Some p ∧ held s = [LkLog] ∧ (p < length (procs s))%nat).
Context (HR : ∀ n s, I n s → admits (lg s) = false → G (asleep p ChLog s) ∧
  ∀ s', R (asleep p ChLog s) s' → cur s' = Some p ∧ held s' = [LkProc p] ∧ ∃ n', 0 ≤ n' < n ∧ I n' (awake p LkLog (intr s) s')).

Definition let_in (s' : K) : Prop := ∃ s1 n1, I n1 s1 ∧ admits (lg s1) = true ∧
  s' = set_held [] (set_lg (set_log_outstanding (log_outstanding (lg s1) + 1) (lg s1)) s1).
Definition one_turn (n : Z) (r : unit + unit) (s' : K) : Prop :=
  match r with inl _ => ∃ n', 0 ≤ n' < n ∧ I n' s' | inr _ => let_in s' end.

Lemma sat_turn_sleep n s E : I n s → admits (lg s) = false →
  sat (one_turn n) E G R (mbnd (sleep ChLog LkLog) (λ _, ret (inl tt)) s).
Proof using All.
  intros HIs Ha. destruct (HI n s HIs) as (Hc & Hh & Hp). destruct (HR n s HIs Ha) as [HG HR'].
  apply sat_bind. apply (sat_sleep ChLog LkLog p); done.
Qed.

Lemma sat_begin_turn n s E : I n s → sat (one_turn n) E G R (begin_turn s).
Proof using All.
  intros HIs. destruct (HI n s HIs) as (Hc & Hh & Hp). unfold begin_turn, mbnd at 1, gets at 1. cbn [obind].
  destruct (admits (lg s)) eqn:Ha; pose proof Ha as Ha'; unfold admits in Ha.
  - bfalse (log_committing (lg s)). bfalse (LOGSIZE <? lh_n (lg s) + (log_outstanding (lg s) + 1) * MAXOPBLOCKS).
    apply sat_of_wp, wp_bind, wp_modify, wp_bind. eapply wp_release_head; [exact Hh|]. apply wp_ret. by exists s, n.
  - destruct (log_committing (lg s)); [by apply sat_turn_sleep|].
    btrue (LOGSIZE <? lh_n (lg s) + (log_outstanding (lg s) + 1) * MAXOPBLOCKS). by apply sat_turn_sleep.
Qed.

Lemma sat_begin_op n s E : held s = [] → I n (set_held [LkLog] s) → 0 ≤ n < 2 ^ 64 →
  sat (λ _ s', let_in s') E G R (begin_op s).
Proof using All.
  intros Hh H0 Hn. apply (sat_step _ _ tt _ (set_held [LkLog] s)).
  { unfold acquire. rewrite Hh, decide_False by set_solver. done. }
  apply (sat_loop_n (λ _ : unit, begin_turn) (λ n _ s, I n s) (λ _ s', let_in s') E G R n tt); [|done|done].
  intros n' [] s'. apply sat_begin_turn.
Qed.

End Wait.
