(* ===== verification/LogSpec.v ===== *)
(** What the log promises: a system call's writes reach the disk all or not at all, whatever the moment of a
    crash, including a crash during recovery. *)

From S2P Require Import Prelude Mem Layout Kalloc State Sched Ring Bio BioProofs Blocks BioSpec Log LogDisk LogProofs LogOps.

(** * Crashes *)

(** the machine has rebooted over the disk [D]: an empty cache, and the superblock of the log that starts at
    block [start] *)
Record rebooted (p : nat) (start : Z) (D : disk_t) (r : K) : Prop := {
  rb_cache : cinv p [] [] r;
  rb_disk x : blk r x = D x;
  rb_log : length (lh_block (lg r)) = 30%nat;
  rb_start : sb_logstart (sb r) = start;
  rb_nlog : sb_nlog (sb r) = LOGSIZE;
}.

(** the log region and header format mkfs lays out *)
Definition log_region (start : Z) : Prop := 0 ≤ start < 2 ^ 31 - 31.

Lemma wp_initlog p start D r E : rebooted p start D r → log_region start → log_wf start D →
  wp (initlog ROOTDEV (sb r)) (λ _ r', cinv p [] [] r' ∧ dtrace r' = dtrace r ++ recover_ws start D ∧
    (∀ x, blk r' x = apply_ws (recover_ws start D) D x) ∧ lh_n (lg r') = 0) E r.
Proof.
  intros [HC HD Hlen Hst Hnl] Hs HW. unfold initlog. change (BSIZE <=? LH_SIZE) with false. cbn iota. apply wp_bind, wp_modify.
  rewrite Hst, (s32_small start) by (unfold log_region in Hs; lia).
  set (g := set_log_dev _ _). assert (∀ x, blk (set_lg g r) x = D x) as HD' by exact HD.
  assert (log_wf start (blk (set_lg g r))) as HW'.
  { destruct HW as [H1 H2 H3 H4]. destruct (hblocks_header start D (blk (set_lg g r)) (HD' start)) as [En Eb].
    split; rewrite ?En, ?Eb, ?HD'; done. }
  eapply wp_mono; [apply (wp_recover_from_log p (set_lg g r))| |intros ??; exact id]; try done; [by apply cinv_set_lg|].
  assert (recover_ws start (blk (set_lg g r)) = recover_ws start D) as Er.
  { unfold recover_ws. destruct (hblocks_header start D (blk (set_lg g r)) (HD' start)) as [_ ->]. rewrite HD'. f_equal.
    unfold home_ws. apply list_eq. intros j. rewrite !list_lookup_imap. by rewrite HD'. }
  intros [] r' (HC' & Ht & Hb & (bs & Hl) & _). change (log_start (lg (set_lg g r))) with start in *. rewrite Er in Ht, Hb.
  split_and!; [done|done| |by rewrite Hl]. intros x. rewrite Hb. by apply apply_ws_ext.
Qed.

Lemma recover_full start D x : log_wf start D → ¬ in_log start x → apply_ws (recover_ws start D) D x = recovered start D x.
Proof.
  intros HW Hx. destruct (recover_prefix start D (length (recover_ws start D)) HW) as [_ Hrec].
  rewrite take_ge in Hrec by lia. rewrite <- (Hrec x Hx). symmetry. apply recovered_out.
  assert (apply_ws (recover_ws start D) D start = enc [] (D start)) as Es.
  { unfold recover_ws. rewrite apply_ws_app. cbn. unfold dset. by rewrite decide_True. }
  destruct (hblocks_enc start _ [] (D start) ltac:(simpl; lia) (lw_size _ _ HW) ltac:(done) Es) as [_ ->]. set_solver.
Qed.

(** after a reboot, recovery makes the disk what it stands for *)
Lemma initlog_recovers p start D r : rebooted p start D r → log_region start → log_wf start D →
  ∃ r', initlog ROOTDEV (sb r) r = Ret tt r' ∧ dtrace r' = dtrace r ++ recover_ws start D ∧ lh_n (lg r') = 0 ∧
        ∀ x, ¬ in_log start x → blk r' x = recovered start D x.
Proof.
  intros HR Hs HW. destruct (proj1 (wp_returns _ _ _) (wp_initlog p start D r nopanic HR Hs HW)) as ([] & r' & E & _ & Ht & Hb & Hn).
  exists r'. split_and!; try done. intros x Hx. rewrite Hb. by apply recover_full.
Qed.

(** the disk a crash in the middle of the last end_op() leaves *)
Section Cut.
Context (p : nat) (s : K) (HC : cinv p (logged (lg s)) [] s) (HG : log_ok (lg s)) (H0 : hn (log_start (lg s)) (blk s) = 0).
Let start := log_start (lg s).
Let bl := logged (lg s).

Lemma crash_disk k (ws := if 0 <? lh_n (lg s) then commit_ws start (blk s) bl (view s) else []) (D := apply_ws (take k ws) (blk s)) :
  log_wf start D ∧ ∀ x, ¬ in_log start x → recovered start D x = if decide (k ≤ length bl)%nat then blk s x else view s x.
Proof using All.
  destruct (ci_bc _ _ _ _ HC) as [l HB].
  pose proof (logged_len _ HG : Z.of_nat (length bl) = lh_n (lg s)) as Hbl. pose proof (lo_n _ HG) as Hn.
  assert (∀ x, after (blk s) bl (view s) x = view s x) as Haft.
  { intros x. unfold after. case_decide as Hx; [done|]. symmetry. apply (clean_view _ _ _ _ HC); [done|set_solver]. }
  assert (∀ k, log_wf start (apply_ws (take k (commit_ws start (blk s) bl (view s))) (blk s)) ∧
    ∀ x, ¬ in_log start x → recovered start (apply_ws (take k (commit_ws start (blk s) bl (view s))) (blk s)) x =
      if decide (k ≤ length bl)%nat then blk s x else after (blk s) bl (view s) x) as Hcut.
  { intros j. apply commit_prefix; [done|apply (bc_disk _ _ HB)|apply (lo_nodup _ HG)|lia|]. intros b Hb. by apply (lo_out _ HG). }
  unfold D, ws. destruct (0 <? lh_n (lg s)) eqn:En.
  - destruct (Hcut k) as [HW Hrec]. split; [done|]. intros x Hx. rewrite (Hrec x Hx).
    destruct (decide (k ≤ length bl)%nat); [done|apply Haft].
  - rewrite take_nil. destruct (Hcut 0%nat) as [HW Hrec]. change (take 0 (commit_ws start (blk s) bl (view s))) with (@nil (Z * list Z)) in HW, Hrec. split; [done|]. intros x Hx. rewrite (Hrec x Hx).
    rewrite decide_True by lia. destruct (decide (k ≤ length bl)%nat); [done|]. symmetry. apply (clean_view _ _ _ _ HC); [|set_solver].
    intros [j Hj%lookup_lt_Some]%list_elem_of_lookup_1. fold bl in Hj. lia.
Qed.

End Cut.

(** * The theorems *)

(** C1: a transaction is atomic.  end_op() of the last running operation commits: it writes the logged blocks to the
    log, then the header, then the blocks to their homes, then an empty header.  If the machine stops after
    any number [k] of these writes and boots again, initlog() returns and leaves every block outside the log
    either as it was before the transaction, when the header had not been written, or as the transaction left
    it, when it had; if the machine does not stop, every block is at home. *)
Theorem end_op_crash_atomic p s :
  cinv p (logged (lg s)) [] s → log_ok (lg s) → hn (log_start (lg s)) (blk s) = 0 →
  log_committing (lg s) = false → log_outstanding (lg s) = 1 →
  ∃ s' ws, end_op s = Ret tt s' ∧ dtrace s' = dtrace s ++ ws ∧
    (∀ x, ¬ in_log (log_start (lg s)) x → blk s' x = view s x) ∧
    ∀ k p' r, rebooted p' (log_start (lg s)) (apply_ws (take k ws) (blk s)) r →
      ∃ r', initlog ROOTDEV (sb r) r = Ret tt r' ∧
        ∀ x, ¬ in_log (log_start (lg s)) x →
          blk r' x = if decide (k ≤ length (logged (lg s)))%nat then blk s x else view s x.
Proof.
  intros HC HG H0 Hcom Hout.
  destruct (proj1 (wp_returns _ _ _) (wp_end_op_last p s HC HG H0 Hcom nopanic Hout)) as ([] & s' & E & HC' & HE).
  eexists s', _. split; [done|]. split; [apply (en_trace _ _ HE)|]. split; [intros x Hx; by apply (en_home _ _ HE)|].
  intros k p' r HR. destruct (crash_disk p s HC HG H0 k) as [HW Hrec].
  destruct (initlog_recovers p' _ _ r HR (lo_start _ HG) HW) as (r' & Er & _ & _ & Hb).
  exists r'. split; [done|]. intros x Hx. rewrite (Hb x Hx). by apply Hrec.
Qed.

(** C21: recovery survives crashes.  If the machine stops after any number [k] of the writes of initlog() and boots
    again, the second initlog() leaves every block outside the log as the first one would have. *)
Theorem recovery_idempotent p start D r :
  rebooted p start D r → log_region start → log_wf start D →
  ∃ r' ws, initlog ROOTDEV (sb r) r = Ret tt r' ∧ dtrace r' = dtrace r ++ ws ∧ lh_n (lg r') = 0 ∧
    ∀ k p2 r2, rebooted p2 start (apply_ws (take k ws) D) r2 →
      ∃ r2', initlog ROOTDEV (sb r2) r2 = Ret tt r2' ∧ ∀ x, ¬ in_log start x → blk r2' x = blk r' x.
Proof.
  intros HR Hs HW. destruct (initlog_recovers p start D r HR Hs HW) as (r' & E & Ht & Hn & Hb).
  exists r', (recover_ws start D). split_and!; try done. intros k p2 r2 HR2.
  destruct (recover_prefix start D k HW) as [HW2 Hrec].
  destruct (initlog_recovers p2 start _ r2 HR2 Hs HW2) as (r2' & E2 & _ & _ & Hb2).
  exists r2'. split; [done|]. intros x Hx. by rewrite Hb2, Hb, Hrec.
Qed.

(** log_write() records a block once.  Inside a transaction with room in the log it appends the number of a
    block that is not logged yet and pins its buffer, so that it stays in the cache until the commit; a block
    that is already logged is absorbed; the contents of the cache do not change. *)
Theorem log_write_absorbs p H i s :
  cinv p (logged (lg s)) (i :: H) s → log_ok (lg s) → log_size (lg s) = LOGSIZE → 1 ≤ log_outstanding (lg s) →
  lh_n (lg s) < LOGSIZE - 1 → 0 ≤ b_blockno (buf_at i s) < 2 ^ 31 → ¬ in_log (log_start (lg s)) (b_blockno (buf_at i s)) →
  ∃ s', log_write i s = Ret tt s' ∧ cinv p (logged (lg s')) (i :: H) s' ∧ log_ok (lg s') ∧
    logged (lg s') = add_block (b_blockno (buf_at i s)) (logged (lg s)) ∧ ∀ x, view s' x = view s x.
Proof.
  intros HC HG Hsz Hout Hn Hb Ho. assert (lh_n (lg s) < 29) as Hn' by (revert Hn; consts; lia).
  destruct (proj1 (wp_returns _ _ _) (wp_log_write p H i s HC HG Hsz Hout Hb Ho nopanic Hn')) as ([] & s' & E & HC' & []).
  by exists s'.
Qed.

(** begin_op() waits for room.  Whatever the other processes do while it sleeps, as long as they let it in after
    finitely many wake-ups, begin_op() returns, and when it does no commit is under way and the log has room for
    MAXOPBLOCKS blocks of every operation, itself included. *)
Theorem begin_op_waits_for_room p I G R n s :
  (∀ n s, I n s → cur s = Some p ∧ held s = [LkLog] ∧ (p < length (procs s))%nat) →
  (∀ n s, I n s → admits (lg s) = false → G (asleep p ChLog s) ∧
     ∀ s', R (asleep p ChLog s) s' → cur s' = Some p ∧ held s' = [LkProc p] ∧ ∃ n', 0 ≤ n' < n ∧ I n' (awake p LkLog (intr s) s')) →
  held s = [] → I n (set_held [LkLog] s) → 0 ≤ n < 2 ^ 64 →
  sat (λ _ s', ∃ s1 n1, I n1 s1 ∧ admits (lg s1) = true ∧
         s' = set_held [] (set_lg (set_log_outstanding (log_outstanding (lg s1) + 1) (lg s1)) s1)) nopanic G R (begin_op s).
Proof. intros HI HR Hh H0 Hn. exact (sat_begin_op p I G R HI HR n s nopanic Hh H0 Hn). Qed.

(** the log between system calls, as initlog() leaves it *)
Definition idle (s : K) : Prop :=
  held s = [] ∧ log_committing (lg s) = false ∧ log_outstanding (lg s) = 0 ∧ lh_n (lg s) = 0 ∧ log_size (lg s) = LOGSIZE.

(** C40: begin_op() reserves one block too many.  From an idle log it lets three operations in, for
    3 * MAXOPBLOCKS = LOGSIZE blocks, but log_write() stops the kernel with "too big a transaction" once
    LOGSIZE - 1 blocks are logged: the thirtieth block of the three admitted operations is refused. *)
Theorem log_overcommits s :
  idle s →
  ∃ s3, (do! begin_op in do! begin_op in begin_op) s = Ret tt s3 ∧ log_outstanding (lg s3) = 3 ∧
    3 * MAXOPBLOCKS = LOGSIZE ∧
    ∀ i t, held t = [] → log_size (lg t) = log_size (lg s3) → lh_n (lg t) = LOGSIZE - 1 →
      log_write i t = Panic "too big a transaction" (set_held [LkLog] t).
Proof.
  intros (Hh & Hc & Ho & Hn & Hs).
  assert (wp (do! begin_op in do! begin_op in begin_op)
    (λ _ s3, s3 = set_lg (set_log_outstanding 3 (lg s)) s) nopanic s) as HW.
  { apply wp_bind, wp_begin_op; [done|unfold admits; by rewrite Hc, Ho, Hn|].
    apply wp_bind, wp_begin_op; [done|unfold admits; kproj; cbn; by rewrite Hc, Ho, Hn|].
    apply wp_begin_op; [done|unfold admits; kproj; cbn; by rewrite Hc, Ho, Hn|]. kproj. cbn. by rewrite Ho. }
  destruct (proj1 (wp_returns _ _ _) HW) as ([] & s3 & E & ->). eexists. split; [exact E|]. split_and!; [done|done|].
  intros i t Ht Hsz Hlen. change (log_size (lg t) = log_size (lg s)) in Hsz. rewrite Hs in Hsz.
  unfold log_write, mbnd at 1, acquire. rewrite Ht, decide_False by set_solver. cbn [obind].
  unfold mbnd at 1, get. cbn [obind]. kproj. by rewrite Hlen, Hsz.
Qed.

(** * A concrete log *)

Module Log0.
Import Cache0.

(** a log at block 2, one operation running *)
Definition start_state : K := set_lg (mkLog 2 30 1 false ROOTDEV 0 (replicate 30 0)) (cache ∅).

Lemma start_cinv : cinv 0 [] [] start_state.
Proof. apply cinv_set_lg, (linked_cinv (k_boot ∅)); [apply boot0, blank_disk|apply cache_linked, blank_disk]. Qed.

Lemma log_ok0 : log_ok (mkLog 2 30 1 false ROOTDEV 0 (replicate 30 0)).
Proof. split; cbn; try done; [apply NoDup_nil_2|set_solver]. Qed.

(** block 50 in hand *)
Definition in_hand : K := final (bread ROOTDEV 50 start_state).

Lemma wp_bread_any s E : cinv 0 [] [] s →
  wp (bread ROOTDEV 50) (λ i s', cinv 0 [] [i] s' ∧ lg s' = lg s ∧ b_blockno (buf_at i s') = 50) E s.
Proof.
  intros HC. apply (hold_bread 0 [] []); [exact HC|set_solver|right; simpl; lia|]. intros i s' [HC' Hr _ Hb _ _ _].
  split_and!; [exact HC'|exact (f_equal lg Hr)|exact Hb].
Qed.

Lemma in_hand_cinv : cinv 0 [] [0%nat] in_hand ∧ lg in_hand = mkLog 2 30 1 false ROOTDEV 0 (replicate 30 0) ∧ b_blockno (buf_at 0 in_hand) = 50.
Proof.
  destruct (proj1 (wp_returns _ _ _) (wp_bread_any start_state nopanic start_cinv)) as (i & s' & E & HC & Hl & Hb).
  assert (i = 0%nat) as ->.
  { assert (match bread ROOTDEV 50 start_state with Ret i _ => i | _ => 0%nat end = 0%nat) as Hi by (vm_compute; reflexivity).
    rewrite E in Hi. exact Hi. }
  unfold in_hand. rewrite E. split_and!; [exact HC|exact Hl|exact Hb].
Qed.

Lemma log_write_absorbs_witness :
  ∃ s', log_write 0 in_hand = Ret tt s' ∧ logged (lg s') = [50].
Proof.
  destruct in_hand_cinv as (HC & Hl & Hb).
  destruct (log_write_absorbs 0 [] 0 in_hand) as (s' & E & _ & _ & Hlog & _); rewrite ?Hl, ?Hb.
  - exact HC.
  - exact log_ok0.
  - reflexivity.
  - simpl. lia.
  - vm_compute. reflexivity.
  - lia.
  - unfold in_log. simpl. lia.
  - exists s'. split; [exact E|]. rewrite Hlog, Hl, Hb. reflexivity.
Defined.

(** the same block changed, logged and released *)
Definition change50 : M K unit :=
  do! upd_buf 0 (set_b_data (replicate 1024 9)) in do! log_write 0 in brelse 0.
Definition dirty : K := final (change50 in_hand).

Lemma wp_change50 s E : cinv 0 [] [0%nat] s → lg s = mkLog 2 30 1 false ROOTDEV 0 (replicate 30 0) → b_blockno (buf_at 0 s) = 50 →
  wp change50 (λ _ s', cinv 0 (logged (lg s')) [] s' ∧ log_ok (lg s')) E s.
Proof.
  intros HC Hl Hb. assert (hold 0 [] [] 0 50 (view s 50) s s) as HO.
  { destruct (ci_bc _ _ _ _ HC) as [l HB]. split; try done.
    - rewrite <- (hand_view _ _ _ _ HC 0%nat) by set_solver. by rewrite Hb.
    - intros x. case_decide; by subst. }
  unfold change50. apply wp_bind, (hold_upd HO _ (replicate 1024 9)); [done|apply length_replicate|].
  intros s1 [HC1 Hr1 _ Hb1 _ _ _]. pose proof (f_equal lg Hr1 : lg s1 = lg s) as Hl1. rewrite Hl in Hl1.
  apply wp_bind. eapply wp_mono; [apply (wp_log_write 0 [] 0 s1)|intros [] s2 [HC2 HN]|intros ??; exact id]; rewrite ?Hl1, ?Hb1.
  1: exact HC1. 1: exact log_ok0. 1-5: unfold in_log; simpl; lia.
  rewrite Hb1 in HN. apply (wp_brelse_c 0 _ 0 [] s2 HC2).
  - intros Hn. exfalso. apply Hn. rewrite (proj1 (nt_bufs _ _ _ HN _)), Hb1, (nt_logged _ _ _ HN), Hl1. vm_compute. left.
  - intros s3 HC3 Hsf _. pose proof (f_equal lg (sf_rest _ _ Hsf) : lg s3 = lg s2) as Hl3. rewrite Hl3. split; [exact HC3|apply HN].
Qed.

Lemma dirty_cinv : cinv 0 (logged (lg dirty)) [] dirty ∧ log_ok (lg dirty).
Proof.
  destruct in_hand_cinv as (HC & Hl & Hb).
  destruct (proj1 (wp_returns _ _ _) (wp_change50 in_hand nopanic HC Hl Hb)) as ([] & s' & E & HC' & HG').
  unfold dirty. rewrite E. split; assumption.
Qed.

Lemma end_op_crash_atomic_witness :
  ∃ s' ws, end_op dirty = Ret tt s' ∧ dtrace s' = dtrace dirty ++ ws ∧ logged (lg dirty) = [50] ∧
    view dirty 50 = replicate 1024 9 ∧ blk dirty 50 = replicate 1024 0.
Proof.
  destruct dirty_cinv as [HC HG].
  destruct (end_op_crash_atomic 0 dirty HC HG) as (s' & ws & E & Ht & _).
  - vm_compute. reflexivity.
  - vm_compute. reflexivity.
  - vm_compute. reflexivity.
  - exists s', ws. split; [exact E|]. split; [exact Ht|]. split_and!; vm_compute; reflexivity.
Defined.

(** a disk whose log holds a committed transaction of block 50 *)
Definition crashed : gmap Z (list Z) := <[2 := enc [50] zero_block]> (<[3 := replicate 1024 9]> ∅).
Definition reboot : K := set_sb (mkSb 0 1000 900 200 30 2 32 45) (cache crashed).

Lemma crashed_size b : length (blk (k_boot crashed) b) = 1024%nat.
Proof.
  unfold blk, k_boot. cbn [disk]. unfold crashed. rewrite !lookup_insert.
  destruct (decide (2 = b)); [vm_compute; reflexivity|]. destruct (decide (3 = b)); [vm_compute; reflexivity|].
  rewrite lookup_empty. reflexivity.
Qed.

Lemma cinv_set_sb p P H s v : cinv p P H s → cinv p P H (set_sb v s).
Proof. intros [[l HB] H1 H2 H3 H4 H5 H6 H7]. split; try done. exists l. destruct HB. by split. Qed.

Lemma cache_disk d : (∀ b, length (blk (k_boot d) b) = 1024%nat) → disk (cache d) = d ∧ lg (cache d) = lg (k_boot d).
Proof.
  intros Hd. destruct (cache_linked d Hd) as [HR _]. split; [exact (f_equal disk (rl_rest _ _ HR))|exact (f_equal lg (rl_rest _ _ HR))].
Qed.

Lemma set_sb_same s v x : blk (set_sb v s) x = blk s x ∧ lg (set_sb v s) = lg s ∧ sb (set_sb v s) = v.
Proof. done. Qed.

Lemma reboot_ok : rebooted 0 2 (blk (k_boot crashed)) reboot.
Proof.
  destruct (cache_disk crashed crashed_size) as [Ed El]. split.
  - apply cinv_set_sb, (linked_cinv (k_boot crashed)); [apply boot0, crashed_size|apply cache_linked, crashed_size].
  - intros x. unfold reboot. rewrite (proj1 (set_sb_same _ _ x)). unfold blk. rewrite Ed. reflexivity.
  - unfold reboot. rewrite (proj1 (proj2 (set_sb_same _ _ 0))), El. reflexivity.
  - unfold reboot. rewrite (proj2 (proj2 (set_sb_same _ _ 0))). reflexivity.
  - unfold reboot. rewrite (proj2 (proj2 (set_sb_same _ _ 0))). reflexivity.
Qed.

Lemma recovery_idempotent_witness :
  ∃ r' ws, initlog ROOTDEV (sb reboot) reboot = Ret tt r' ∧ dtrace r' = dtrace reboot ++ ws.
Proof.
  destruct (recovery_idempotent 0 2 (blk (k_boot crashed)) reboot) as (r' & ws & E & Ht & _).
  - exact reboot_ok.
  - unfold log_region. lia.
  - assert (hblocks 2 (blk (k_boot crashed)) = [50]) as Eb by (vm_compute; reflexivity). split.
    + replace (hn 2 (blk (k_boot crashed))) with 1 by (vm_compute; reflexivity). lia.
    + rewrite Eb. apply NoDup_singleton.
    + rewrite Eb. intros b ->%list_elem_of_singleton. unfold in_log. lia.
    + apply crashed_size.
  - exists r', ws. split; assumption.
Defined.

Lemma log_overcommits_witness : ∃ s3, (do! begin_op in do! begin_op in begin_op) (set_lg (mkLog 2 30 0 false ROOTDEV 0 (replicate 30 0)) (k_boot ∅)) = Ret tt s3.
Proof.
  destruct (log_overcommits (set_lg (mkLog 2 30 0 false ROOTDEV 0 (replicate 30 0)) (k_boot ∅))) as (s3 & E & _); [|exists s3; exact E].
  split_and!; reflexivity.
Defined.

(** a commit is under way when the operation starts, and over when it is woken *)
Definition busy : K := set_lg (mkLog 2 30 0 true ROOTDEV 0 (replicate 30 0)) (set_cur (Some 0%nat) (k_boot ∅)).
Definition resumed : K := set_lg (mkLog 2 30 0 false ROOTDEV 0 (replicate 30 0)) (asleep 0 ChLog (set_held [LkLog] busy)).

Lemma begin_op_waits_for_room_witness :
  sat (λ _ s', log_outstanding (lg s') = 1) nopanic (λ _, True) (λ _ s', s' = resumed) (begin_op busy).
Proof.
  pose (I n s := (n = 1 ∧ s = set_held [LkLog] busy) ∨ (n = 0 ∧ s = awake 0 LkLog false resumed)).
  eapply sat_mono; [|intros ??; exact id|apply (begin_op_waits_for_room 0 I (λ _, True) (λ _ s', s' = resumed) 1 busy)].
  - intros [] s' (s1 & n1 & HI & Ha & ->). destruct HI as [[-> ->]|[-> ->]]; [|reflexivity]. vm_compute in Ha. discriminate.
  - intros n s [[-> ->]|[-> ->]]; split_and!; try reflexivity; simpl; lia.
  - intros n s [[-> ->]|[-> ->]] Ha; [|vm_compute in Ha; discriminate]. split; [exact Logic.I|]. intros s' ->.
    split_and!; [reflexivity|reflexivity|]. exists 0. split; [lia|]. right. split; reflexivity.
  - reflexivity.
  - left. split; reflexivity.
  - lia.
Defined.

End Log0.
