(* ===== verification/Console.v ===== *)
(** kernel/uart.c, kernel/printf.c and kernel/console.c: the serial port, the
    kernel's own output, and the console's line discipline.

    The device is a list of the bytes written to THR, a list of the bytes waiting
    in RHR, and the answers the next reads of LSR give about the transmitter
    (idle once they are used up).  The code runs after printfinit(), so
    pr.locking is 1, and before a panic, which ends the execution, so panicked
    is 0. *)

From Stdlib Require String Ascii.
From S2P Require Import Prelude Mem Layout Kalloc Vm State Sched.

(** * Text *)

Definition bytes_of (s : string) : list Z := (λ a, Z.of_nat (Ascii.nat_of_ascii a)) <$> String.list_ascii_of_string s.
(** '\n', '%' *)
Definition NL : Z := 10.
Definition PERCENT : Z := 37.

(** the characters of a NUL-terminated array *)
Fixpoint cstr (l : list Z) : list Z :=
  match l with
  | [] => []
  | c :: l' => if c =? 0 then [] else c :: cstr l'
  end.

(** * The UART *)

Definition UART_TX_BUF_SIZE : Z := 32.
Definition upd_uart (f : uart → uart) : M K unit := modify (λ s, set_uart0 (f (uart0 s)) s).

(** ReadReg(LSR) & LSR_TX_IDLE, WriteReg(THR, c) *)
Definition read_lsr_idle : M K bool :=
  let! u := gets uart0 in
  match tx_lsr u with
  | [] => ret true
  | b :: l => do! upd_uart (set_tx_lsr l) in ret b
  end.
Definition write_thr (c : Z) : M K unit := upd_uart (λ u, set_tx_out (tx_out u ++ [u8 c]) u).

Definition uartputc_sync (c : Z) : M K unit :=
  do! loop (λ _ : unit,
    let! idle := read_lsr_idle in
    if negb idle then ret (inl tt) else ret (inr tt)) tt in
  write_thr c.

Definition uartstart : M K unit :=
  loop (λ _ : unit,
    let! u := gets uart0 in
    if tx_w u =? tx_r u then ret (inr tt) else
    let! idle := read_lsr_idle in
    if negb idle then ret (inr tt) else
    let c := default 0 (tx_buf u !! Z.to_nat (tx_r u mod UART_TX_BUF_SIZE)) in
    do! upd_uart (λ u, set_tx_r (u64 (tx_r u + 1)) u) in
    do! wakeup ChUart in
    do! write_thr c in
    ret (inl tt)) tt.

Definition uartputc (c : Z) : M K unit :=
  do! acquire LkUart in
  do! loop (λ _ : unit,
    let! u := gets uart0 in
    if tx_w u =? u64 (tx_r u + UART_TX_BUF_SIZE) then
      do! sleep ChUart LkUart in ret (inl tt)
    else ret (inr tt)) tt in
  do! upd_uart (λ u, set_tx_buf (<[Z.to_nat (tx_w u mod UART_TX_BUF_SIZE) := u8 c]> (tx_buf u)) u) in
  do! upd_uart (λ u, set_tx_w (u64 (tx_w u + 1)) u) in
  do! uartstart in
  release LkUart.

Definition uartgetc : M K Z :=
  let! u := gets uart0 in
  match rx u with
  | [] => ret (-1)
  | c :: l => do! upd_uart (set_rx l) in ret c
  end.

(** * printf *)

Definition BACKSPACE : Z := 256.

Definition consputc (c : Z) : M K unit :=
  if c =? BACKSPACE then
    do! uartputc_sync 8 in
    do! uartputc_sync 32 in
    uartputc_sync 8
  else uartputc_sync c.

Definition digits : list Z := bytes_of "0123456789abcdef".
Definition digit (d : Z) : Z := default 0 (digits !! Z.to_nat d).

(** the do-while loop of printint(): the digits of [x], least significant first *)
Fixpoint digit_loop (fuel : nat) (x base : Z) : list Z :=
  match fuel with
  | O => []
  | S k => digit (x mod base) :: (if x / base =? 0 then [] else digit_loop k (x / base) base)
  end.
(** a 32-bit number has at most 32 digits *)
Definition printint_buf (xx base : Z) (sign : bool) : list Z :=
  let neg := sign && (xx <? 0) in
  let x := if neg then u32 (- xx) else u32 xx in
  digit_loop 32 x base ++ (if neg then [45] else []).
Definition printint (xx base : Z) (sign : bool) : M K unit := for_each (reverse (printint_buf xx base sign)) consputc.

Definition printptr (x : Z) : M K unit :=
  do! consputc 48 in
  do! consputc 120 in
  for_each (seqZ 0 16) (λ i, consputc (digit (Z.shiftr (u64 (Z.shiftl x (4 * i))) 60))).

(** the arguments after the format *)
Inductive parg := PInt (z : Z) | PPtr (z : Z) | PStr (s : option (list Z)).

Fixpoint printf_loop (fmt : list Z) (args : list parg) : M K unit :=
  match fmt with
  | [] => ret tt
  | c :: fmt' =>
      if c =? 0 then ret tt else
      if negb (c =? PERCENT) then do! consputc c in printf_loop fmt' args else
      match fmt' with
      | [] => ret tt
      | c :: fmt'' =>
          if c =? 0 then ret tt else
          if c =? 100 then
            match args with PInt z :: args' => do! printint z 10 true in printf_loop fmt'' args' | _ => ub "va_arg" end
          else if c =? 120 then
            match args with PInt z :: args' => do! printint z 16 true in printf_loop fmt'' args' | _ => ub "va_arg" end
          else if c =? 112 then
            match args with PPtr z :: args' => do! printptr z in printf_loop fmt'' args' | _ => ub "va_arg" end
          else if c =? 115 then
            match args with
            | PStr s :: args' => do! for_each (default (bytes_of "(null)") s) consputc in printf_loop fmt'' args'
            | _ => ub "va_arg"
            end
          else if c =? PERCENT then do! consputc PERCENT in printf_loop fmt'' args
          else do! consputc PERCENT in do! consputc c in printf_loop fmt'' args
      end
  end.

Definition printf (fmt : list Z) (args : list parg) : M K unit :=
  do! acquire LkPr in
  do! printf_loop fmt args in
  release LkPr.

(** * The console *)

Definition INPUT_BUF_SIZE : Z := 128.
Definition upd_cons (f : console → console) : M K unit := modify (λ s, set_cons (f (cons s)) s).
(** C(x) *)
Definition ctrl (x : Z) : Z := x - 64.

Definition states (x : procstate) : list Z :=
  match x with
  | UNUSED => bytes_of "unused" | USED => bytes_of "used" | SLEEPING => bytes_of "sleep "
  | RUNNABLE => bytes_of "runble" | RUNNING => bytes_of "run   " | ZOMBIE => bytes_of "zombie"
  end.

Definition procdump : M K unit :=
  do! printf [NL] [] in
  for_each nprocs (λ i,
    let! p := getproc i in
    when (negb (bool_decide (p_state p = UNUSED)))
      (do! printf (bytes_of "%d <%s %s") [PInt (p_pid p); PStr (Some (states (p_state p))); PStr (Some (cstr (p_name p)))] in
       printf [NL] [])).

(** cons.buf[i % INPUT_BUF_SIZE] *)
Definition cons_at (i : Z) (c : console) : Z := default 0 (c_buf c !! Z.to_nat (i mod INPUT_BUF_SIZE)).

Definition consoleintr (c : Z) : M K unit :=
  do! acquire LkCons in
  do! (if c =? ctrl 80 then procdump
       else if c =? ctrl 85 then
         loop (λ _ : unit,
           let! k := gets cons in
           if negb (c_e k =? c_w k) && negb (cons_at (u32 (c_e k - 1)) k =? NL) then
             do! upd_cons (λ k, set_c_e (u32 (c_e k - 1)) k) in
             do! consputc BACKSPACE in
             ret (inl tt)
           else ret (inr tt)) tt
       else if (c =? ctrl 72) || (c =? 127) then
         let! k := gets cons in
         when (negb (c_e k =? c_w k))
           (do! upd_cons (λ k, set_c_e (u32 (c_e k - 1)) k) in
            consputc BACKSPACE)
       else
         let! k := gets cons in
         when (negb (c =? 0) && (u32 (c_e k - c_r k) <? INPUT_BUF_SIZE))
           (let c := if c =? 13 then NL else c in
            do! consputc c in
            do! upd_cons (λ k, set_c_buf (<[Z.to_nat (c_e k mod INPUT_BUF_SIZE) := u8 c]> (c_buf k)) k) in
            do! upd_cons (λ k, set_c_e (u32 (c_e k + 1)) k) in
            let! k := gets cons in
            when ((c =? NL) || (c =? ctrl 68) || (u32 (c_e k - c_r k) =? INPUT_BUF_SIZE))
              (do! upd_cons (λ k, set_c_w (c_e k) k) in
               wakeup ChCons))) in
  release LkCons.

Definition uartintr : M K unit :=
  do! loop (λ _ : unit,
    let! c := uartgetc in
    if c =? -1 then ret (inr tt) else do! consoleintr c in ret (inl tt)) tt in
  do! acquire LkUart in
  do! uartstart in
  release LkUart.

Section Io.
Context `{PageAlloc}.

(** a destination or source further along *)
Definition dst_add (d : dst) (n : Z) : dst := match d with ToUser va => ToUser (u64 (va + n)) | ToKernel => ToKernel end.
Definition src_add (x : src) (n : Z) : src :=
  match x with FromUser va => FromUser (u64 (va + n)) | FromKernel b => FromKernel (drop (Z.to_nat n) b) end.

Definition consolewrite (x : src) (n : Z) : M K Z :=
  loop (λ i,
    if i <? n then
      let! r := either_copyin (src_add x i) 1 in
      if r.1 =? -1 then ret (inr i) else
      do! uartputc (default 0 (r.2 !! 0%nat)) in
      ret (inl (i + 1))
    else ret (inr i)) 0.

(** wait for input; [false]: the process was killed *)
Definition cons_wait : M K bool :=
  loop (λ _ : unit,
    let! k := gets cons in
    if c_r k =? c_w k then
      let! p := myproc in
      let! d := killed p in
      if negb (d =? 0) then ret (inr false) else
      do! sleep ChCons LkCons in
      ret (inl tt)
    else ret (inr true)) tt.

(** the outer loop: [inr None] returns -1 at once, [inr (Some n)] breaks with [n] left *)
Definition consoleread_loop (d : dst) (target : Z) (n : Z) : M K (option Z * list Z) :=
  loop (λ '(d, n, out),
    if 0 <? n then
      let! ok := cons_wait in
      if negb ok then do! release LkCons in ret (inr (None, out)) else
      let! k := gets cons in
      let c := cons_at (c_r k) k in
      do! upd_cons (λ k, set_c_r (u32 (c_r k + 1)) k) in
      if c =? ctrl 68 then
        do! when (n <? target) (upd_cons (λ k, set_c_r (u32 (c_r k - 1)) k)) in
        ret (inr (Some n, out))
      else
        let! r := either_copyout d [c] in
        if r.1 =? -1 then ret (inr (Some n, out)) else
        let n' := n - 1 in
        let out' := out ++ r.2 in
        if c =? NL then ret (inr (Some n', out')) else ret (inl (dst_add d 1, n', out'))
    else ret (inr (Some n, out))) (d, n, []).

Definition consoleread (d : dst) (n : Z) : M K (Z * list Z) :=
  let target := u32 n in
  do! acquire LkCons in
  let! r := consoleread_loop d target n in
  match r.1 with
  | None => ret (-1, r.2)
  | Some n' => do! release LkCons in ret (s32 (target - n'), r.2)
  end.

End Io.
