(* ===== verification/ConsoleSpec.v ===== *)
(** What the console promises: output in order, printed numbers that mean what
    they say, and a line discipline between the keyboard and read(). *)

From S2P Require Import Prelude Mem Layout Kalloc Vm PageTable VmProofs UserMem Uvm VmSpec State Sched UserCtx Fifo Console.

(** * Polled output *)

(** the state after [out] went out through THR; only the transmitter changed *)
Definition emits (out : list Z) (s s' : K) : Prop :=
  ∃ l, s' = set_uart0 (set_tx_out (tx_out (uart0 s) ++ out) (set_tx_lsr l (uart0 s))) s ∧
       (length l ≤ length (tx_lsr (uart0 s)))%nat.
(** the transmitter becomes idle after finitely many reads of LSR *)
Definition tx_ready (s : K) : Prop := Z.of_nat (length (tx_lsr (uart0 s))) < 2 ^ 64 - 1.

Lemma emits_nil s : emits [] s s.
Proof. exists (tx_lsr (uart0 s)). rewrite app_nil_r. by destruct s as [? ? ? ? ? ? ? ? ? ? ? ? ? ? ? ? ? ? ? ? ? []]. Qed.

Lemma emits_app a b s1 s2 s3 : emits a s1 s2 → emits b s2 s3 → emits (a ++ b) s1 s3.
Proof.
  intros (l & -> & Hl) (l' & -> & Hl'). exists l'. cbn in *. split; [|lia]. rewrite (assoc (++)). done.
Qed.

Lemma emits_ready a s s' : emits a s s' → tx_ready s → tx_ready s'.
Proof. intros (l & -> & Hl). unfold tx_ready. cbn. lia. Qed.

(** every field but uart0 *)
Lemma emits_held a s s' : emits a s s' → held s' = held s.
Proof. by intros (l & -> & _). Qed.

Lemma wp_read_lsr (Q : bool → K → Prop) E s :
  (∀ b s', emits [] s s' → (b = false → (length (tx_lsr (uart0 s')) < length (tx_lsr (uart0 s)))%nat) → Q b s') →
  wp read_lsr_idle Q E s.
Proof.
  intros HQ. unfold read_lsr_idle. apply wp_bind, wp_gets. destruct (tx_lsr (uart0 s)) as [|b l] eqn:El.
  - apply wp_ret, HQ; [apply emits_nil|done].
  - apply wp_bind, wp_modify, wp_ret, HQ.
    + exists l. rewrite app_nil_r, El. split; [|simpl; lia]. by destruct s as [? ? ? ? ? ? ? ? ? ? ? ? ? ? ? ? ? ? ? ? ? []].
    + intros _. cbn. lia.
Qed.

Lemma wp_uartputc_sync c (Q : unit → K → Prop) E s :
  tx_ready s → (∀ s', emits [u8 c] s s' → Q tt s') → wp (uartputc_sync c) Q E s.
Proof.
  intros Hr HQ. unfold uartputc_sync. apply wp_bind.
  apply (wp_loop _ (λ _ s', emits [] s s') (λ _ s', Z.of_nat (length (tx_lsr (uart0 s'))))); [|apply emits_nil|unfold tx_ready in Hr; lia].
  intros [] s1 H1. apply wp_bind, wp_read_lsr. intros b s2 H2 Hb. pose proof (emits_app _ _ _ _ _ H1 H2) as H3.
  destruct b; cbn [negb]; apply wp_ret.
  - unfold write_thr, upd_uart. apply wp_modify, HQ. destruct H3 as (l & -> & Hl). exists l. cbn in *. by rewrite app_nil_r.
  - specialize (Hb eq_refl). split; [done|]. lia.
Qed.

(** what consputc() sends *)
Definition echo (c : Z) : list Z := if c =? BACKSPACE then [8; 32; 8] else [u8 c].

Lemma wp_consputc c (Q : unit → K → Prop) E s :
  tx_ready s → (∀ s', emits (echo c) s s' → Q tt s') → wp (consputc c) Q E s.
Proof.
  intros Hr HQ. unfold consputc, echo in *. destruct (c =? BACKSPACE); [|by apply wp_uartputc_sync].
  apply wp_bind, wp_uartputc_sync; [done|]. intros s1 H1. pose proof (emits_ready _ _ _ H1 Hr).
  apply wp_bind, wp_uartputc_sync; [done|]. intros s2 H2. pose proof (emits_app _ _ _ _ _ H1 H2) as H12.
  apply wp_uartputc_sync; [by eapply emits_ready|]. intros s3 H3. apply HQ. apply (emits_app _ _ _ _ _ H12 H3).
Qed.

Lemma wp_consputs l (Q : unit → K → Prop) E s :
  tx_ready s → (∀ s', emits (l ≫= echo) s s' → Q tt s') → wp (for_each l consputc) Q E s.
Proof.
  revert s. induction l as [|c l IH]; intros s Hr HQ; simpl.
  - apply wp_ret, HQ, emits_nil.
  - apply wp_bind, wp_consputc; [done|]. intros s1 H1. apply IH; [by eapply emits_ready|]. intros s2 H2.
    apply HQ. by eapply emits_app.
Qed.

(** the arguments have the types the format asks for *)
Fixpoint fits (fmt : list Z) (args : list parg) {struct fmt} : bool :=
  match fmt with
  | [] => true
  | c :: fmt' =>
      if c =? 0 then true else
      if negb (c =? PERCENT) then fits fmt' args else
      match fmt' with
      | [] => true
      | d :: fmt'' =>
          if d =? 0 then true else
          if (d =? 100) || (d =? 120) then match args with PInt _ :: l => fits fmt'' l | _ => false end
          else if d =? 112 then match args with PPtr _ :: l => fits fmt'' l | _ => false end
          else if d =? 115 then match args with PStr _ :: l => fits fmt'' l | _ => false end
          else fits fmt'' args
      end
  end.

Definition quiet (m : M K unit) : Prop :=
  ∀ (Q : unit → K → Prop) E s, tx_ready s → (∀ out s', emits out s s' → Q tt s') → wp m Q E s.

Lemma quiet_bind m k : quiet m → quiet k → quiet (do! m in k).
Proof.
  intros Hm Hk Q E s Hr HQ. apply wp_bind, Hm; [done|]. intros o s1 H1. apply Hk; [by eapply emits_ready|].
  intros o' s2 H2. eapply HQ. by eapply emits_app.
Qed.
Lemma quiet_ret : quiet (ret tt).
Proof. intros Q E s Hr HQ. apply wp_ret. eapply HQ, emits_nil. Qed.
Lemma quiet_putc c : quiet (consputc c).
Proof. intros Q E s Hr HQ. apply wp_consputc; eauto. Qed.
Lemma quiet_each {A} (l : list A) f : (∀ x, quiet (f x)) → quiet (for_each l f).
Proof. intros Hf. induction l as [|x l IH]; simpl; [apply quiet_ret|]. by apply quiet_bind. Qed.
Lemma quiet_printint z b g : quiet (printint z b g).
Proof. apply quiet_each, quiet_putc. Qed.
Lemma quiet_printptr z : quiet (printptr z).
Proof. unfold printptr. do 2 (apply quiet_bind; [apply quiet_putc|]). apply quiet_each. intros i. apply quiet_putc. Qed.

Lemma quiet_printf_loop n fmt : (length fmt ≤ n)%nat → ∀ args, fits fmt args = true → quiet (printf_loop fmt args).
Proof.
  revert fmt. induction n as [|n IH]; intros [|c fmt'] Hn args Hf; simpl in Hn; try (apply quiet_ret || lia).
  cbn [printf_loop fits] in *. destruct (c =? 0); [apply quiet_ret|].
  destruct (negb (c =? PERCENT)); [apply quiet_bind; [apply quiet_putc|apply IH; [lia|done]]|].
  destruct fmt' as [|d fmt'']; [apply quiet_ret|]. simpl in Hn. destruct (d =? 0); [apply quiet_ret|].
  destruct (d =? 100); [|destruct (d =? 120); [|destruct (d =? 112); [|destruct (d =? 115)]]]; cbn [orb] in Hf.
  - destruct args as [|[z|z|t] args]; try discriminate Hf. apply quiet_bind; [apply quiet_printint|apply IH; [lia|done]].
  - destruct args as [|[z|z|t] args]; try discriminate Hf. apply quiet_bind; [apply quiet_printint|apply IH; [lia|done]].
  - destruct args as [|[z|z|t] args]; try discriminate Hf. apply quiet_bind; [apply quiet_printptr|apply IH; [lia|done]].
  - destruct args as [|[z|z|t] args]; try discriminate Hf. apply quiet_bind; [apply quiet_each, quiet_putc|apply IH; [lia|done]].
  - destruct (d =? PERCENT); apply quiet_bind; [apply quiet_putc| |apply quiet_putc|apply quiet_bind; [apply quiet_putc|]];
      (apply IH; [lia|done]).
Qed.

Lemma wp_printf fmt args (Q : unit → K → Prop) E s :
  fits fmt args = true → tx_ready s → (LkPr ∉ held s) → (∀ out s', emits out s s' → Q tt s') → wp (printf fmt args) Q E s.
Proof.
  intros Hf Hr Hl HQ. unfold printf. apply wp_bind, wp_acquire; [done|]. apply wp_bind.
  apply (quiet_printf_loop (length fmt)); [lia|done|done|]. intros out s' (l & -> & Hle). cbn in Hle.
  eapply wp_release_head; [reflexivity|]. apply (HQ out). exists l. split; [|done]. kst. by destruct s.
Qed.

(** * The line discipline *)

(** what the input buffer holds: the bytes read() may take, and the line being edited *)
Definition cons_q (k : console) : list Z := queue (2 ^ 32) INPUT_BUF_SIZE (c_buf k) (c_r k) (c_e k).
Definition nready (k : console) : nat := Z.to_nat (count (2 ^ 32) (c_r k) (c_w k)).
Definition input (k : console) : list Z * list Z := (take (nready k) (cons_q k), drop (nready k) (cons_q k)).

Record cons_ok (k : console) : Prop := {
  co_ring : ring_ok (2 ^ 32) INPUT_BUF_SIZE (c_buf k) (c_r k) (c_e k);
  co_w : 0 ≤ c_w k < 2 ^ 32;
  co_between : count (2 ^ 32) (c_r k) (c_w k) ≤ count (2 ^ 32) (c_r k) (c_e k);
  co_bytes : Forall (λ b, 0 ≤ b < 256) (c_buf k);
  co_line : NL ∉ (input k).2;
}.

(** one key *)
Definition edit (c : Z) (st : list Z * list Z) : list Z * list Z :=
  let '(q, line) := st in
  if c =? ctrl 80 then st
  else if c =? ctrl 85 then (q, [])
  else if (c =? ctrl 72) || (c =? 127) then (q, take (length line - 1) line)
  else if (c =? 0) || (128 <=? Z.of_nat (length q + length line)) then st
  else
    let c := if c =? 13 then NL else c in
    if (c =? NL) || (c =? ctrl 68) || (Z.of_nat (length q + length line) + 1 =? 128) then (q ++ line ++ [c], [])
    else (q, line ++ [c]).

(** what the terminal shows for it *)
Definition shown (c : Z) (st : list Z * list Z) : list Z :=
  let '(q, line) := st in
  if c =? ctrl 85 then concat (replicate (length line) [8; 32; 8])
  else if (c =? ctrl 72) || (c =? 127) then match line with [] => [] | _ => [8; 32; 8] end
  else if (c =? 0) || (128 <=? Z.of_nat (length q + length line)) then []
  else [if c =? 13 then NL else c].

Lemma ib_pos : 0 < INPUT_BUF_SIZE. Proof. done. Qed.
Lemma ib_div : (INPUT_BUF_SIZE | 2 ^ 32). Proof. by exists (2 ^ 25). Qed.
Lemma ib_lt : INPUT_BUF_SIZE < 2 ^ 32. Proof. done. Qed.

Lemma count_inj r a b : 0 ≤ a < 2 ^ 32 → 0 ≤ b < 2 ^ 32 → count (2 ^ 32) r a = count (2 ^ 32) r b → a = b.
Proof.
  unfold count. intros Ha Hb E. rewrite <- (Z.mod_small a (2 ^ 32)), <- (Z.mod_small b (2 ^ 32)) by done.
  replace a with (a - r + r) by lia. rewrite <- Zplus_mod_idemp_l, E, Zplus_mod_idemp_l. f_equal. lia.
Qed.

Section Input.
Context (k : console) (Hok : cons_ok k).

Lemma length_cons_q : length (cons_q k) = Z.to_nat (count (2 ^ 32) (c_r k) (c_e k)).
Proof. apply length_queue. Qed.

Lemma input_lengths : length (input k).1 = nready k ∧ length (input k).2 = (length (cons_q k) - nready k)%nat ∧
  (nready k ≤ length (cons_q k) ≤ 128)%nat.
Proof using Hok.
  pose proof (co_between k Hok). pose proof (co_ring k Hok) as (_ & _ & _ & Hc). rewrite length_cons_q.
  cbn [input fst snd]. rewrite length_take, length_drop, length_cons_q. unfold nready, INPUT_BUF_SIZE in *. lia.
Qed.

(** e == w *)
Lemma line_empty : c_e k = c_w k ↔ (input k).2 = [].
Proof using Hok.
  destruct input_lengths as (_ & Hl & _). rewrite <- length_zero_iff_nil, Hl, length_cons_q. unfold nready.
  pose proof (co_between k Hok). pose proof (co_ring k Hok) as (_ & Hr & He & _). pose proof (co_w k Hok).
  pose proof (count_range (2 ^ 32) INPUT_BUF_SIZE ib_pos ib_lt (c_r k) (c_w k)). split.
  - intros ->. lia.
  - intros E. apply (count_inj (c_r k)); [done|done|]. lia.
Qed.

(** e - r *)
Lemma cons_count : u32 (c_e k - c_r k) = Z.of_nat (length (input k).1 + length (input k).2).
Proof using Hok.
  destruct input_lengths as (-> & -> & ?). rewrite length_cons_q in *. unfold u32, count in *.
  pose proof (Z.mod_pos_bound (c_e k - c_r k) (2 ^ 32) ltac:(lia)). lia.
Qed.

Definition back : console := set_c_e (u32 (c_e k - 1)) k.
Lemma cons_back : (input k).2 ≠ [] →
  cons_ok back ∧ ∃ c, c = cons_at (u32 (c_e k - 1)) k ∧ (input k).2 = (input back).2 ++ [c] ∧ (input back).1 = (input k).1.
Proof using Hok.
  intros Hne. destruct input_lengths as (Hl1 & Hl2 & Hn). assert (0 < length (input k).2)%nat as Hpos by (destruct (input k).2; [done|simpl; lia]).
  pose proof (co_ring k Hok) as Hring. assert (c_r k ≠ c_e k) as Hre.
  { intros E. assert (length (cons_q k) = 0)%nat by (rewrite length_cons_q, E; unfold count; by rewrite Z.sub_diag). lia. }
  destruct (queue_unpush _ _ ib_pos ib_div ib_lt _ _ _ Hring Hre) as [Hring' Hq].
  assert (cons_q k = cons_q back ++ [cons_at (u32 (c_e k - 1)) k]) as Hq' by exact Hq.
  assert (nready back = nready k) as Hnr by done.
  pose proof (f_equal length Hq') as Hlen. rewrite length_app in Hlen. simpl in Hlen.
  assert ((input k).2 = (input back).2 ++ [cons_at (u32 (c_e k - 1)) k]) as H2.
  { cbn [input snd]. rewrite Hq', Hnr, drop_app_le by lia. done. }
  assert ((input back).1 = (input k).1) as H1. { cbn [input fst]. rewrite Hq', Hnr, take_app_le by lia. done. }
  split; [|eauto]. split; [exact Hring'|apply Hok| |apply Hok|].
  - change (count (2 ^ 32) (c_r k) (c_w k) ≤ count (2 ^ 32) (c_r k) (u32 (c_e k - 1))). unfold cons_q in Hlen at 2.
    rewrite length_queue in Hlen. cbn [back c_r c_e set_c_e] in Hlen. unfold nready in *.
    pose proof (count_range (2 ^ 32) INPUT_BUF_SIZE ib_pos ib_lt (c_r k) (u32 (c_e k - 1))). lia.
  - pose proof (co_line k Hok) as HNL. rewrite H2 in HNL. set_solver.
Qed.

Definition typed (c : Z) : console := set_c_e (u32 (c_e k + 1)) (set_c_buf (<[Z.to_nat (c_e k mod INPUT_BUF_SIZE) := c]> (c_buf k)) k).
Lemma cons_typed c : (length (input k).1 + length (input k).2 < 128)%nat → 0 ≤ c < 256 →
  (c ≠ NL → cons_ok (typed c)) ∧ input (typed c) = ((input k).1, (input k).2 ++ [c]) ∧
  cons_ok (set_c_w (c_e (typed c)) (typed c)) ∧
  input (set_c_w (c_e (typed c)) (typed c)) = ((input k).1 ++ (input k).2 ++ [c], []).
Proof using Hok.
  intros Hroom Hc. destruct input_lengths as (Hl1 & Hl2 & Hn). pose proof (co_ring k Hok) as Hring.
  destruct (queue_push _ _ ib_pos ib_div ib_lt _ _ _ c Hring) as [Hring' Hq].
  { rewrite length_cons_q in *. unfold INPUT_BUF_SIZE in *. lia. }
  assert (cons_q (typed c) = cons_q k ++ [c]) as Hq' by exact Hq. set (k' := typed c) in *.
  assert (input k' = ((input k).1, (input k).2 ++ [c])) as Hin.
  { unfold input at 1. rewrite Hq'. change (nready k') with (nready k). rewrite take_app_le, drop_app_le by lia. done. }
  assert (Forall (λ b, 0 ≤ b < 256) (c_buf k')) as Hb by (apply Forall_insert; [apply Hok|done]).
  pose proof (count_range (2 ^ 32) INPUT_BUF_SIZE ib_pos ib_lt (c_r k') (c_e k')) as Hcr.
  assert (nready (set_c_w (c_e k') k') = length (cons_q k')) as Hall by (unfold cons_q; by rewrite length_queue).
  split; [|split; [done|split]].
  - intros HNL. split; [exact Hring'|apply Hok| |done|].
    + pose proof (co_between k Hok) as Hbt. change (c_w k') with (c_w k).
      pose proof (f_equal length Hq') as Hlen. unfold cons_q in Hlen at 1. rewrite length_queue, length_app, length_cons_q in Hlen.
      simpl in Hlen. change (c_r k') with (c_r k) in *. change (c_e k') with (u32 (c_e k + 1)) in *.
      pose proof (count_range (2 ^ 32) INPUT_BUF_SIZE ib_pos ib_lt (c_r k) (c_e k)). lia.
    + rewrite Hin. cbn [snd]. rewrite elem_of_app, list_elem_of_singleton. pose proof (co_line k Hok). naive_solver.
  - split; [exact Hring'|apply Hring'|done|done|]. unfold input. cbn [snd]. rewrite Hall. change (cons_q (set_c_w (c_e k') k')) with (cons_q k').
    rewrite drop_all. set_solver.
  - unfold input at 1. rewrite Hall. change (cons_q (set_c_w (c_e k') k')) with (cons_q k'). rewrite firstn_all, drop_all. f_equal.
    rewrite Hq', (assoc (++)). f_equal. cbn [input fst snd]. by rewrite take_drop.
Qed.
End Input.

(** the state after the input buffer became [k] and [out] was shown *)
Definition cons_step (s : K) (k : console) (out : list Z) (s' : K) : Prop :=
  ∃ l, s' = set_cons k (set_uart0 (set_tx_out (tx_out (uart0 s) ++ out) (set_tx_lsr l (uart0 s))) s) ∧
       (length l ≤ length (tx_lsr (uart0 s)))%nat.

Lemma cons_step_start s : cons_step s (cons s) [] s.
Proof. exists (tx_lsr (uart0 s)). rewrite app_nil_r. by destruct s as [? ? ? ? ? ? ? ? ? ? ? ? ? ? ? ? ? ? ? ? ? []]. Qed.
Lemma cons_step_set s k k' out s' : cons_step s k out s' → cons_step s k' out (set_cons k' s').
Proof. intros (l & -> & Hl). by exists l. Qed.
Lemma cons_step_emit s k out s' out' s2 : cons_step s k out s' → emits out' s' s2 → cons_step s k (out ++ out') s2.
Proof. intros (l & -> & Hl) (l' & -> & Hl'). exists l'. cbn in *. rewrite (assoc (++)). split; [done|lia]. Qed.
Lemma cons_step_cons s k out s' : cons_step s k out s' → cons s' = k.
Proof. by intros (l & -> & _). Qed.
Lemma cons_step_ready s k out s' : tx_ready s → cons_step s k out s' → tx_ready s'.
Proof. intros Hr (l & -> & Hl). unfold tx_ready in *. cbn. lia. Qed.

Section Keys.
Context (s : K) (Hok : cons_ok (cons s)) (Hr : tx_ready s).

(** ^U *)
Lemma wp_kill_line (Q : unit → K → Prop) E :
  (∀ k s', cons_ok k → input k = ((input (cons s)).1, []) →
     cons_step s k (concat (replicate (length (input (cons s)).2) [8; 32; 8])) s' → Q tt s') →
  wp (loop (λ _ : unit,
         let! k := gets cons in
         if negb (c_e k =? c_w k) && negb (cons_at (u32 (c_e k - 1)) k =? NL) then
           do! upd_cons (λ k, set_c_e (u32 (c_e k - 1)) k) in
           do! consputc BACKSPACE in
           ret (inl tt)
         else ret (inr tt)) tt) Q E s.
Proof using Hok Hr.
  intros HQ. set (L := length (input (cons s)).2). pose proof (input_lengths _ Hok) as (_ & HL2 & HL3).
  apply (wp_loop _ (λ _ s', ∃ k j, cons_ok k ∧ (input k).1 = (input (cons s)).1 ∧ (length (input k).2 + j = L)%nat ∧
    cons_step s k (concat (replicate j [8; 32; 8])) s') (λ _ s', Z.of_nat (length (input (cons s')).2))).
  - intros [] s1 (k & j & Hk & H1 & Hj & Hs). apply wp_bind, wp_gets. rewrite (cons_step_cons _ _ _ _ Hs).
    destruct (Z.eqb_spec (c_e k) (c_w k)) as [E1|E1].
    + apply (line_empty k Hk) in E1. apply wp_ret, (HQ k); [done|by rewrite (surjective_pairing (input k)), H1, E1|].
      rewrite E1 in Hj. simpl in Hj. by subst j.
    + rewrite (line_empty k Hk) in E1. destruct (cons_back k Hk E1) as (Hb & c & Hc & Hline & Hq). rewrite <- Hc.
      destruct (Z.eqb_spec c NL) as [->|_]; [destruct (co_line k Hk); rewrite Hline; set_solver|]. cbn [negb andb].
      unfold upd_cons. apply wp_bind, wp_modify. rewrite (cons_step_cons _ _ _ _ Hs). fold (back k).
      pose proof (cons_step_set _ _ (back k) _ _ Hs) as Hs1.
      apply wp_bind, wp_consputc; [by eapply cons_step_ready|]. intros s2 Hs2. pose proof (cons_step_emit _ _ _ _ _ _ Hs1 Hs2) as Hs3.
      apply wp_ret. rewrite (cons_step_cons _ _ _ _ Hs3). pose proof (f_equal length Hline) as Hlen. rewrite length_app in Hlen. cbn [length] in Hlen.
      split; [|cbn beta; rewrite ?(cons_step_cons _ _ _ _ Hs3), ?(cons_step_cons _ _ _ _ Hs); lia].
      exists (back k), (S j). split; [done|]. split; [by rewrite Hq|]. split; [lia|].
      rewrite replicate_S_end, concat_app. exact Hs3.
  - exists (cons s), 0%nat. split; [done|]. split; [done|]. split; [lia|]. apply cons_step_start.
  - lia.
Qed.

(** ^H, DEL *)
Lemma wp_backspace (Q : unit → K → Prop) E :
  (∀ k s', let '(q, line) := input (cons s) in cons_ok k → input k = (q, take (length line - 1) line) →
     cons_step s k (match line with [] => [] | _ => [8; 32; 8] end) s' → Q tt s') →
  wp (let! k := gets cons in
      when (negb (c_e k =? c_w k))
        (do! upd_cons (λ k, set_c_e (u32 (c_e k - 1)) k) in
         consputc BACKSPACE)) Q E s.
Proof using Hok Hr.
  intros HQ. apply wp_bind, wp_gets. destruct (input (cons s)) as [q line] eqn:Hin. destruct (Z.eqb_spec (c_e (cons s)) (c_w (cons s))) as [E1|E1].
  - apply (line_empty _ Hok) in E1. rewrite Hin in E1. simpl in E1. subst line. apply wp_ret, (HQ (cons s)); [done|done|apply cons_step_start].
  - rewrite (line_empty _ Hok), Hin in E1. simpl in E1. destruct (cons_back _ Hok) as (Hb & c & _ & Hline & Hq); [by rewrite Hin|].
    rewrite Hin in *. cbn [fst snd] in *. cbn [negb when]. unfold upd_cons. apply wp_bind, wp_modify. fold (back (cons s)).
    pose proof (cons_step_set _ _ (back (cons s)) _ _ (cons_step_start s)) as Hs1.
    apply wp_consputc; [by eapply cons_step_ready|]. intros s2 Hs2. pose proof (cons_step_emit _ _ _ _ _ _ Hs1 Hs2) as Hs3.
    apply (HQ (back (cons s))); [done| |by destruct line].
    rewrite (surjective_pairing (input (back (cons s)))), Hq. f_equal. rewrite Hline, length_app. cbn [length].
    rewrite Nat.add_sub, take_app_length. done.
Qed.

(** any other key *)
Lemma wp_key c (Q : unit → K → Prop) E :
  0 ≤ c < 256 → held s = [LkCons] → c ≠ ctrl 80 → c ≠ ctrl 85 → c ≠ ctrl 72 → c ≠ 127 →
  (∀ k s1, let st := input (cons s) in cons_ok k → input k = edit c st → cons_step s k (shown c st) s1 →
     Q tt (if decide ((edit c st).1 = st.1) then s1 else set_procs (wake ChCons (cur s) 64 (procs s)) s1)) →
  wp (let! k := gets cons in
      when (negb (c =? 0) && (u32 (c_e k - c_r k) <? INPUT_BUF_SIZE))
        (let c := if c =? 13 then NL else c in
         do! consputc c in
         do! upd_cons (λ k, set_c_buf (<[Z.to_nat (c_e k mod INPUT_BUF_SIZE) := u8 c]> (c_buf k)) k) in
         do! upd_cons (λ k, set_c_e (u32 (c_e k + 1)) k) in
         let! k := gets cons in
         when ((c =? NL) || (c =? ctrl 68) || (u32 (c_e k - c_r k) =? INPUT_BUF_SIZE))
           (do! upd_cons (λ k, set_c_w (c_e k) k) in
            wakeup ChCons))) Q E s.
Proof using Hok Hr.
  intros Hc Hh N1 N2 N3 N4 HQ. apply wp_bind, wp_gets. rewrite (cons_count _ Hok).
  destruct (input (cons s)) as [q line] eqn:Hin. cbn zeta in HQ. cbn [fst snd] in *.
  unfold edit, shown in HQ. rewrite (proj2 (Z.eqb_neq c (ctrl 80)) N1), (proj2 (Z.eqb_neq c (ctrl 85)) N2),
    (proj2 (Z.eqb_neq c (ctrl 72)) N3), (proj2 (Z.eqb_neq c 127) N4) in HQ. cbn [orb] in HQ. unfold INPUT_BUF_SIZE in *.
  destruct ((c =? 0) || (128 <=? Z.of_nat (length q + length line))) eqn:Eg.
  - apply wp_when_f; [destruct (Z.eqb_spec c 0); [done|]; simpl in *; lia|].
    specialize (HQ (cons s) s Hok Hin (cons_step_start s)). cbn [fst] in HQ. by rewrite decide_True in HQ.
  - apply wp_when_t; [destruct (Z.eqb_spec c 0); [done|]; simpl in *; lia|].
    cbn zeta. set (d := if c =? 13 then NL else c) in *. assert (0 ≤ d < 256) as Hd by (unfold d; destruct (c =? 13); [done|lia]).
    assert (echo d = [d]) as Hecho. { unfold echo, u8. destruct (Z.eqb_spec d BACKSPACE) as [E1|]; [unfold BACKSPACE in E1; lia|]. by rewrite Z.mod_small. }
    apply wp_bind, wp_consputc; [done|]. intros s1 Hs1. rewrite Hecho in Hs1.
    pose proof (cons_step_emit _ _ _ _ _ _ (cons_step_start s) Hs1) as Hs2. cbn [app] in Hs2.
    unfold upd_cons. apply wp_bind, wp_modify. apply wp_bind, wp_modify. cbn [cons set_cons].
    rewrite (cons_step_cons _ _ _ _ Hs2). apply wp_bind, wp_gets. cbn [cons set_cons].
    assert (u8 d = d) as Hu8 by (by apply Z.mod_small). rewrite Hu8.
    destruct (cons_typed _ Hok d) as (H1 & H2 & H3 & H4); [rewrite Hin; simpl in *; lia|done|]. rewrite Hin in H2, H4. cbn [fst snd] in H2, H4.
    pose proof (cons_step_set _ _ (typed (cons s) d) _ _ Hs2) as Hs3.
    set (k' := typed (cons s) d) in *. change (set_c_e _ _) with k'. change (set_cons k' _) with (set_cons k' s1).
    assert (length (cons_q k') = S (length q + length line)) as Hlen.
    { pose proof (f_equal (λ x, length x.1 + length x.2)%nat H2) as E1. cbn [input fst snd] in E1. rewrite <- length_app, take_drop, length_app in E1. simpl in E1. lia. }
    assert (u32 (c_e k' - c_r k') = Z.of_nat (length q + length line) + 1) as Hcnt.
    { rewrite length_cons_q in Hlen. unfold u32, count in *. pose proof (Z.mod_pos_bound (c_e k' - c_r k') (2 ^ 32) ltac:(lia)). lia. }
    rewrite Hcnt. destruct ((d =? NL) || (d =? ctrl 68) || (Z.of_nat (length q + length line) + 1 =? 128)) eqn:Ecommit.
    + apply wp_when_t; [done|]. apply wp_bind, wp_modify. cbn [cons set_cons].
      pose proof (cons_step_set _ _ (set_c_w (c_e k') k') _ _ Hs3) as Hs4. specialize (HQ _ _ H3 H4 Hs4). cbn [fst] in HQ.
      rewrite decide_False in HQ. 2: { intros E1. apply (f_equal length) in E1. rewrite !length_app in E1. simpl in E1. lia. }
      destruct Hs4 as (l & Hs4 & Hl4). rewrite Hs4 in *. apply wp_wakeup; [intros i _; cbn; rewrite Hh; set_solver|]. exact HQ.
    + apply wp_when_f; [done|]. assert (d ≠ NL) as HdNL by (intros E1; rewrite E1 in Ecommit; done).
      specialize (HQ _ _ (H1 HdNL) H2 Hs3). cbn [fst] in HQ. by rewrite decide_True in HQ.
Qed.
End Keys.

(** ^P *)
Lemma wp_procdump (Q : unit → K → Prop) E s :
  tx_ready s → (LkPr ∉ held s) → (∀ out s', emits out s s' → Q tt s') → wp procdump Q E s.
Proof.
  intros Hr Hl HQ. unfold procdump. apply wp_bind, wp_printf; [done|done|done|]. intros o0 s0 H0.
  eapply wp_post; [apply (wp_for_each nprocs [] nprocs _ (λ _ s', ∃ out, emits out s s'))|]; [|done|by eauto|].
  - intros d i l s1 _ [out H1]. unfold getproc. apply wp_bind, wp_gets. apply wp_when; [|by eauto]. intros _.
    apply wp_bind, wp_printf; [reflexivity|by eapply emits_ready|by rewrite (emits_held _ _ _ H1)|]. intros o2 s2 H2.
    pose proof (emits_app _ _ _ _ _ H1 H2) as H12.
    apply wp_printf; [reflexivity|by eapply emits_ready|by rewrite (emits_held _ _ _ H12)|]. intros o3 s3 H3.
    eexists. by eapply emits_app.
  - intros [] s1 [out H1]. by eapply HQ.
Qed.

(** the state after one key: the discipline's step, its echo, and readers woken
    when a line became available *)
Definition keyed (c : Z) (s s' : K) : Prop :=
  let st := input (cons s) in
  ∃ k out s1, cons_ok k ∧ input k = edit c st ∧ (c ≠ ctrl 80 → out = shown c st) ∧ cons_step s k out s1 ∧
  s' = if decide ((edit c st).1 = st.1) then s1 else set_procs (wake ChCons (cur s) 64 (procs s)) s1.

Lemma cons_step_held s h k out s' : held s = [] → cons_step (set_held h s) k out s' → cons_step s k out (set_held [] s').
Proof. intros Hh (l & -> & Hl). exists l. split; [|done]. kst. by rewrite set_held_same. Qed.

Lemma edit_same c st : c = ctrl 80 ∨ c = ctrl 85 ∨ c = ctrl 72 ∨ c = 127 → (edit c st).1 = st.1.
Proof. destruct st as [q line]. intros [->|[->|[->| ->]]]; done. Qed.

Lemma wp_consoleintr c s E :
  0 ≤ c < 256 → cons_ok (cons s) → tx_ready s → held s = [] → wp (consoleintr c) (λ _ s', keyed c s s') E s.
Proof.
  intros Hc Hok Hr Hh. unfold consoleintr. apply wp_bind, wp_acquire; [rewrite Hh; set_solver|]. rewrite Hh. set (s0 := set_held [LkCons] s).
  assert (∀ k out s1, cons_ok k → input k = edit c (input (cons s)) → (c ≠ ctrl 80 → out = shown c (input (cons s))) → cons_step s0 k out s1 →
    (edit c (input (cons s))).1 = (input (cons s)).1 → wp (release LkCons) (λ _ s', keyed c s s') E s1) as Hfin.
  { intros k out s1 Hk Hin Hout Hs He. eapply wp_release_head; [by destruct Hs as (l & -> & _)|].
    exists k, out, (set_held [] s1). split_and!; try done; [by eapply cons_step_held|]. by rewrite decide_True. }
  apply wp_bind. destruct (Z.eqb_spec c (ctrl 80)) as [->|N1].
  { apply wp_procdump; [done|set_solver|]. intros out s1 H1. pose proof (cons_step_emit _ _ _ _ _ _ (cons_step_start s0) H1) as Hs.
    apply (Hfin (cons s) ([] ++ out)); try done; by destruct (input (cons s)). }
  destruct (Z.eqb_spec c (ctrl 85)) as [->|N2].
  { apply wp_kill_line; [done|done|]. intros k s1 Hk Hin Hs. change (cons s0) with (cons s) in *. refine (Hfin k _ s1 Hk _ _ Hs _).
    - rewrite Hin. by destruct (input (cons s)).
    - intros _. by destruct (input (cons s)).
    - apply edit_same. auto. }
  destruct (Z.eqb_spec c (ctrl 72)) as [E3|N3]; [|destruct (Z.eqb_spec c 127) as [E4|N4]]; cbn [orb].
  1,2: apply wp_backspace; [done|done|]; intros k s1; change (cons s0) with (cons s); destruct (input (cons s)) as [q line] eqn:Hst;
    intros Hk Hin Hs; refine (Hfin k _ s1 Hk _ _ Hs _); [by subst c; rewrite Hin|by subst c|rewrite <- Hst; apply edit_same; tauto].
  apply wp_key; [done..|]. intros k s1 st Hk Hin Hs. subst st. change (cons s0) with (cons s) in *.
  destruct (decide _) as [Hd|Hd]; [by apply (Hfin k (shown c (input (cons s))) s1)|]. destruct Hs as (l & -> & Hl).
  eapply wp_release_head; [reflexivity|].
  exists k, (shown c (input (cons s))), (set_held [] (set_cons k (set_uart0 (set_tx_out (tx_out (uart0 s) ++ shown c (input (cons s))) (set_tx_lsr l (uart0 s))) s0))).
  split_and!; try done.
  - apply (cons_step_held s [LkCons]); [done|]. by exists l.
  - by rewrite decide_False.
Qed.

(** C28: The line discipline.  Whatever key arrives, consoleintr() returns with
    the input buffer changed as the abstract editor [edit] says - ^U erases the
    line, ^H and DEL its last byte, a byte is appended while fewer than 128 wait,
    and newline, ^D or a full buffer make the line readable - with the matching
    echo on the terminal; exactly when something became readable the processes
    sleeping in consoleread() are made runnable.  Nothing else changes. *)
Theorem consoleintr_discipline c s :
  0 ≤ c < 256 → cons_ok (cons s) → tx_ready s → held s = [] →
  ∃ s', consoleintr c s = Ret tt s' ∧ keyed c s s'.
Proof.
  intros H1 H2 H3 H4. destruct (proj1 (wp_returns _ _ _) (wp_consoleintr c s nopanic H1 H2 H3 H4)) as ([] & s' & E & HK). eauto.
Qed.

(** * Reading *)

(** what read() of [n] bytes takes from the ready bytes [q]: up to a newline, or
    to a ^D, which is kept for the next read if [some] bytes were taken before
    it; [None] when it would have to wait *)
Fixpoint line_read (n : nat) (some : bool) (q : list Z) : option (list Z * list Z) :=
  match n with
  | O => Some ([], q)
  | S n' =>
      match q with
      | [] => None
      | c :: q' =>
          if c =? ctrl 68 then Some ([], if some then q else q')
          else if c =? NL then Some ([c], q')
          else r ← line_read n' true q'; Some (c :: r.1, r.2)
      end
  end.

Definition took (k : console) : console := set_c_r (u32 (c_r k + 1)) k.
Lemma cons_take k c q : cons_ok k → (input k).1 = c :: q →
  c_r k ≠ c_w k ∧ cons_at (c_r k) k = c ∧ cons_ok (took k) ∧ input (took k) = (q, (input k).2) ∧ 0 ≤ c < 256.
Proof.
  intros Hok Hq. destruct (input_lengths k Hok) as (Hl1 & Hl2 & Hn). rewrite Hq in Hl1. simpl in Hl1.
  pose proof (co_ring k Hok) as Hring. pose proof (co_w k Hok) as Hw.
  assert (c_r k ≠ c_w k) as Hne by (intros E; unfold nready, count in Hl1; rewrite E, Z.sub_diag in Hl1; done).
  assert (c_r k ≠ c_e k) as Hre. { intros E. assert (length (cons_q k) = 0)%nat by (rewrite length_cons_q, E; unfold count; by rewrite Z.sub_diag). lia. }
  destruct (queue_pop _ _ ib_pos ib_div ib_lt _ _ _ Hring Hre) as [Hring' Hpop].
  assert (cons_q k = cons_at (c_r k) k :: cons_q (took k)) as Hq' by exact Hpop.
  destruct Hring as (Hlen & Hr & He & Hc).
  pose proof (count_range (2 ^ 32) INPUT_BUF_SIZE ib_pos ib_lt (c_r k) (c_w k)) as Hcw.
  assert (0 < count (2 ^ 32) (c_r k) (c_w k)) as Hpos by (unfold nready in Hl1; lia).
  pose proof (count_pop (2 ^ 32) INPUT_BUF_SIZE ib_pos ib_lt (c_r k) (c_w k) Hr Hw Hpos) as Hcp.
  assert (nready k = S (nready (took k))) as Hnr by (unfold nready, took; cbn [c_r c_w set_c_r]; unfold u32; rewrite Hcp; lia).
  assert (c = cons_at (c_r k) k ∧ q = take (nready (took k)) (cons_q (took k))) as [-> ->].
  { cbn [input fst] in Hq. rewrite Hq', Hnr in Hq. simpl in Hq. by injection Hq as <- <-. }
  assert (drop (nready k) (cons_q k) = drop (nready (took k)) (cons_q (took k))) as Hd by (by rewrite Hq', Hnr).
  split; [done|]. split; [done|]. split; [|split].
  - split; [exact Hring'|done| |apply Hok|].
    + pose proof (co_between k Hok). assert (0 < count (2 ^ 32) (c_r k) (c_e k)) as Hpe by lia.
      pose proof (count_pop (2 ^ 32) INPUT_BUF_SIZE ib_pos ib_lt (c_r k) (c_e k) Hr He Hpe). cbn [took c_r c_w c_e set_c_r]. unfold u32. lia.
    + pose proof (co_line k Hok) as HNL. cbn [input snd] in *. by rewrite <- Hd.
  - unfold input at 1. cbn [input snd]. by rewrite Hd.
  - unfold cons_at. destruct (c_buf k !! _) as [x|] eqn:Ex; simpl; [|lia].
    pose proof (co_bytes k Hok) as Hb. rewrite Forall_lookup in Hb. by apply Hb in Ex.
Qed.

Lemma untake k : cons_ok k → set_c_r (u32 (c_r (took k) - 1)) (took k) = k.
Proof.
  intros Hok. pose proof (co_ring k Hok) as (_ & Hr & _). unfold took, u32. destruct k as [b r w e]. cbn in *.
  rewrite Zminus_mod_idemp_l. replace (r + 1 - 1) with r by lia. by rewrite Z.mod_small.
Qed.

Section Reader.
Context `{PA : PageAlloc} (p : nat) (root : Z) (T : ptree) (sz va n : Z).
Context (Hva : 0 ≤ va) (Hn : 0 ≤ n < 2 ^ 31).
Abbreviation user := (user p root T sz).

(** the mappings, and user memory outside the [i] bytes delivered *)
Definition kept (i : Z) (s s' : K) : Prop :=
  (∀ x, pte_of (mem (phy s')) T x = pte_of (mem (phy s)) T x) ∧
  ∀ x, 0 ≤ x → umapped (mem (phy s)) T x → ¬ va ≤ x < va + i → ubyte T s' x = ubyte T s x.

Lemma kept_accessible i s s' : kept i s s' → accessible (mem (phy s)) T va n → accessible (mem (phy s')) T va n.
Proof. intros [Hp _] Ha. by apply (accessible_pte (mem (phy s))). Qed.

(** [done] was delivered; [rem] bytes and the rest [q] are what is left to do *)
Definition delivered (s0 : K) (b rest : list Z) (st : dst * Z * list Z) (s : K) : Prop :=
  ∃ done rem q, st = (ToUser (va + Z.of_nat (length done)), n - Z.of_nat (length done), []) ∧
    b = done ++ rem ∧ line_read (Z.to_nat (n - Z.of_nat (length done))) (0 <? Z.of_nat (length done)) q = Some (rem, rest) ∧
    user s ∧ held s = [LkCons] ∧ cons_ok (cons s) ∧ input (cons s) = (q, (input (cons s0)).2) ∧
    ubytes T s va (Z.of_nat (length done)) = done ∧ kept (Z.of_nat (length done)) s0 s ∧ Z.of_nat (length done) ≤ n.

Definition finished (s0 : K) (b rest : list Z) (s : K) : Prop :=
  user s ∧ held s = [LkCons] ∧ cons_ok (cons s) ∧ input (cons s) = (rest, (input (cons s0)).2) ∧
  ubytes T s va (Z.of_nat (length b)) = b ∧ kept (Z.of_nat (length b)) s0 s ∧ Z.of_nat (length b) ≤ n.


Lemma wp_either_copyout s a c (Q : Z * list Z → K → Prop) E :
  user s → 0 ≤ a → accessible (mem (phy s)) T a 1 → 0 ≤ c < 256 →
  (∀ s', user s' → s' = set_phy (phy s') s → ubytes T s' a 1 = [c] →
     (∀ x, pte_of (mem (phy s')) T x = pte_of (mem (phy s)) T x) →
     (∀ x, 0 ≤ x → umapped (mem (phy s)) T x → x ≠ a → ubyte T s' x = ubyte T s x) → Q (0, []) s') →
  wp (either_copyout (ToUser a) [c]) Q E s.
Proof.
  intros Hu Ha Hle Hc HQ. unfold either_copyout. apply wp_bind, wp_myproc with (p := p); [apply (u_cur _ _ _ _ _ Hu)|].
  unfold getproc. apply wp_bind, wp_gets. rewrite (u_root _ _ _ _ _ Hu). apply wp_bind.
  pose proof (accessible_max _ _ _ _ Hle ltac:(lia)).
  apply (wp_user_copyout p root T sz s a [c]); [done|consts; lia|done|by apply Forall_singleton|].
  intros s' Hu' Hs' Hb Hp Hsame. apply wp_ret, HQ; [done|done|done|done|]. intros x Hx Hm Hne. apply Hsame; [done|done|]. cbn [length]. lia.
Qed.

Lemma wp_cons_wait s (Q : bool → K → Prop) E : c_r (cons s) ≠ c_w (cons s) → Q true s → wp cons_wait Q E s.
Proof.
  intros Hne HQ. unfold cons_wait. apply (wp_loop _ (λ _ s', s' = s) (λ _ _, 0)); [|done|done].
  intros [] s' ->. apply wp_bind, wp_gets. rewrite (proj2 (Z.eqb_neq _ _) Hne). by apply wp_ret.
Qed.

Lemma delivered_byte s0 dn c q s s' :
  Z.of_nat (length dn) < n → held s = [LkCons] → ubytes T s va (Z.of_nat (length dn)) = dn → kept (Z.of_nat (length dn)) s0 s →
  user s' → s' = set_phy (phy s') (set_cons (took (cons s)) s) → ubytes T s' (va + Z.of_nat (length dn)) 1 = [c] →
  (∀ x, pte_of (mem (phy s')) T x = pte_of (mem (phy s)) T x) →
  (∀ x, 0 ≤ x → umapped (mem (phy s)) T x → x ≠ va + Z.of_nat (length dn) → ubyte T s' x = ubyte T s x) →
  accessible (mem (phy s)) T va n → cons_ok (took (cons s)) → input (took (cons s)) = q →
  cons s' = took (cons s) ∧ held s' = [LkCons] ∧ cons_ok (cons s') ∧ input (cons s') = q ∧
  ubytes T s' va (Z.of_nat (length (dn ++ [c]))) = dn ++ [c] ∧ kept (Z.of_nat (length (dn ++ [c]))) s0 s'.
Proof using Hva.
  intros Hlt Hh Hb [Hpk Hk] Hu' Hs' Hb' Hp Hsame Ha Hok Hin. rewrite length_app. cbn [length]. rewrite Nat2Z.inj_add. change (Z.of_nat 1) with 1.
  assert (cons s' = took (cons s)) as Hc by by rewrite Hs'. rewrite Hc. split; [done|]. split; [by rewrite Hs'|].
  split; [done|]. split; [done|]. split.
  - unfold ubytes. rewrite uld_bytes_app by lia. unfold ubytes in Hb'. rewrite Hb'. f_equal. rewrite <- Hb at 2. unfold ubytes, uld_bytes.
    apply list_fmap_ext. intros i x Hx. apply lookup_seqZ in Hx as [-> Hx]. apply Hsame; [lia|apply Ha; lia|lia].
  - split; [intros x; by rewrite Hp|]. intros x Hx Hm Hno. rewrite Hsame; [apply Hk; [done|done|lia]|done| |lia].
    unfold umapped. by rewrite (xlate_pte (mem (phy s0))).
Qed.

Lemma wp_consoleread_loop s b rest E :
  user s → accessible (mem (phy s)) T va n → held s = [LkCons] → cons_ok (cons s) → line_read (Z.to_nat n) false (input (cons s)).1 = Some (b, rest) →
  wp (consoleread_loop (ToUser va) n n) (λ r s', r = (Some (n - Z.of_nat (length b)), []) ∧ finished s b rest s') E s.
Proof using Hva Hn.
  intros Hu Ha Hh Hok Hlr. unfold consoleread_loop. apply (wp_loop _ (delivered s b rest) (λ st _, st.1.2)); [|..|cbn; lia].
  2: { exists [], b, (input (cons s)).1. cbn [length]. change (Z.of_nat 0) with 0. rewrite Z.add_0_r, Z.sub_0_r.
       split_and!; try done; try lia. }
  intros st s1 (dn & rem & q & -> & -> & Hl & Hu1 & Hh1 & Hok1 & Hin & Hb & Hk & Hle). cbn [fst snd].
  set (m := n - Z.of_nat (length dn)) in *. destruct (Z.ltb_spec 0 m) as [Hpos|Hz].
  2: { assert (m = 0) as Hm by lia. rewrite Hm in Hl |- *. simpl in Hl. injection Hl as <- <-. apply wp_ret. rewrite app_nil_r.
       split; [do 2 f_equal; lia|]. split_and!; done || lia. }
  replace (Z.to_nat m) with (S (Z.to_nat (m - 1))) in Hl by lia. cbn [line_read] in Hl. destruct q as [|c q']; [discriminate Hl|].
  destruct (cons_take (cons s1) c q') as (Hrw & Hc & Hok2 & Hin2 & Hcr); [done|by rewrite Hin|]. rewrite Hin in Hin2. cbn [snd] in Hin2.
  apply wp_bind, wp_cons_wait; [done|]. cbn [negb]. apply wp_bind, wp_gets. rewrite Hc. unfold upd_cons.
  apply wp_bind, wp_modify. fold (took (cons s1)).
  assert (user (set_cons (took (cons s1)) s1)) as Hu2 by by apply (user_same _ _ _ _ s1).
  destruct (c =? ctrl 68).
  - injection Hl as <- <-. apply wp_bind. rewrite app_nil_r. replace (m <? n) with (0 <? Z.of_nat (length dn)) by lia.
    apply wp_when; intros Hd; rewrite Hd.
    + apply wp_modify, wp_ret. split; [done|]. cbn [cons set_cons]. rewrite untake by done. change (set_cons (cons s1) _) with (set_cons (cons s1) s1).
      split; [by apply (user_same _ _ _ _ s1)|]. done.
    + apply wp_ret. split; [done|]. done.
  - pose proof (kept_accessible _ _ _ Hk Ha) as Ha1. pose proof (accessible_max _ _ _ _ Ha ltac:(lia)) as Hmax.
    apply wp_bind, wp_either_copyout; [done|lia|by apply (accessible_sub _ _ va n); [|lia|lia]|done|]. intros s3 Hu3 Hs3 Hb3 Hp3 Hsame. cbn [fst snd Z.eqb app].
    destruct (delivered_byte s dn c (q', (input (cons s)).2) s1 s3) as (Hc3 & Hh3 & Hok3 & Hin3 & Hb4 & Hk4); [lia|done..|].
    assert (Z.of_nat (length (dn ++ [c])) = Z.of_nat (length dn) + 1) as Hlen by (rewrite length_app; simpl; lia).
    destruct (c =? NL).
    + injection Hl as <- <-. apply wp_ret. split; [do 2 f_equal; lia|]. split_and!; try done. lia.
    + destruct (line_read (Z.to_nat (m - 1)) true q') as [[r1 r2]|] eqn:Er; [|done]. simpl in Hl. injection Hl as <- <-.
      apply wp_ret. split; [|cbn [fst snd]; lia]. exists (dn ++ [c]), r1, q'. rewrite Hlen.
      split_and!; try done; [|by rewrite <- (assoc (++))| |by rewrite <- Hlen|by rewrite <- Hlen|lia].
      * cbn [dst_add]. rewrite u64_small by (consts; lia). f_equal; [f_equal; [f_equal; lia|lia]].
      * replace (0 <? Z.of_nat (length dn) + 1) with true by lia. replace (n - (Z.of_nat (length dn) + 1)) with (m - 1) by lia. done.
Qed.

Lemma wp_consoleread s b rest E :
  user s → accessible (mem (phy s)) T va n → held s = [] → cons_ok (cons s) → line_read (Z.to_nat n) false (input (cons s)).1 = Some (b, rest) →
  wp (consoleread (ToUser va) n) (λ r s', r = (Z.of_nat (length b), []) ∧ user s' ∧ held s' = [] ∧ cons_ok (cons s') ∧
    input (cons s') = (rest, (input (cons s)).2) ∧ ubytes T s' va (Z.of_nat (length b)) = b ∧ kept (Z.of_nat (length b)) s s') E s.
Proof using Hva Hn.
  intros Hu Ha Hh Hok Hl. unfold consoleread. assert (u32 n = n) as -> by (apply Z.mod_small; lia).
  apply wp_bind, wp_acquire; [rewrite Hh; set_solver|]. rewrite Hh. apply wp_bind.
  eapply wp_post; [apply (wp_consoleread_loop _ b rest); [by apply (user_same _ _ _ _ s)|done|done|done|done]|].
  intros r s1 [-> (Hu1 & Hh1 & Hok1 & Hin1 & Hb1 & Hk1 & Hle)]. cbn [fst snd]. apply wp_bind. eapply wp_release_head; [done|].
  apply wp_ret. rewrite s32_small by lia. split; [f_equal; lia|]. split; [by apply (user_same _ _ _ _ s1)|]. done.
Qed.
End Reader.

(** C29: read() of the console delivers a line.  With enough input ready - a
    newline or ^D within the first [n] bytes, or [n] bytes - consoleread() does
    not wait: it stores exactly the bytes [line_read] says at the user's address,
    where the process may write,
    returns their number, and takes them off the input (a ^D after some bytes
    stays, so that the next read returns 0); the line being edited, the mappings and
    all other user memory are untouched. *)
Theorem consoleread_line `{PA : PageAlloc} p root T sz va n s b rest :
  0 ≤ va → 0 ≤ n < 2 ^ 31 → user p root T sz s → accessible (mem (phy s)) T va n → held s = [] → cons_ok (cons s) →
  line_read (Z.to_nat n) false (input (cons s)).1 = Some (b, rest) →
  ∃ s', consoleread (ToUser va) n s = Ret (Z.of_nat (length b), []) s' ∧ held s' = [] ∧ cons_ok (cons s') ∧
        input (cons s') = (rest, (input (cons s)).2) ∧ ubytes T s' va (Z.of_nat (length b)) = b ∧
        kept T va (Z.of_nat (length b)) s s'.
Proof.
  intros H1 H2 H3 H4 H5 H6 H7.
  destruct (proj1 (wp_returns _ _ _) (wp_consoleread p root T sz va n H1 H2 s b rest nopanic H3 H4 H5 H6 H7)) as (r & s' & E & -> & _ & Hrest).
  eauto.
Qed.

Module Console0.
Import Image0 Machine0 User0.

(** "ls", newline and the start of another line *)
Definition keys : console := mkCons (<[126%nat := 108]> (<[127%nat := 115]> (<[0%nat := 10]> (<[1%nat := 112]> (replicate 128 0))))) (2 ^ 32 - 2) 1 2.
Lemma keys_input : input keys = ([108; 115; 10], [112]).
Proof. vm_compute. reflexivity. Qed.
Lemma keys_ok : cons_ok keys.
Proof.
  split; [vm_compute; intuition discriminate|vm_compute; intuition discriminate|vm_compute; discriminate| |rewrite keys_input; set_solver].
  repeat (apply Forall_insert; [|lia]). apply Forall_replicate. lia.
Qed.

Lemma consoleintr_discipline_witness :
  edit NL (input keys) = ([108; 115; 10; 112; 10], []) ∧ shown NL (input keys) = [10] ∧
  ∃ s', consoleintr NL (set_cons keys one_user) = Ret tt s' ∧ keyed NL (set_cons keys one_user) s'.
Proof.
  split; [rewrite keys_input; reflexivity|]. split; [rewrite keys_input; reflexivity|].
  apply (consoleintr_discipline NL (set_cons keys one_user)); [unfold NL; lia|exact keys_ok|unfold tx_ready; cbn; lia|reflexivity].
Defined.

Lemma consoleread_line_witness :
  ∃ A T ph, let s := set_phy ph (set_cons keys one_user) in uvm A (pg 0) T ph (below 12288) ∧ guarded (mem ph) T ∧
  ∃ s', consoleread (ToUser 9000) 100 s = Ret (3, []) s' ∧ held s' = [] ∧ cons_ok (cons s') ∧
        input (cons s') = ([], (input (cons s)).2) ∧ ubytes T s' 9000 3 = [108; 115; 10] ∧ kept T 9000 3 s s'.
Proof.
  destruct image as (A & T & ph & HU & _ & _ & _ & Hg). exists A, T, ph. split; [exact HU|]. split; [exact Hg|].
  apply (consoleread_line 0 (pg 0) T 12288 9000 100 (set_phy ph (set_cons keys one_user)) [108; 115; 10] []);
    [lia|lia| | |reflexivity|exact keys_ok|].
  - apply (user_intro (set_cons keys one_user) A); [reflexivity|reflexivity|exact HU|consts; lia].
  - apply (accessible_sub _ _ 8192 4096); [apply Hg|lia|lia].
  - change (cons _) with keys. rewrite keys_input. vm_compute. reflexivity.
Defined.
End Console0.
