(* ===== verification/Fs.v ===== *)
(** kernel/fs.c: blocks, inodes, directories and path names.

    A pointer to an inode is an index of the inode table, so the null checks of
    ilock() and iunlock() are with their callers.  A C string is the list of its
    bytes before the NUL. *)

From S2P Require Import Prelude Mem Layout Kalloc Vm State Sched Bio Log Console.

(** * fs.h, stat.h *)

Definition ROOTINO : Z := 1.
Definition FSMAGIC : Z := 0x10203040.
Definition NDIRECT : Z := 12.
Definition NINDIRECT : Z := BSIZE / 4.
Definition MAXFILE : Z := NDIRECT + NINDIRECT.
(** sizeof(struct dinode), sizeof(struct dirent) *)
Definition DINODE_SIZE : Z := 64.
Definition IPB : Z := BSIZE / DINODE_SIZE.
Definition IBLOCK (i : Z) (sb : superblock) : Z := u32 (i / IPB + sb_inodestart sb).
Definition BPB : Z := BSIZE * 8.
Definition BBLOCK (b : Z) (sb : superblock) : Z := u32 (b / BPB + sb_bmapstart sb).
Definition DIRSIZ : Z := 14.
Definition DIRENT_SIZE : Z := 16.
Definition T_DIR : Z := 1.
Definition T_FILE : Z := 2.
Definition T_DEVICE : Z := 3.

(** struct dinode, as it lies in a block *)
Record dinode := mkDinode { d_type : Z; d_major : Z; d_minor : Z; d_nlink : Z; d_size : Z; d_addrs : list Z }.

Definition get_dinode (o : nat) (d : list Z) : dinode :=
  mkDinode (get_s16 o d) (get_s16 (o + 2) d) (get_s16 (o + 4) d) (get_s16 (o + 6) d) (get_u32 (o + 8) d)
    ((λ i, get_u32 (o + 12 + 4 * i) d) <$> seq 0 13).
Fixpoint put_u32s (o : nat) (l : list Z) (d : list Z) : list Z :=
  match l with
  | [] => d
  | v :: l' => put_u32s (o + 4) l' (put_u32 o v d)
  end.
Definition put_dinode (o : nat) (x : dinode) (d : list Z) : list Z :=
  put_u32s (o + 12) (d_addrs x)
    (put_u32 (o + 8) (d_size x)
      (put_u16 (o + 6) (d_nlink x) (put_u16 (o + 4) (d_minor x) (put_u16 (o + 2) (d_major x) (put_u16 o (d_type x) d))))).

(** the offset of inode [inum] in its block *)
Definition dinode_off (inum : Z) : nat := Z.to_nat (inum mod IPB * DINODE_SIZE).

(** * The superblock *)

Definition get_sb (d : list Z) : superblock :=
  mkSb (get_u32 0 d) (get_u32 4 d) (get_u32 8 d) (get_u32 12 d) (get_u32 16 d) (get_u32 20 d) (get_u32 24 d) (get_u32 28 d).

Definition readsb (dev : Z) : M K unit :=
  let! bp := bread dev 1 in
  let! s := get in
  do! modify (set_sb (get_sb (b_data (buf_at bp s)))) in
  brelse bp.

Definition fsinit (dev : Z) : M K unit :=
  do! readsb dev in
  let! v := gets sb in
  if negb (sb_magic v =? FSMAGIC) then panic "invalid file system" else
  initlog dev v.

(** * Blocks *)

Definition bzero (dev bno : Z) : M K unit :=
  let! bp := bread dev (u32 bno) in
  do! upd_buf bp (set_b_data zero_block) in
  do! log_write bp in
  brelse bp.

(** data[bi/8] *)
Definition bit_byte (bi : Z) (d : list Z) : Z := default 0 (d !! Z.to_nat (bi / 8)).
(** m = 1 << (bi % 8) *)
Definition bit_mask (bi : Z) : Z := Z.shiftl 1 (bi mod 8).
Definition put_bit_byte (bi v : Z) (d : list Z) : list Z := <[Z.to_nat (bi / 8) := u8 v]> d.

(** the inner loop: [Some r] is the return, [None] goes on with the next bitmap block *)
Definition balloc_block (dev b : Z) (bp : nat) : M K (option Z) :=
  loop (λ bi,
    let! s := get in
    if (bi <? BPB) && (b + bi <? sb_size (sb s)) then
      let d := b_data (buf_at bp s) in
      if Z.land (bit_byte bi d) (bit_mask bi) =? 0 then
        do! upd_buf bp (set_b_data (put_bit_byte bi (Z.lor (bit_byte bi d) (bit_mask bi)) d)) in
        do! log_write bp in
        do! brelse bp in
        do! bzero dev (b + bi) in
        ret (inr (Some (b + bi)))
      else ret (inl (bi + 1))
    else ret (inr None)) 0.

Definition balloc (dev : Z) : M K Z :=
  let! r := loop (λ b,
    let! v := gets sb in
    if b <? sb_size v then
      let! bp := bread dev (BBLOCK b v) in
      let! r := balloc_block dev b bp in
      match r with
      | Some x => ret (inr (Some x))
      | None => do! brelse bp in ret (inl (b + BPB))
      end
    else ret (inr None)) 0 in
  match r with
  | Some x => ret x
  | None => do! printf (bytes_of "balloc: out of blocks" ++ [NL]) [] in ret 0
  end.

Definition bfree (dev b : Z) : M K unit :=
  let! v := gets sb in
  let! bp := bread dev (BBLOCK b v) in
  let bi := b mod BPB in
  let m := bit_mask bi in
  let! s := get in
  let d := b_data (buf_at bp s) in
  if Z.land (bit_byte bi d) m =? 0 then panic "freeing free block" else
  do! upd_buf bp (set_b_data (put_bit_byte bi (Z.land (bit_byte bi d) (Z.lnot m)) d)) in
  do! log_write bp in
  brelse bp.

(** * Inodes *)

Definition inodes : list nat := seq 0 50.

Definition iinit : M K unit := for_each inodes (λ i, initsleeplock (SlInode i)).

(** iget()'s scan: [inl ip] found and counted, [inr empty] not there *)
Fixpoint iget_scan (l : list nat) (dev inum : Z) (empty : option nat) : M K (nat + option nat) :=
  match l with
  | [] => ret (inr empty)
  | i :: l' =>
      let! s := get in
      let ip := inode_at i s in
      if (0 <? i_ref ip) && (i_dev ip =? dev) && (i_inum ip =? inum) then
        do! upd_inode i (λ x, set_i_ref (s32 (i_ref x + 1)) x) in
        do! release LkItable in
        ret (inl i)
      else
        let empty' := match empty with None => if i_ref ip =? 0 then Some i else None | Some _ => empty end in
        iget_scan l' dev inum empty'
  end.

Definition iget (dev inum : Z) : M K nat :=
  do! acquire LkItable in
  let! r := iget_scan inodes dev inum None in
  match r with
  | inl i => ret i
  | inr None => panic "iget: no inodes"
  | inr (Some i) =>
      do! upd_inode i (λ x, set_i_valid false (set_i_ref 1 (set_i_inum inum (set_i_dev dev x)))) in
      do! release LkItable in
      ret i
  end.

Definition ialloc (dev type : Z) : M K (option nat) :=
  loop (λ inum,
    let! v := gets sb in
    if inum <? sb_ninodes v then
      let! bp := bread dev (IBLOCK inum v) in
      let! s := get in
      let d := b_data (buf_at bp s) in
      if d_type (get_dinode (dinode_off inum) d) =? 0 then
        do! upd_buf bp (set_b_data (put_u16 (dinode_off inum) type (splice (dinode_off inum) (replicate 64 0) d))) in
        do! log_write bp in
        do! brelse bp in
        let! i := iget dev inum in
        ret (inr (Some i))
      else
        do! brelse bp in
        ret (inl (inum + 1))
    else
      do! printf (bytes_of "ialloc: no inodes" ++ [NL]) [] in
      ret (inr None)) 1.

(** the part of an in-memory inode that lives on disk *)
Definition to_disk (x : inode) : dinode := mkDinode (i_type x) (i_major x) (i_minor x) (i_nlink x) (i_size x) (i_addrs x).
Definition from_disk (d : dinode) (x : inode) : inode :=
  set_i_addrs (d_addrs d) (set_i_size (d_size d) (set_i_nlink (d_nlink d)
    (set_i_minor (d_minor d) (set_i_major (d_major d) (set_i_type (d_type d) x))))).

Definition iupdate (ip : nat) : M K unit :=
  let! s := get in
  let x := inode_at ip s in
  let! bp := bread (i_dev x) (IBLOCK (i_inum x) (sb s)) in
  do! upd_buf bp (λ b, set_b_data (put_dinode (dinode_off (i_inum x)) (to_disk x) (b_data b)) b) in
  do! log_write bp in
  brelse bp.

Definition idup (ip : nat) : M K nat :=
  do! acquire LkItable in
  do! upd_inode ip (λ x, set_i_ref (s32 (i_ref x + 1)) x) in
  do! release LkItable in
  ret ip.

Definition ilock (ip : nat) : M K unit :=
  let! s := get in
  if i_ref (inode_at ip s) <? 1 then panic "ilock" else
  do! acquiresleep (SlInode ip) in
  let! s := get in
  let x := inode_at ip s in
  when (negb (i_valid x))
    (let! bp := bread (i_dev x) (IBLOCK (i_inum x) (sb s)) in
     let! s := get in
     do! upd_inode ip (from_disk (get_dinode (dinode_off (i_inum x)) (b_data (buf_at bp s)))) in
     do! brelse bp in
     do! upd_inode ip (set_i_valid true) in
     let! s := get in
     if i_type (inode_at ip s) =? 0 then panic "ilock: no type" else ret tt).

Definition iunlock (ip : nat) : M K unit :=
  let! h := holdingsleep (SlInode ip) in
  let! s := get in
  if negb h || (i_ref (inode_at ip s) <? 1) then panic "iunlock" else
  releasesleep (SlInode ip).

(** * Inode content *)

Definition addr_at (ip : nat) (k : Z) (s : K) : Z := default 0 (i_addrs (inode_at ip s) !! Z.to_nat k).
Definition set_addr (ip : nat) (k v : Z) : M K unit :=
  upd_inode ip (λ x, set_i_addrs (<[Z.to_nat k := v]> (i_addrs x)) x).
(** a[k] of an indirect block *)
Definition ind_at (k : Z) (d : list Z) : Z := get_u32 (Z.to_nat (4 * k)) d.

Definition bmap (ip : nat) (bn : Z) : M K Z :=
  let! s := get in
  let dev := i_dev (inode_at ip s) in
  if bn <? NDIRECT then
    let addr := addr_at ip bn s in
    if addr =? 0 then
      let! addr := balloc dev in
      if addr =? 0 then ret 0 else
      do! set_addr ip bn addr in
      ret addr
    else ret addr
  else
  let bn := bn - NDIRECT in
  if bn <? NINDIRECT then
    let! addr := (let addr := addr_at ip NDIRECT s in
      if addr =? 0 then
        let! addr := balloc dev in
        if addr =? 0 then ret 0 else
        do! set_addr ip NDIRECT addr in
        ret addr
      else ret addr) in
    if addr =? 0 then ret 0 else
    let! bp := bread dev addr in
    let! s := get in
    let addr := ind_at bn (b_data (buf_at bp s)) in
    let! addr := (if addr =? 0 then
        let! addr := balloc dev in
        do! when (negb (addr =? 0))
              (do! upd_buf bp (λ b, set_b_data (put_u32 (Z.to_nat (4 * bn)) addr (b_data b)) b) in
               log_write bp) in
        ret addr
      else ret addr) in
    do! brelse bp in
    ret addr
  else panic "bmap: out of range".

Definition itrunc (ip : nat) : M K unit :=
  do! for_each (seqZ 0 NDIRECT) (λ i,
    let! s := get in
    let a := addr_at ip i s in
    when (negb (a =? 0))
      (do! bfree (i_dev (inode_at ip s)) a in
       set_addr ip i 0)) in
  let! s := get in
  let ind := addr_at ip NDIRECT s in
  let dev := i_dev (inode_at ip s) in
  do! when (negb (ind =? 0))
    (let! bp := bread dev ind in
     do! for_each (seqZ 0 NINDIRECT) (λ j,
       let! s := get in
       let a := ind_at j (b_data (buf_at bp s)) in
       when (negb (a =? 0)) (bfree dev a)) in
     do! brelse bp in
     do! bfree dev ind in
     set_addr ip NDIRECT 0) in
  do! upd_inode ip (set_i_size 0) in
  iupdate ip.

Definition iput (ip : nat) : M K unit :=
  do! acquire LkItable in
  let! s := get in
  let x := inode_at ip s in
  do! when ((i_ref x =? 1) && i_valid x && (i_nlink x =? 0))
    (do! acquiresleep (SlInode ip) in
     do! release LkItable in
     do! itrunc ip in
     do! upd_inode ip (set_i_type 0) in
     do! iupdate ip in
     do! upd_inode ip (set_i_valid false) in
     do! releasesleep (SlInode ip) in
     acquire LkItable) in
  do! upd_inode ip (λ x, set_i_ref (s32 (i_ref x - 1)) x) in
  release LkItable.

Definition iunlockput (ip : nat) : M K unit :=
  do! iunlock ip in
  iput ip.

(** struct stat *)
Record stat := mkStat { st_dev : Z; st_ino : Z; st_type : Z; st_nlink : Z; st_size : Z }.
Definition stati (ip : nat) (s : K) : stat :=
  let x := inode_at ip s in mkStat (s32 (i_dev x)) (i_inum x) (i_type x) (i_nlink x) (i_size x).

Section Data.
Context `{PageAlloc}.

(** min(n - tot, BSIZE - off%BSIZE) *)
Definition io_chunk (n tot off : Z) : Z := Z.min (n - tot) (BSIZE - off mod BSIZE).
(** bp->data + (off % BSIZE), m bytes of it *)
Definition io_bytes (off m : Z) (d : list Z) : list Z := take (Z.to_nat m) (drop (Z.to_nat (off mod BSIZE)) d).

(** What a kernel destination receives is returned with the byte count. *)
Definition readi (ip : nat) (d : dst) (off n : Z) : M K (Z * list Z) :=
  let! s := get in
  let x := inode_at ip s in
  if (i_size x <? off) || (u32 (off + n) <? off) then ret (0, []) else
  let n := if i_size x <? u32 (off + n) then i_size x - off else n in
  loop (λ '(tot, off, d, out),
    if tot <? n then
      let! addr := bmap ip (off / BSIZE) in
      if addr =? 0 then ret (inr (s32 tot, out)) else
      let! bp := bread (i_dev x) addr in
      let m := io_chunk n tot off in
      let! s := get in
      let! r := either_copyout d (io_bytes off m (b_data (buf_at bp s))) in
      if r.1 =? -1 then
        do! brelse bp in
        ret (inr (-1, out ++ r.2))
      else
        do! brelse bp in
        ret (inl (tot + m, u32 (off + m), dst_add d m, out ++ r.2))
    else ret (inr (s32 tot, out))) (0, off, d, []).

(** the loop of writei(): the bytes written and the offset reached; a failing
    copy leaves what it copied in the buffer *)
Definition writei_loop (ip : nat) (dev : Z) (x : src) (off n : Z) : M K (Z * Z) :=
  loop (λ '(tot, off, x),
    if tot <? n then
      let! addr := bmap ip (off / BSIZE) in
      if addr =? 0 then ret (inr (tot, off)) else
      let! bp := bread dev addr in
      let m := io_chunk n tot off in
      let! r := either_copyin x m in
      do! upd_buf bp (λ b, set_b_data (splice (Z.to_nat (off mod BSIZE)) r.2 (b_data b)) b) in
      if r.1 =? -1 then
        do! brelse bp in
        ret (inr (tot, off))
      else
        do! log_write bp in
        do! brelse bp in
        ret (inl (tot + m, u32 (off + m), src_add x m))
    else ret (inr (tot, off))) (0, off, x).

Definition writei (ip : nat) (x : src) (off n : Z) : M K Z :=
  let! s := get in
  let size := i_size (inode_at ip s) in
  if (size <? off) || (u32 (off + n) <? off) then ret (-1) else
  if MAXFILE * BSIZE <? u32 (off + n) then ret (-1) else
  let! r := writei_loop ip (i_dev (inode_at ip s)) x off n in
  let! s := get in
  do! when (i_size (inode_at ip s) <? r.2) (upd_inode ip (set_i_size r.2)) in
  do! iupdate ip in
  ret (s32 r.1).

(** * Directories *)

(** strncmp() and strncpy() on arrays; a list ends like a NUL *)
Fixpoint strncmp_l (k : nat) (p q : list Z) : Z :=
  match k with
  | O => 0
  | S k' =>
      let a := default 0 (head p) in
      let b := default 0 (head q) in
      if negb (a =? 0) && (a =? b) then strncmp_l k' (tail p) (tail q) else a - b
  end.
Fixpoint strncpy_l (k : nat) (t : list Z) : list Z :=
  match k with
  | O => []
  | S k' => match t with
            | [] => replicate k 0
            | c :: t' => if c =? 0 then replicate k 0 else c :: strncpy_l k' t'
            end
  end.

Definition namecmp (s t : list Z) : Z := strncmp_l 14 s t.

Definition de_inum (d : list Z) : Z := get_u16 0 d.
Definition de_name (d : list Z) : list Z := drop 2 d.
Definition mk_dirent (inum : Z) (name : list Z) : list Z := le_bytes 2 inum ++ strncpy_l 14 name.

(** the inode found and the offset of its entry *)
Definition dirlookup (dp : nat) (name : list Z) : M K (option (nat * Z)) :=
  let! s := get in
  let x := inode_at dp s in
  if negb (i_type x =? T_DIR) then panic "dirlookup not DIR" else
  loop (λ off,
    let! s := get in
    if off <? i_size (inode_at dp s) then
      let! r := readi dp ToKernel off DIRENT_SIZE in
      if negb (r.1 =? DIRENT_SIZE) then panic "dirlookup read" else
      if de_inum r.2 =? 0 then ret (inl (u32 (off + DIRENT_SIZE))) else
      if namecmp name (de_name r.2) =? 0 then
        let! ip := iget (i_dev x) (de_inum r.2) in
        ret (inr (Some (ip, off)))
      else ret (inl (u32 (off + DIRENT_SIZE)))
    else ret (inr None)) 0.

Definition dirlink (dp : nat) (name : list Z) (inum : Z) : M K Z :=
  let! r := dirlookup dp name in
  match r with
  | Some (ip, _) => do! iput ip in ret (-1)
  | None =>
      let! off := loop (λ off,
        let! s := get in
        if off <? i_size (inode_at dp s) then
          let! r := readi dp ToKernel off DIRENT_SIZE in
          if negb (r.1 =? DIRENT_SIZE) then panic "dirlink read" else
          if de_inum r.2 =? 0 then ret (inr off) else ret (inl (off + DIRENT_SIZE))
        else ret (inr off)) 0 in
      let! w := writei dp (FromKernel (mk_dirent inum name)) off DIRENT_SIZE in
      if negb (w =? DIRENT_SIZE) then ret (-1) else ret 0
  end.

(** * Paths *)

Definition SLASH : Z := 47.

Fixpoint skip_slash (p : list Z) : list Z :=
  match p with
  | c :: p' => if c =? SLASH then skip_slash p' else p
  | [] => []
  end.
(** the element at the front and what follows it *)
Fixpoint span_elem (p : list Z) : list Z * list Z :=
  match p with
  | c :: p' => if c =? SLASH then ([], p) else let '(e, r) := span_elem p' in (c :: e, r)
  | [] => ([], [])
  end.

(** [name] is the buffer of DIRSIZ bytes *)
Definition skipelem (path name : list Z) : option (list Z * list Z) :=
  match skip_slash path with
  | [] => None
  | p =>
      let '(e, r) := span_elem p in
      let len := Z.of_nat (length e) in
      let name' := if DIRSIZ <=? len then take 14 e else e ++ [0] ++ drop (S (length e)) name in
      Some (skip_slash r, name')
  end.

(** the inode and, for nameiparent, the last element *)
Definition namex (path : list Z) (nameiparent : bool) (name : list Z) : M K (option nat * list Z) :=
  let! ip := (if default 0 (head path) =? SLASH then iget ROOTDEV ROOTINO else
    let! p := myproc in
    let! pr := getproc p in
    match p_cwd pr with Some c => idup c | None => ub "myproc()->cwd is null" end) in
  loop (λ '(ip, path, name),
    match skipelem path name with
    | None => if nameiparent : bool then do! iput ip in ret (inr (None, name)) else ret (inr (Some ip, name))
    | Some (path, name) =>
        do! ilock ip in
        let! s := get in
        if negb (i_type (inode_at ip s) =? T_DIR) then
          do! iunlockput ip in ret (inr (None, name))
        else if nameiparent && (default 0 (head path) =? 0) then
          do! iunlock ip in ret (inr (Some ip, name))
        else
          let! r := dirlookup ip name in
          match r with
          | None => do! iunlockput ip in ret (inr (None, name))
          | Some (next, _) => do! iunlockput ip in ret (inl (next, path, name))
          end
    end) (ip, path, name).

Definition namei (path : list Z) : M K (option nat) :=
  let! r := namex path false (replicate 14 0) in
  ret r.1.
(** The caller's buffer: fs.c leaves it as it was where nothing is copied. *)
Definition nameiparent (path name : list Z) : M K (option nat * list Z) := namex path true name.

End Data.
