(* ===== verification/FsOps.v ===== *)
(** The file system inside a transaction: rules for the code of fs.c that changes
    blocks through the buffer cache and the log, and the on-disk inode. *)

From S2P Require Import Prelude Mem Layout Kalloc State Sched Ring Bio BioProofs Blocks Log LogDisk LogProofs LogOps Console Fs.

(** * The on-disk inode *)

Lemma length_put_u16 off v d : (off + 2 ≤ length d)%nat → length (put_u16 off v d) = length d.
Proof. intros H. apply length_splice. by rewrite length_le_bytes. Qed.
Lemma get_put_s16 off v d : (off + 2 ≤ length d)%nat → - 2 ^ 15 ≤ v < 2 ^ 15 → get_s16 off (put_u16 off v d) = v.
Proof.
  intros H Hv. unfold get_s16, get_u16, put_u16. pose proof (get_splice off (le_bytes 2 v) d) as E.
  rewrite length_le_bytes in E. rewrite E by done. rewrite (le_val_bytes 2). unfold s16.
  change (256 ^ Z.of_nat 2) with (2 ^ 16). rewrite swrap_of_mod. by apply swrap_small.
Qed.
Lemma take_put_u16_ne n o off v d : (off + 2 ≤ length d)%nat → (o + n ≤ off ∨ off + 2 ≤ o)%nat →
  take n (drop o (put_u16 off v d)) = take n (drop o d).
Proof. intros H Ho. unfold put_u16. by rewrite get_splice_ne by by rewrite ?length_le_bytes. Qed.
Lemma take_put_u32_ne n o off v d : (off + 4 ≤ length d)%nat → (o + n ≤ off ∨ off + 4 ≤ o)%nat →
  take n (drop o (put_u32 off v d)) = take n (drop o d).
Proof. intros H Ho. unfold put_u32. by rewrite get_splice_ne by by rewrite ?length_le_bytes. Qed.

Lemma length_put_u32s l o d : (o + 4 * length l ≤ length d)%nat → length (put_u32s o l d) = length d.
Proof.
  revert o d. induction l as [|v l IH]; intros o d H; simpl in *; [done|]. rewrite IH; rewrite length_put_u32; lia.
Qed.
Lemma take_put_u32s_ne l n o o' d : (o + 4 * length l ≤ length d)%nat → (o' + n ≤ o ∨ o + 4 * length l ≤ o')%nat →
  take n (drop o' (put_u32s o l d)) = take n (drop o' d).
Proof.
  revert o d. induction l as [|v l IH]; intros o d H Ho; simpl in *; [done|].
  rewrite IH by (rewrite ?length_put_u32; lia). apply take_put_u32_ne; lia.
Qed.
Lemma get_put_u32s l o d i v : (o + 4 * length l ≤ length d)%nat → l !! i = Some v → 0 ≤ v < 2 ^ 32 →
  get_u32 (o + 4 * i) (put_u32s o l d) = v.
Proof.
  revert o d i. induction l as [|w l IH]; intros o d i H Hi Hv; [done|]. cbn [length put_u32s] in *. destruct i as [|i]; simpl in Hi.
  - injection Hi as ->. unfold get_u32. rewrite take_put_u32s_ne by (rewrite ?length_put_u32; lia).
    replace (o + 4 * 0)%nat with o by lia. change (get_u32 o (put_u32 o v d) = v). rewrite get_put_u32 by lia. by apply Z.mod_small.
  - replace (o + 4 * S i)%nat with (o + 4 + 4 * i)%nat by lia. apply IH; [rewrite length_put_u32; lia|done|done].
Qed.

(** what fits the fields *)
Record dinode_ok (x : dinode) : Prop := {
  di_shorts : Forall (λ v, - 2 ^ 15 ≤ v < 2 ^ 15) [d_type x; d_major x; d_minor x; d_nlink x];
  di_size : 0 ≤ d_size x < 2 ^ 32;
  di_addrs : length (d_addrs x) = 13%nat ∧ Forall (λ v, 0 ≤ v < 2 ^ 32) (d_addrs x);
}.

Lemma put_dinode_split o x d :
  (o + 64 ≤ length d)%nat → length (d_addrs x) = 13%nat →
  length (put_dinode o x d) = length d ∧
  ∀ n o', (o' + n ≤ o ∨ o + 64 ≤ o')%nat → take n (drop o' (put_dinode o x d)) = take n (drop o' d).
Proof.
  intros H Hl. unfold put_dinode. split.
  - rewrite length_put_u32s; rewrite ?length_put_u32, ?length_put_u16; repeat rewrite ?length_put_u32, ?length_put_u16 by (repeat rewrite length_put_u16; lia); lia.
  - intros n o' Ho. rewrite take_put_u32s_ne by (rewrite ?length_put_u32; repeat rewrite length_put_u16; lia).
    rewrite take_put_u32_ne by (repeat rewrite length_put_u16; lia).
    repeat rewrite take_put_u16_ne by (repeat rewrite length_put_u16; lia). done.
Qed.

Lemma get_put_dinode o x d : (o + 64 ≤ length d)%nat → dinode_ok x → get_dinode o (put_dinode o x d) = x.
Proof.
  intros H [Hs Hz [Hl Ha]]. rewrite !Forall_cons in Hs. destruct Hs as (H1 & H2 & H3 & H4 & _).
  unfold get_dinode. destruct x as [ty ma mi nl sz ad]. cbn [d_type d_major d_minor d_nlink d_size d_addrs] in *.
  set (b0 := put_u16 o ty d). set (b1 := put_u16 (o + 2) ma b0). set (b2 := put_u16 (o + 4) mi b1). set (b3 := put_u16 (o + 6) nl b2).
  set (b4 := put_u32 (o + 8) sz b3).
  assert (length b0 = length d) as L0 by (unfold b0; rewrite length_put_u16; lia).
  assert (length b1 = length d) as L1 by (unfold b1; rewrite length_put_u16; lia).
  assert (length b2 = length d) as L2 by (unfold b2; rewrite length_put_u16; lia).
  assert (length b3 = length d) as L3 by (unfold b3; rewrite length_put_u16; lia).
  assert (length b4 = length d) as L4 by (unfold b4; rewrite length_put_u32; lia).
  assert (put_dinode o (mkDinode ty ma mi nl sz ad) d = put_u32s (o + 12) ad b4) as -> by done.
  assert (∀ n o', (o' + n ≤ o + 12)%nat → take n (drop o' (put_u32s (o + 12) ad b4)) = take n (drop o' b4)) as Hhead
    by (intros n o' Hn; apply take_put_u32s_ne; lia).
  assert (∀ o', (o' + 2 ≤ o + 8)%nat → get_s16 o' (put_u32s (o + 12) ad b4) = get_s16 o' b3) as H16.
  { intros o' Hn. unfold get_s16, get_u16. rewrite Hhead by lia. unfold b4. by rewrite take_put_u32_ne by lia. }
  assert (∀ o' off v b, (off + 2 ≤ length b)%nat → (o' + 2 ≤ off)%nat → get_s16 o' (put_u16 off v b) = get_s16 o' b) as Hne.
  { intros o' off v b Hb Hn. unfold get_s16, get_u16. by rewrite take_put_u16_ne by lia. }
  rewrite !H16 by lia. f_equal.
  - unfold b3. rewrite Hne by lia. unfold b2. rewrite Hne by lia. unfold b1. rewrite Hne by lia. by apply get_put_s16; [lia|].
  - unfold b3. rewrite Hne by lia. unfold b2. rewrite Hne by lia. by apply get_put_s16; [lia|].
  - unfold b3. rewrite Hne by lia. by apply get_put_s16; [lia|].
  - unfold b3. by apply get_put_s16; [lia|].
  - unfold get_u32. rewrite Hhead by lia. change (get_u32 (o + 8) b4 = sz). unfold b4. rewrite get_put_u32 by lia. by apply Z.mod_small.
  - apply list_eq_same_length with (n := 13%nat); [done|by rewrite length_fmap, length_seq|].
    intros i v w Hi Hv Hw. rewrite list_lookup_fmap, lookup_seq_lt in Hv by done. cbn in Hv. injection Hv as <-.
    apply get_put_u32s; [lia|done|]. rewrite Forall_lookup in Ha. by eapply Ha.
Qed.

Lemma get_put_dinode_ne o o' x d : (o + 64 ≤ length d)%nat → length (d_addrs x) = 13%nat → (o' + 64 ≤ o ∨ o + 64 ≤ o')%nat →
  get_dinode o' (put_dinode o x d) = get_dinode o' d.
Proof.
  intros H Hl Ho. destruct (put_dinode_split o x d H Hl) as [_ Hsame]. unfold get_dinode, get_s16, get_u16, get_u32.
  rewrite !Hsame by lia. f_equal. apply list_fmap_ext. intros i j Hij. apply lookup_seq in Hij as [-> Hij]. by rewrite Hsame by lia.
Qed.

(** * Inside a transaction *)

Record trans (p : nat) (H : list nat) (s : K) : Prop := {
  tr_cache : cinv p (logged (lg s)) H s;
  tr_log : log_ok (lg s);
  tr_size : log_size (lg s) = LOGSIZE;
  tr_out : 1 ≤ log_outstanding (lg s);
}.

(** a call changed the blocks [ws], as the cache shows them, and logged them *)
Record changed (p : nat) (H : list nat) (s : K) (ws : list (Z * list Z)) (s' : K) : Prop := {
  ch_trans : trans p H s';
  ch_view x : view s' x = apply_ws ws (view s) x;
  ch_logged : logged (lg s') = foldl (λ l w, add_block w.1 l) (logged (lg s)) ws;
  ch_start : log_start (lg s') = log_start (lg s);
  ch_rest : rest s' = set_lg (lg s') (rest s);
  ch_pids : pids s' = pids s;
  ch_hand j : j ∈ H → b_blockno (buf_at j s') = b_blockno (buf_at j s) ∧ b_data (buf_at j s') = b_data (buf_at j s);
}.

Lemma changed_nil p H s : trans p H s → changed p H s [] s.
Proof. intros HT. split; try done. Qed.

Lemma changed_app p H s ws s' ws' s2 : changed p H s ws s' → changed p H s' ws' s2 → changed p H s (ws ++ ws') s2.
Proof.
  intros [T1 V1 L1 S1 R1 P1 H1] [T2 V2 L2 S2 R2 P2 H2]. split; [done|..].
  - intros x. rewrite V2, apply_ws_app. by apply apply_ws_ext.
  - by rewrite L2, L1, foldl_app.
  - congruence.
  - by rewrite R2, R1.
  - congruence.
  - intros j Hj. destruct (H1 j Hj), (H2 j Hj). split; congruence.
Qed.

(** a block the log may take *)
Definition loggable (s : K) (bn : Z) : Prop := 0 ≤ bn < 2 ^ 31 ∧ ¬ in_log (log_start (lg s)) bn ∧ lh_n (lg s) < LOGSIZE - 1.

Lemma wp_log_out p {H0} H i bn d s0 s (Q : unit → K → Prop) E :
  trans p H0 s0 → hold p (logged (lg s0)) H i bn d s0 s → loggable s0 bn →
  (∀ s', changed p H s0 [(bn, d)] s' → Q tt s') → wp (do! log_write i in brelse i) Q E s.
Proof.
  intros [_ HG Hsz Hout] [HCi Hr Hp Hbn Hd Hv Ho] (Hb & Hnl & Hn) HQ.
  assert (lg s = lg s0) as Hlg by exact (f_equal lg Hr). rewrite <- Hlg in HCi, HG, Hsz, Hout, Hnl, Hn.
  assert (lh_n (lg s) < 29) as Hn' by (revert Hn; consts; lia).
  apply wp_bind. eapply wp_post; [apply (wp_log_write p H i s HCi HG Hsz Hout); rewrite ?Hbn; done|].
  intros [] s1 [HC1 [Ok1 Lg1 [bs Eg1] R1 P1 V1 B1]]. rewrite Hbn in Lg1. destruct (B1 i) as [Bi Di].
  apply (wp_brelse_c p (logged (lg s1)) i H s1 HC1).
  - rewrite Bi, Hbn, Lg1. intros Hno. destruct Hno. unfold add_block. case_decide; set_solver.
  - intros s2 HC2 [R2 P2 V2] C2. assert (lg s2 = lg s1) as Hlg2 by exact (f_equal lg R2). apply HQ. split; cbn [apply_ws foldl fst snd].
    + split; [by rewrite Hlg2|by rewrite Hlg2|rewrite Hlg2, Eg1; exact Hsz|rewrite Hlg2, Eg1; exact Hout].
    + intros x. rewrite V2, V1, Hv. done.
    + by rewrite Hlg2, Lg1, Hlg.
    + rewrite Hlg2, Eg1. exact (f_equal log_start Hlg).
    + rewrite R2, R1, Hlg2, Hr. done.
    + rewrite P2. unfold pids in *. by rewrite P1.
    + intros j Hj. destruct (B1 j) as [Bj Dj]. split.
      * rewrite (f_equal b_blockno (C2 j Hj) : b_blockno (buf_at j s2) = b_blockno (buf_at j s1)), Bj. exact (f_equal b_blockno (Ho j Hj)).
      * rewrite (f_equal b_data (C2 j Hj) : b_data (buf_at j s2) = b_data (buf_at j s1)), Dj. exact (f_equal b_data (Ho j Hj)).
Qed.

Lemma trans_room p H s : trans p H s → lh_n (lg s) < LOGSIZE - 1 → (length H ≤ 0)%nat → (length (logged (lg s)) + length H < 30)%nat.
Proof. intros [_ HG _ _] Hn HH. pose proof (logged_len _ HG). revert Hn. consts. lia. Qed.

(** ** iupdate() *)

Lemma wp_iupdate p ip s E :
  trans p [] s → i_dev (inode_at ip s) = ROOTDEV → dinode_ok (to_disk (inode_at ip s)) →
  let bn := IBLOCK (i_inum (inode_at ip s)) (sb s) in
  loggable s bn →
  wp (iupdate ip) (λ _ s', changed p [] s [(bn, put_dinode (dinode_off (i_inum (inode_at ip s))) (to_disk (inode_at ip s)) (view s bn))] s') E s.
Proof.
  intros HT Hdev Hok bn Hlog. unfold iupdate. apply wp_bind, wp_get. rewrite Hdev. apply wp_bind.
  apply (hold_bread p (logged (lg s)) [] s bn); [apply HT|set_solver|right; apply (trans_room p [] s HT); [apply Hlog|simpl; lia]|].
  intros i s1 HO. pose proof (hold_len HO) as Hlen.
  assert (dinode_off (i_inum (inode_at ip s)) + 64 ≤ length (view s bn))%nat as Hoff.
  { rewrite Hlen. unfold dinode_off. change IPB with 16. change DINODE_SIZE with 64. pose proof (Z.mod_pos_bound (i_inum (inode_at ip s)) 16). lia. }
  apply wp_bind. eapply (hold_upd HO); [by rewrite (ho_data _ _ _ _ _ _ _ _ HO)| |].
  - destruct (put_dinode_split _ (to_disk (inode_at ip s)) _ Hoff (proj1 (di_addrs _ Hok))) as [-> _]. done.
  - intros s2 HO2. eapply wp_log_out; [exact HT|exact HO2|done|done].
Qed.

(** ** ilock() *)

Lemma cinv_set_itab p P H s t : cinv p P H s → cinv p P H (set_itab t s).
Proof. intros [[l HB] H1 H2 H3 H4 H5 H6 H7]. split; try done. exists l. by destruct HB. Qed.

Lemma inode_at_alter f i j s : (i < length (itab s))%nat →
  inode_at j (set_itab (alter f i (itab s)) s) = if decide (j = i) then f (inode_at i s) else inode_at j s.
Proof.
  intros Hi. unfold inode_at. cbn. case_decide as E; [subst j; rewrite list_lookup_alter_eq|by rewrite list_lookup_alter_ne].
  destruct (lookup_lt_is_Some_2 _ _ Hi) as [x ->]. done.
Qed.

(** the sleep lock of an inode nobody holds *)
Lemma wp_lock_inode p ip s (Q : unit → K → Prop) E :
  cur s = Some p → held s = [] → i_locked (inode_at ip s) = false →
  Q tt (set_itab (alter (λ b, set_i_pid (pid_of p s) (set_i_locked true b)) ip (itab s)) s) → wp (acquiresleep (SlInode ip)) Q E s.
Proof.
  intros Hc Hh Hl HQ. unfold acquiresleep. apply wp_bind, wp_acquire; [rewrite Hh; set_solver|]. rewrite Hh. apply wp_bind.
  apply (wp_loop _ (λ _ s', s' = set_held [LkInode ip] s) (λ _ _, 0)); [|done|done]. intros [] s' ->.
  apply wp_bind, wp_gets. cbn [sl_locked]. change (inode_at ip (set_held _ s)) with (inode_at ip s). rewrite Hl. apply wp_ret.
  apply wp_bind, wp_myproc with (p := p); [done|]. unfold getproc. apply wp_bind, wp_gets. unfold set_sl. apply wp_bind, wp_modify.
  eapply wp_release_head; [reflexivity|]. cbn [put_sl]. kst. rewrite (set_held_same s []) by done. exact HQ.
Qed.

Definition loaded (d : dinode) (pid : Z) (x : inode) : inode := set_i_valid true (from_disk d (set_i_pid pid (set_i_locked true x))).

Lemma wp_ilock_load p P ip s E :
  let x := inode_at ip s in let bn := IBLOCK (i_inum x) (sb s) in let d := get_dinode (dinode_off (i_inum x)) (view s bn) in
  cinv p P [] s → (ip < length (itab s))%nat → 1 ≤ i_ref x → i_locked x = false → i_valid x = false → i_dev x = ROOTDEV →
  d_type d ≠ 0 → (bn ∉ P → view s bn = blk s bn) → (length P < 30)%nat →
  wp (ilock ip) (λ _ s', cinv p P [] s' ∧ (∀ b, view s' b = view s b) ∧ pids s' = pids s ∧
    rest s' = set_itab (alter (loaded d (pid_of p s)) ip (itab s)) (rest s)) E s.
Proof.
  intros x bn d HC Hip Href Hlk Hval Hdev Hty Hclean Hroom. unfold ilock. apply wp_bind, wp_get. fold x.
  destruct (Z.ltb_spec (i_ref x) 1); [lia|]. apply wp_bind. pose proof (ci_cur _ _ _ _ HC) as Hc. pose proof (ci_held _ _ _ _ HC) as Hh.
  apply (wp_lock_inode p); [done|done|done|]. set (s1 := set_itab _ s). apply wp_bind, wp_get.
  assert (inode_at ip s1 = set_i_pid (pid_of p s) (set_i_locked true x)) as Hx1 by (unfold s1; by rewrite inode_at_alter, decide_True).
  rewrite Hx1. cbn [i_valid set_i_pid set_i_locked i_dev i_inum]. fold x. rewrite Hval. cbn [negb]. apply wp_when_t; [done|].
  rewrite Hdev. change (sb s1) with (sb s). fold bn. apply wp_bind.
  assert (cinv p P [] s1) as HC1 by by apply cinv_set_itab.
  apply (hold_bread p P [] s1 bn); [done|set_solver|right; simpl; lia|]. change (view s1 bn) with (view s bn). intros i s2 HO.
  apply wp_bind, wp_get. rewrite (ho_data _ _ _ _ _ _ _ _ HO). fold d. unfold upd_inode. apply wp_bind, wp_modify.
  assert (itab s2 = itab s1) as Hit by exact (f_equal itab (ho_rest _ _ _ _ _ _ _ _ HO)). rewrite Hit.
  set (t3 := alter (from_disk d) ip (itab s1)).
  assert (hold p P [] i bn (view s bn) (set_itab t3 s1) (set_itab t3 s2)) as HO3.
  { destruct HO as [H1 H2 H3 H4 H5 H6 H7]. split; try done; [by apply cinv_set_itab|]. change (set_itab t3 (rest s2) = set_itab t3 (rest s1)). by rewrite H2. }
  apply wp_bind, (hold_brelse HO3); [done|]. intros s4 HC4 R4 P4 V4 _. apply wp_bind, wp_modify.
  assert (itab s4 = t3) as Hit4 by exact (f_equal itab R4). apply wp_bind, wp_get. rewrite Hit4.
  assert (alter (set_i_valid true) ip t3 = alter (loaded d (pid_of p s)) ip (itab s)) as Ht.
  { unfold t3, s1. cbn [itab set_itab]. by rewrite !alter_compose. }
  rewrite Ht. unfold inode_at at 1. cbn [itab set_itab]. rewrite list_lookup_alter_eq.
  destruct (lookup_lt_is_Some_2 _ _ Hip) as [y Hy]. rewrite Hy. cbn [fmap option_fmap option_map default from_option id].
  change (i_type (loaded d (pid_of p s) y)) with (d_type d). destruct (Z.eqb_spec (d_type d) 0); [done|]. apply wp_ret.
  split; [by apply cinv_set_itab|]. split; [|split; [exact P4|]].
  - intros b. change (view s4 b = view s b). rewrite V4. change (view (set_itab t3 s1) b) with (view s b). by case_decide; [subst b|].
  - change (set_itab (alter (loaded d (pid_of p s)) ip (itab s)) (rest s4) = set_itab (alter (loaded d (pid_of p s)) ip (itab s)) (rest s)). by rewrite R4.
Qed.

(** ** The bitmap *)

(** block [b] is marked in use in the bitmap that the cache shows *)
Definition in_use (V : Z → list Z) (v : superblock) (b : Z) : bool :=
  Z.testbit (bit_byte (b mod BPB) (V (BBLOCK b v))) (b mod BPB mod 8).

Lemma mask_test x k : 0 ≤ k → (Z.land x (Z.shiftl 1 k) =? 0) = negb (Z.testbit x k).
Proof.
  intros Hk. rewrite Z.shiftl_1_l. destruct (Z.testbit x k) eqn:E; simpl.
  - apply Z.eqb_neq. intros H0. apply (f_equal (λ y, Z.testbit y k)) in H0. rewrite Z.land_spec, E, Z.pow2_bits_true, Z.bits_0 in H0 by done. done.
  - apply Z.eqb_eq. apply Z.bits_inj_0. intros n. rewrite Z.land_spec. destruct (decide (n = k)) as [->|Hne]; [by rewrite E|].
    rewrite Z.pow2_bits_false by lia. apply andb_false_r.
Qed.

Lemma BBLOCK_base b bi v : b mod BPB = 0 → 0 ≤ bi < BPB → 0 ≤ b → BBLOCK (b + bi) v = BBLOCK b v ∧ (b + bi) mod BPB = bi.
Proof.
  intros Hb Hbi Hb0. apply Z.div_exact in Hb; [|done]. unfold BBLOCK. split.
  - do 2 f_equal. rewrite Hb at 1. rewrite (Z.mul_comm BPB), Z.div_add_l by done. rewrite (Z.div_small bi) by done. lia.
  - rewrite Hb, (Z.mul_comm BPB), Z.add_comm, Z.mod_add by done. by apply Z.mod_small.
Qed.

Definition marked (x : Z) (d : list Z) : list Z := put_bit_byte (x mod BPB) (Z.lor (bit_byte (x mod BPB) d) (bit_mask (x mod BPB))) d.

Lemma wp_seq_assoc {A} (m1 m2 : M K unit) (k : M K A) Q E s :
  wp (do! m1 in m2) (λ _ s', wp k Q E s') E s → wp (do! m1 in do! m2 in k) Q E s.
Proof. rewrite !wp_bind_iff. intros Hw. eapply wp_post; [exact Hw|]. intros [] s1 H1. by rewrite wp_bind_iff. Qed.

Lemma add_block_len b l : (length (add_block b l) ≤ S (length l))%nat.
Proof. unfold add_block. case_decide; [lia|]. rewrite length_app. simpl. lia. Qed.

Section Balloc.
Context (p : nat) (H : list nat) (s : K) (HT : trans p H s).
Let v := sb s.
(** room for the bitmap block and the new one *)
Context (Hroom : lh_n (lg s) < LOGSIZE - 2) (Hfew : (length (logged (lg s)) + length H < 29)%nat).
Context (Hlog : ∀ b, 0 ≤ b < sb_size v → 0 ≤ BBLOCK b v < 2 ^ 31 ∧ ¬ in_log (log_start (lg s)) (BBLOCK b v) ∧
                                        ∀ i, i ∈ H → b_blockno (buf_at i s) ≠ BBLOCK b v).
Context (Hsb : 0 ≤ sb_size v < 2 ^ 31 - BPB).

Definition took_block (x : Z) (s' : K) : Prop :=
  changed p H s [(BBLOCK x v, marked x (view s (BBLOCK x v))); (x, zero_block)] s'.

Lemma changed_sb ws s' : changed p H s ws s' → sb s' = v.
Proof. intros HCh. exact (f_equal sb (ch_rest _ _ _ _ _ HCh)). Qed.

Lemma wp_bzero x bn d s1 (Q : unit → K → Prop) E :
  changed p H s [(bn, d)] s1 → 0 ≤ x < 2 ^ 31 → ¬ in_log (log_start (lg s)) x → (∀ i, i ∈ H → b_blockno (buf_at i s) ≠ x) →
  (∀ s', changed p H s [(bn, d); (x, zero_block)] s' → Q tt s') → wp (bzero ROOTDEV x) Q E s1.
Proof.
  intros HCh Hx Hnl HH HQ. pose proof (ch_trans _ _ _ _ _ HCh) as HT1. unfold bzero. rewrite u32_small by lia. apply wp_bind.
  pose proof (ch_logged _ _ _ _ _ HCh) as Hl1. cbn [foldl fst] in Hl1. pose proof (add_block_len bn (logged (lg s))) as Hal. rewrite <- Hl1 in Hal.
  pose proof (logged_len _ (tr_log _ _ _ HT)) as Hn0. pose proof (logged_len _ (tr_log _ _ _ HT1)) as Hn1.
  apply (hold_bread p (logged (lg s1)) H s1 x); [apply HT1| |right; lia|].
  - intros i Hi. rewrite (proj1 (ch_hand _ _ _ _ _ HCh i Hi)). by apply HH.
  - intros i s2 HO. apply wp_bind. eapply (hold_upd HO); [done|done|]. intros s3 HO3.
    eapply wp_log_out; [exact HT1|exact HO3| |].
    + split; [done|]. split; [by rewrite (ch_start _ _ _ _ _ HCh)|]. revert Hroom. consts. lia.
    + intros s4 HC4. apply HQ. exact (changed_app _ _ _ _ _ _ _ HCh HC4).
Qed.

(** the inner loop *)
Lemma wp_balloc_block b i s1 (Q : option Z → K → Prop) E :
  b mod BPB = 0 → 0 ≤ b < sb_size v → hold p (logged (lg s)) H i (BBLOCK b v) (view s (BBLOCK b v)) s s1 →
  (∀ x, 0 ≤ x < sb_size v → in_use (view s) v x = false → ¬ in_log (log_start (lg s)) x ∧ ∀ i, i ∈ H → b_blockno (buf_at i s) ≠ x) →
  (∀ x s', b ≤ x < Z.min (b + BPB) (sb_size v) → in_use (view s) v x = false → (∀ y, b ≤ y < x → in_use (view s) v y = true) →
     took_block x s' → Q (Some x) s') →
  ((∀ y, b ≤ y < Z.min (b + BPB) (sb_size v) → in_use (view s) v y = true) → Q None s1) →
  wp (balloc_block ROOTDEV b i) Q E s1.
Proof.
  intros Hb Hbs HO Hfree HQ HQ0. unfold balloc_block.
  assert (∀ bi, 0 ≤ bi < BPB → in_use (view s) v (b + bi) = Z.testbit (bit_byte bi (view s (BBLOCK b v))) (bi mod 8)) as Hbit.
  { intros bi Hbi. unfold in_use. destruct (BBLOCK_base b bi v Hb Hbi ltac:(lia)) as [-> ->]. done. }
  assert (BPB = 8192) as HBPB by done.
  apply (wp_loop _ (λ bi s', s' = s1 ∧ 0 ≤ bi ≤ BPB ∧ ∀ y, b ≤ y < b + bi → y < sb_size v → in_use (view s) v y = true) (λ bi _, BPB - bi)).
  2: { split; [done|]. split; [lia|]. intros y Hy. lia. }
  2: { lia. }
  intros bi s' (-> & Hbi & Hno). apply wp_bind, wp_get. assert (sb s1 = v) as -> by exact (f_equal sb (ho_rest _ _ _ _ _ _ _ _ HO)).
  destruct ((bi <? BPB) && (b + bi <? sb_size v)) eqn:Eg.
  2: { apply wp_ret, HQ0. intros y Hy. apply Hno; [|lia]. apply andb_false_iff in Eg as [?|?]; lia. }
  apply andb_true_iff in Eg as [E1%Z.ltb_lt E2%Z.ltb_lt]. rewrite (ho_data _ _ _ _ _ _ _ _ HO). set (d := view s (BBLOCK b v)) in *.
  unfold bit_mask at 1. rewrite mask_test by (apply Z.mod_pos_bound; lia). rewrite <- Hbit by lia.
  destruct (in_use (view s) v (b + bi)) eqn:Eu; cbn [negb].
  { apply wp_ret. split; [|lia]. split; [done|]. split; [lia|]. intros y Hy Hys. destruct (decide (y = b + bi)) as [->|]; [done|]. apply Hno; lia. }
  destruct (BBLOCK_base b bi v Hb ltac:(lia) ltac:(lia)) as [Ebb Emod]. pose proof (hold_len HO) as Hlen. fold d in Hlen.
  apply wp_bind. eapply (hold_upd HO); [done| |].
  { unfold put_bit_byte. rewrite length_insert. done. }
  intros s2 HO2. assert (loggable s (BBLOCK b v)) as Hl.
  { destruct (Hlog b Hbs) as (? & ? & _). split; [done|]. split; [done|]. revert Hroom. consts. lia. }
  apply wp_seq_assoc. eapply wp_log_out; [exact HT|exact HO2|done|]. intros s3 HC3.
  destruct (Hfree (b + bi) ltac:(lia) Eu) as [Hnx HHx].
  apply wp_bind, (wp_bzero (b + bi) _ _ s3 _ _ HC3); [lia|done|done|]. intros s4 HC4. apply wp_ret, HQ; [lia|done|intros y Hy; apply Hno; lia|].
  unfold took_block, marked. rewrite Ebb, Emod. exact HC4.
Qed.

End Balloc.

(** what balloc() needs of the state *)
Record balloc_pre (p : nat) (H : list nat) (s : K) : Prop := {
  bp_trans : trans p H s;
  bp_room : lh_n (lg s) < LOGSIZE - 2;
  bp_few : (length (logged (lg s)) + length H < 29)%nat;
  bp_size : 0 ≤ sb_size (sb s) < 2 ^ 31 - BPB;
  bp_bmap b : 0 ≤ b < sb_size (sb s) → 0 ≤ BBLOCK b (sb s) < 2 ^ 31 ∧ ¬ in_log (log_start (lg s)) (BBLOCK b (sb s)) ∧
                ∀ i, i ∈ H → b_blockno (buf_at i s) ≠ BBLOCK b (sb s);
  bp_free x : 0 ≤ x < sb_size (sb s) → in_use (view s) (sb s) x = false →
                ¬ in_log (log_start (lg s)) x ∧ ∀ i, i ∈ H → b_blockno (buf_at i s) ≠ x;
}.

Lemma in_use_ext V V' v b : (∀ x, V' x = V x) → in_use V' v b = in_use V v b.
Proof. intros HV. unfold in_use. by rewrite HV. Qed.

Lemma balloc_pre_same p H s s' : balloc_pre p H s → changed p H s [] s' → balloc_pre p H s'.
Proof.
  intros [HT Hr Hf Hz Hb Hx] HC. pose proof HC as [T1 V1 L1 S1 R1 P1 H1]. cbn [foldl apply_ws] in *.
  assert (sb s' = sb s) as Esb by exact (f_equal sb R1).
  pose proof (logged_len _ (tr_log _ _ _ HT)) as Hn0. pose proof (logged_len _ (tr_log _ _ _ T1)) as Hn1.
  split; rewrite ?Esb, ?S1, ?L1; try done.
  - revert Hr. rewrite L1 in Hn1. lia.
  - intros b Hbs. destruct (Hb b Hbs) as (? & ? & H3). split_and!; try done; try lia. intros i Hi. rewrite (proj1 (H1 i Hi)). by apply H3.
  - intros x Hxs Hu. rewrite (in_use_ext (view s)) in Hu by done. destruct (Hx x Hxs Hu) as [? H3]. split; [done|].
    intros i Hi. rewrite (proj1 (H1 i Hi)). by apply H3.
Qed.

Lemma hold_release p H i bn s s1 (Q : unit → K → Prop) E :
  trans p H s → (∀ j, j ∈ H → b_blockno (buf_at j s) ≠ bn) → hold p (logged (lg s)) H i bn (view s bn) s s1 →
  (∀ s', changed p H s [] s' → Q tt s') → wp (brelse i) Q E s1.
Proof.
  intros HT Hn HO HQ. apply (hold_brelse HO).
  - intros Hno. apply (clean_view _ _ _ _ (tr_cache _ _ _ HT)); done.
  - intros s' HC R P V C. assert (lg s' = lg s) as Hlg by exact (f_equal lg R). apply HQ. split; cbn [apply_ws foldl].
    + destruct HT. split; rewrite Hlg; done.
    + intros x. rewrite V. case_decide; [by subst|done].
    + by rewrite Hlg.
    + by rewrite Hlg.
    + rewrite R, Hlg. by destruct s.
    + done.
    + intros j Hj. split; [exact (f_equal b_blockno (C j Hj))|exact (f_equal b_data (C j Hj))].
Qed.

Lemma wp_balloc p H s E (Q : Z → K → Prop) :
  balloc_pre p H s → (∃ x, 0 ≤ x < sb_size (sb s) ∧ in_use (view s) (sb s) x = false) →
  (∀ x s', 0 ≤ x < sb_size (sb s) → in_use (view s) (sb s) x = false → (∀ y, 0 ≤ y < x → in_use (view s) (sb s) y = true) →
     changed p H s [(BBLOCK x (sb s), marked x (view s (BBLOCK x (sb s)))); (x, zero_block)] s' → Q x s') →
  wp (balloc ROOTDEV) Q E s.
Proof.
  intros HP Hex HQ. unfold balloc. apply wp_bind. assert (BPB = 8192) as HBPB by done. set (v := sb s) in *.
  apply (wp_loop _ (λ b s', b mod BPB = 0 ∧ 0 ≤ b < sb_size v + BPB ∧ changed p H s [] s' ∧
    ∀ y, 0 ≤ y < b → y < sb_size v → in_use (view s) v y = true) (λ b _, sb_size v + BPB - b)).
  2: { split; [done|]. split; [pose proof (bp_size _ _ _ HP); unfold v; lia|]. split; [apply changed_nil, HP|]. intros y Hy. lia. }
  2: { pose proof (bp_size _ _ _ HP). unfold v. lia. }
  intros b s1 (Hb & Hbs & HC1 & Hno). apply wp_bind, wp_gets. assert (sb s1 = v) as Esb by exact (f_equal sb (ch_rest _ _ _ _ _ HC1)).
  rewrite Esb. destruct (Z.ltb_spec b (sb_size v)) as [Hlt|Hge].
  2: { exfalso. destruct Hex as (x & Hx & Hu). rewrite (Hno x) in Hu; [done|lia|lia]. }
  pose proof (balloc_pre_same _ _ _ _ HP HC1) as [HT1 Hr1 Hf1 Hz1 Hb1 Hx1].
  assert (∀ y, in_use (view s1) v y = in_use (view s) v y) as Hu1 by (intros y; apply in_use_ext; intros x; apply (ch_view _ _ _ _ _ HC1)).
  assert (∀ j, j ∈ H → b_blockno (buf_at j s1) ≠ BBLOCK b v) as HH by (rewrite <- Esb; apply Hb1; rewrite Esb; lia).
  apply wp_bind, (hold_bread p (logged (lg s1)) H s1 (BBLOCK b v)); [apply HT1|done|right; lia|]. intros i s2 HO. apply wp_bind.
  apply (wp_balloc_block p H s1 HT1 Hr1 Hf1 Hb1 Hz1 b i s2); rewrite ?Esb; [done|lia|done|by rewrite <- Esb|..].
  - intros x s' Hx Hux Hfirst Htook. rewrite Hu1 in Hux. apply wp_ret, wp_ret, HQ; [lia|done| |].
    + intros y Hy. destruct (decide (y < b)); [apply Hno; lia|]. rewrite <- Hu1. apply Hfirst. lia.
    + unfold took_block in Htook. rewrite Esb in Htook. rewrite (ch_view _ _ _ _ _ HC1) in Htook. exact (changed_app _ _ _ _ _ _ _ HC1 Htook).
  - intros Hall. apply wp_bind, (hold_release p H i (BBLOCK b v) s1 s2); [done|done|done|]. intros s3 HC3. apply wp_ret.
    split; [|lia]. split; [rewrite <- (Z.mod_add b 1 BPB) in Hb by done; by rewrite Z.mul_1_l in Hb|]. split; [lia|]. split; [exact (changed_app _ _ _ _ _ _ _ HC1 HC3)|].
    intros y Hy Hys. destruct (decide (y < b)); [apply Hno; lia|]. rewrite <- Hu1. apply Hall. lia.
Qed.
