(* ===== verification/FsRead.v ===== *)
(** Reading files: what bmap() and readi() find, in terms of the blocks the
    buffer cache shows, and dirlookup() on top of them. *)

From S2P Require Import Prelude Mem Layout Kalloc Vm PageTable VmProofs UserMem Uvm VmSpec State Sched UserCtx Ring Bio BioProofs Blocks Log LogDisk LogProofs LogOps Console Fs FsOps.

(** the block that holds part [bn] of a file, 0 if there is none *)
Definition baddr (s : K) (ip : nat) (bn : Z) : Z :=
  if bn <? NDIRECT then addr_at ip bn s else ind_at (bn - NDIRECT) (view s (addr_at ip NDIRECT s)).
(** the byte of the file at an offset *)
Definition fbyte (s : K) (ip : nat) (off : Z) : Z := default 0 (view s (baddr s ip (off / BSIZE)) !! Z.to_nat (off mod BSIZE)).
Definition fbytes (s : K) (ip : nat) (off n : Z) : list Z := (λ i, fbyte s ip (off + i)) <$> seqZ 0 n.

(** every part of the file below its size is on a block of its own address *)
Record file_ok (s : K) (ip : nat) : Prop := {
  fo_dev : i_dev (inode_at ip s) = ROOTDEV;
  fo_size : 0 ≤ i_size (inode_at ip s) ≤ MAXFILE * BSIZE;
  fo_ind : NDIRECT * BSIZE < i_size (inode_at ip s) → addr_at ip NDIRECT s ≠ 0;
  fo_map bn : 0 ≤ bn → bn * BSIZE < i_size (inode_at ip s) → baddr s ip bn ≠ 0;
}.

(** the state differs in what the cache holds and in user memory only *)
Record seen (p : nat) (P : list Z) (s s' : K) : Prop := {
  sn_cache : cinv p P [] s';
  sn_rest : set_phy (phys_boot ∅) (rest s') = set_phy (phys_boot ∅) (rest s);
  sn_pids : pids s' = pids s;
  sn_view x : view s' x = view s x;
}.

Lemma length_fbytes s ip off n : length (fbytes s ip off n) = Z.to_nat n.
Proof. unfold fbytes. by rewrite length_fmap, length_seqZ. Qed.

Lemma fbytes_app s ip off n m : 0 ≤ n → 0 ≤ m → fbytes s ip off (n + m) = fbytes s ip off n ++ fbytes s ip (off + n) m.
Proof.
  intros Hn Hm. unfold fbytes. rewrite seqZ_app, fmap_app by done. f_equal.
  apply list_eq. intros i. rewrite !list_lookup_fmap. destruct (decide (Z.of_nat i < m)).
  - rewrite !lookup_seqZ_lt by lia. simpl. do 2 f_equal. lia.
  - by rewrite !lookup_seqZ_ge by lia.
Qed.

(** the bytes of one block *)
Lemma io_bytes_spec s ip off m : 0 ≤ off → 0 ≤ m ≤ BSIZE - off mod BSIZE → length (view s (baddr s ip (off / BSIZE))) = 1024%nat →
  io_bytes off m (view s (baddr s ip (off / BSIZE))) = fbytes s ip off m.
Proof.
  intros Ho Hm Hlen. assert (BSIZE = 1024) as HB by done. pose proof (Z.mod_pos_bound off BSIZE ltac:(lia)) as Hmod.
  apply list_eq. intros i. unfold io_bytes, fbytes. rewrite list_lookup_fmap. destruct (decide (Z.of_nat i < m)) as [Hi|Hi].
  - rewrite lookup_take_lt, lookup_drop, lookup_seqZ_lt by lia. cbn. unfold fbyte. rewrite Z.add_0_l.
    assert ((off + Z.of_nat i) / BSIZE = off / BSIZE ∧ (off + Z.of_nat i) mod BSIZE = off mod BSIZE + Z.of_nat i) as [-> ->].
    { pose proof (Z.div_mod off BSIZE ltac:(lia)). split; symmetry; [apply (Z.div_unique _ _ _ (off mod BSIZE + Z.of_nat i)); lia|apply (Z.mod_unique _ _ (off / BSIZE)); lia]. }
    replace (Z.to_nat (off mod BSIZE + Z.of_nat i)) with (Z.to_nat (off mod BSIZE) + i)%nat by lia.
    destruct (lookup_lt_is_Some_2 (view s (baddr s ip (off / BSIZE))) (Z.to_nat (off mod BSIZE) + i)) as [x ->]; [lia|]. done.
  - rewrite lookup_take_ge, lookup_seqZ_ge by lia. done.
Qed.

(** how much of a request lies in the file *)
Definition clip (size off n : Z) : Z := if size <? off + n then size - off else n.

Section Read.
Context (p : nat) (P : list Z) (HP : (length P < 30)%nat).

Lemma seen_refl s : cinv p P [] s → seen p P s s.
Proof. intros HC. by split. Qed.
Lemma seen_trans s1 s2 s3 : seen p P s1 s2 → seen p P s2 s3 → seen p P s1 s3.
Proof. intros [] []. split; [done|congruence|congruence|]. intros x. congruence. Qed.
Lemma seen_same s s1 s2 : seen p P s s1 → cinv p P [] s2 → same_fs s1 s2 → seen p P s s2.
Proof. intros [H1 H2 H3 H4] HC [R1 R2 R3]. split; [done|by rewrite R1|congruence|]. intros x. congruence. Qed.
Lemma seen_itab s s' : seen p P s s' → itab s' = itab s.
Proof. intros [_ H _ _]. exact (f_equal itab H). Qed.
Lemma seen_inode s s' i : seen p P s s' → inode_at i s' = inode_at i s.
Proof. intros H. unfold inode_at. by rewrite (seen_itab _ _ H). Qed.
Lemma seen_addr s s' ip k : seen p P s s' → addr_at ip k s' = addr_at ip k s.
Proof. intros H. unfold addr_at. by rewrite (seen_inode _ _ _ H). Qed.
Lemma seen_baddr s s' ip bn : seen p P s s' → baddr s' ip bn = baddr s ip bn.
Proof. intros H. unfold baddr. rewrite !(seen_addr _ _ _ _ H). by rewrite (sn_view _ _ _ _ H). Qed.

(** brelse() of a block that was only looked at *)
Lemma wp_brelse_look s i bn s1 (Q : unit → K → Prop) E :
  cinv p P [] s → hold p P [] i bn (view s bn) s s1 → (∀ s', cinv p P [] s' → same_fs s s' → Q tt s') → wp (brelse i) Q E s1.
Proof.
  intros HC HO HQ. apply (hold_brelse HO).
  - intros Hno. apply (clean_view _ _ _ _ HC); [done|set_solver].
  - intros s' HC' R1 R2 V _. apply HQ; [done|]. split; [done|done|]. intros x. rewrite V. by case_decide; [subst x|].
Qed.

Lemma wp_bmap s ip bn (Q : Z → K → Prop) E :
  cinv p P [] s → i_dev (inode_at ip s) = ROOTDEV → 0 ≤ bn < MAXFILE → baddr s ip bn ≠ 0 → (NDIRECT ≤ bn → addr_at ip NDIRECT s ≠ 0) →
  (∀ s', cinv p P [] s' → same_fs s s' → Q (baddr s ip bn) s') → wp (bmap ip bn) Q E s.
Proof.
  intros HC Hdev Hbn Hne Hind HQ. unfold bmap. apply wp_bind, wp_get. unfold baddr in *. destruct (Z.ltb_spec bn NDIRECT) as [Hd|Hd].
  - rewrite (proj2 (Z.eqb_neq _ _) Hne). apply wp_ret, HQ; [done|]. by split.
  - assert (bn - NDIRECT < NINDIRECT) as Hi by (unfold MAXFILE in Hbn; lia). rewrite (proj2 (Z.ltb_lt _ _) Hi).
    rewrite (proj2 (Z.eqb_neq _ _) (Hind Hd)). apply wp_bind, wp_ret. rewrite (proj2 (Z.eqb_neq _ _) (Hind Hd)), Hdev.
    apply wp_bind, (hold_bread p P [] s); [done|set_solver|right; simpl; lia|]. intros i s1 HO. apply wp_bind, wp_get.
    rewrite (ho_data _ _ _ _ _ _ _ _ HO), (proj2 (Z.eqb_neq _ _) Hne). apply wp_bind, wp_ret. apply wp_bind.
    eapply wp_brelse_look; [done|done|]. intros s' HC' Hsf. by apply wp_ret, HQ.
Qed.

(** ** readi() *)

Section Loop.
Context `{PA : PageAlloc} (s : K) (ip : nat) (off n : Z).
Context (HC : cinv p P [] s) (HF : file_ok s ip) (Hoff : 0 ≤ off ≤ i_size (inode_at ip s)) (Hn : 0 ≤ n < 2 ^ 31).
Let N := clip (i_size (inode_at ip s)) off n.

Lemma clip_range : 0 ≤ N ≤ n ∧ off + N ≤ i_size (inode_at ip s).
Proof. unfold N, clip. destruct (Z.ltb_spec (i_size (inode_at ip s)) (off + n)); lia. Qed.

Lemma wp_readi E :
  wp (readi ip ToKernel off n) (λ r s', r = (N, fbytes s ip off N) ∧ seen p P s s') E s.
Proof.
  pose proof clip_range as [HN HNs]. pose proof (fo_size _ _ HF) as Hsz. assert (MAXFILE * BSIZE = 274432) as HMAX by done. assert (BSIZE = 1024) as HB by done.
  unfold readi. apply wp_bind, wp_get. set (x := inode_at ip s) in *. rewrite (u32_small (off + n)) by lia.
  rewrite (proj2 (Z.ltb_ge (i_size x) off)) by lia. rewrite (proj2 (Z.ltb_ge (off + n) off)) by lia. cbn [orb].
  change (if i_size x <? off + n then i_size x - off else n) with N. fold N.
  apply (wp_loop _ (λ '(tot, o, d, out) s', 0 ≤ tot ≤ N ∧ o = off + tot ∧ d = ToKernel ∧ out = fbytes s ip off tot ∧ seen p P s s')
    (λ st _, N - st.1.1.1)).
  2: { split_and!; [lia|lia|lia|done|done|by apply seen_refl]. }
  2: { cbn. lia. }
  intros [[[tot o] d] out] s1 (Htot & -> & -> & -> & HS). cbn [fst snd]. destruct (Z.ltb_spec tot N) as [Hlt|Hge].
  2: { assert (tot = N) as -> by lia. apply wp_ret. rewrite s32_small by lia. done. }
  assert (0 ≤ (off + tot) / BSIZE) as Hq0 by (apply Z.div_pos; lia).
  assert ((off + tot) / BSIZE * BSIZE ≤ off + tot) as Hq1 by (pose proof (Z.mul_div_le (off + tot) BSIZE ltac:(lia)); lia).
  assert ((off + tot) / BSIZE < MAXFILE) as Hq2 by (apply Z.div_lt_upper_bound; unfold MAXFILE in *; lia).
  pose proof (fo_map _ _ HF ((off + tot) / BSIZE) Hq0 ltac:(fold x; lia)) as Hne.
  apply wp_bind, (wp_bmap s1 ip); [apply HS|by rewrite (seen_inode _ _ _ HS), (fo_dev _ _ HF)|done|by rewrite (seen_baddr _ _ _ _ HS)| |].
  { intros Hd. rewrite (seen_addr _ _ _ _ HS). apply (fo_ind _ _ HF). fold x. nia. }
  intros s2 HC2 Hsf2. pose proof (seen_same _ _ _ HS HC2 Hsf2) as HS2. rewrite (seen_baddr _ _ _ _ HS). rewrite (proj2 (Z.eqb_neq _ _) Hne).
  unfold x. rewrite (fo_dev _ _ HF). apply wp_bind, (hold_bread p P [] s2); [done|set_solver|right; simpl; lia|]. intros i s3 HO.
  apply wp_bind, wp_get. rewrite (ho_data _ _ _ _ _ _ _ _ HO). rewrite (sn_view _ _ _ _ HS2). pose proof (hold_len HO) as Hlen. rewrite (sn_view _ _ _ _ HS2) in Hlen.
  set (m := io_chunk N tot (off + tot)). assert (0 < m ≤ N - tot ∧ m ≤ BSIZE - (off + tot) mod BSIZE) as Hm.
  { unfold m, io_chunk. pose proof (Z.mod_pos_bound (off + tot) BSIZE ltac:(lia)). lia. }
  rewrite io_bytes_spec by (done || lia). unfold either_copyout.
  apply wp_bind, wp_bind, wp_myproc with (p := p); [apply (ci_cur _ _ _ _ (ho_cinv _ _ _ _ _ _ _ _ HO))|]. apply wp_ret. cbn [fst snd Z.eqb].
  apply wp_bind. eapply wp_brelse_look; [done|done|]. intros s4 HC4 Hsf4. apply wp_ret. rewrite u32_small by lia.
  cbn [fst]. split; [|lia]. split_and!; [lia|lia|lia|done|symmetry; apply fbytes_app; lia|by eapply seen_same].
Qed.
End Loop.

(** ** dirlookup() *)

(** the entries of a directory *)
Definition dirent_at (s : K) (dp : nat) (k : Z) : list Z := fbytes s dp (k * DIRENT_SIZE) DIRENT_SIZE.
Definition entry_is (name : list Z) (e : list Z) : bool := negb (de_inum e =? 0) && (namecmp name (de_name e) =? 0).
Definition dir_len (s : K) (dp : nat) : Z := i_size (inode_at dp s) / DIRENT_SIZE.

Section Dir.
Context `{PA : PageAlloc} (s : K) (dp : nat) (name : list Z).
Context (HC : cinv p P [] s) (HF : file_ok s dp) (Hdir : i_type (inode_at dp s) = T_DIR).
Context (Hwhole : i_size (inode_at dp s) mod DIRENT_SIZE = 0).

Lemma wp_dirlookup (Q : option (nat * Z) → K → Prop) E :
  (∀ k s', 0 ≤ k < dir_len s dp → entry_is name (dirent_at s dp k) = true → (∀ j, 0 ≤ j < k → entry_is name (dirent_at s dp j) = false) →
     seen p P s s' → wp (iget ROOTDEV (de_inum (dirent_at s dp k))) (λ ip s'', Q (Some (ip, k * DIRENT_SIZE)) s'') E s') →
  ((∀ j, 0 ≤ j < dir_len s dp → entry_is name (dirent_at s dp j) = false) → ∀ s', seen p P s s' → Q None s') →
  wp (dirlookup dp name) Q E s.
Proof.
  intros Hfound Hnone. pose proof (fo_size _ _ HF) as Hsz. assert (MAXFILE * BSIZE = 274432) as HMAX by done. assert (DIRENT_SIZE = 16) as HD by done.
  assert (i_size (inode_at dp s) = dir_len s dp * 16) as Hlen by (unfold dir_len; rewrite HD in *; pose proof (Z.div_mod (i_size (inode_at dp s)) 16); lia).
  unfold dirlookup. apply wp_bind, wp_get. rewrite Hdir. cbn [negb Z.eqb T_DIR Pos.eqb].
  apply (wp_loop _ (λ off s', ∃ k, off = k * DIRENT_SIZE ∧ 0 ≤ k ≤ dir_len s dp ∧ seen p P s s' ∧ ∀ j, 0 ≤ j < k → entry_is name (dirent_at s dp j) = false)
    (λ off _, i_size (inode_at dp s) - off)).
  2: { exists 0. split_and!; [done|lia|unfold dir_len in *; lia|by apply seen_refl|intros; lia]. }
  2: { lia. }
  intros off s1 (k & -> & Hk & HS & Hno). apply wp_bind, wp_get. rewrite (seen_inode _ _ _ HS), Hlen, HD in *.
  destruct (Z.ltb_spec (k * 16) (dir_len s dp * 16)) as [Hlt|Hge].
  2: { apply wp_ret, Hnone; [|done]. intros j Hj. apply Hno. lia. }
  apply wp_bind. assert (file_ok s1 dp) as HF1.
  { destruct HF as [F1 F2 F3 F4]. split; rewrite ?(seen_inode _ _ _ HS), ?(seen_addr _ _ _ _ HS); try done. intros bn H1 H2. rewrite (seen_baddr _ _ _ _ HS). by apply F4. }
  eapply wp_post; [apply (wp_readi s1 dp (k * 16) 16); [apply HS|done|rewrite (seen_inode _ _ _ HS), Hlen; lia|lia]|].
  intros r s2 [-> HS2]. rewrite (seen_inode _ _ _ HS), Hlen. assert (clip (dir_len s dp * 16) (k * 16) 16 = 16) as ->.
  { unfold clip. destruct (Z.ltb_spec (dir_len s dp * 16) (k * 16 + 16)); [lia|done]. }
  pose proof (seen_trans _ _ _ HS HS2) as HS3. cbn [fst snd negb Z.eqb Pos.eqb].
  assert (fbytes s1 dp (k * 16) 16 = dirent_at s dp k) as ->.
  { unfold dirent_at, fbytes. rewrite HD. apply list_fmap_ext. intros i x _. unfold fbyte. by rewrite (seen_baddr _ _ _ _ HS), (sn_view _ _ _ _ HS). }
  assert (u32 (k * 16 + 16) = (k + 1) * 16) as Hnext by (rewrite u32_small by lia; lia).
  assert (entry_is name (dirent_at s dp k) = false → ∃ k0, u32 (k * 16 + 16) = k0 * 16 ∧ 0 ≤ k0 ≤ dir_len s dp ∧ seen p P s s2 ∧
    ∀ j, 0 ≤ j < k0 → entry_is name (dirent_at s dp j) = false) as Hskip.
  { intros He. exists (k + 1). split; [done|]. split; [lia|]. split; [done|]. intros j Hj. destruct (decide (j = k)) as [->|]; [done|]. apply Hno. lia. }
  destruct (Z.eqb_spec (de_inum (dirent_at s dp k)) 0) as [E0|E0].
  { apply wp_ret. rewrite Hnext in *. split; [apply Hskip; unfold entry_is; by rewrite E0|lia]. }
  destruct (Z.eqb_spec (namecmp name (de_name (dirent_at s dp k))) 0) as [E1|E1].
  - rewrite (fo_dev _ _ HF). apply wp_bind. eapply wp_post; [apply (Hfound k s2); [lia| |done|done]|].
    + unfold entry_is. rewrite (proj2 (Z.eqb_neq _ _) E0), E1. done.
    + intros ip s3 HQ. by apply wp_ret.
  - apply wp_ret. rewrite Hnext in *. split; [apply Hskip; unfold entry_is; rewrite (proj2 (Z.eqb_neq _ _) E0), (proj2 (Z.eqb_neq _ _) E1); done|lia].
Qed.
End Dir.
End Read.
