(* ===== verification/FsNames.v ===== *)
(** The bitmap of free blocks, the names of directory entries and the elements
    of paths, as kernel/fs.c computes them and as plain functions. *)

From S2P Require Import Prelude Mem Layout Kalloc Vm State Sched Bio BioProofs Blocks Log LogDisk LogProofs LogOps Console Fs FsOps.

(** * The bitmap *)

Lemma testbit_u8 x k : 0 ≤ k < 8 → Z.testbit (u8 x) k = Z.testbit x k.
Proof. intros Hk. unfold u8. by rewrite Z.mod_pow2_bits_low by lia. Qed.

Lemma bit_put x y v d : 0 ≤ x < BPB → 0 ≤ y → length d = 1024%nat →
  Z.testbit (bit_byte y (put_bit_byte x v d)) (y mod 8) = if decide (y / 8 = x / 8) then Z.testbit v (y mod 8) else Z.testbit (bit_byte y d) (y mod 8).
Proof.
  intros Hx Hy Hd. change BPB with 8192 in Hx. unfold bit_byte, put_bit_byte.
  assert (0 ≤ x / 8 < 1024) as Hq by (split; [apply Z.div_pos; lia|apply Z.div_lt_upper_bound; lia]).
  assert (0 ≤ y / 8) as Hqy by (apply Z.div_pos; lia).
  case_decide as E.
  - rewrite E, list_lookup_insert_eq by lia. cbn [default from_option]. apply testbit_u8. apply Z.mod_pos_bound. lia.
  - rewrite list_lookup_insert_ne by lia. done.
Qed.

Lemma same_bit x y : x / 8 = y / 8 → x mod 8 = y mod 8 → x = y.
Proof. intros Hq Hr. rewrite (Z.div_mod x 8), (Z.div_mod y 8) by lia. congruence. Qed.

Lemma bit_set x y d : 0 ≤ x < BPB → 0 ≤ y → length d = 1024%nat →
  Z.testbit (bit_byte y (put_bit_byte x (Z.lor (bit_byte x d) (bit_mask x)) d)) (y mod 8) = bool_decide (y = x) || Z.testbit (bit_byte y d) (y mod 8).
Proof.
  intros Hx Hy Hd. rewrite bit_put by done. pose proof (Z.mod_pos_bound y 8 ltac:(lia)). pose proof (Z.mod_pos_bound x 8 ltac:(lia)).
  unfold bit_mask. rewrite Z.shiftl_1_l. destruct (decide (y = x)) as [->|Hne].
  - rewrite decide_True, Z.lor_spec, Z.pow2_bits_true, bool_decide_true by (done || lia). apply orb_true_r.
  - rewrite (bool_decide_false (y = x)) by done. case_decide as E; [|done]. rewrite Z.lor_spec. unfold bit_byte at 1. rewrite <- E. fold (bit_byte y d).
    rewrite Z.pow2_bits_false; [apply orb_false_r|]. intros E'. apply Hne. by apply same_bit.
Qed.

Lemma bit_clear x y d : 0 ≤ x < BPB → 0 ≤ y → length d = 1024%nat →
  Z.testbit (bit_byte y (put_bit_byte x (Z.land (bit_byte x d) (Z.lnot (bit_mask x))) d)) (y mod 8) =
    negb (bool_decide (y = x)) && Z.testbit (bit_byte y d) (y mod 8).
Proof.
  intros Hx Hy Hd. rewrite bit_put by done. pose proof (Z.mod_pos_bound y 8 ltac:(lia)). pose proof (Z.mod_pos_bound x 8 ltac:(lia)).
  unfold bit_mask. rewrite Z.shiftl_1_l. destruct (decide (y = x)) as [->|Hne].
  - rewrite decide_True, Z.land_spec, Z.lnot_spec, Z.pow2_bits_true, bool_decide_true by (done || lia). apply andb_false_r.
  - rewrite (bool_decide_false (y = x)) by done. case_decide as E; [|done]. rewrite Z.land_spec, Z.lnot_spec by lia. unfold bit_byte at 1. rewrite <- E. fold (bit_byte y d).
    rewrite Z.pow2_bits_false; [apply andb_true_r|]. intros E'. apply Hne. by apply same_bit.
Qed.

(** a bitmap that fits its superblock *)
Record bitmap_ok (v : superblock) : Prop := {
  bm_start : 0 ≤ sb_bmapstart v;
  bm_end : sb_bmapstart v + sb_size v / BPB < 2 ^ 31;
}.

Lemma BBLOCK_small v b : bitmap_ok v → 0 ≤ b < sb_size v → BBLOCK b v = b / BPB + sb_bmapstart v.
Proof.
  intros [H1 H2] Hb. unfold BBLOCK. apply u32_small. assert (BPB = 8192) as HB by done.
  pose proof (Z.div_le_mono b (sb_size v) BPB ltac:(lia) ltac:(lia)). assert (0 ≤ b / BPB) by (apply Z.div_pos; lia). lia.
Qed.

Lemma same_block v x y : bitmap_ok v → 0 ≤ x < sb_size v → 0 ≤ y < sb_size v → BBLOCK x v = BBLOCK y v → x mod BPB = y mod BPB → x = y.
Proof.
  intros HB Hx Hy E E'. rewrite !BBLOCK_small in E by done. assert (BPB = 8192) as Hb by done.
  rewrite (Z.div_mod x BPB), (Z.div_mod y BPB) by lia. rewrite E'. f_equal. f_equal. lia.
Qed.

(** a bitmap block with the bit of [x] changed *)
Lemma in_use_put V V' v x y (f : Z → Z) (op : bool → bool) :
  bitmap_ok v → 0 ≤ x < sb_size v → 0 ≤ y < sb_size v → length (V (BBLOCK x v)) = 1024%nat →
  (∀ b, V' (BBLOCK b v) = if decide (BBLOCK b v = BBLOCK x v) then put_bit_byte (x mod BPB) (f (bit_byte (x mod BPB) (V (BBLOCK x v)))) (V (BBLOCK x v)) else V (BBLOCK b v)) →
  (∀ bi d, 0 ≤ bi → length d = 1024%nat → Z.testbit (bit_byte bi (put_bit_byte (x mod BPB) (f (bit_byte (x mod BPB) d)) d)) (bi mod 8) =
     if decide (bi = x mod BPB) then op (Z.testbit (bit_byte bi d) (bi mod 8)) else Z.testbit (bit_byte bi d) (bi mod 8)) →
  in_use V' v y = if decide (y = x) then op (in_use V v y) else in_use V v y.
Proof.
  intros HB Hx Hy Hlen HV Hf. pose proof (Z.mod_pos_bound y BPB ltac:(done)) as Hm. unfold in_use. rewrite HV.
  destruct (decide (BBLOCK y v = BBLOCK x v)) as [E|E].
  - rewrite Hf, E by (done || lia). destruct (decide (y mod BPB = x mod BPB)) as [E'|E'].
    + by rewrite (decide_True (P := y = x)) by by apply (same_block v).
    + by rewrite (decide_False (P := y = x)) by by intros ->.
  - by rewrite (decide_False (P := y = x)) by by intros ->.
Qed.

(** * Names *)

(** the name in a buffer of DIRSIZ bytes: up to the NUL, at most 14 of them *)
Fixpoint upto0 (k : nat) (l : list Z) : list Z :=
  match k, l with
  | S k', c :: l' => if c =? 0 then [] else c :: upto0 k' l'
  | _, _ => []
  end.
Definition name_of (l : list Z) : list Z := upto0 14 l.

Lemma strncmp_eq k a b : strncmp_l k a b = 0 ↔ upto0 k a = upto0 k b.
Proof.
  revert a b. induction k as [|k IH]; intros a b; [done|]. destruct a as [|x a], b as [|y b]; cbn [strncmp_l upto0 head tail default from_option id].
  - done.
  - destruct (Z.eqb_spec y 0) as [->|Hy]; [done|]. cbn. split; [intros; exfalso; lia|done].
  - destruct (Z.eqb_spec x 0) as [->|Hx]; [done|]. cbn [negb andb]. destruct (Z.eqb_spec x 0); [done|]. split; [intros; exfalso; lia|done].
  - destruct (Z.eqb_spec x 0) as [->|Hx]; cbn [negb andb].
    + destruct (Z.eqb_spec y 0) as [->|Hy]; [done|]. split; [intros; exfalso; lia|done].
    + destruct (Z.eqb_spec x y) as [<-|Hxy].
      * rewrite (proj2 (Z.eqb_neq x 0) Hx). rewrite IH. split; [by intros ->|by intros [= ->]].
      * destruct (Z.eqb_spec y 0) as [->|Hy]; [split; [intros; exfalso; lia|done]|]. split; [intros; exfalso; lia|]. intros [= ->]. done.
Qed.

Lemma namecmp_eq a b : (namecmp a b =? 0) = bool_decide (name_of a = name_of b).
Proof.
  unfold namecmp, name_of. destruct (Z.eqb_spec (strncmp_l 14 a b) 0) as [E|E]; rewrite strncmp_eq in E; symmetry; [by apply bool_decide_true|by apply bool_decide_false].
Qed.

Lemma upto0_strncpy k t : upto0 k (strncpy_l k t) = upto0 k t.
Proof.
  revert t. induction k as [|k IH]; intros t; [done|]. destruct t as [|c t]; [done|]. cbn [strncpy_l upto0].
  destruct (Z.eqb_spec c 0) as [->|Hc]; [done|]. cbn [upto0]. rewrite (proj2 (Z.eqb_neq c 0) Hc). by rewrite IH.
Qed.

(** what dirlink() writes is what dirlookup() reads *)
Lemma mk_dirent_fields inum name : 0 ≤ inum < 2 ^ 16 → de_inum (mk_dirent inum name) = inum ∧ name_of (de_name (mk_dirent inum name)) = name_of name.
Proof.
  intros Hi. unfold mk_dirent, de_inum, de_name. split.
  - unfold get_u16. rewrite drop_0, take_app_le by by rewrite length_le_bytes. rewrite take_ge by by rewrite length_le_bytes.
    rewrite (le_val_bytes 2). change (256 ^ Z.of_nat 2) with (2 ^ 16). by apply Z.mod_small.
  - rewrite drop_app_length' by by rewrite length_le_bytes. apply upto0_strncpy.
Qed.

(** * Paths *)

(** the elements of a path: what lies between slashes, empty ones left out *)
Fixpoint split_slash (cur : list Z) (path : list Z) : list (list Z) :=
  match path with
  | [] => [reverse cur]
  | c :: path' => if c =? SLASH then reverse cur :: split_slash [] path' else split_slash (c :: cur) path'
  end.
Definition nonempty (e : list Z) : bool := match e with [] => false | _ => true end.
Definition elements (path : list Z) : list (list Z) := List.filter nonempty (split_slash [] path).

(** the elements skipelem() hands out one after the other, until it returns 0 *)
Inductive walks : list Z → list Z → list (list Z) → Prop :=
| walks_end path name : skipelem path name = None → walks path name []
| walks_elem path name path' name' l : skipelem path name = Some (path', name') → walks path' name' l → walks path name (name_of name' :: l).

Lemma walks_fun path name l1 l2 : walks path name l1 → walks path name l2 → l1 = l2.
Proof.
  intros H1. revert l2. induction H1 as [path name E|path name path' name' l E _ IH]; intros l2 H2; inversion H2; subst; simplify_eq; [done|]. f_equal. by apply IH.
Qed.

Lemma split_slash_cur cur path : split_slash cur path = match split_slash [] path with e :: l => (reverse cur ++ e) :: l | [] => [] end.
Proof.
  revert cur. induction path as [|c path IH]; intros cur; cbn [split_slash]; [by rewrite app_nil_r|].
  destruct (c =? SLASH); [by rewrite app_nil_r|]. rewrite (IH (c :: cur)), (IH [c]). destruct (split_slash [] path); [done|].
  f_equal. rewrite !reverse_cons, reverse_nil, <- app_assoc. done.
Qed.

Lemma elements_skip path : elements (skip_slash path) = elements path.
Proof.
  induction path as [|c path IH]; [done|]. cbn [skip_slash]. destruct (Z.eqb_spec c SLASH) as [->|]; [|done].
  rewrite IH. done.
Qed.

Lemma span_split p e r : span_elem p = (e, r) →
  p = e ++ r ∧ split_slash [] p = e :: match r with [] => [] | _ :: r' => split_slash [] r' end ∧ (∀ c r', r = c :: r' → c = SLASH).
Proof.
  revert e r. induction p as [|c p IH]; intros e r; cbn [span_elem split_slash].
  - intros [= <- <-]. done.
  - destruct (Z.eqb_spec c SLASH) as [->|Hc].
    + intros [= <- <-]. split_and!; [done|done|]. by intros c r' [= -> _].
    + destruct (span_elem p) as [e0 r0] eqn:E. intros [= <- <-]. destruct (IH e0 r0 eq_refl) as (-> & IH2 & IH3).
      split_and!; [done| |done]. rewrite split_slash_cur, IH2. done.
Qed.

Lemma elements_span p e r : span_elem p = (e, r) → e ≠ [] → elements p = e :: elements r.
Proof.
  intros E He. destruct (span_split _ _ _ E) as (_ & Hs & Hr). unfold elements at 1. rewrite Hs. cbn [List.filter].
  destruct e as [|c e]; [done|]. cbn [nonempty]. f_equal. destruct r as [|c' r']; [done|]. rewrite (Hr c' r' eq_refl). done.
Qed.

Lemma span_nonempty c p : c ≠ SLASH → ∃ e r, span_elem (c :: p) = (c :: e, r).
Proof. intros Hc. cbn [span_elem]. rewrite (proj2 (Z.eqb_neq _ _) Hc). destruct (span_elem p) as [e r]. by exists e, r. Qed.

Lemma skip_slash_head p c p' : skip_slash p = c :: p' → c ≠ SLASH.
Proof. induction p as [|d p IH]; [done|]. cbn [skip_slash]. destruct (Z.eqb_spec d SLASH) as [->|Hd]; [done|]. by intros [= <- _]. Qed.
Lemma skip_slash_suffix p : ∃ q, p = q ++ skip_slash p.
Proof.
  induction p as [|d p [q IH]]; [by exists []|]. cbn [skip_slash]. destruct (d =? SLASH); [|by exists []]. exists (d :: q). cbn. by rewrite <- IH.
Qed.

Lemma upto0_app k e z l : Forall (λ c, c ≠ 0) e → (length e < k)%nat → z = 0 → upto0 k (e ++ z :: l) = e.
Proof.
  intros He Hk ->. revert k Hk. induction He as [|c e Hc _ IH]; intros [|k] Hk; cbn in *; try lia; [done|].
  rewrite (proj2 (Z.eqb_neq _ _) Hc). rewrite IH by lia. done.
Qed.
Lemma upto0_take k e : Forall (λ c, c ≠ 0) e → upto0 k (take k e) = take k e.
Proof.
  intros He. revert k. induction He as [|c e Hc _ IH]; intros [|k]; cbn; try done. by rewrite (proj2 (Z.eqb_neq _ _) Hc), IH.
Qed.

(** one step of skipelem() *)
Lemma skipelem_step path name : Forall (λ c, c ≠ 0) path → length name = 14%nat →
  match skipelem path name with
  | None => elements path = []
  | Some (path', name') => (length path' < length path)%nat ∧ length name' = 14%nat ∧ Forall (λ c, c ≠ 0) path' ∧
      ∃ e, elements path = e :: elements path' ∧ name_of name' = take 14 e
  end.
Proof.
  intros Hz Hn. destruct (skip_slash_suffix path) as [q Hq]. unfold skipelem.
  rewrite <- elements_skip. destruct (skip_slash path) as [|c p] eqn:Ep; [done|].
  destruct (span_nonempty c p (skip_slash_head _ _ _ Ep)) as (e & r & Es). rewrite Es.
  rewrite (elements_span _ _ _ Es) by done. destruct (span_split _ _ _ Es) as (Ecp & _ & _). destruct (skip_slash_suffix r) as [q' Hq'].
  rewrite Hq, Ecp, !Forall_app in Hz. destruct Hz as (_ & He & Hr). split_and!.
  - rewrite Hq, Ecp. rewrite Hq' at 2. rewrite !length_app. cbn [length]. lia.
  - destruct (Z.leb_spec DIRSIZ (Z.of_nat (length (c :: e)))) as [H|H]; change DIRSIZ with 14 in H.
    + rewrite length_take. lia.
    + rewrite !length_app, length_drop, Hn. cbn [length] in *. lia.
  - rewrite Hq' in Hr. apply Forall_app in Hr. apply Hr.
  - exists (c :: e). rewrite elements_skip. split; [done|]. unfold name_of.
    destruct (Z.leb_spec DIRSIZ (Z.of_nat (length (c :: e)))) as [H|H]; change DIRSIZ with 14 in H.
    + by apply upto0_take.
    + rewrite (take_ge (c :: e)) by lia. apply (upto0_app 14 (c :: e) 0); [done|lia|done].
Qed.

Lemma walks_elements path name : Forall (λ c, c ≠ 0) path → length name = 14%nat → walks path name (take 14 <$> elements path).
Proof.
  remember (length path) as n eqn:En. revert path name En. induction (lt_wf n) as [n _ IH]. intros path name -> Hz Hn.
  pose proof (skipelem_step path name Hz Hn) as Hs. destruct (skipelem path name) as [[path' name']|] eqn:E.
  - destruct Hs as (Hlt & Hn' & Hz' & e & -> & Hname). cbn [fmap list_fmap]. rewrite <- Hname.
    eapply walks_elem; [exact E|]. by eapply IH.
  - rewrite Hs. by apply walks_end.
Qed.
