(* ===== verification/FsAlloc.v ===== *)
(** bmap(): the blocks of a file, found or allocated.  [place] says which block holds
    which part of a file; [layout_ok] is the invariant of a file on a disk that
    balloc() and bmap() keep; [upd] is what a call did to the file and the disk. *)

From S2P Require Import Prelude Mem Layout Kalloc Vm State Sched Ring Bio BioProofs Blocks Log LogDisk LogProofs LogOps Console Fs FsOps FsRead FsNames.

Lemma lookup_splice off l d i : (off ≤ length d)%nat →
  splice off l d !! i = if decide (off ≤ i < off + length l)%nat then l !! (i - off)%nat else d !! i.
Proof.
  intros H. unfold splice. assert (length (take off d) = off) as Ht by (rewrite length_take; lia).
  destruct (decide (i < off)%nat) as [H1|H1].
  - rewrite lookup_app_l by lia. rewrite lookup_take_lt by lia. by rewrite decide_False by lia.
  - rewrite lookup_app_r by lia. rewrite Ht. destruct (decide (i - off < length l)%nat) as [H2|H2].
    + rewrite lookup_app_l by lia. by rewrite decide_True by lia.
    + rewrite lookup_app_r by lia. rewrite lookup_drop, decide_False by lia. f_equal. lia.
Qed.

(** ** Indirect blocks *)

Lemma ind_zero k : 0 ≤ k → ind_at k zero_block = 0.
Proof.
  intros Hk. unfold ind_at, get_u32, zero_block. rewrite drop_replicate, take_replicate. assert (∀ n, le_val (replicate n 0) = 0) as -> by (induction n as [|n IH]; [done|]; cbn; rewrite IH; done). done.
Qed.
Lemma ind_put k k' v d : length d = 1024%nat → 0 ≤ k < 256 → 0 ≤ k' < 256 → 0 ≤ v < 2 ^ 32 → ind_at k' (put_u32 (Z.to_nat (4 * k)) v d) = if decide (k' = k) then v else ind_at k' d.
Proof.
  intros Hl Hk Hk' Hv. unfold ind_at. case_decide as E; [subst k'; rewrite get_put_u32 by lia; by apply Z.mod_small|]. by rewrite get_put_u32_ne by lia.
Qed.

(** ** The places of a file *)

(** a file has a slot for each of its parts, and slot -1 for the indirect block *)
Definition slot (k : Z) : Prop := -1 ≤ k < MAXFILE.
(** the block in a slot, 0 if there is none *)
Definition place (s : K) (ip : nat) (k : Z) : Z :=
  if k =? -1 then addr_at ip NDIRECT s
  else if k <? NDIRECT then addr_at ip k s
  else if addr_at ip NDIRECT s =? 0 then 0 else ind_at (k - NDIRECT) (view s (addr_at ip NDIRECT s)).

(** part [b] of the file holds bytes of it *)
Definition part (s : K) (ip : nat) (b : Z) : Prop := 0 ≤ b ∧ b * BSIZE < i_size (inode_at ip s).
Definition iblock (s : K) (ip : nat) : Z := IBLOCK (i_inum (inode_at ip s)) (sb s).
Definition bitmap_block (v : superblock) (x : Z) : Prop := ∃ b, 0 ≤ b < sb_size v ∧ x = BBLOCK b v.
#[local] Instance bitmap_block_dec v x : Decision (bitmap_block v x).
Proof.
  destruct (decide (Exists (λ b, x = BBLOCK b v) (seqZ 0 (sb_size v)))) as [H|H]; [left|right].
  - apply Exists_exists in H as (b & Hb%elem_of_seqZ & ->). exists b. split; [lia|done].
  - intros (b & Hb & ->). apply H, Exists_exists. exists b. split; [apply elem_of_seqZ; lia|done].
Defined.
(** a block that is data: no block of the log, of the bitmap, nor the inode's own *)
Definition data_block (s : K) (ip : nat) (x : Z) : Prop :=
  0 < x < sb_size (sb s) ∧ ¬ in_log (log_start (lg s)) x ∧ x ≠ iblock s ip ∧ ¬ bitmap_block (sb s) x.

(** a disk with a bitmap that marks every block but data in use *)
Record fs_ok (s : K) (ip : nat) : Prop := {
  fk_bitmap : bitmap_ok (sb s);
  fk_size : 0 ≤ sb_size (sb s) < 2 ^ 31 - BPB;
  fk_meta x : bitmap_block (sb s) x → 0 ≤ x < 2 ^ 31 ∧ ¬ in_log (log_start (lg s)) x ∧ x ≠ iblock s ip;
  fk_iblock : 0 ≤ iblock s ip < 2 ^ 31 ∧ ¬ in_log (log_start (lg s)) (iblock s ip);
  fk_free x : 0 ≤ x < sb_size (sb s) → in_use (view s) (sb s) x = false → data_block s ip x;
}.

(** a file laid out as mkfs and balloc() leave it: it has a block for every part, all its blocks are data and in use,
    and no block is used twice *)
Record layout_ok (s : K) (ip : nat) : Prop := {
  lo_fs : fs_ok s ip;
  lo_here : (ip < length (itab s))%nat;
  lo_root : i_dev (inode_at ip s) = ROOTDEV;
  lo_size : 0 ≤ i_size (inode_at ip s) ≤ MAXFILE * BSIZE;
  lo_inode : dinode_ok (to_disk (inode_at ip s));
  lo_part b : part s ip b → place s ip b ≠ 0;
  lo_data k : slot k → place s ip k ≠ 0 → data_block s ip (place s ip k) ∧ in_use (view s) (sb s) (place s ip k) = true;
  lo_inj k k' : slot k → slot k' → place s ip k ≠ 0 → place s ip k = place s ip k' → k = k';
}.

Lemma part_slot s ip b : layout_ok s ip → part s ip b → slot b.
Proof.
  intros HL [Hb Hs]. pose proof (lo_size _ _ HL) as Hsz. unfold slot. assert (BSIZE = 1024) as HB by done. rewrite HB in *. nia.
Qed.

Lemma place_baddr s ip b : 0 ≤ b → place s ip b ≠ 0 → baddr s ip b = place s ip b ∧ (NDIRECT ≤ b → place s ip (-1) ≠ 0).
Proof.
  intros Hb. unfold place, baddr. rewrite (proj2 (Z.eqb_neq b (-1))) by lia. change (-1 =? -1) with true. cbn iota.
  destruct (Z.ltb_spec b NDIRECT); [split; [done|lia]|]. destruct (Z.eqb_spec (addr_at ip NDIRECT s) 0); [done|]. done.
Qed.

Lemma layout_file s ip : layout_ok s ip → file_ok s ip.
Proof.
  intros HL. split; [apply HL|apply HL| |].
  - intros Hs. assert (part s ip NDIRECT) as HP by (split; [done|lia]). pose proof (lo_part _ _ HL _ HP) as Hne.
    destruct (place_baddr s ip NDIRECT ltac:(done) Hne) as [_ Hi]. by apply Hi.
  - intros bn H1 H2. pose proof (lo_part _ _ HL bn (conj H1 H2)) as Hne. by rewrite (proj1 (place_baddr s ip bn H1 Hne)).
Qed.

(** ** Free blocks *)

Definition frees (s : K) : list Z := filter (λ x, in_use (view s) (sb s) x = false) (seqZ 0 (sb_size (sb s))).

Lemma elem_frees s x : x ∈ frees s ↔ 0 ≤ x < sb_size (sb s) ∧ in_use (view s) (sb s) x = false.
Proof. unfold frees. rewrite list_elem_of_filter, elem_of_seqZ. lia. Qed.
Lemma NoDup_frees s : NoDup (frees s).
Proof. apply NoDup_filter, NoDup_seqZ. Qed.

(** the blocks of the bitmap *)
Definition bitmaps (v : superblock) : list Z := (λ j, j + sb_bmapstart v) <$> seqZ 0 (sb_size v / BPB + 1).

Lemma elem_bitmaps v x : bitmap_ok v → bitmap_block v x → x ∈ bitmaps v.
Proof.
  intros HB (b & Hb & ->). rewrite BBLOCK_small by done. apply list_elem_of_fmap. exists (b / BPB). split; [done|]. apply elem_of_seqZ.
  assert (BPB = 8192) as HBPB by done. pose proof (Z.div_le_mono b (sb_size v) BPB ltac:(lia) ltac:(lia)). assert (0 ≤ b / BPB) by (apply Z.div_pos; lia). lia.
Qed.

Lemma elem_added y (ws : list (Z * list Z)) l : y ∈ foldl (λ l w, add_block w.1 l) l ws ↔ y ∈ l ∨ y ∈ ws.*1.
Proof.
  revert l. induction ws as [|w ws IH]; intros l; cbn [foldl fmap list_fmap]; [set_solver|]. rewrite IH. unfold add_block. case_decide; set_solver.
Qed.

(** ** What a call does to a file *)

Section Update.
Context (p ip : nat).

(** From [s] to [s'] at most the slots [ks] were given blocks, which were free, or had their blocks written; apart from
    them only the bitmap changed, which has exactly the new blocks in use. *)
Record upd (ks : list Z) (s s' : K) : Prop := {
  up_trans : trans p [] s';
  up_layout : layout_ok s' ip;
  up_start : log_start (lg s') = log_start (lg s);
  up_rest : rest s' = set_itab (itab s') (set_lg (lg s') (rest s));
  up_pids : pids s' = pids s;
  up_inode : ∃ a, itab s' = alter (set_i_addrs a) ip (itab s);
  up_keep k : slot k → place s ip k ≠ 0 → place s' ip k = place s ip k;
  up_new k : slot k → place s ip k = 0 → place s' ip k ≠ 0 → k ∈ ks ∧ in_use (view s) (sb s) (place s' ip k) = false;
  up_use y : 0 ≤ y < sb_size (sb s) →
    in_use (view s') (sb s) y = true ↔ in_use (view s) (sb s) y = true ∨ ∃ k, slot k ∧ place s ip k = 0 ∧ place s' ip k = y ∧ y ≠ 0;
  up_view y : view s' y ≠ view s y → bitmap_block (sb s) y ∨ ∃ k, slot k ∧ k ∈ ks ∧ y = place s' ip k ∧ y ≠ 0;
  up_logged y : y ∈ logged (lg s') → y ∈ logged (lg s) ∨ bitmap_block (sb s) y ∨ ∃ k, slot k ∧ k ∈ ks ∧ y = place s' ip k ∧ y ≠ 0;
}.

(** the data of the file is the same *)
Definition calm (s s' : K) : Prop :=
  ∀ k, 0 ≤ k → slot k → place s ip k ≠ 0 → view s' (place s ip k) = view s (place s ip k).

Lemma calm_trans ks s1 s2 s3 : upd ks s1 s2 → calm s1 s2 → calm s2 s3 → calm s1 s3.
Proof.
  intros HU H1 H2 k H0 Hs Hn. rewrite <- (H1 k H0 Hs Hn). pose proof (up_keep _ _ _ HU k Hs Hn) as E. rewrite <- E. apply H2; [done|done|congruence].
Qed.

Lemma up_sb ks s s' : upd ks s s' → sb s' = sb s.
Proof. intros HU. exact (f_equal sb (up_rest _ _ _ HU)). Qed.

Lemma up_at ks s s' : upd ks s s' → layout_ok s ip → ∃ a, inode_at ip s' = set_i_addrs a (inode_at ip s).
Proof.
  intros HU HL. destruct (up_inode _ _ _ HU) as [a Ha]. exists a. unfold inode_at. rewrite Ha, list_lookup_alter_eq.
  destruct (lookup_lt_is_Some_2 _ _ (lo_here _ _ HL)) as [x ->]. done.
Qed.

Lemma upd_mono ks ks' s s' : (∀ k, k ∈ ks → k ∈ ks') → upd ks s s' → upd ks' s s'.
Proof.
  intros Hk []. split; try done.
  - intros k Hs H0 H1. destruct (up_new0 k Hs H0 H1). auto.
  - intros y Hy. destruct (up_view0 y Hy) as [|(k & ? & ? & ?)]; [by left|]. right. exists k. auto.
  - intros y Hy. destruct (up_logged0 y Hy) as [|[|(k & ? & ? & ?)]]; [by left|by right; left|]. right; right. exists k. auto.
Qed.

Lemma upd_trans ks s1 s2 s3 : upd ks s1 s2 → upd ks s2 s3 → upd ks s1 s3.
Proof.
  intros H1 H2. pose proof (up_sb _ _ _ H1) as Esb. destruct H1 as [T1 L1 S1 R1 P1 [a1 I1] K1 N1 U1 V1 G1], H2 as [T2 L2 S2 R2 P2 [a2 I2] K2 N2 U2 V2 G2].
  rewrite Esb in *.
  assert (∀ k, slot k → place s1 ip k = 0 → place s2 ip k ≠ 0 → place s3 ip k = place s2 ip k) as HK by auto.
  split; [done|done|congruence|by rewrite R2, R1|congruence|..].
  - exists a2. rewrite I2, I1. apply list_eq. intros i. destruct (decide (i = ip)) as [->|].
    + rewrite !list_lookup_alter_eq. by destruct (itab s1 !! ip).
    + by rewrite !list_lookup_alter_ne.
  - intros k Hs Hk. pose proof (K1 k Hs Hk) as E. rewrite <- E. apply K2; [done|congruence].
  - intros k Hs H0 Hne. destruct (decide (place s2 ip k = 0)) as [E|E].
    + destruct (N2 k Hs E Hne) as [Hin Hu]. split; [done|]. apply not_true_is_false. intros Ht.
      destruct (lo_data _ _ L2 k Hs Hne) as [[Hr _] _]. rewrite (f_equal sb R2 : sb s3 = sb s2), Esb in Hr.
      rewrite (proj2 (U1 (place s3 ip k) ltac:(lia)) (or_introl Ht)) in Hu. done.
    + rewrite (K2 k Hs E). by apply N1.
  - intros y Hy. rewrite (U2 y Hy), (U1 y Hy). split.
    + intros [[|(k & Hs & H0 & E & Hn)]|(k & Hs & H0 & E & Hn)]; [by left|right; exists k..].
      * subst y. split_and!; try done. by apply K2.
      * split_and!; try done. destruct (decide (place s1 ip k = 0)) as [|Hne]; [done|]. exfalso. apply Hne. rewrite <- (K1 k Hs Hne). done.
    + intros [|(k & Hs & H0 & E & Hn)]; [by left; left|]. destruct (decide (place s2 ip k = 0)) as [E2|E2].
      * right. by exists k.
      * left. right. exists k. split_and!; try done. by rewrite <- (K2 k Hs E2).
  - intros y Hy. destruct (decide (view s2 y = view s1 y)) as [E|E].
    + rewrite <- E in Hy. apply (V2 y Hy).
    + destruct (V1 y E) as [|(k & Hs & Hin & -> & Hn)]; [by left|]. right. exists k. split_and!; try done. symmetry. by apply K2.
  - intros y Hy. destruct (G2 y Hy) as [H|H]; [|by right]. destruct (G1 y H) as [|[|(k & Hs & Hin & -> & Hn)]]; [by left|by right; left|].
    right; right. exists k. split_and!; try done. symmetry. by apply K2.
Qed.

(** what the update cost *)
Lemma upd_frees ks s s' : upd ks s s' → layout_ok s ip → (length (frees s) ≤ length (frees s') + length ks)%nat.
Proof.
  intros HU HL. pose proof (up_sb _ _ _ HU) as Esb.
  assert (frees s ⊆+ frees s' ++ (place s' ip <$> ks)) as Hsub.
  { apply NoDup_submseteq; [apply NoDup_frees|]. intros x [Hx Hu]%elem_frees. apply elem_of_app.
    destruct (in_use (view s') (sb s) x) eqn:E; [right|left; apply elem_frees; by rewrite Esb].
    apply (up_use _ _ _ HU x Hx) in E as [E|(k & Hs & H0 & <- & Hn)]; [congruence|]. apply list_elem_of_fmap. exists k. split; [done|].
    by apply (up_new _ _ _ HU k Hs H0). }
  apply submseteq_length in Hsub. by rewrite length_app, length_fmap in Hsub.
Qed.

Lemma upd_room ks s s' : upd ks s s' → layout_ok s ip → trans p [] s →
  lh_n (lg s') ≤ lh_n (lg s) + (sb_size (sb s) / BPB + 1) + Z.of_nat (length ks).
Proof.
  intros HU HL HT. pose proof (tr_log _ _ _ (up_trans _ _ _ HU)) as HG.
  assert (logged (lg s') ⊆+ (logged (lg s) ++ bitmaps (sb s)) ++ (place s' ip <$> ks)) as Hsub.
  { apply NoDup_submseteq; [apply HG|]. intros x Hx. rewrite !elem_of_app. destruct (up_logged _ _ _ HU x Hx) as [|[Hb|(k & _ & Hin & -> & _)]].
    - by left; left.
    - left; right. apply elem_bitmaps; [apply (lo_fs _ _ HL)|done].
    - right. by apply list_elem_of_fmap_2. }
  apply submseteq_length in Hsub. unfold bitmaps in Hsub. rewrite !length_app, !length_fmap, length_seqZ in Hsub.
  pose proof (logged_len _ HG). pose proof (logged_len _ (tr_log _ _ _ HT)). pose proof (fk_size _ _ (lo_fs _ _ HL)).
  assert (0 ≤ sb_size (sb s) / BPB) by (apply Z.div_pos; [lia|done]). lia.
Qed.
(** the invariant after new blocks were put into empty slots *)
Lemma layout_ext s s' a :
  layout_ok s ip → sb s' = sb s → log_start (lg s') = log_start (lg s) → itab s' = alter (set_i_addrs a) ip (itab s) →
  length a = 13%nat → Forall (λ v, 0 ≤ v < 2 ^ 32) a →
  (∀ k, slot k → place s ip k ≠ 0 → place s' ip k = place s ip k) →
  (∀ k, slot k → place s ip k = 0 → place s' ip k ≠ 0 → 0 ≤ place s' ip k < sb_size (sb s) ∧ in_use (view s) (sb s) (place s' ip k) = false) →
  (∀ k k', slot k → slot k' → place s ip k = 0 → place s ip k' = 0 → place s' ip k ≠ 0 → place s' ip k = place s' ip k' → k = k') →
  (∀ y, 0 ≤ y < sb_size (sb s) →
     in_use (view s') (sb s) y = true ↔ in_use (view s) (sb s) y = true ∨ ∃ k, slot k ∧ place s ip k = 0 ∧ place s' ip k = y ∧ y ≠ 0) →
  layout_ok s' ip.
Proof.
  intros HL Esb Est Eit Ha1 Ha2 HK HN HI HU.
  assert (inode_at ip s' = set_i_addrs a (inode_at ip s)) as Ei.
  { unfold inode_at. rewrite Eit, list_lookup_alter_eq. destruct (lookup_lt_is_Some_2 _ _ (lo_here _ _ HL)) as [x ->]. done. }
  assert (iblock s' ip = iblock s ip) as Eib by (unfold iblock; rewrite Ei, Esb; done).
  assert (∀ x, data_block s' ip x ↔ data_block s ip x) as Ed by (intros x; unfold data_block; by rewrite Esb, Est, Eib).
  pose proof HL as [[B1 B2 B3 B4 B5] H1 H2 H3 [D1 D2 D3] H5 H6 H7].
  assert (∀ k, slot k → place s' ip k ≠ 0 → data_block s ip (place s' ip k) ∧ in_use (view s') (sb s) (place s' ip k) = true) as HD.
  { intros k Hs Hne. destruct (decide (place s ip k = 0)) as [E|E].
    - destruct (HN k Hs E Hne) as [Hr Hf]. split; [by apply B5|]. apply HU; [done|]. right. by exists k.
    - rewrite (HK k Hs E). destruct (H6 k Hs E) as [Hd Hu]. split; [done|]. apply HU; [destruct Hd; lia|]. by left. }
  split.
  - split; rewrite ?Esb, ?Est, ?Eib; try done. intros x Hx Hf. apply Ed, B5; [done|]. apply not_true_is_false. intros Ht.
    rewrite (proj2 (HU x Hx) (or_introl Ht)) in Hf. done.
  - by rewrite Eit, length_alter.
  - by rewrite Ei.
  - by rewrite Ei.
  - rewrite Ei. split; [exact D1|exact D2|done].
  - intros b Hb. unfold part in Hb. rewrite Ei in Hb. pose proof (H5 b Hb) as Hne. rewrite HK; [done| |done]. by eapply part_slot.
  - intros k Hs Hne. rewrite Esb, Ed. by apply HD.
  - intros k k' Hs Hs' Hne E. destruct (decide (place s ip k = 0)) as [E1|E1], (decide (place s ip k' = 0)) as [E2|E2].
    + by apply HI.
    + exfalso. destruct (HN k Hs E1 Hne) as [_ Hf]. rewrite E, (HK k' Hs' E2) in Hf. destruct (H6 k' Hs' E2). congruence.
    + exfalso. destruct (HN k' Hs' E2 ltac:(congruence)) as [_ Hf]. rewrite <- E, (HK k Hs E1) in Hf. destruct (H6 k Hs E1). congruence.
    + apply H7; [done|done|done|]. by rewrite <- (HK k Hs E1), <- (HK k' Hs' E2).
Qed.

Lemma alter_addrs_id s : layout_ok s ip → alter (set_i_addrs (i_addrs (inode_at ip s))) ip (itab s) = itab s.
Proof. intros HL. apply alter_id. intros x Hx. unfold inode_at. rewrite Hx. by destruct x. Qed.

(** a call that wrote blocks of the file, or nothing *)
Lemma upd_changed ks s ws s' :
  layout_ok s ip → changed p [] s ws s' → (∀ y, y ∈ ws.*1 → ∃ k, 0 ≤ k ∧ slot k ∧ k ∈ ks ∧ y = place s ip k ∧ y ≠ 0) →
  upd ks s s' ∧ inode_at ip s' = inode_at ip s ∧ ∀ k, slot k → place s' ip k = place s ip k.
Proof.
  intros HL HC Hws. pose proof (f_equal itab (ch_rest _ _ _ _ _ HC) : itab s' = itab s) as Eit. pose proof (f_equal sb (ch_rest _ _ _ _ _ HC) : sb s' = sb s) as Esb.
  assert (inode_at ip s' = inode_at ip s) as Ei by (unfold inode_at; by rewrite Eit).
  assert (∀ y, (∀ k, 0 ≤ k → slot k → y = place s ip k → y = 0) → view s' y = view s y) as HV.
  { intros y Hy. rewrite (ch_view _ _ _ _ _ HC). apply apply_ws_out. intros Hin. destruct (Hws y Hin) as (k & H0 & Hs & _ & E & Hne). by apply Hne, (Hy k). }
  assert (∀ k, slot k → place s' ip k = place s ip k) as HP.
  { intros k Hs. unfold place, addr_at. rewrite Ei. destruct (k =? -1); [done|]. destruct (k <? NDIRECT); [done|].
    destruct (Z.eqb_spec (default 0 (i_addrs (inode_at ip s) !! Z.to_nat NDIRECT)) 0) as [|Hne]; [done|]. f_equal. apply HV. intros k' H0 Hs' E.
    assert (-1 = k') as Ek by (apply (lo_inj _ _ HL); try done; by split). lia. }
  assert (∀ y, 0 ≤ y < sb_size (sb s) → in_use (view s') (sb s) y = in_use (view s) (sb s) y) as HU.
  { intros y Hy. unfold in_use. do 2 f_equal. apply HV. intros k H0 Hs E. destruct (decide (place s ip k = 0)) as [|Hne]; [congruence|].
    destruct (lo_data _ _ HL k Hs Hne) as [(_ & _ & _ & Hnb) _]. destruct Hnb. exists y. split; [done|]. done. }
  assert (∀ y, 0 ≤ y < sb_size (sb s) → in_use (view s') (sb s) y = true ↔
    in_use (view s) (sb s) y = true ∨ ∃ k, slot k ∧ place s ip k = 0 ∧ place s' ip k = y ∧ y ≠ 0) as HU'.
  { intros y Hy. rewrite HU by done. split; [by left|]. intros [|(k & Hs & H0 & E & Hn)]; [done|]. rewrite HP in E by done. congruence. }
  pose proof (alter_addrs_id s HL) as Hid.
  split; [|done]. split; [apply HC| |apply HC|by rewrite (ch_rest _ _ _ _ _ HC), Eit|apply HC|eexists; by rewrite Hid|..]; try done.
  - pose proof (di_addrs _ (lo_inode _ _ HL)) as [L1 L2].
    apply (layout_ext s s' (i_addrs (inode_at ip s))); try done; [apply HC|by rewrite Hid|by intros k Hs _; apply HP|..].
    + intros k Hs H0. rewrite HP by done. congruence.
    + intros k k' Hs Hs' H0. rewrite (HP k) by done. congruence.
  - intros k Hs _. by apply HP.
  - intros k Hs H0. rewrite HP by done. congruence.
  - intros y Hy. right. destruct (decide (y ∈ ws.*1)) as [Hin|Hn].
    + destruct (Hws y Hin) as (k & H0 & Hs & Hk & E & Hne). exists k. rewrite HP by done. done.
    + destruct Hy. rewrite (ch_view _ _ _ _ _ HC). by apply apply_ws_out.
  - intros y Hy. rewrite (ch_logged _ _ _ _ _ HC), elem_added in Hy. destruct Hy as [|Hin]; [by left|]. right; right.
    destruct (Hws y Hin) as (k & H0 & Hs & Hk & E & Hne). exists k. rewrite HP by done. done.
Qed.
(** ** A new block *)

(** the bitmap when block [x] has been taken *)
Lemma in_use_took v V V' x y :
  bitmap_ok v → 0 ≤ x < sb_size v → 0 ≤ y < sb_size v → length (V (BBLOCK x v)) = 1024%nat →
  (∀ b, bitmap_block v b → V' b = dset V (BBLOCK x v) (marked x (V (BBLOCK x v))) b) →
  in_use V' v y = bool_decide (y = x) || in_use V v y.
Proof.
  intros HB Hx Hy Hlen HV.
  assert (in_use V' v y = in_use (dset V (BBLOCK x v) (marked x (V (BBLOCK x v)))) v y) as ->.
  { unfold in_use. do 2 f_equal. apply HV. by exists y. }
  rewrite (in_use_put V _ v x y (λ w, Z.lor w (bit_mask (x mod BPB))) (λ _, true)); try done.
  - case_decide; [by rewrite bool_decide_true|by rewrite bool_decide_false].
  - intros bi d Hbi Hd. rewrite bit_set by (done || apply Z.mod_pos_bound; done). case_decide; [by rewrite bool_decide_true|by rewrite bool_decide_false].
Qed.

Lemma wp_balloc_file H s (Q : Z → K → Prop) E :
  trans p H s → fs_ok s ip → lh_n (lg s) < LOGSIZE - 2 → (length (logged (lg s)) + length H < 29)%nat → frees s ≠ [] →
  (∀ i, i ∈ H → data_block s ip (b_blockno (buf_at i s)) ∧ in_use (view s) (sb s) (b_blockno (buf_at i s)) = true) →
  (∀ x s', x ∈ frees s → changed p H s [(BBLOCK x (sb s), marked x (view s (BBLOCK x (sb s)))); (x, zero_block)] s' → Q x s') →
  wp (balloc ROOTDEV) Q E s.
Proof.
  intros HT [B1 B2 B3 B4 B5] Hr Hf Hne HH HQ. apply (wp_balloc p H).
  - split; try done.
    + intros b Hb. destruct (B3 (BBLOCK b (sb s))) as (H1 & H2 & _); [by exists b|]. split_and!; try done; try lia.
      intros i Hi E'. destruct (HH i Hi) as [(_ & _ & _ & Hn) _]. apply Hn. by exists b.
    + intros x Hx Hu. destruct (B5 x Hx Hu) as (_ & Hnl & _). split; [done|]. intros i Hi E'. destruct (HH i Hi) as [_ Hi']. congruence.
  - destruct (frees s) as [|x l] eqn:Ef; [done|]. exists x. apply elem_frees. rewrite Ef. by left.
  - intros x s' Hx Hu _ HC. apply HQ; [by apply elem_frees|done].
Qed.

(** block [x] was free and is now in slot [k] *)
Lemma upd_fill ks s s' k x a :
  layout_ok s ip → trans p [] s' → log_start (lg s') = log_start (lg s) → rest s' = set_itab (itab s') (set_lg (lg s') (rest s)) →
  pids s' = pids s → itab s' = alter (set_i_addrs a) ip (itab s) → length a = 13%nat → Forall (λ v, 0 ≤ v < 2 ^ 32) a →
  x ∈ frees s → slot k → k ∈ ks → place s ip k = 0 → place s' ip k = x → (∀ k', slot k' → k' ≠ k → place s' ip k' = place s ip k') →
  (∀ y, 0 ≤ y < sb_size (sb s) → in_use (view s') (sb s) y = bool_decide (y = x) || in_use (view s) (sb s) y) →
  (∀ y, view s' y ≠ view s y ∨ y ∈ logged (lg s') ∧ (y ∉ logged (lg s)) →
     bitmap_block (sb s) y ∨ y = x ∨ (y = place s ip (-1) ∧ y ≠ 0 ∧ k ≠ -1 ∧ -1 ∈ ks)) →
  upd ks s s' ∧ calm s s'.
Proof.
  intros HL HT Est Er Ep Eit Ha1 Ha2 [Hx Hf]%elem_frees Hs Hk H0 Hkx HP HU HV. pose proof (f_equal sb Er : sb s' = sb s) as Esb.
  pose proof (fk_free _ _ (lo_fs _ _ HL) x Hx Hf) as (Hx0 & _).
  assert (∀ y, 0 ≤ y < sb_size (sb s) → in_use (view s') (sb s) y = true ↔
    in_use (view s) (sb s) y = true ∨ ∃ k, slot k ∧ place s ip k = 0 ∧ place s' ip k = y ∧ y ≠ 0) as HU'.
  { intros y Hy. rewrite HU by done. rewrite orb_true_iff, bool_decide_eq_true. split.
    - intros [->|]; [right; exists k; split_and!; done || lia|by left].
    - intros [|(k' & Hs' & E0 & E1 & Hn)]; [by right|]. left. destruct (decide (k' = k)) as [->|Hne]; [congruence|]. rewrite HP in E1 by done. congruence. }
  assert (∀ k', slot k' → place s ip k' ≠ 0 → place s' ip k' = place s ip k') as HK by (intros k' Hs' Hne; apply HP; [done|congruence]).
  assert (∀ k', slot k' → place s ip k' = 0 → place s' ip k' ≠ 0 → k' = k) as HN.
  { intros k' Hs' E0 Hne. destruct (decide (k' = k)) as [|Hd]; [done|]. by rewrite HP in Hne. }
  assert (∀ y, bitmap_block (sb s) y ∨ y = x ∨ (y = place s ip (-1) ∧ y ≠ 0 ∧ k ≠ -1 ∧ -1 ∈ ks) →
    bitmap_block (sb s) y ∨ ∃ k, slot k ∧ k ∈ ks ∧ y = place s' ip k ∧ y ≠ 0) as HA.
  { intros y [|[->|(-> & Hn & Hk1 & Hin)]]; [by left|right; exists k; split_and!; done || lia|right]. exists (-1). split_and!; try done. rewrite HP; [done|done|congruence]. }

  split.
  2: { intros k' Hk0 Hs' Hn. destruct (decide (view s' (place s ip k') = view s (place s ip k'))) as [|Hne]; [done|]. exfalso.
       destruct (lo_data _ _ HL k' Hs' Hn) as [(_ & _ & _ & Hnb) Hu]. destruct (HV _ (or_introl Hne)) as [|[E|(E & _)]]; [done|congruence|].
       pose proof (lo_inj _ _ HL k' (-1) Hs' ltac:(done) Hn E). lia. }
  split; try done.
  - apply (layout_ext s s' a); try done.
    + intros k' Hs' E0 Hne. pose proof (HN k' Hs' E0 Hne) as ->. rewrite Hkx. done.
    + intros k1 k2 Hs1 Hs2 E1 E2 Hne E. rewrite (HN k1 Hs1 E1 Hne). symmetry. apply HN; [done|done|congruence].
  - by exists a.
  - intros k' Hs' E0 Hne. pose proof (HN k' Hs' E0 Hne) as ->. by rewrite Hkx.
  - intros y Hy. apply HA, HV. by left.
  - intros y Hy. destruct (decide (y ∈ logged (lg s))); [by left|]. right. apply HA, HV. by right.
Qed.

(** the writes of balloc() *)
Lemma took_views H s x s' (v := sb s) (ws := [(BBLOCK x v, marked x (view s (BBLOCK x v))); (x, zero_block)]) :
  changed p H s ws s' → trans p H s → fs_ok s ip → x ∈ frees s →
  (∀ y, y ≠ x → ¬ bitmap_block v y → view s' y = view s y) ∧ view s' x = zero_block ∧
  (∀ b, bitmap_block v b → view s' b = dset (view s) (BBLOCK x v) (marked x (view s (BBLOCK x v))) b) ∧
  length (view s (BBLOCK x v)) = 1024%nat ∧ data_block s ip x.
Proof.
  intros HC HT HF [Hx Hf]%elem_frees. pose proof (fk_free _ _ HF x Hx Hf) as Hd. destruct Hd as (Hx0 & Hnl & Hni & Hnb).
  assert (bitmap_block v (BBLOCK x v)) as Hbx by by exists x.
  pose proof (ch_view _ _ _ _ _ HC) as HV. cbn [apply_ws foldl fst snd ws] in HV. unfold dset in HV. split_and!.
  - intros y Hy Hb. rewrite HV. rewrite decide_False by done. rewrite decide_False; [done|]. by intros ->.
  - rewrite HV. by rewrite decide_True.
  - intros b Hb. rewrite HV. rewrite decide_False; [done|]. by intros ->.
  - destruct (ci_bc _ _ _ _ (tr_cache _ _ _ HT)) as [l Hl]. by eapply view_size.
  - exact (fk_free _ _ HF x Hx Hf).
Qed.
(** a new block for an address in the inode: a direct one, or the indirect block *)
Lemma place_addr s j k : j = NDIRECT ∧ k = -1 ∨ 0 ≤ j < NDIRECT ∧ k = j → place s ip k = addr_at ip j s ∧ slot k ∧ 0 ≤ j < 13.
Proof.
  assert (NDIRECT = 12 ∧ MAXFILE = 268) as [E1 E2] by done. unfold place, slot. intros [[-> ->]|[Hj ->]]; [done|].
  rewrite (proj2 (Z.eqb_neq j (-1))), (proj2 (Z.ltb_lt j NDIRECT)) by lia. lia.
Qed.

(** the slots after an address was stored *)
Lemma place_set_addr s s' j k x :
  j = NDIRECT ∧ k = -1 ∨ 0 ≤ j < NDIRECT ∧ k = j → layout_ok s ip → place s ip k = 0 → x ≠ 0 →
  inode_at ip s' = set_i_addrs (<[Z.to_nat j := x]> (i_addrs (inode_at ip s))) (inode_at ip s) →
  view s' x = zero_block → (place s ip (-1) ≠ 0 → view s' (place s ip (-1)) = view s (place s ip (-1))) →
  place s' ip k = x ∧ ∀ k', slot k' → k' ≠ k → place s' ip k' = place s ip k'.
Proof.
  intros Hjk HL H0 Hx Ei Hz Hind. destruct (place_addr s j k Hjk) as (Ek & Hs & Hj). destruct (place_addr s' j k Hjk) as (Ek' & _).
  pose proof (proj1 (di_addrs _ (lo_inode _ _ HL)) : length (i_addrs (inode_at ip s)) = 13%nat) as Hlen.
  assert (∀ i, 0 ≤ i → addr_at ip i s' = if decide (i = j) then x else addr_at ip i s) as HA.
  { intros i Hi. unfold addr_at. rewrite Ei. cbn [i_addrs set_i_addrs]. case_decide as E; [subst i; by rewrite list_lookup_insert_eq by lia|].
    by rewrite list_lookup_insert_ne by lia. }
  split; [rewrite Ek', HA by lia; by rewrite decide_True|]. intros k' Hs' Hne.
  assert (NDIRECT = 12) as E12 by done. unfold slot in Hs'. unfold place. destruct (Z.eqb_spec k' (-1)) as [->|Hk1].
  { rewrite HA by done. rewrite decide_False; [done|]. destruct Hjk as [[? ?]|[? ?]]; lia. }
  destruct (Z.ltb_spec k' NDIRECT) as [Hlt|Hge].
  { rewrite HA by lia. rewrite decide_False; [done|]. destruct Hjk as [[? ?]|[? ?]]; lia. }
  rewrite HA by done. destruct Hjk as [[-> ->]|[Hj' ->]].
  - rewrite decide_True by done. rewrite (proj2 (Z.eqb_neq x 0)) by done. rewrite Hz, ind_zero by lia.
    change (addr_at ip NDIRECT s = 0) in H0. by rewrite H0.
  - rewrite decide_False by lia. destruct (Z.eqb_spec (addr_at ip NDIRECT s) 0) as [|Hn]; [done|]. f_equal. by apply Hind.
Qed.

Lemma trans_set_itab H s t : trans p H s → trans p H (set_itab t s).
Proof. intros [T1 T2 T3 T4]. split; try done. by apply cinv_set_itab. Qed.

Lemma wp_alloc_addr ks s j k (Q : Z → K → Prop) E :
  j = NDIRECT ∧ k = -1 ∨ 0 ≤ j < NDIRECT ∧ k = j → layout_ok s ip → trans p [] s → lh_n (lg s) < LOGSIZE - 2 → frees s ≠ [] →
  k ∈ ks → place s ip k = 0 → (∀ s', upd ks s s' → calm s s' → place s' ip k ≠ 0 → Q (place s' ip k) s') →
  wp (let! addr := balloc ROOTDEV in if addr =? 0 then ret 0 else do! set_addr ip j addr in ret addr) Q E s.
Proof.
  intros Hjk HL HT Hr Hne Hk H0 HQ. destruct (place_addr s j k Hjk) as (_ & Hs & Hj). pose proof (logged_len _ (tr_log _ _ _ HT)) as Hl.
  apply wp_bind, (wp_balloc_file []); [done|apply HL|done|revert Hr; consts; simpl; lia|done|intros i Hi; by apply not_elem_of_nil in Hi|].
  intros x s1 Hx HC. destruct (took_views _ _ _ _ HC HT (lo_fs _ _ HL) Hx) as (HV & Hz & HB & Hlen & Hd). destruct Hd as (Hx0 & _ & _ & Hnb).
  rewrite (proj2 (Z.eqb_neq x 0)) by lia. unfold set_addr, upd_inode. apply wp_bind, wp_modify, wp_ret.
  set (a := <[Z.to_nat j := x]> (i_addrs (inode_at ip s))). set (s' := set_itab _ s1).
  pose proof (f_equal itab (ch_rest _ _ _ _ _ HC) : itab s1 = itab s) as Eit.
  assert (itab s' = alter (set_i_addrs a) ip (itab s)) as Eit'.
  { unfold s'. kproj. rewrite Eit. apply list_alter_ext; [|done]. intros y Hy. unfold a, inode_at. by rewrite Hy. }
  assert (inode_at ip s' = set_i_addrs a (inode_at ip s)) as Ei.
  { unfold inode_at. rewrite Eit', list_lookup_alter_eq. destruct (lookup_lt_is_Some_2 _ _ (lo_here _ _ HL)) as [y ->]. done. }
  destruct (place_set_addr s s' j k x Hjk HL H0 ltac:(lia) Ei) as [Hkx HP]; [exact Hz| |].
  { intros Hn. apply (HV (place s ip (-1))); [|by apply (lo_data _ _ HL)]. intros E'. destruct (lo_data _ _ HL (-1) ltac:(done) Hn) as [_ Hu].
    rewrite E' in Hu. apply elem_frees in Hx as [_ Hx]. congruence. }
  rewrite <- Hkx. cut (upd ks s s' ∧ calm s s'); [intros []; apply HQ; [done|done|lia]|]. pose proof (di_addrs _ (lo_inode _ _ HL)) as [L1 L2].
  assert (BPB = 8192) as HBPB by done. assert (0 ≤ x < 2 ^ 32) as Hxr by (pose proof (fk_size _ _ (lo_fs _ _ HL)); lia).
  apply (upd_fill ks s s' k x a); try done.
  - by apply trans_set_itab, HC.
  - apply HC.
  - transitivity (set_itab (itab s') (rest s1)); [done|]. by rewrite (ch_rest _ _ _ _ _ HC).
  - apply HC.
  - unfold a. by rewrite length_insert.
  - unfold a. by apply Forall_insert.
  - intros y Hy. apply elem_frees in Hx as [Hx _]. by apply (in_use_took (sb s) (view s)); [apply HL|done|done|done|].
  - intros y [Hy|[Hy Hny]].
    + destruct (decide (y = x)); [by right; left|]. left. destruct (decide (bitmap_block (sb s) y)); [done|]. destruct Hy. by apply (HV y).
    + change (y ∈ logged (lg s1)) in Hy. rewrite (ch_logged _ _ _ _ _ HC), elem_added in Hy. destruct Hy as [|Hy]; [done|]. cbn in Hy.
      apply elem_of_cons in Hy as [->|Hy]; [left; exists x; split; [lia|done]|]. apply list_elem_of_singleton in Hy as ->. by right; left.
Qed.
(** ** A new entry of the indirect block *)

Lemma fs_ok_same s s' : fs_ok s ip → sb s' = sb s → lg s' = lg s → itab s' = itab s → (∀ y, view s' y = view s y) → fs_ok s' ip ∧ frees s' = frees s.
Proof.
  intros [B1 B2 B3 B4 B5] E1 E2 E3 HV.
  assert (iblock s' ip = iblock s ip) as Eib by (unfold iblock, inode_at; by rewrite E1, E3).
  assert (∀ y, in_use (view s') (sb s) y = in_use (view s) (sb s) y) as HU by (intros y; by apply in_use_ext).
  split; [split; rewrite ?E1, ?E2, ?Eib; try done|].
  - intros x Hx. rewrite HU. intros Hf. unfold data_block. rewrite E1, E2, Eib. by apply B5.
  - unfold frees. rewrite E1. apply list_filter_iff. intros y. by rewrite HU.
Qed.

(** a buffer in hand, relative to the state itself *)
Lemma hold_self P i s : cinv p P [i] s → hold p P [] i (b_blockno (buf_at i s)) (b_data (buf_at i s)) s s.
Proof.
  intros HC. split; try done. intros x. case_decide as E; [|done]. rewrite E. by apply hand_i_view with (p := p) (P := P) (H := []).
Qed.

Lemma place_indirect s k : NDIRECT ≤ k → place s ip (-1) ≠ 0 → place s ip k = ind_at (k - NDIRECT) (view s (place s ip (-1))).
Proof.
  intros Hk Hn. unfold place at 1. rewrite (proj2 (Z.eqb_neq k (-1))) by (assert (NDIRECT = 12) by done; lia).
  rewrite (proj2 (Z.ltb_ge _ _) Hk). change (place s ip (-1)) with (addr_at ip NDIRECT s) in *. by rewrite (proj2 (Z.eqb_neq _ _) Hn).
Qed.

(** the slots after an entry was stored *)
Lemma place_set_entry s s' k x :
  NDIRECT ≤ k < MAXFILE → layout_ok s ip → place s ip (-1) ≠ 0 → 0 ≤ x < 2 ^ 32 → inode_at ip s' = inode_at ip s →
  length (view s (place s ip (-1))) = 1024%nat →
  view s' (place s ip (-1)) = put_u32 (Z.to_nat (4 * (k - NDIRECT))) x (view s (place s ip (-1))) →
  place s' ip k = x ∧ ∀ k', slot k' → k' ≠ k → place s' ip k' = place s ip k'.
Proof.
  intros Hk HL Hn Hx Ei Hlen HV. assert (NDIRECT = 12 ∧ MAXFILE = 268) as [E1 E2] by done.
  assert (∀ j, addr_at ip j s' = addr_at ip j s) as HA by (intros j; unfold addr_at; by rewrite Ei).
  assert (place s' ip (-1) = place s ip (-1)) as Em by apply HA.
  assert (∀ k', NDIRECT ≤ k' < MAXFILE → place s' ip k' = if decide (k' = k) then x else place s ip k') as HP.
  { intros k' Hk'. rewrite (place_indirect s' k'), (place_indirect s k') by (rewrite ?Em; try lia; done). rewrite Em, HV. rewrite ind_put by (done || lia).
    destruct (decide (k' = k)) as [->|Hne]; [by rewrite decide_True|by rewrite decide_False by lia]. }
  split; [rewrite HP by done; by rewrite decide_True|]. intros k' Hs Hne. unfold slot in Hs.
  destruct (decide (NDIRECT ≤ k')); [rewrite HP by lia; by rewrite decide_False|]. unfold place. rewrite !HA.
  destruct (k' =? -1); [done|]. by rewrite (proj2 (Z.ltb_lt k' NDIRECT)) by lia.
Qed.

Lemma wp_alloc_entry ks s s1 i k x s2 (Q : unit → K → Prop) E (ind := place s ip (-1)) :
  NDIRECT ≤ k < MAXFILE → layout_ok s ip → trans p [] s → lh_n (lg s) < LOGSIZE - 3 → ind ≠ 0 → place s ip k = 0 → k ∈ ks → -1 ∈ ks →
  hold p (logged (lg s)) [] i ind (view s ind) s s1 → x ∈ frees s →
  changed p [i] s1 [(BBLOCK x (sb s), marked x (view s1 (BBLOCK x (sb s)))); (x, zero_block)] s2 →
  (∀ s', upd ks s s' → calm s s' → place s' ip k = x → Q tt s') →
  wp (do! upd_buf i (λ b, set_b_data (put_u32 (Z.to_nat (4 * (k - NDIRECT))) x (b_data b)) b) in do! log_write i in brelse i) Q E s2.
Proof.
  intros Hk HL HT Hroom Hn H0 Hin Hin1 HO Hx HC HQ. assert (NDIRECT = 12 ∧ MAXFILE = 268 ∧ BPB = 8192) as (E1 & E2 & E3) by done.
  pose proof (ho_rest _ _ _ _ _ _ _ _ HO) as R1. pose proof (f_equal sb R1 : sb s1 = sb s) as Esb1. pose proof (f_equal lg R1 : lg s1 = lg s) as Elg1.
  assert (∀ y, view s1 y = view s y) as HV1.
  { intros y. rewrite (ho_view _ _ _ _ _ _ _ _ HO). case_decide; [by subst y|done]. }
  destruct (fs_ok_same s s1 (lo_fs _ _ HL) Esb1 Elg1 (f_equal itab R1) HV1) as [HF1 Hfr1].
  pose proof (hold_len HO) as Hlen. fold ind in Hlen. assert (trans p [i] s1) as HT1.
  { destruct HT as [_ T2 T3 T4]. split; rewrite Elg1; try done. apply (ho_cinv _ _ _ _ _ _ _ _ HO). }
  rewrite <- Esb1 in HC. destruct (took_views _ _ _ _ HC HT1 HF1 ltac:(by rewrite Hfr1)) as (HV & Hz & HB & Hlb & Hd).
  destruct Hd as (Hx0 & _ & _ & Hnb). rewrite Esb1 in *.
  destruct (lo_data _ _ HL (-1) ltac:(done) Hn) as [(Hir & Hil & Hii & Hib) Hiu]. fold ind in Hir, Hil, Hii, Hib, Hiu.
  assert (ind ≠ x) as Hix by (intros ->; apply elem_frees in Hx as [_ Hx]; congruence).
  destruct (ch_hand _ _ _ _ _ HC i ltac:(by left)) as [Hbn Hbd]. rewrite (ho_bn _ _ _ _ _ _ _ _ HO) in Hbn. rewrite (ho_data _ _ _ _ _ _ _ _ HO) in Hbd.
  pose proof (hold_self _ _ _ (tr_cache _ _ _ (ch_trans _ _ _ _ _ HC))) as HO2. rewrite Hbn, Hbd in HO2.
  apply wp_bind. eapply (hold_upd HO2); [by rewrite Hbd|rewrite length_put_u32; [done|lia]|]. intros s3 HO3.
  pose proof (logged_len _ (tr_log _ _ _ HT)) as Hl. pose proof (logged_len _ (tr_log _ _ _ (ch_trans _ _ _ _ _ HC))) as Hl2.
  pose proof (ch_logged _ _ _ _ _ HC) as Elg. cbn [foldl fst] in Elg. rewrite Elg1 in Elg.
  assert (lh_n (lg s2) ≤ lh_n (lg s) + 2) as Hroom2.
  { pose proof (add_block_len x (add_block (BBLOCK x (sb s)) (logged (lg s)))). pose proof (add_block_len (BBLOCK x (sb s)) (logged (lg s))).
    rewrite <- Elg in H. lia. }
  pose proof (fk_size _ _ (lo_fs _ _ HL)) as Hsz. eapply (wp_log_out p []); [apply HC|exact HO3| |].
  { split; [lia|]. split; [by rewrite (ch_start _ _ _ _ _ HC), Elg1|]. revert Hroom. consts. lia. }
  intros s4 HC4. pose proof (f_equal itab (ch_rest _ _ _ _ _ HC4) : itab s4 = itab s2) as Ei4. pose proof (f_equal itab (ch_rest _ _ _ _ _ HC) : itab s2 = itab s1) as Ei2.
  assert (itab s4 = itab s) as Eit by (rewrite Ei4, Ei2; exact (f_equal itab R1)).
  assert (∀ y, view s4 y = if decide (y = ind) then put_u32 (Z.to_nat (4 * (k - NDIRECT))) x (view s ind) else view s2 y) as HV4 by apply (ch_view _ _ _ _ _ HC4).
  assert (inode_at ip s4 = inode_at ip s) as Eino by (unfold inode_at; by rewrite Eit).
  assert (0 ≤ x < 2 ^ 32) as Hxr by (pose proof (fk_size _ _ (lo_fs _ _ HL)); lia).
  destruct (place_set_entry s s4 k x Hk HL Hn Hxr Eino Hlen) as [Hkx HP]; [fold ind; rewrite HV4; by rewrite decide_True|].
  cut (upd ks s s4 ∧ calm s s4); [intros []; by apply HQ|]. pose proof (di_addrs _ (lo_inode _ _ HL)) as [L1 L2].
  apply (upd_fill ks s s4 k x (i_addrs (inode_at ip s))); try done.
  - apply HC4.
  - rewrite (ch_start _ _ _ _ _ HC4), (ch_start _ _ _ _ _ HC), Elg1. done.
  - rewrite (ch_rest _ _ _ _ _ HC4), (ch_rest _ _ _ _ _ HC), R1, Eit. done.
  - rewrite (ch_pids _ _ _ _ _ HC4), (ch_pids _ _ _ _ _ HC). apply HO.
  - by rewrite alter_addrs_id.
  - unfold slot. lia.
  - intros y Hy. apply elem_frees in Hx as [Hx _].
    apply (in_use_took (sb s) (view s)); [apply HL|done|done|by rewrite <- HV1|]. intros b Hb. rewrite HV4, decide_False by (by intros ->).
    rewrite HB by done. unfold dset. by rewrite !HV1.
  - intros y [Hy|[Hy Hny]].
    + rewrite HV4 in Hy. case_decide as E'; [right; right; rewrite E'; split_and!; try done; lia|].
      destruct (decide (y = x)); [by right; left|]. left. destruct (decide (bitmap_block (sb s) y)); [done|]. destruct Hy. by rewrite HV.
    + rewrite (ch_logged _ _ _ _ _ HC4), elem_added in Hy. cbn in Hy. destruct Hy as [Hy|Hy%list_elem_of_singleton]; [|right; right; rewrite Hy; split_and!; try done; lia].
      rewrite (ch_logged _ _ _ _ _ HC), elem_added, Elg1 in Hy. cbn in Hy. destruct Hy as [|Hy]; [done|].
      apply elem_of_cons in Hy as [->|Hy]; [left; exists x; split; [lia|done]|]. apply list_elem_of_singleton in Hy as ->. by right; left.
Qed.
(** ** bmap() *)

Lemma upd_same ks s s' : layout_ok s ip → changed p [] s [] s' → upd ks s s' ∧ calm s s' ∧ ∀ k, slot k → place s' ip k = place s ip k.
Proof.
  intros HL HC. destruct (upd_changed ks s [] s' HL HC) as (? & _ & ?); [intros y Hy; by apply not_elem_of_nil in Hy|].
  split; [done|]. split; [|done]. intros k _ _ _. apply (ch_view _ _ _ _ _ HC).
Qed.

(** the part of bmap() after the indirect block was found *)
Lemma wp_bmap_entry ks s k (Q : Z → K → Prop) E :
  NDIRECT ≤ k < MAXFILE → layout_ok s ip → trans p [] s → lh_n (lg s) < LOGSIZE - 3 → place s ip (-1) ≠ 0 → (place s ip k = 0 → frees s ≠ []) → k ∈ ks → -1 ∈ ks →
  (∀ s', upd ks s s' → calm s s' → place s' ip k ≠ 0 → Q (place s' ip k) s') →
  wp (let! bp := bread ROOTDEV (place s ip (-1)) in
      let! s := get in
      let addr := ind_at (k - NDIRECT) (b_data (buf_at bp s)) in
      let! addr := (if addr =? 0 then
          let! addr := balloc ROOTDEV in
          do! when (negb (addr =? 0))
                (do! upd_buf bp (λ b, set_b_data (put_u32 (Z.to_nat (4 * (k - NDIRECT))) addr (b_data b)) b) in
                 log_write bp) in
          ret addr
        else ret addr) in
      do! brelse bp in
      ret addr) Q E s.
Proof.
  intros Hk HL HT Hroom Hn Hfree Hin Hin1 HQ. pose proof (logged_len _ (tr_log _ _ _ HT)) as Hl.
  apply wp_bind, (hold_bread p (logged (lg s)) [] s); [apply HT|intros i Hi; by apply not_elem_of_nil in Hi|right; revert Hroom; consts; simpl; lia|].
  intros i s1 HO. apply wp_bind, wp_get. rewrite (ho_data _ _ _ _ _ _ _ _ HO). cbv zeta. rewrite <- (place_indirect s k) by (done || lia).
  destruct (Z.eqb_spec (place s ip k) 0) as [E0|E0].
  2: { apply wp_bind, wp_ret, wp_bind. eapply (hold_release p [] i); [exact HT|intros j Hj; by apply not_elem_of_nil in Hj|exact HO|]. intros s' HC.
       destruct (upd_same ks s s' HL HC) as (HU & Hca & HP). apply wp_ret. rewrite <- HP; [apply HQ; [done|done|]|]; [rewrite HP; [done|]|]; unfold slot; assert (NDIRECT = 12) by done; lia. }
  pose proof (ho_rest _ _ _ _ _ _ _ _ HO) as R1. pose proof (f_equal sb R1 : sb s1 = sb s) as Esb1. pose proof (f_equal lg R1 : lg s1 = lg s) as Elg1.
  assert (∀ y, view s1 y = view s y) as HV1.
  { intros y. rewrite (ho_view _ _ _ _ _ _ _ _ HO). case_decide; [by subst y|done]. }
  destruct (fs_ok_same s s1 (lo_fs _ _ HL) Esb1 Elg1 (f_equal itab R1) HV1) as [HF1 Hfr1].
  assert (trans p [i] s1) as HT1.
  { destruct HT as [_ T2 T3 T4]. split; rewrite Elg1; try done. apply (ho_cinv _ _ _ _ _ _ _ _ HO). }
  apply wp_bind, wp_bind, (wp_balloc_file [i]); [done|done|rewrite Elg1; lia|rewrite Elg1; revert Hroom; consts; simpl; lia|rewrite Hfr1; by apply Hfree| |].
  { intros j ->%list_elem_of_singleton. rewrite (ho_bn _ _ _ _ _ _ _ _ HO), Esb1, (in_use_ext (view s)) by done.
    destruct (lo_data _ _ HL (-1) ltac:(done) Hn) as [Hd Hu]. split; [|done]. unfold data_block in *. rewrite Esb1, Elg1.
    assert (iblock s1 ip = iblock s ip) as -> by (unfold iblock, inode_at; rewrite Esb1, (f_equal itab R1 : itab s1 = itab s); done). done. }
  intros x s2 Hx HC. rewrite Hfr1 in Hx. pose proof Hx as [Hxr Hxf]%elem_frees. pose proof (fk_free _ _ (lo_fs _ _ HL) x Hxr Hxf) as (Hx0 & _).
  rewrite Esb1 in HC. rewrite (proj2 (Z.eqb_neq x 0)) by lia. cbn [negb when]. apply wp_bind.
  pose proof (wp_alloc_entry ks s s1 i k x s2 (λ _ s', Q x s') E Hk HL HT Hroom Hn E0 Hin Hin1 HO Hx HC) as Hw.
  rewrite wp_bind_iff in Hw. apply wp_bind. eapply wp_post; [apply Hw|].
  { intros s' HU Hca <-. apply HQ; [done|done|]. lia. }
  intros [] s3 Hw3. rewrite wp_bind_iff in Hw3. eapply wp_post; [exact Hw3|]. intros [] s4 Hw4. apply wp_ret, wp_bind.
  eapply wp_post; [exact Hw4|]. intros [] s5 HQ5. by apply wp_ret.
Qed.

(** ** A budget: blocks and room in the log for the slots [ks] *)

Section Budget.
Context (ks : list Z) (s0 : K) (HL0 : layout_ok s0 ip) (HT0 : trans p [] s0).
Context (Hlog : lh_n (lg s0) + (sb_size (sb s0) / BPB + 1) + Z.of_nat (length ks) < LOGSIZE - 3) (Hfree : Z.of_nat (length (filter (λ k, place s0 ip k = 0) ks)) ≤ Z.of_nat (length (frees s0))).

Lemma budget_room s : upd ks s0 s → lh_n (lg s) < LOGSIZE - 3.
Proof using All. intros HU. pose proof (upd_room _ _ _ HU HL0 HT0). lia. Qed.

Lemma budget_free s k : slot k → upd ks s0 s → k ∈ ks → place s ip k = 0 → frees s ≠ [].
Proof using All.
  intros Hs HU Hin H0 Hf. pose proof (up_sb _ _ _ HU) as Esb. set (es := filter _ ks) in Hfree.
  assert (k ∈ es → slot k → False) as Hno.
  { intros [ks' Hk]%elem_of_Permutation Hsk. assert (frees s0 ⊆+ place s ip <$> ks') as Hsub.
    { apply NoDup_submseteq; [apply NoDup_frees|]. intros x [Hx Hu]%elem_frees.
      destruct (in_use (view s) (sb s0) x) eqn:E; [|exfalso; assert (x ∈ frees s) as Hx' by (apply elem_frees; by rewrite Esb); rewrite Hf in Hx'; by apply not_elem_of_nil in Hx'].
      apply (up_use _ _ _ HU x Hx) in E as [E|(k' & Hs' & H0' & <- & Hn)]; [congruence|]. apply list_elem_of_fmap. exists k'. split; [done|].
      destruct (up_new _ _ _ HU k' Hs' H0' Hn) as [Hin' _]. assert (k' ∈ es) as He by by apply list_elem_of_filter.
      rewrite Hk in He. apply elem_of_cons in He as [->|]; done. }
    apply submseteq_length in Hsub. rewrite length_fmap in Hsub. rewrite Hk in Hfree. simpl in Hfree. lia. }
  apply Hno; [|done]. apply list_elem_of_filter. split; [|done]. destruct (decide (place s0 ip k = 0)) as [|Hne]; [done|].
  by rewrite (up_keep _ _ _ HU k Hs Hne) in H0.
Qed.

(** bmap() of a part finds its block or allocates it, and the indirect block if that is needed *)
Lemma wp_bmap_alloc s k (Q : Z → K → Prop) E :
  0 ≤ k < MAXFILE → upd ks s0 s → k ∈ ks → (NDIRECT ≤ k → -1 ∈ ks) →
  (∀ s', upd ks s s' → calm s s' → place s' ip k ≠ 0 → Q (place s' ip k) s') →
  wp (bmap ip k) Q E s.
Proof using All.
  intros Hk HU Hin Hin1 HQ. assert (NDIRECT = 12 ∧ MAXFILE = 268 ∧ NINDIRECT = 256) as (E1 & E2 & E3) by done.
  pose proof (up_layout _ _ _ HU) as HL. pose proof (up_trans _ _ _ HU) as HT. pose proof (budget_room s HU) as Hroom.
  assert (slot k) as Hs by (unfold slot; lia).
  unfold bmap. apply wp_bind, wp_get. rewrite (lo_root _ _ HL). cbv zeta. destruct (Z.ltb_spec k NDIRECT) as [Hd|Hd].
  - destruct (place_addr s k k ltac:(right; lia)) as (Ep & _ & _). rewrite <- Ep. destruct (Z.eqb_spec (place s ip k) 0) as [E0|E0].
    + apply (wp_alloc_addr ks s k k); try done; [right; lia|revert Hroom; consts; lia|by apply (budget_free s k)].
    + destruct (upd_same ks s s HL (changed_nil _ _ _ HT)) as (HU' & Hca & _). by apply wp_ret, HQ.
  - specialize (Hin1 Hd). rewrite (proj2 (Z.ltb_lt (k - NDIRECT) NINDIRECT)) by lia. change (addr_at ip NDIRECT s) with (place s ip (-1)).
    destruct (Z.eqb_spec (place s ip (-1)) 0) as [E0|E0].
    + apply wp_bind, (wp_alloc_addr ks s NDIRECT (-1)); try done; [by left|revert Hroom; consts; lia|by apply (budget_free s (-1))|]. intros s1 HU1 Hca1 Hne.
      rewrite (proj2 (Z.eqb_neq _ _) Hne). pose proof (upd_trans _ _ _ _ HU HU1) as HU01.
      apply (wp_bmap_entry ks s1 k); try done; [lia|apply HU1|apply HU1|by apply budget_room|intros H0; by apply (budget_free s1 k)|].
      intros s2 HU2 Hca2 Hne2. apply HQ; [by eapply upd_trans|by eapply calm_trans|done].
    + apply wp_bind, wp_ret. rewrite (proj2 (Z.eqb_neq _ _) E0). apply (wp_bmap_entry ks s k); try done; [lia|intros H0; by apply (budget_free s k)].
Qed.
End Budget.
End Update.
