(* ===== verification/FsWrite.v ===== *)
(** Writing files: writei() writes exactly the bytes it is given, inside the
    running transaction, and grows the file when they reach past its end. *)

From S2P Require Import Prelude Mem Layout Kalloc Vm State Sched Ring Bio BioProofs Blocks Log LogDisk LogProofs LogOps Console Fs FsOps FsRead FsNames FsAlloc.

(** the parts of a file that [n] bytes at [off] touch, and the slots that may need a block for them *)
Definition touched (off n : Z) : list Z := seqZ (off / BSIZE) ((off + n + BSIZE - 1) / BSIZE - off / BSIZE).
Definition needed (off n : Z) : list Z := (if decide (NDIRECT * BSIZE < off + n) then [-1] else []) ++ touched off n.

Lemma elem_touched off n b : 0 ≤ off → 0 ≤ n → off / BSIZE ≤ b → b * BSIZE < off + n → b ∈ touched off n.
Proof.
  intros Ho Hn H1 H2. apply elem_of_seqZ. assert (BSIZE = 1024) as HB by done. rewrite HB in *.
  assert (b + 1 ≤ (off + n + 1024 - 1) / 1024) by (apply Z.div_le_lower_bound; lia). lia.
Qed.

Section Write.
Context `{PA : PageAlloc} (p ip : nat) (s : K) (off n : Z) (data : list Z).
Context (HT : trans p [] s) (HL : layout_ok s ip).
Context (Hoff : 0 ≤ off ≤ i_size (inode_at ip s)) (Hn : 0 ≤ n) (Hmax : off + n ≤ MAXFILE * BSIZE) (Hdata : Z.of_nat (length data) = n).
Let ks := needed off n.
(** the log has room for the blocks of the range, the bitmap, the indirect block and the inode's block; the disk has blocks for the slots that have none *)
Context (Hlog : lh_n (lg s) + (sb_size (sb s) / BPB + 1) + Z.of_nat (length ks) < LOGSIZE - 3).
Context (Hfree : Z.of_nat (length (filter (λ k, place s ip k = 0) ks)) ≤ Z.of_nat (length (frees s))).

(** the byte of the file at an offset, read through [place] *)
Definition pbyte (s : K) (o : Z) : option Z := view s (place s ip (o / BSIZE)) !! Z.to_nat (o mod BSIZE).

(** the first [tot] bytes of [data] are written *)
Record written (tot : Z) (s1 : K) : Prop := {
  wt_upd : upd p ip ks s s1;
  wt_map b : off / BSIZE ≤ b → b * BSIZE < off + tot → place s1 ip b ≠ 0;
  wt_bytes o : 0 ≤ o → o < i_size (inode_at ip s) ∨ off ≤ o < off + tot →
    pbyte s1 o = if decide (off ≤ o < off + tot) then data !! Z.to_nat (o - off) else pbyte s o;
}.

Lemma written_size tot s1 : written tot s1 → i_size (inode_at ip s1) = i_size (inode_at ip s) ∧ i_inum (inode_at ip s1) = i_inum (inode_at ip s).
Proof. intros HW. destruct (up_at _ _ _ _ _ (wt_upd _ _ HW) HL) as [a ->]. done. Qed.

(** the parts with bytes below the old size or among the new ones have blocks *)
Lemma written_mapped tot s1 o : written tot s1 → 0 ≤ o → o < i_size (inode_at ip s) ∨ off ≤ o < off + tot → place s1 ip (o / BSIZE) ≠ 0.
Proof.
  intros HW Ho Hcase. assert (BSIZE = 1024) as HB by done. pose proof (Z.mod_pos_bound o BSIZE ltac:(lia)). pose proof (Z.div_mod o BSIZE ltac:(lia)).
  destruct Hcase as [Hlt|Hr].
  - assert (part s ip (o / BSIZE)) as HP by (split; [apply Z.div_pos; lia|lia]). pose proof (lo_part _ _ HL _ HP) as Hne.
    rewrite (up_keep _ _ _ _ _ (wt_upd _ _ HW)); [done| |done]. by eapply part_slot.
  - apply (wt_map _ _ HW); [apply Z.div_le_mono; lia|lia].
Qed.

Lemma chunk_step tot : 0 ≤ tot < n →
  let m := io_chunk n tot (off + tot) in
  0 < m ≤ n - tot ∧ m ≤ BSIZE - (off + tot) mod BSIZE ∧ (off + tot + m ≤ off + n).
Proof.
  intros Ht m. assert (BSIZE = 1024) as HB by done. pose proof (Z.mod_pos_bound (off + tot) BSIZE ltac:(lia)) as Hm.
  unfold m, io_chunk. lia.
Qed.

(** the block of the next bytes *)
Lemma next_part tot (q := (off + tot) / BSIZE) : 0 ≤ tot < n → 0 ≤ q < MAXFILE ∧ slot q ∧ q ∈ ks ∧ (NDIRECT ≤ q → -1 ∈ ks) ∧ off / BSIZE ≤ q.
Proof.
  intros Ht. assert (BSIZE = 1024 ∧ MAXFILE = 268 ∧ NDIRECT = 12) as (HB & HM & HN) by done.
  pose proof (Z.mod_pos_bound (off + tot) BSIZE ltac:(lia)). pose proof (Z.div_mod (off + tot) BSIZE ltac:(lia)). fold q in H0.
  pose proof (Z.div_le_mono off (off + tot) BSIZE ltac:(lia) ltac:(lia)) as Hq. fold q in Hq.
  assert (0 ≤ q < MAXFILE) as Hr by (split; [apply Z.div_pos; lia|rewrite HB, HM in *; lia]).
  split_and!; try lia; try (unfold slot; lia).
  - apply elem_of_app. right. apply elem_touched; [lia|lia|done|lia].
  - intros Hd. apply elem_of_app. left. rewrite decide_True by (rewrite HB, HN in *; lia). by left.
Qed.
(** a part with new bytes has a slot *)
Lemma range_slot b tot : tot ≤ n → off / BSIZE ≤ b → b * BSIZE < off + tot → 0 ≤ b ∧ slot b.
Proof.
  intros Ht H1 H2. assert (BSIZE = 1024 ∧ MAXFILE = 268) as (HB & HM) by done. assert (0 ≤ off / BSIZE) by (apply Z.div_pos; lia).
  unfold slot. rewrite HB, HM in *. lia.
Qed.

(** bmap() for the next part *)
Lemma written_bmap tot s1 s2 : tot ≤ n → written tot s1 → upd p ip ks s1 s2 → calm ip s1 s2 → written tot s2.
Proof.
  intros Ht HW HU HC. assert (BSIZE = 1024) as HB by done. split.
  - eapply upd_trans; [apply HW|done].
  - intros b H1 H2. destruct (range_slot b tot Ht H1 H2) as [H0 Hs]. pose proof (wt_map _ _ HW b H1 H2) as Hne. by rewrite (up_keep _ _ _ _ _ HU).
  - intros o Ho Hcase. rewrite <- (wt_bytes _ _ HW o Ho Hcase). pose proof (written_mapped _ _ _ HW Ho Hcase) as Hne. unfold pbyte.
    assert (0 ≤ o / BSIZE ∧ slot (o / BSIZE)) as [H0 Hs].
    { pose proof (Z.mod_pos_bound o BSIZE ltac:(lia)). pose proof (Z.div_mod o BSIZE ltac:(lia)). destruct Hcase as [Hlt|Hr].
      - split; [apply Z.div_pos; lia|]. eapply part_slot; [exact HL|]. split; [apply Z.div_pos; lia|lia].
      - apply (range_slot _ tot Ht); [apply Z.div_le_mono; lia|lia]. }
    rewrite (up_keep _ _ _ _ _ HU) by done. by rewrite (HC _ H0 Hs Hne).
Qed.

(** the next block is written *)
Lemma written_step tot s1 s2 (q := (off + tot) / BSIZE) (r := (off + tot) mod BSIZE) (m := io_chunk n tot (off + tot)) :
  0 ≤ tot < n → written tot s1 → place s1 ip q ≠ 0 → length (view s1 (place s1 ip q)) = 1024%nat →
  changed p [] s1 [(place s1 ip q, splice (Z.to_nat r) (take (Z.to_nat m) (drop (Z.to_nat tot) data)) (view s1 (place s1 ip q)))] s2 →
  written (tot + m) s2.
Proof.
  intros Ht HW Hq Hlen HC. destruct (next_part tot Ht) as (Hqr & Hqs & Hqk & _ & Hqo). fold q in Hqr, Hqs, Hqk, Hqo.
  destruct (chunk_step tot Ht) as (Hm & Hmr & Hmn). fold m in Hm, Hmr, Hmn. fold r in Hmr. assert (BSIZE = 1024) as HB by done.
  pose proof (Z.mod_pos_bound (off + tot) BSIZE ltac:(lia)) as Hr. pose proof (Z.div_mod (off + tot) BSIZE ltac:(lia)) as Hdm. fold q r in Hr, Hdm.
  pose proof (wt_upd _ _ HW) as HU. pose proof (up_layout _ _ _ _ _ HU) as HL1.
  destruct (upd_changed p ip ks s1 _ s2 HL1 HC) as (HU2 & _ & HP).
  { intros y Hy. cbn in Hy. apply list_elem_of_singleton in Hy as ->. exists q. split_and!; done || lia. }
  assert (length (take (Z.to_nat m) (drop (Z.to_nat tot) data)) = Z.to_nat m) as Hl by (rewrite length_take, length_drop; lia).
  pose proof (ch_view _ _ _ _ _ HC) as HV. cbn [apply_ws foldl fst snd] in HV. unfold dset in HV.
  split; [by eapply upd_trans|..].
  - intros b H1 H2. destruct (range_slot b (tot + m) ltac:(lia) H1 H2) as [H0 Hs]. rewrite HP by done.
    destruct (decide (b * BSIZE < off + tot)) as [Hlt|Hge]; [by apply (wt_map _ _ HW)|]. assert (b = q) as ->; [|done]. rewrite HB in *. lia.
  - intros o Ho Hcase. pose proof (Z.mod_pos_bound o BSIZE ltac:(lia)) as Hmo. pose proof (Z.div_mod o BSIZE ltac:(lia)) as Hdo.
    destruct (decide (o / BSIZE = q)) as [E|E].
    + unfold pbyte at 1. rewrite E, HP, HV, decide_True by done. rewrite lookup_splice by lia. rewrite Hl.
      destruct (decide (Z.to_nat r ≤ Z.to_nat (o mod BSIZE) < Z.to_nat r + Z.to_nat m)%nat) as [D|D].
      * rewrite lookup_take_lt, lookup_drop by lia. rewrite decide_True by (rewrite E in Hdo; lia). f_equal. rewrite E in Hdo. lia.
      * assert (o < i_size (inode_at ip s) ∨ off ≤ o < off + tot) as Hold by (rewrite E in Hdo; lia). pose proof (wt_bytes _ _ HW o Ho Hold) as Hb.
        unfold pbyte at 1 in Hb. rewrite E in Hb. rewrite Hb. rewrite E in Hdo. destruct (decide (off ≤ o < off + tot)); [by rewrite decide_True by lia|by rewrite decide_False by lia].
    + assert (o < i_size (inode_at ip s) ∨ off ≤ o < off + tot) as Hold.
      { destruct Hcase as [|Hr']; [by left|right]. destruct (decide (o < off + tot)); [lia|]. exfalso. apply E. rewrite HB in *. lia. }
      pose proof (written_mapped _ _ _ HW Ho Hold) as Hne. pose proof (wt_bytes _ _ HW o Ho Hold) as Hb.
      assert (slot (o / BSIZE)) as Hs.
      { destruct Hold as [Hlt|Hr']; [eapply part_slot; [exact HL|]; split; [apply Z.div_pos; lia|lia]|].
        apply (range_slot _ tot ltac:(lia)); [apply Z.div_le_mono; lia|lia]. }
      unfold pbyte at 1. rewrite HP, HV by done. rewrite decide_False by (intros E'; by apply E, (lo_inj _ _ HL1)).
      change (pbyte s1 o = if decide (off ≤ o < off + (tot + m)) then data !! Z.to_nat (o - off) else pbyte s o). rewrite Hb.
      destruct (decide (off ≤ o < off + tot)); [by rewrite decide_True by lia|]. rewrite decide_False; [done|]. intros Hx. apply E. rewrite HB in *. lia.
Qed.

Lemma wp_writei_block tot s1 (Q : Z * Z * src + Z * Z → K → Prop) E :
  0 ≤ tot < n → written tot s1 →
  let m := io_chunk n tot (off + tot) in
  (∀ s2, written (tot + m) s2 → Q (inl (tot + m, off + (tot + m), FromKernel (drop (Z.to_nat (tot + m)) data))) s2) →
  wp (let! addr := bmap ip ((off + tot) / BSIZE) in
      if addr =? 0 then ret (inr (tot, off + tot)) else
      let! bp := bread ROOTDEV addr in
      let! r := either_copyin (FromKernel (drop (Z.to_nat tot) data)) m in
      do! upd_buf bp (λ b, set_b_data (splice (Z.to_nat ((off + tot) mod BSIZE)) r.2 (b_data b)) b) in
      if r.1 =? -1 then do! brelse bp in ret (inr (tot, off + tot)) else
      do! log_write bp in
      do! brelse bp in
      ret (inl (tot + m, u32 (off + tot + m), src_add (FromKernel (drop (Z.to_nat tot) data)) m))) Q E s1.
Proof.
  intros Ht HW m HQ. destruct (next_part tot Ht) as (Hqr & Hqs & Hqk & Hq1 & Hqo). destruct (chunk_step tot Ht) as (Hm & Hmr & Hmn). fold m in Hm, Hmr, Hmn.
  assert (MAXFILE * BSIZE = 274432 ∧ BSIZE = 1024) as [HMAX HB] by done. pose proof (Z.mod_pos_bound (off + tot) BSIZE ltac:(lia)) as Hr.
  apply wp_bind, (wp_bmap_alloc p ip ks s HL HT Hlog Hfree s1); [done|apply HW|done|done|]. intros s2 HU2 Hca Hne.
  set (q := (off + tot) / BSIZE) in *. rewrite (proj2 (Z.eqb_neq _ _) Hne).
  pose proof (written_bmap tot s1 s2 ltac:(lia) HW HU2 Hca) as HW2. pose proof (wt_upd _ _ HW2) as HU. pose proof (up_trans _ _ _ _ _ HU) as HT2.
  pose proof (up_layout _ _ _ _ _ HU) as HL2. pose proof (budget_room p ip ks s HL HT Hlog Hfree s2 HU) as Hroom. pose proof (logged_len _ (tr_log _ _ _ HT2)) as Hll.
  destruct (lo_data _ _ HL2 q Hqs Hne) as [(Hx & Hxl & _) _]. pose proof (fk_size _ _ (lo_fs _ _ HL2)) as Hfs. assert (BPB = 8192) as HBP by done.
  apply wp_bind, (hold_bread p (logged (lg s2)) [] s2); [apply HT2|intros i Hi; by apply not_elem_of_nil in Hi|right; revert Hroom; consts; simpl; lia|]. intros i s3 HO.
  unfold either_copyin. apply wp_bind, wp_bind, wp_myproc with (p := p); [apply (ci_cur _ _ _ _ (ho_cinv _ _ _ _ _ _ _ _ HO))|]. apply wp_ret. cbn [fst snd].
  pose proof (hold_len HO) as Hlen. apply wp_bind. eapply (hold_upd HO); [by rewrite (ho_data _ _ _ _ _ _ _ _ HO)| |].
  { rewrite length_splice; [done|]. rewrite length_take, length_drop, Hlen. lia. }
  intros s4 HO4. cbn [Z.eqb]. apply wp_seq_assoc. eapply (wp_log_out p [] i _ _ s2); [exact HT2|exact HO4| |].
  { split; [lia|]. split; [done|]. revert Hroom. consts. lia. }
  intros s5 HC5. apply wp_ret. rewrite u32_small by lia. replace (off + tot + m) with (off + (tot + m)) by lia.
  cbn [src_add]. rewrite drop_drop. replace (Z.to_nat tot + Z.to_nat m)%nat with (Z.to_nat (tot + m)) by lia. by apply HQ, (written_step tot s2).
Qed.

Lemma wp_writei_loop E :
  wp (writei_loop ip ROOTDEV (FromKernel data) off n) (λ r s', r = (n, off + n) ∧ written n s') E s.
Proof.
  unfold writei_loop. assert (MAXFILE * BSIZE = 274432 ∧ BSIZE = 1024) as [HMAX HB] by done.
  apply (wp_loop _ (λ '(tot, o, x) s', 0 ≤ tot ≤ n ∧ o = off + tot ∧ x = FromKernel (drop (Z.to_nat tot) data) ∧ written tot s') (λ st _, n - st.1.1)).
  2: { split_and!; [lia|lia|lia|done|]. split.
    - by apply (upd_same p ip ks s s HL), changed_nil.
    - intros b H1 H2. apply (lo_part _ _ HL). split; [|lia]. assert (0 ≤ off / BSIZE) by (apply Z.div_pos; lia). lia.
    - intros o Ho Hcase. by rewrite decide_False by lia. }
  2: { cbn [fst]. lia. }
  intros [[tot o] x] s1 (Ht & -> & -> & HW). cbn [fst snd]. destruct (Z.ltb_spec tot n) as [Hlt|Hge].
  - apply wp_writei_block; [lia|done|]. destruct (chunk_step tot ltac:(lia)) as (Hm & _). intros s2 HW2. cbn [fst]. split; [|lia]. split_and!; [lia|lia|done|done|done].
  - assert (tot = n) as -> by lia. by apply wp_ret.
Qed.
(** ** The size *)

(** the inode has a new size, and only its block on disk changed *)
Lemma layout_size s1 s2 z :
  layout_ok s1 ip → sb s2 = sb s1 → log_start (lg s2) = log_start (lg s1) → itab s2 = alter (set_i_size z) ip (itab s1) →
  0 ≤ z ≤ MAXFILE * BSIZE → (∀ b, 0 ≤ b → b * BSIZE < z → place s1 ip b ≠ 0) → (∀ y, y ≠ iblock s1 ip → view s2 y = view s1 y) →
  layout_ok s2 ip ∧ inode_at ip s2 = set_i_size z (inode_at ip s1) ∧ (∀ k, slot k → place s2 ip k = place s1 ip k) ∧
  ∀ y, 0 ≤ y < sb_size (sb s1) → in_use (view s2) (sb s1) y = in_use (view s1) (sb s1) y.
Proof.
  intros HL1 Esb Est Eit Hz Hmap HV. clear HT Hlog Hfree.
  assert (inode_at ip s2 = set_i_size z (inode_at ip s1)) as Ei.
  { unfold inode_at. rewrite Eit, list_lookup_alter_eq. destruct (lookup_lt_is_Some_2 _ _ (lo_here _ _ HL1)) as [x ->]. done. }
  assert (iblock s2 ip = iblock s1 ip) as Eib by (unfold iblock; rewrite Ei, Esb; done).
  assert (∀ k, slot k → place s2 ip k = place s1 ip k) as HP.
  { intros k Hs. unfold place, addr_at. rewrite Ei. cbn [i_addrs set_i_size]. destruct (k =? -1); [done|]. destruct (k <? NDIRECT); [done|].
    destruct (Z.eqb_spec (default 0 (i_addrs (inode_at ip s1) !! Z.to_nat NDIRECT)) 0) as [|Hne]; [done|]. f_equal. apply HV.
    destruct (lo_data _ _ HL1 (-1) ltac:(done) Hne) as [(_ & _ & Hx & _) _]. exact Hx. }
  assert (∀ y, 0 ≤ y < sb_size (sb s1) → in_use (view s2) (sb s1) y = in_use (view s1) (sb s1) y) as HU.
  { intros y Hy. unfold in_use. do 2 f_equal. apply HV. apply (fk_meta _ _ (lo_fs _ _ HL1)). by exists y. }
  split; [|done]. assert (∀ x, data_block s2 ip x ↔ data_block s1 ip x) as Ed by (intros x; unfold data_block; by rewrite Esb, Est, Eib).
  pose proof HL1 as [[B1 B2 B3 B4 B5] H1 H2 H3 [D1 D2 D3] H5 H6 H7].
  assert (MAXFILE * BSIZE = 274432 ∧ BSIZE = 1024 ∧ MAXFILE = 268) as (HMAX & HB & HM) by done. split.
  - split; rewrite ?Esb, ?Est, ?Eib; try done. intros x Hx Hf. apply Ed, B5; [done|]. by rewrite <- HU.
  - by rewrite Eit, length_alter.
  - by rewrite Ei.
  - by rewrite Ei.
  - rewrite Ei. split; [exact D1|cbn; lia|exact D3].
  - intros b [Hb0 Hb]. rewrite Ei in Hb. cbn in Hb. rewrite HP by (unfold slot; rewrite HB, HM in *; lia). by apply Hmap.
  - intros k Hs. rewrite HP, Ed, Esb by done. intros Hne. destruct (H6 k Hs Hne) as [Hd Hu]. split; [done|]. destruct Hd. rewrite HU; [done|lia].
  - intros k k' Hs Hs'. rewrite !HP by done. by apply H7.
Qed.

Definition newsize : Z := Z.max (i_size (inode_at ip s)) (off + n).

(** the file and the disk after a write *)
Record grown (s' : K) : Prop := {
  gr_trans : trans p [] s';
  gr_layout : layout_ok s' ip;
  gr_itab : ∃ a, itab s' = alter (λ x, set_i_size newsize (set_i_addrs a x)) ip (itab s);
  gr_disk : get_dinode (dinode_off (i_inum (inode_at ip s))) (view s' (iblock s ip)) = to_disk (inode_at ip s');
  gr_keep k : slot k → place s ip k ≠ 0 → place s' ip k = place s ip k;
  gr_new k : slot k → place s ip k = 0 → place s' ip k ≠ 0 → k ∈ ks ∧ in_use (view s) (sb s) (place s' ip k) = false;
  gr_use y : 0 ≤ y < sb_size (sb s) →
    in_use (view s') (sb s) y = true ↔ in_use (view s) (sb s) y = true ∨ ∃ k, slot k ∧ place s ip k = 0 ∧ place s' ip k = y ∧ y ≠ 0;
  gr_only y : view s' y ≠ view s y → y = iblock s ip ∨ bitmap_block (sb s) y ∨ ∃ k, slot k ∧ k ∈ ks ∧ y = place s' ip k ∧ y ≠ 0;
  gr_bytes o : 0 ≤ o < newsize → pbyte s' o = if decide (off ≤ o < off + n) then data !! Z.to_nat (o - off) else pbyte s o;
}.

Lemma written_grown s1 s2 (x := set_i_size newsize (inode_at ip s1)) :
  written n s1 →
  changed p [] (set_itab (alter (set_i_size newsize) ip (itab s1)) s1)
    [(iblock s ip, put_dinode (dinode_off (i_inum (inode_at ip s))) (to_disk x) (view s1 (iblock s ip)))] s2 →
  grown s2.
Proof.
  intros HW HC. pose proof (wt_upd _ _ HW) as HU. pose proof (up_layout _ _ _ _ _ HU) as HL1. pose proof (up_sb _ _ _ _ _ HU) as Esb.
  destruct (written_size _ _ HW) as [Hsz Hinum]. assert (iblock s1 ip = iblock s ip) as Eib by (unfold iblock; by rewrite Hinum, Esb).
  pose proof (f_equal itab (ch_rest _ _ _ _ _ HC) : itab s2 = alter (set_i_size newsize) ip (itab s1)) as Eit.
  pose proof (f_equal sb (ch_rest _ _ _ _ _ HC) : sb s2 = sb s1) as Esb2.
  assert (∀ y, view s2 y = if decide (y = iblock s ip) then put_dinode (dinode_off (i_inum (inode_at ip s))) (to_disk x) (view s1 (iblock s ip)) else view s1 y) as HV
    by apply (ch_view _ _ _ _ _ HC).
  pose proof (lo_size _ _ HL) as Hs0. assert (BSIZE = 1024) as HB by done.
  destruct (layout_size s1 s2 newsize HL1 Esb2 (ch_start _ _ _ _ _ HC) Eit) as (HL2 & Ei & HP & HU2); [unfold newsize; lia| | |].
  { intros b Hb0 Hb. unfold newsize in Hb. rewrite <- (Z.div_mul b BSIZE) by lia. apply (written_mapped n s1); [done|lia|].
    destruct (decide (b * BSIZE < i_size (inode_at ip s))); [by left|right; lia]. }
  { rewrite Eib. intros y Hy. rewrite HV. by rewrite decide_False. }
  pose proof (fk_iblock _ _ (lo_fs _ _ HL)) as Hib.
  split.
  - apply HC.
  - done.
  - destruct (up_inode _ _ _ _ _ HU) as [a Ha]. exists a. rewrite Eit, Ha. apply alter_compose.
  - rewrite HV, decide_True, Ei by done. fold x. apply get_put_dinode.
    + destruct (ci_bc _ _ _ _ (tr_cache _ _ _ (up_trans _ _ _ _ _ HU))) as [l Hl]. rewrite (view_size l s1 Hl).
      unfold dinode_off. change IPB with 16. change DINODE_SIZE with 64. pose proof (Z.mod_pos_bound (i_inum (inode_at ip s)) 16). lia.
    + unfold x. rewrite <- Ei. apply (lo_inode _ _ HL2).
  - intros k Hs Hne. rewrite HP by done. by apply (up_keep _ _ _ _ _ HU).
  - intros k Hs H0. rewrite HP by done. by apply (up_new _ _ _ _ _ HU).
  - intros y Hy. rewrite Esb in HU2. rewrite HU2, (up_use _ _ _ _ _ HU y Hy) by done. split; (intros [|(k & Hs & H0 & E & Hn0)]; [by left|]); right; exists k;
      [rewrite HP by done|rewrite HP in E by done]; done.
  - intros y Hy. rewrite HV in Hy. case_decide as E; [by left|]. right. destruct (up_view _ _ _ _ _ HU y Hy) as [|(k & Hs & Hk & -> & Hne)]; [by left|].
    right. exists k. rewrite HP by done. done.
  - intros o Ho. assert (o < i_size (inode_at ip s) ∨ off ≤ o < off + n) as Hcase by (unfold newsize in Ho; lia).
    rewrite <- (wt_bytes _ _ HW o ltac:(lia) Hcase). pose proof (written_mapped _ _ _ HW (proj1 Ho) Hcase) as Hne.
    assert (slot (o / BSIZE)) as Hs.
    { pose proof (Z.mod_pos_bound o BSIZE ltac:(lia)). pose proof (Z.div_mod o BSIZE ltac:(lia)). assert (0 ≤ o / BSIZE) by (apply Z.div_pos; lia).
      unfold newsize, slot in *. change MAXFILE with 268 in *. rewrite HB in *. lia. }
    unfold pbyte. rewrite HP, HV by done. rewrite decide_False; [done|]. rewrite <- Eib. destruct (lo_data _ _ HL1 _ Hs Hne) as [(_ & _ & Hx & _) _]. done.
Qed.

Lemma wp_writei E : wp (writei ip (FromKernel data) off n) (λ r s', r = n ∧ grown s') E s.
Proof.
  pose proof (lo_size _ _ HL) as Hsz. assert (MAXFILE * BSIZE = 274432) as HMAX by done.
  unfold writei. apply wp_bind, wp_get. rewrite (u32_small (off + n)) by lia.
  rewrite (proj2 (Z.ltb_ge (i_size (inode_at ip s)) off)), (proj2 (Z.ltb_ge (off + n) off)), (proj2 (Z.ltb_ge (MAXFILE * BSIZE) (off + n))) by lia. cbn [orb].
  rewrite (lo_root _ _ HL). apply wp_bind. eapply wp_post; [apply wp_writei_loop|]. intros r s1 [-> HW]. cbn [fst snd].
  apply wp_bind, wp_get. destruct (written_size _ _ HW) as [Hs1 Hi1]. rewrite Hs1. pose proof (wt_upd _ _ HW) as HU. pose proof (up_layout _ _ _ _ _ HU) as HL1.
  set (s2 := set_itab (alter (set_i_size newsize) ip (itab s1)) s1).
  assert (wp (when (i_size (inode_at ip s) <? off + n) (upd_inode ip (set_i_size (off + n)))) (λ _ s', s' = s2) E s1) as Hset.
  { apply wp_when; intros Hlt.
    - apply wp_modify. unfold s2, newsize. by rewrite Z.max_r by lia.
    - unfold s2. rewrite alter_id; [by destruct s1|]. intros x Hx. assert (inode_at ip s1 = x) as Ex by (unfold inode_at; by rewrite Hx). rewrite Ex in Hs1.
      unfold newsize. rewrite Z.max_l, <- Hs1 by lia. by destruct x. }
  apply wp_bind. eapply wp_post; [exact Hset|]. intros [] s' ->. clear Hset.
  assert (inode_at ip s2 = set_i_size newsize (inode_at ip s1)) as Ei.
  { unfold inode_at, s2. kproj. rewrite list_lookup_alter_eq. destruct (lookup_lt_is_Some_2 _ _ (lo_here _ _ HL1)) as [x ->]. done. }
  assert (IBLOCK (i_inum (inode_at ip s2)) (sb s2) = iblock s ip) as Eib by (rewrite Ei; cbn; rewrite Hi1, (up_sb _ _ _ _ _ HU); done).
  pose proof (budget_room p ip ks s HL HT Hlog Hfree s1 HU) as Hroom. pose proof (fk_iblock _ _ (lo_fs _ _ HL)) as [Hb1 Hb2].
  apply wp_bind. eapply wp_post; [apply (wp_iupdate p ip s2 E)|].
  - apply trans_set_itab, HU.
  - rewrite Ei. apply HL1.
  - rewrite Ei. destruct (lo_inode _ _ HL1) as [D1 D2 D3]. split; [exact D1|cbn; unfold newsize; lia|exact D3].
  - rewrite Eib. split; [done|]. split; [change (lg s2) with (lg s1); by rewrite (up_start _ _ _ _ _ HU)|]. change (lg s2) with (lg s1). revert Hroom. consts. lia.
  - intros [] s3 HC. rewrite Eib, Ei in HC. cbn [i_inum set_i_size] in HC. rewrite Hi1 in HC. apply wp_ret. rewrite s32_small by lia. split; [done|]. by apply (written_grown s1).
Qed.
End Write.
