(* ===== verification/FsInodes.v ===== *)
(** The table of in-memory inodes: iget() keeps one slot per inode. *)

From S2P Require Import Prelude Mem Layout Kalloc Vm State Sched Bio BioProofs Blocks Log LogDisk LogProofs LogOps Console Fs FsOps.

(** slot [i] caches inode [inum] of [dev] *)
Definition caches (dev inum : Z) (x : inode) : bool := (0 <? i_ref x) && (i_dev x =? dev) && (i_inum x =? inum).

Record itable_ok (s : K) : Prop := {
  it_len : length (itab s) = 50%nat;
  it_ref i : (i < 50)%nat → 0 ≤ i_ref (inode_at i s) < 2 ^ 31 - 1;
  it_uniq i j dev inum : (i < 50)%nat → (j < 50)%nat → caches dev inum (inode_at i s) = true → caches dev inum (inode_at j s) = true → i = j;
}.

(** what iget() makes of its slot *)
Definition taken (dev inum : Z) (x : inode) : inode :=
  if caches dev inum x then set_i_ref (i_ref x + 1) x else set_i_valid false (set_i_ref 1 (set_i_inum inum (set_i_dev dev x))).

(** the slot is the one that caches the inode, or a free one if none does *)
Definition chosen (dev inum : Z) (s : K) (i : nat) : Prop :=
  (i < 50)%nat ∧ (caches dev inum (inode_at i s) = true ∨
    i_ref (inode_at i s) = 0 ∧ ∀ j, (j < 50)%nat → caches dev inum (inode_at j s) = false).

Lemma caches_free dev inum x : i_ref x = 0 → caches dev inum x = false.
Proof. intros H. unfold caches. by rewrite H. Qed.

Lemma caches_dec dev inum s : (∃ i, (i < 50)%nat ∧ caches dev inum (inode_at i s) = true) ∨ (∀ j, (j < 50)%nat → caches dev inum (inode_at j s) = false).
Proof.
  destruct (decide (Exists (λ i, caches dev inum (inode_at i s) = true) (seq 0 50))) as [H|H].
  - left. apply Exists_exists in H as (i & Hi%elem_of_seq & Hc). exists i. split; [lia|done].
  - right. intros j Hj. destruct (caches dev inum (inode_at j s)) eqn:E; [|done]. destruct H. apply Exists_exists. exists j. split; [apply elem_of_seq; lia|done].
Qed.

Section Iget.
Context (dev inum : Z) (s : K) (HI : itable_ok s).

Lemma wp_iget_scan k n empty (Q : nat + option nat → K → Prop) E :
  (k + n = 50)%nat → held s = [] →
  (∀ j, (j < k)%nat → caches dev inum (inode_at j s) = false) →
  match empty with Some e => (e < k)%nat ∧ i_ref (inode_at e s) = 0 | None => ∀ j, (j < k)%nat → i_ref (inode_at j s) ≠ 0 end →
  (∀ i, (i < 50)%nat → caches dev inum (inode_at i s) = true →
     Q (inl i) (set_itab (alter (λ x, set_i_ref (s32 (i_ref x + 1)) x) i (itab s)) s)) →
  (∀ e, (∀ j, (j < 50)%nat → caches dev inum (inode_at j s) = false) →
     match e with Some e => (e < 50)%nat ∧ i_ref (inode_at e s) = 0 | None => ∀ j, (j < 50)%nat → i_ref (inode_at j s) ≠ 0 end →
     Q (inr e) (set_held [LkItable] s)) →
  wp (iget_scan (seq k n) dev inum empty) Q E (set_held [LkItable] s).
Proof.
  intros Hkn Hh. revert k empty Hkn. induction n as [|n IH]; intros k empty Hkn Hno He HQ1 HQ2.
  - apply wp_ret, HQ2; replace 50%nat with k by lia; done.
  - cbn [seq iget_scan]. apply wp_bind, wp_get. change (inode_at k (set_held [LkItable] s)) with (inode_at k s). fold (caches dev inum (inode_at k s)).
    destruct (caches dev inum (inode_at k s)) eqn:Ek.
    + unfold upd_inode. apply wp_bind, wp_modify, wp_bind, wp_release; [set_solver|]. apply wp_ret. kproj. kset.
      assert (unheld LkItable [LkItable] = []) as -> by done. rewrite <- Hh. apply HQ1; [lia|done].
    + apply IH; [lia|..].
      * intros j Hj. destruct (decide (j = k)) as [->|]; [done|]. apply Hno. lia.
      * destruct empty as [e|]; [destruct He; split; [lia|done]|]. destruct (Z.eqb_spec (i_ref (inode_at k s)) 0) as [E0|E0]; [split; [lia|done]|].
        intros j Hj. destruct (decide (j = k)) as [->|]; [done|]. apply He. lia.
      * done.
      * done.
Qed.

Lemma wp_iget (Q : nat → K → Prop) E :
  held s = [] → (∃ i, chosen dev inum s i) →
  (∀ i, chosen dev inum s i → Q i (set_itab (alter (taken dev inum) i (itab s)) s)) → wp (iget dev inum) Q E s.
Proof.
  intros Hh Hex HQ. unfold iget. apply wp_bind, wp_acquire; [rewrite Hh; set_solver|]. rewrite Hh. apply wp_bind.
  apply (wp_iget_scan 0 50 None); [done|done|intros; lia|intros; lia|..].
  - intros i Hi Hc. apply wp_ret. pose proof (it_ref _ HI i Hi) as Hr.
    assert (alter (λ x, set_i_ref (s32 (i_ref x + 1)) x) i (itab s) = alter (taken dev inum) i (itab s)) as ->; [|by apply HQ; split; [done|left]].
    apply list_eq. intros j. destruct (decide (j = i)) as [->|]; [|by rewrite !list_lookup_alter_ne]. rewrite !list_lookup_alter_eq.
    unfold inode_at in *. destruct (itab s !! i) as [x|]; [|done]. cbn in *. unfold taken. by rewrite Hc, s32_small by lia.
  - intros [e|] Hno He.
    + destruct He as [He He0]. unfold upd_inode. apply wp_bind, wp_modify, wp_bind, wp_release; [set_solver|]. apply wp_ret. kproj. kset.
      assert (unheld LkItable [LkItable] = []) as -> by done. rewrite <- Hh.
      assert (alter (λ x, set_i_valid false (set_i_ref 1 (set_i_inum inum (set_i_dev dev x)))) e (itab s) = alter (taken dev inum) e (itab s)) as ->.
      { apply list_eq. intros j. destruct (decide (j = e)) as [->|]; [|by rewrite !list_lookup_alter_ne]. rewrite !list_lookup_alter_eq.
        pose proof (Hno e He) as Hc. unfold inode_at in Hc. destruct (itab s !! e) as [x|]; [|done]. cbn in *. unfold taken. by rewrite Hc. }
      apply HQ. split; [done|]. right. done.
    + exfalso. destruct Hex as (i & Hi & [Hc|[H0 _]]); [by rewrite (Hno i Hi) in Hc|by destruct (He i Hi)].
Qed.

Lemma taken_caches i x dev' inum' : i_ref x < 2 ^ 31 - 1 → caches dev inum x = true ∨ i_ref x = 0 →
  (i < 50)%nat → caches dev' inum' (taken dev inum x) = bool_decide (dev' = dev ∧ inum' = inum).
Proof.
  intros Hr Hx Hi. unfold taken. destruct (caches dev inum x) eqn:E.
  - apply andb_true_iff in E as [[H1 H2]%andb_true_iff H3]. apply Z.ltb_lt in H1. apply Z.eqb_eq in H2, H3. unfold caches. cbn.
    rewrite (proj2 (Z.ltb_lt 0 (i_ref x + 1))) by lia. rewrite H2, H3. cbn.
    destruct (Z.eqb_spec dev dev') as [<-|], (Z.eqb_spec inum inum') as [<-|]; cbn; symmetry; first [by apply bool_decide_true|apply bool_decide_false; naive_solver].
  - unfold caches. cbn. destruct (Z.eqb_spec dev dev') as [<-|], (Z.eqb_spec inum inum') as [<-|]; cbn; symmetry; first [by apply bool_decide_true|apply bool_decide_false; naive_solver].
Qed.

(** the table stays well-formed while no count reaches the top of its range *)
Lemma taken_ok i : chosen dev inum s i → i_ref (inode_at i s) + 1 < 2 ^ 31 - 1 → itable_ok (set_itab (alter (taken dev inum) i (itab s)) s).
Proof.
  intros [Hi Hc] Hbig. set (s' := set_itab (alter (taken dev inum) i (itab s)) s).
  assert (∀ j, inode_at j s' = if decide (j = i) then taken dev inum (inode_at i s) else inode_at j s) as Hat.
  { intros j. apply inode_at_alter. by rewrite (it_len _ HI). }
  assert (∀ d n, caches d n (taken dev inum (inode_at i s)) = bool_decide (d = dev ∧ n = inum)) as Htk.
  { intros d n. apply (taken_caches i); [lia|naive_solver|done]. }
  assert (∀ j, (j < 50)%nat → j ≠ i → caches dev inum (inode_at j s) = false) as Hoth.
  { intros j Hj Hne. destruct Hc as [Hc|[_ Hno]]; [|by apply Hno]. destruct (caches dev inum (inode_at j s)) eqn:E; [|done]. by destruct Hne; apply (it_uniq _ HI j i dev inum). }
  split.
  - cbn. rewrite length_alter. apply HI.
  - intros j Hj. rewrite Hat. case_decide; [|by apply HI]. unfold taken. pose proof (it_ref _ HI i Hi). case_match; cbn; lia.
  - intros j k d n Hj Hk. rewrite !Hat. intros C1 C2. destruct (decide (j = i)) as [->|Nj], (decide (k = i)) as [->|Nk]; [done|..].
    + rewrite Htk in C1. apply bool_decide_eq_true in C1 as [-> ->]. by rewrite (Hoth k Hk Nk) in C2.
    + rewrite Htk in C2. apply bool_decide_eq_true in C2 as [-> ->]. by rewrite (Hoth j Hj Nj) in C1.
    + by apply (it_uniq _ HI j k d n).
Qed.
End Iget.
