(* ===== verification/FsSpec.v ===== *)
(** What the file system layer promises: blocks, inodes, names, file contents. *)

From S2P Require Import Prelude Mem Layout Kalloc Vm PageTable VmSpec State Sched Ring Bio BioProofs Blocks BioSpec Log LogDisk LogProofs LogOps LogSpec Console Fs FsOps FsRead FsNames FsAlloc FsWrite FsInodes.

(** * bfree() *)

Definition cleared (x : Z) (d : list Z) : list Z := put_bit_byte (x mod BPB) (Z.land (bit_byte (x mod BPB) d) (Z.lnot (bit_mask (x mod BPB)))) d.

Lemma wp_bfree p x s E : trans p [] s → loggable s (BBLOCK x (sb s)) → in_use (view s) (sb s) x = true →
  wp (bfree ROOTDEV x) (λ _ s', changed p [] s [(BBLOCK x (sb s), cleared x (view s (BBLOCK x (sb s))))] s') E s.
Proof.
  intros HT Hlog Hu. unfold bfree. apply wp_bind, wp_gets, wp_bind.
  apply (hold_bread p (logged (lg s)) [] s); [apply HT|set_solver|right; apply (trans_room p [] s HT); [apply Hlog|simpl; lia]|]. intros i s1 HO.
  apply wp_bind, wp_get. rewrite (ho_data _ _ _ _ _ _ _ _ HO). pose proof (Z.mod_pos_bound (x mod BPB) 8 ltac:(lia)) as Hm.
  unfold bit_mask at 1. rewrite mask_test by lia. unfold in_use in Hu. rewrite Hu. cbn [negb]. apply wp_bind.
  eapply (hold_upd HO); [done|unfold put_bit_byte; rewrite length_insert; apply (hold_len HO)|].
  intros s2 HO2. eapply wp_log_out; [exact HT|exact HO2|done|done].
Qed.

Lemma wp_bfree_free p x s (E : string → K → Prop) : cinv p (logged (lg s)) [] s → (length (logged (lg s)) < 30)%nat →
  in_use (view s) (sb s) x = false → (∀ s', E "freeing free block" s') → wp (bfree ROOTDEV x) (λ _ _, False) E s.
Proof.
  intros HC Hl Hu HE. unfold bfree. apply wp_bind, wp_gets, wp_bind.
  apply (hold_bread p (logged (lg s)) [] s); [done|set_solver|right; simpl; lia|]. intros i s1 HO.
  apply wp_bind, wp_get. rewrite (ho_data _ _ _ _ _ _ _ _ HO). pose proof (Z.mod_pos_bound (x mod BPB) 8 ltac:(lia)) as Hm.
  unfold bit_mask at 1. rewrite mask_test by lia. unfold in_use in Hu. rewrite Hu. cbn [negb]. apply wp_panic, HE.
Qed.

(** the bitmap after a bit has been set or cleared *)
Lemma in_use_marked p s x y s' : bitmap_ok (sb s) → 0 ≤ x < sb_size (sb s) → 0 ≤ y < sb_size (sb s) →
  trans p [] s → (∀ b, 0 ≤ b < sb_size (sb s) → BBLOCK b (sb s) ≠ x) →
  changed p [] s [(BBLOCK x (sb s), marked x (view s (BBLOCK x (sb s)))); (x, zero_block)] s' →
  in_use (view s') (sb s) y = bool_decide (y = x) || in_use (view s) (sb s) y.
Proof.
  intros HB Hx Hy HT Hnb HC. destruct (ci_bc _ _ _ _ (tr_cache _ _ _ HT)) as [l Hl].
  apply (in_use_took (sb s) (view s)); try done; [by eapply view_size|]. intros b (b' & Hb' & ->).
  rewrite (ch_view _ _ _ _ _ HC). cbn [apply_ws foldl fst snd]. unfold dset at 1. by rewrite decide_False by by apply Hnb.
Qed.

Lemma in_use_cleared p s x y s' : bitmap_ok (sb s) → 0 ≤ x < sb_size (sb s) → 0 ≤ y < sb_size (sb s) → trans p [] s →
  changed p [] s [(BBLOCK x (sb s), cleared x (view s (BBLOCK x (sb s))))] s' →
  in_use (view s') (sb s) y = negb (bool_decide (y = x)) && in_use (view s) (sb s) y.
Proof.
  intros HB Hx Hy HT HC. destruct (ci_bc _ _ _ _ (tr_cache _ _ _ HT)) as [l Hl].
  rewrite (in_use_put (view s) _ (sb s) x y (λ w, Z.land w (Z.lnot (bit_mask (x mod BPB)))) (λ _, false)); try done.
  - case_decide; [by rewrite bool_decide_true|by rewrite bool_decide_false].
  - by eapply view_size.
  - intros b. rewrite (ch_view _ _ _ _ _ HC). cbn [apply_ws foldl fst snd]. unfold dset. case_decide; done.
  - intros bi d Hbi Hd. rewrite bit_clear by (done || apply Z.mod_pos_bound; done). case_decide; [by rewrite bool_decide_true|by rewrite bool_decide_false].
Qed.

(** C22: balloc() hands out the first free block.  Inside a transaction with room in the log, if some block is free,
    it returns the lowest numbered one, filled with zeros; afterwards that block is in use, every other block is
    in use or free as before, and no block but it and its bitmap block has changed. *)
Theorem balloc_first_free p s :
  balloc_pre p [] s → bitmap_ok (sb s) → (∀ b, 0 ≤ b < sb_size (sb s) → in_use (view s) (sb s) (BBLOCK b (sb s)) = true) →
  (∃ x, 0 ≤ x < sb_size (sb s) ∧ in_use (view s) (sb s) x = false) →
  ∃ x s', balloc ROOTDEV s = Ret x s' ∧ trans p [] s' ∧ 0 ≤ x < sb_size (sb s) ∧
    in_use (view s) (sb s) x = false ∧ (∀ y, 0 ≤ y < x → in_use (view s) (sb s) y = true) ∧ view s' x = zero_block ∧
    (∀ y, 0 ≤ y < sb_size (sb s) → in_use (view s') (sb s) y = bool_decide (y = x) || in_use (view s) (sb s) y) ∧
    ∀ b, b ≠ x → b ≠ BBLOCK x (sb s) → view s' b = view s b.
Proof.
  intros HP HB Hself Hex.
  destruct (proj1 (wp_returns _ _ _) (wp_balloc p [] s nopanic
    (λ x s', 0 ≤ x < sb_size (sb s) ∧ in_use (view s) (sb s) x = false ∧ (∀ y, 0 ≤ y < x → in_use (view s) (sb s) y = true) ∧
       changed p [] s [(BBLOCK x (sb s), marked x (view s (BBLOCK x (sb s)))); (x, zero_block)] s') HP Hex (λ x s' H1 H2 H3 H4, conj H1 (conj H2 (conj H3 H4)))))
    as (x & s' & E & Hx & Hu & Hfirst & HC).
  exists x, s'. split_and!; try done; try lia; [apply HC|..].
  - rewrite (ch_view _ _ _ _ _ HC). cbn [apply_ws foldl fst snd]. unfold dset. by rewrite decide_True.
  - intros y Hy. apply (in_use_marked p); try done; [apply HP|]. intros b Hb E'. rewrite <- E', (Hself b Hb) in Hu. done.
  - intros b H1 H2. rewrite (ch_view _ _ _ _ _ HC). apply apply_ws_out. cbn. set_solver.
Qed.

(** bfree() gives a block back.  A block in use becomes free, and no other one; freeing a block that is
    already free stops the kernel. *)
Theorem bfree_returns_block p x s :
  trans p [] s → bitmap_ok (sb s) → 0 ≤ x < sb_size (sb s) → loggable s (BBLOCK x (sb s)) →
  if in_use (view s) (sb s) x
  then ∃ s', bfree ROOTDEV x s = Ret tt s' ∧ trans p [] s' ∧
         (∀ y, 0 ≤ y < sb_size (sb s) → in_use (view s') (sb s) y = negb (bool_decide (y = x)) && in_use (view s) (sb s) y) ∧
         ∀ b, b ≠ BBLOCK x (sb s) → view s' b = view s b
  else ∃ s', bfree ROOTDEV x s = Panic "freeing free block" s'.
Proof.
  intros HT HB Hx Hlog. destruct (in_use (view s) (sb s) x) eqn:Hu.
  - destruct (proj1 (wp_returns _ _ _) (wp_bfree p x s nopanic HT Hlog Hu)) as ([] & s' & E & HC). exists s'. split_and!; [done|apply HC| |].
    + intros y Hy. by apply (in_use_cleared p).
    + intros b Hb. rewrite (ch_view _ _ _ _ _ HC). apply apply_ws_out. cbn. set_solver.
  - pose proof (trans_room p [] s HT (proj2 (proj2 Hlog)) (le_n 0)) as Hl. simpl in Hl.
    pose proof (wp_bfree_free p x s (λ m _, m = "freeing free block") (tr_cache _ _ _ HT) ltac:(lia) Hu (λ _, eq_refl)) as HW.
    unfold wp in HW. destruct (bfree ROOTDEV x s) as [|m s'| | | |]; try done. subst m. by exists s'.
Qed.

(** C25: an inode survives being written out.  iupdate() stores the in-memory inode in its block, leaving the
    other inodes of the block as they were; an ilock() that has to load that inode, from any later state in which
    the block still reads the same, gets back the type, device numbers, link count, size and block addresses. *)
Theorem iupdate_ilock_roundtrip p ip s :
  trans p [] s → i_dev (inode_at ip s) = ROOTDEV → dinode_ok (to_disk (inode_at ip s)) → i_type (inode_at ip s) ≠ 0 →
  let inum := i_inum (inode_at ip s) in
  loggable s (IBLOCK inum (sb s)) →
  ∃ s', iupdate ip s = Ret tt s' ∧ trans p [] s' ∧ itab s' = itab s ∧ sb s' = sb s ∧
    (∀ k, 0 ≤ k → IBLOCK k (sb s) = IBLOCK inum (sb s) → dinode_off k ≠ dinode_off inum →
       get_dinode (dinode_off k) (view s' (IBLOCK k (sb s))) = get_dinode (dinode_off k) (view s (IBLOCK k (sb s)))) ∧
    ∀ q P j t, cinv q P [] t → sb t = sb s → view t (IBLOCK inum (sb s)) = view s' (IBLOCK inum (sb s)) →
      (length P < 30)%nat → (IBLOCK inum (sb s) ∉ P → view t (IBLOCK inum (sb s)) = blk t (IBLOCK inum (sb s))) →
      (j < length (itab t))%nat → i_inum (inode_at j t) = inum → i_dev (inode_at j t) = ROOTDEV → 1 ≤ i_ref (inode_at j t) →
      i_locked (inode_at j t) = false → i_valid (inode_at j t) = false →
      ∃ t', ilock j t = Ret tt t' ∧ to_disk (inode_at j t') = to_disk (inode_at ip s) ∧
        i_valid (inode_at j t') = true ∧ i_locked (inode_at j t') = true ∧ ∀ b, view t' b = view t b.
Proof.
  intros HT Hdev Hok Hty inum Hlog.
  destruct (proj1 (wp_returns _ _ _) (wp_iupdate p ip s nopanic HT Hdev Hok Hlog)) as ([] & s' & E & HC).
  fold inum in HC. destruct (ci_bc _ _ _ _ (tr_cache _ _ _ HT)) as [l Hl]. pose proof (view_size l s Hl (IBLOCK inum (sb s))) as Hlen.
  assert (∀ k, dinode_off k + 64 ≤ 1024)%nat as Hoff.
  { intros k. unfold dinode_off. change IPB with 16. change DINODE_SIZE with 64. pose proof (Z.mod_pos_bound k 16). lia. }
  assert (view s' (IBLOCK inum (sb s)) = put_dinode (dinode_off inum) (to_disk (inode_at ip s)) (view s (IBLOCK inum (sb s)))) as HV.
  { rewrite (ch_view _ _ _ _ _ HC). cbn [apply_ws foldl fst snd]. unfold dset. by rewrite decide_True. }
  exists s'. split_and!; [done|apply HC|exact (f_equal itab (ch_rest _ _ _ _ _ HC))|exact (f_equal sb (ch_rest _ _ _ _ _ HC))| |].
  - intros k Hk Eb Hne. rewrite Eb, HV. apply get_put_dinode_ne; [by rewrite Hlen|apply Hok|].
    assert (∀ a, ∃ c, dinode_off a = (64 * c)%nat) as H64.
    { intros a. exists (Z.to_nat (a mod IPB)). unfold dinode_off. change IPB with 16. change DINODE_SIZE with 64. pose proof (Z.mod_pos_bound a 16). lia. }
    destruct (H64 k) as [c Hc], (H64 inum) as [c' Hc']. rewrite Hc, Hc' in *. lia.
  - intros q P j t HCt Hsb Hvt HP Hcl Hj Hin Hdv Hr Hlk Hval.
    assert (get_dinode (dinode_off inum) (view t (IBLOCK inum (sb s))) = to_disk (inode_at ip s)) as Hget.
    { rewrite Hvt, HV. apply get_put_dinode; [by rewrite Hlen|done]. }
    pose proof (wp_ilock_load q P j t nopanic) as HW. cbv zeta in HW. rewrite Hin, Hsb, Hget in HW.
    destruct (proj1 (wp_returns _ _ _) (HW HCt Hj Hr Hlk Hval Hdv Hty Hcl HP)) as ([] & t' & Et & _ & HVt & _ & HR).
    exists t'. split; [done|]. assert (inode_at j t' = loaded (to_disk (inode_at ip s)) (pid_of q t) (inode_at j t)) as ->.
    { pose proof (f_equal itab HR : itab t' = _) as Eit. unfold inode_at at 1. rewrite Eit. cbn [itab set_itab]. kproj. rewrite list_lookup_alter_eq.
      unfold inode_at. destruct (lookup_lt_is_Some_2 _ _ Hj) as [y ->]. done. }
    split_and!; done.
Qed.

(** path names.  The elements skipelem() hands out one after the other, whatever the name buffer held, are the
    parts of the path between slashes, empty ones left out, each cut to DIRSIZ bytes; and it always comes to an
    end. *)
Theorem skipelem_elements path name :
  Forall (λ c, c ≠ 0) path → length name = 14%nat → ∀ l, walks path name l ↔ l = take 14 <$> elements path.
Proof.
  intros Hz Hn l. split; [intros Hw; eapply walks_fun; [exact Hw|]|intros ->]; by apply walks_elements.
Qed.

(** C24: an inode is cached once.  iget() returns the slot that caches the inode, or makes a free slot cache it,
    with no copy loaded yet; it counts one more reference to the slot, leaves every other slot alone, and keeps
    the table's invariant that no two slots in use cache the same inode. *)
Theorem iget_one_slot dev inum s :
  itable_ok s → held s = [] → (∃ i, chosen dev inum s i) → (∀ i, (i < 50)%nat → i_ref (inode_at i s) < 2 ^ 31 - 2) →
  ∃ i s', iget dev inum s = Ret i s' ∧ chosen dev inum s i ∧ itable_ok s' ∧ held s' = [] ∧
    caches dev inum (inode_at i s') = true ∧ i_ref (inode_at i s') = i_ref (inode_at i s) + 1 ∧
    (i_ref (inode_at i s) = 0 → i_valid (inode_at i s') = false) ∧
    ∀ j, j ≠ i → inode_at j s' = inode_at j s.
Proof.
  intros HI Hh Hex Hr.
  destruct (proj1 (wp_returns _ _ _) (wp_iget dev inum s HI (λ i s', chosen dev inum s i ∧ s' = set_itab (alter (taken dev inum) i (itab s)) s)
    nopanic Hh Hex (λ i Hi, conj Hi eq_refl))) as (i & s' & E & Hi & ->).
  pose proof Hi as [Hi50 Hc]. pose proof (Hr i Hi50) as Hri. assert (i < length (itab s))%nat as Hil by by rewrite (it_len _ HI).
  eexists i, _. split; [exact E|]. split; [done|]. split; [by apply taken_ok; [..|lia]|]. split; [done|].
  rewrite inode_at_alter, decide_True by done. split_and!.
  - rewrite (taken_caches _ _ i) by (done || lia || naive_solver). by apply bool_decide_true.
  - unfold taken. destruct Hc as [->|[H0 Hno]]; [done|]. rewrite (Hno i Hi50), H0. done.
  - intros H0. unfold taken. by rewrite caches_free.
  - intros j Hj. by rewrite inode_at_alter, decide_False.
Qed.

(** the entry names a file [name] *)
Definition names (e name : list Z) : Prop := de_inum e ≠ 0 ∧ name_of (de_name e) = name_of name.

Lemma entry_names name e : entry_is name e = true ↔ names e name.
Proof.
  unfold entry_is, names. rewrite namecmp_eq, andb_true_iff, negb_true_iff, Z.eqb_neq, bool_decide_eq_true. naive_solver.
Qed.

Lemma wp_dirlookup_first `{PageAlloc} p P s dp name E :
  cinv p P [] s → (length P < 30)%nat → file_ok s dp → i_type (inode_at dp s) = T_DIR → i_size (inode_at dp s) mod DIRENT_SIZE = 0 →
  itable_ok s → (∃ i, (i < 50)%nat ∧ i_ref (inode_at i s) = 0) →
  wp (dirlookup dp name) (λ r s', (∀ b, view s' b = view s b) ∧
    match r with
    | None => (∀ j, 0 ≤ j < dir_len s dp → ¬ names (dirent_at s dp j) name)
    | Some (ip, off) => ∃ k, off = k * DIRENT_SIZE ∧ 0 ≤ k < dir_len s dp ∧ names (dirent_at s dp k) name ∧
        (∀ j, 0 ≤ j < k → ¬ names (dirent_at s dp j) name) ∧
        chosen ROOTDEV (de_inum (dirent_at s dp k)) s ip ∧ itab s' = alter (taken ROOTDEV (de_inum (dirent_at s dp k))) ip (itab s)
    end) E s.
Proof.
  intros HC HP HF Hd Hm HI [e [He He0]]. apply (wp_dirlookup p P HP s dp name HC HF Hd Hm).
  - intros k s' Hk Hn Hfirst HS. pose proof (seen_itab _ _ _ _ HS) as Hit. assert (∀ i, inode_at i s' = inode_at i s) as Hat by (intros i; by apply (seen_inode p P)).
    assert (itable_ok s') as HI'. { destruct HI as [H1 H2 H3]. split; [by rewrite Hit|intros i; rewrite Hat; apply H2|intros i j d n; rewrite !Hat; apply H3]. }
    apply (wp_iget _ _ s' HI'); [apply HS| |].
    + destruct (caches_dec ROOTDEV (de_inum (dirent_at s dp k)) s') as [[i Hi]|Hno]; [by exists i; split; [|left]; apply Hi|]. exists e. split; [done|]. right. rewrite Hat. done.
    + intros i Hi. split; [intros b; apply HS|]. exists k. split_and!; try done; try lia.
      * by apply entry_names.
      * intros j Hj. rewrite <- entry_names. by rewrite Hfirst.
      * destruct Hi as [Hi Hc]. rewrite Hat in Hc. split; [done|]. destruct Hc as [?|[? Hno]]; [by left|right]. split; [done|]. intros j Hj. rewrite <- Hat. by apply Hno.
      * cbn. by rewrite Hit.
  - intros Hno s' HS. split; [apply HS|]. intros j Hj. rewrite <- entry_names. by rewrite Hno.
Qed.

(** C23: dirlookup() finds the first entry of the name.  In a directory it returns the offset of the first entry in
    use whose name agrees in its first DIRSIZ bytes, with a reference to the entry's inode; if no entry has the
    name it returns nothing.  No block changes. *)
Theorem dirlookup_first_entry `{PageAlloc} p P s dp name :
  cinv p P [] s → (length P < 30)%nat → file_ok s dp → i_type (inode_at dp s) = T_DIR → i_size (inode_at dp s) mod DIRENT_SIZE = 0 →
  itable_ok s → (∃ i, (i < 50)%nat ∧ i_ref (inode_at i s) = 0) →
  ∃ r s', dirlookup dp name s = Ret r s' ∧ (∀ b, view s' b = view s b) ∧
    match r with
    | None => (∀ j, 0 ≤ j < dir_len s dp → ¬ names (dirent_at s dp j) name)
    | Some (ip, off) => ∃ k, off = k * DIRENT_SIZE ∧ 0 ≤ k < dir_len s dp ∧ names (dirent_at s dp k) name ∧
        (∀ j, 0 ≤ j < k → ¬ names (dirent_at s dp j) name) ∧
        chosen ROOTDEV (de_inum (dirent_at s dp k)) s ip ∧ itab s' = alter (taken ROOTDEV (de_inum (dirent_at s dp k))) ip (itab s)
    end.
Proof.
  intros HC HP HF Hd Hm HI He.
  destruct (proj1 (wp_returns _ _ _) (wp_dirlookup_first p P s dp name nopanic HC HP HF Hd Hm HI He)) as (r & s' & E & H1 & H2). by exists r, s'.
Qed.

(** ** File contents *)

Definition contents (s : K) (ip : nat) : list Z := fbytes s ip 0 (i_size (inode_at ip s)).

Lemma contents_slice s ip o m : 0 ≤ o ≤ i_size (inode_at ip s) → 0 ≤ m →
  fbytes s ip o (clip (i_size (inode_at ip s)) o m) = take (Z.to_nat m) (drop (Z.to_nat o) (contents s ip)).
Proof.
  intros Ho Hm. unfold contents. set (sz := i_size (inode_at ip s)) in *. replace sz with (o + (sz - o)) at 2 by lia.
  rewrite fbytes_app by lia. rewrite drop_app_length' by (rewrite length_fbytes; lia). rewrite Z.add_0_l. unfold clip.
  destruct (Z.ltb_spec sz (o + m)) as [H|H].
  - rewrite take_ge; [done|]. rewrite length_fbytes. lia.
  - replace (sz - o) with (m + (sz - o - m)) by lia. rewrite fbytes_app by lia. by rewrite take_app_length' by (rewrite length_fbytes; lia).
Qed.

(** the bytes of a file whose parts all have blocks *)
Lemma fbyte_place s ip o : layout_ok s ip → 0 ≤ o < i_size (inode_at ip s) → fbyte s ip o = default 0 (pbyte ip s o).
Proof.
  intros HL Ho. assert (BSIZE = 1024) as HB by done. pose proof (Z.mod_pos_bound o BSIZE ltac:(lia)). pose proof (Z.div_mod o BSIZE ltac:(lia)).
  assert (part s ip (o / BSIZE)) as HP by (split; [apply Z.div_pos; lia|lia]).
  destruct (place_baddr s ip (o / BSIZE) (proj1 HP) (lo_part _ _ HL _ HP)) as [E _]. unfold fbyte, pbyte. by rewrite E.
Qed.

Lemma grown_size p ip s off n data s' : layout_ok s ip → grown p ip s off n data s' → i_size (inode_at ip s') = newsize ip s off n.
Proof.
  intros HL HG. destruct (gr_itab _ _ _ _ _ _ _ HG) as [a Ha]. unfold inode_at. rewrite Ha, list_lookup_alter_eq.
  destruct (lookup_lt_is_Some_2 _ _ (lo_here _ _ HL)) as [x ->]. done.
Qed.

Lemma grown_contents p ip s off data s' (n := Z.of_nat (length data)) :
  layout_ok s ip → 0 ≤ off ≤ i_size (inode_at ip s) → grown p ip s off n data s' → contents s' ip = splice (Z.to_nat off) data (contents s ip).
Proof.
  intros HL Hoff HG. pose proof (grown_size _ _ _ _ _ _ _ HL HG) as Hsz. pose proof (gr_layout _ _ _ _ _ _ _ HG) as HL'.
  apply list_eq. intros i. rewrite lookup_splice by (unfold contents; rewrite length_fbytes; lia). unfold contents, fbytes. rewrite Hsz, !list_lookup_fmap.
  set (sz := i_size (inode_at ip s)) in *. assert (newsize ip s off n = Z.max sz (off + n)) as Ens by done.
  destruct (decide (Z.of_nat i < newsize ip s off n)) as [Hs|Hs].
  - rewrite lookup_seqZ_lt by lia. cbn [fmap option_fmap option_map]. rewrite !Z.add_0_l, fbyte_place by (rewrite ?Hsz; done || lia).
    rewrite (gr_bytes _ _ _ _ _ _ _ HG (Z.of_nat i)) by lia. destruct (decide (Z.to_nat off ≤ i < Z.to_nat off + length data)%nat) as [D|D].
    + rewrite decide_True by lia. replace (Z.to_nat (Z.of_nat i - off)) with (i - Z.to_nat off)%nat by lia.
      destruct (lookup_lt_is_Some_2 data (i - Z.to_nat off)) as [x ->]; [lia|done].
    + rewrite decide_False, lookup_seqZ_lt by lia. cbn. f_equal. symmetry. apply fbyte_place; [done|]. fold sz. lia.
  - rewrite (lookup_seqZ_ge 0 (newsize _ _ _ _)) by lia. cbn. rewrite decide_False, lookup_seqZ_ge by lia. done.
Qed.

(** C6: what is written is read back.  writei() of a kernel buffer that begins in the file or at its end and stays
    below the largest file, in a transaction with room in the log and with enough free blocks, writes all of it:
    the contents of the file become the old ones with the buffer spliced in at the offset, and reach as far as the
    buffer does; the inode, in memory and in its block, has the new size.  Parts that had no block, and the indirect
    block if there was none, get blocks that were free, exactly those become in use, and no block belongs to two
    parts; apart from them only the blocks in the range, the bitmap and the inode's block change.  A readi()
    anywhere in the file then returns the bytes of the new contents, up to the new end. *)
Theorem writei_readi_roundtrip `{PageAlloc} p ip s off data o m :
  let n := Z.of_nat (length data) in
  trans p [] s → layout_ok s ip → 0 ≤ off ≤ i_size (inode_at ip s) → off + n ≤ MAXFILE * BSIZE →
  lh_n (lg s) + (sb_size (sb s) / BPB + 1) + Z.of_nat (length (needed off n)) < LOGSIZE - 3 →
  Z.of_nat (length (filter (λ k, place s ip k = 0) (needed off n))) ≤ Z.of_nat (length (frees s)) →
  let size := Z.max (i_size (inode_at ip s)) (off + n) in
  0 ≤ o ≤ size → 0 ≤ m < 2 ^ 31 →
  ∃ s', writei ip (FromKernel data) off n s = Ret n s' ∧ grown p ip s off n data s' ∧ i_size (inode_at ip s') = size ∧
    contents s' ip = splice (Z.to_nat off) data (contents s ip) ∧
    ∃ s'', readi ip ToKernel o m s' = Ret (clip size o m, take (Z.to_nat m) (drop (Z.to_nat o) (contents s' ip))) s''.
Proof.
  intros n HT HL Hoff Hmax Hlog Hfree size Ho Hm.
  destruct (proj1 (wp_returns _ _ _) (wp_writei p ip s off n data HT HL Hoff ltac:(lia) Hmax eq_refl Hlog Hfree nopanic)) as (r & s' & E & -> & HG).
  pose proof (grown_size _ _ _ _ _ _ _ HL HG) as Hsz. pose proof (gr_trans _ _ _ _ _ _ _ HG) as HT'. change (newsize ip s off n) with size in Hsz.
  exists s'. split_and!; [done|done|done|by apply (grown_contents p)|].
  assert (length (logged (lg s')) < 30)%nat as Hl by (pose proof (logged_len _ (tr_log _ _ _ HT')); pose proof (lo_n _ (tr_log _ _ _ HT')); lia).
  destruct (proj1 (wp_returns _ _ _) (wp_readi p (logged (lg s')) Hl s' ip o m (tr_cache _ _ _ HT') (layout_file _ _ (gr_layout _ _ _ _ _ _ _ HG))
    ltac:(by rewrite Hsz) Hm nopanic)) as (r & s'' & E2 & -> & _).
  exists s''. rewrite E2, contents_slice by (rewrite ?Hsz; lia). by rewrite Hsz.
Qed.

(** * A concrete file system *)

Module Fs0.
Import Image0 Machine0 Cache0 Log0.

(** the log at block 2, inodes at 32, the bitmap at 45, blocks below 50 in use; a directory with two entries in
    block 60, a file of 1100 bytes in blocks 61 and 62 *)
Definition bitmap : list Z := replicate 6 255 ++ [3; 112] ++ replicate 1016 0.
Definition entries : list Z := mk_dirent 1 [46] ++ mk_dirent 7 [97; 98] ++ replicate 992 0.
Definition image : gmap Z (list Z) := <[45 := bitmap]> (<[60 := entries]> (<[61 := replicate 1024 5]> ∅)).
Definition dir : inode := mkInode ROOTDEV 1 1 true 0 true T_DIR 0 0 1 32 (60 :: replicate 12 0).
Definition fil : inode := mkInode ROOTDEV 7 1 true 0 true T_FILE 0 0 1 1100 (61 :: 62 :: replicate 11 0).
Definition stale : inode := mkInode ROOTDEV 9 1 false 0 false 0 0 0 0 0 (replicate 13 0).
Definition fs0 : K :=
  set_itab (dir :: fil :: stale :: replicate 47 inode0)
    (set_sb (mkSb FSMAGIC 100 50 200 30 2 32 45) (set_lg (mkLog 2 30 1 false ROOTDEV 0 (replicate 30 0)) (cache image))).

Lemma image_size b : length (blk (k_boot image) b) = 1024%nat.
Proof.
  unfold blk, k_boot. cbn [disk]. unfold image. rewrite !lookup_insert.
  destruct (decide (45 = b)); [reflexivity|]. destruct (decide (60 = b)); [reflexivity|]. destruct (decide (61 = b)); [reflexivity|].
  rewrite lookup_empty. reflexivity.
Qed.

Lemma cinv0 : cinv 0 [] [] fs0.
Proof. apply cinv_set_itab, cinv_set_sb, cinv_set_lg, (linked_cinv (k_boot image)); [apply boot0, image_size|apply cache_linked, image_size]. Qed.
Lemma trans0 : trans 0 [] fs0.
Proof. split; [exact cinv0|exact log_ok0|reflexivity|vm_compute; discriminate]. Qed.

Lemma in_use0 x : 0 ≤ x < 100 → in_use (view fs0) (sb fs0) x = bool_decide (x < 50 ∨ 60 ≤ x < 63).
Proof.
  intros Hx. assert (forallb (λ x, bool_decide (in_use (view fs0) (sb fs0) x = bool_decide (x < 50 ∨ 60 ≤ x < 63))) (seqZ 0 100) = true) as H by (vm_compute; reflexivity).
  rewrite forallb_forall in H. specialize (H x). rewrite bool_decide_eq_true in H. apply H, list_elem_of_In, elem_of_seqZ. lia.
Qed.

Lemma nothing (Q : nat → Prop) i : i ∈ @nil nat → Q i.
Proof. intros Hi. by apply not_elem_of_nil in Hi. Qed.
Lemma bblock0 b : 0 ≤ b < 100 → BBLOCK b (sb fs0) = 45.
Proof. intros Hb. unfold BBLOCK. change BPB with 8192. rewrite (Z.div_small b) by lia. reflexivity. Qed.
Lemma bitmap0 : bitmap_ok (sb fs0).
Proof. split; [vm_compute; discriminate|vm_compute; reflexivity]. Qed.
Lemma pre0 : balloc_pre 0 [] fs0.
Proof.
  split; [exact trans0|vm_compute; reflexivity|vm_compute; lia|split; [vm_compute; discriminate|vm_compute; reflexivity]|..].
  - change (sb_size (sb fs0)) with 100. intros b Hb. rewrite bblock0 by done. change (log_start (lg fs0)) with 2. unfold in_log. split_and!; [lia|lia|lia|apply nothing].
  - change (sb_size (sb fs0)) with 100. change (log_start (lg fs0)) with 2. intros x Hx Hu. rewrite in_use0 in Hu by done. apply bool_decide_eq_false in Hu.
    unfold in_log. split; [lia|apply nothing].
Qed.

Lemma balloc_first_free_witness : ∃ s', balloc ROOTDEV fs0 = Ret 50 s' ∧ view s' 50 = zero_block ∧ in_use (view s') (sb fs0) 50 = true.
Proof.
  destruct (balloc_first_free 0 fs0) as (x & s' & E & _ & Hx & Hu & Hf & Hz & Hb & _).
  - exact pre0.
  - exact bitmap0.
  - intros b Hb. rewrite bblock0 by exact Hb. rewrite in_use0 by lia. reflexivity.
  - exists 50. split; [split; [lia|vm_compute; reflexivity]|]. rewrite in_use0 by lia. reflexivity.
  - change (sb_size (sb fs0)) with 100 in *. assert (x = 50) as ->.
    { rewrite in_use0 in Hu by done. apply bool_decide_eq_false in Hu. destruct (decide (x = 50)) as [|Hne]; [done|].
      pose proof (Hf 50 ltac:(lia)) as H50. rewrite in_use0 in H50 by lia. discriminate. }
    exists s'. split; [exact E|]. split; [exact Hz|]. rewrite (Hb 50) by lia. reflexivity.
Defined.

Lemma bfree_returns_block_witness : ∃ s', bfree ROOTDEV 62 fs0 = Ret tt s' ∧ in_use (view s') (sb fs0) 62 = false.
Proof.
  pose proof (bfree_returns_block 0 62 fs0) as H. rewrite in_use0 in H by lia. destruct H as (s' & E & _ & Hu & _).
  - exact trans0.
  - exact bitmap0.
  - split; [lia|vm_compute; reflexivity].
  - rewrite bblock0 by lia. split; [lia|]. split; [unfold in_log; vm_compute; intros [_ H]; discriminate|vm_compute; reflexivity].
  - exists s'. split; [exact E|]. rewrite (Hu 62) by (split; [lia|vm_compute; reflexivity]). reflexivity.
Defined.

Lemma fil_ok : dinode_ok (to_disk fil).
Proof. split; cbn; unfold T_FILE; [rewrite !Forall_cons; split_and!; lia || by apply Forall_nil_2|lia|]. split; [reflexivity|rewrite !Forall_cons; split_and!; lia || by apply Forall_nil_2]. Qed.

Lemma iupdate_ilock_roundtrip_witness :
  ∃ s', iupdate 1 fs0 = Ret tt s' ∧
    let t := set_itab (<[1%nat := set_i_valid false (set_i_locked false fil)]> (itab s')) s' in
    ∃ t', ilock 1 t = Ret tt t' ∧ to_disk (inode_at 1 t') = to_disk fil.
Proof.
  destruct (iupdate_ilock_roundtrip 0 1 fs0) as (s' & E & HT & Hit & Hsb & _ & Hl).
  - exact trans0.
  - reflexivity.
  - exact fil_ok.
  - discriminate.
  - split; [vm_compute; split; [discriminate|reflexivity]|]. split; [unfold in_log; vm_compute; intros [_ H]; discriminate|vm_compute; reflexivity].
  - exists s'. split; [exact E|]. intros t. pose proof (logged_len _ (tr_log _ _ _ HT)) as L1. pose proof (lo_n _ (tr_log _ _ _ HT)) as L2.
    assert (cinv 0 (logged (lg s')) [] t) as HC by (apply cinv_set_itab, HT).
    destruct (Hl 0%nat (logged (lg s')) 1%nat t) as (t' & Et & Hd & _).
    + exact HC.
    + exact Hsb.
    + reflexivity.
    + lia.
    + intros Hn. apply (clean_view _ _ _ _ HC); [exact Hn|apply nothing].
    + unfold t. cbn [itab set_itab]. rewrite length_insert, Hit. vm_compute. lia.
    + unfold t, inode_at. cbn [itab set_itab]. rewrite Hit. reflexivity.
    + unfold t, inode_at. cbn [itab set_itab]. rewrite Hit. reflexivity.
    + unfold t, inode_at. cbn [itab set_itab]. rewrite Hit. vm_compute. discriminate.
    + unfold t, inode_at. cbn [itab set_itab]. rewrite Hit. reflexivity.
    + unfold t, inode_at. cbn [itab set_itab]. rewrite Hit. reflexivity.
    + exists t'. split; [exact Et|exact Hd].
Defined.

(** "//usr/a" *)
Lemma skipelem_elements_witness : walks [47; 47; 117; 115; 114; 47; 97] (replicate 14 0) [[117; 115; 114]; [97]].
Proof. apply skipelem_elements; [repeat constructor; discriminate|reflexivity|reflexivity]. Defined.

Lemma itable0 : itable_ok fs0.
Proof.
  assert (∀ i, (i < 50)%nat → inode_at i fs0 = dir ∧ i = 0%nat ∨ inode_at i fs0 = fil ∧ i = 1%nat ∨ inode_at i fs0 = stale ∧ i = 2%nat ∨ inode_at i fs0 = inode0) as Hat.
  { intros i Hi. destruct i as [|[|[|i]]]; [by left|by right; left|by right; right; left|]. do 3 right. change (default inode0 (replicate 47 inode0 !! i) = inode0).
    by rewrite lookup_replicate_2 by lia. }
  split; [reflexivity|..].
  - intros i Hi. destruct (Hat i Hi) as [[-> _]|[[-> _]|[[-> _]| ->]]]; cbn; lia.
  - intros i j dev inum Hi Hj. destruct (Hat i Hi) as [[-> ->]|[[-> ->]|[[-> ->]| ->]]], (Hat j Hj) as [[-> ->]|[[-> ->]|[[-> ->]| ->]]]; try done;
      unfold caches; cbn [i_ref i_dev i_inum dir fil stale inode0]; rewrite !andb_true_iff, !Z.eqb_eq; intros [[? ?] ?] [[? ?] ?]; lia || done.
Qed.

Lemma iget_one_slot_witness : ∃ i s', iget ROOTDEV 7 fs0 = Ret i s' ∧ i_ref (inode_at i s') = i_ref (inode_at i fs0) + 1.
Proof.
  destruct (iget_one_slot ROOTDEV 7 fs0) as (i & s' & E & _ & _ & _ & _ & Hr & _).
  - exact itable0.
  - vm_compute. reflexivity.
  - exists 1%nat. split; [lia|]. left. reflexivity.
  - intros i Hi. pose proof (it_ref _ itable0 i Hi) as H. revert Hi. do 3 (destruct i as [|i]; [vm_compute; reflexivity|]). intros Hi.
    change (i_ref (default inode0 (replicate 47 inode0 !! i)) < 2 ^ 31 - 2). rewrite lookup_replicate_2 by lia. vm_compute. reflexivity.
  - exists i, s'. split; [exact E|exact Hr].
Defined.

Lemma dir_file : file_ok fs0 0.
Proof.
  split; [reflexivity|split; [vm_compute; discriminate|vm_compute; discriminate]|intros H; vm_compute in H; discriminate|].
  intros bn H1 H2. change (i_size (inode_at 0 fs0)) with 32 in H2. change BSIZE with 1024 in H2. assert (bn = 0) as -> by lia. vm_compute. discriminate.
Qed.

Lemma dirlookup_first_entry_witness : ∃ ip s', dirlookup 0 [97; 98] fs0 = Ret (Some (ip, 16)) s'.
Proof.
  destruct (dirlookup_first_entry 0 [] fs0 0 [97; 98]) as (r & s' & E & _ & Hr).
  - exact cinv0.
  - simpl. lia.
  - exact dir_file.
  - reflexivity.
  - reflexivity.
  - exact itable0.
  - exists 3%nat. split; [lia|reflexivity].
  - change (dir_len fs0 0) with 2 in Hr. assert (names (dirent_at fs0 0 1) [97; 98]) as H1 by (split; vm_compute; [discriminate|reflexivity]).
    assert (¬ names (dirent_at fs0 0 0) [97; 98]) as H0 by (intros [_ H]; vm_compute in H; discriminate).
    destruct r as [[ip off]|]; [|destruct (Hr 1); [lia|exact H1]]. destruct Hr as (k & -> & Hk & Hn & _ & _).
    assert (k = 1) as ->. { destruct (decide (k = 0)) as [->|]; [destruct (H0 Hn)|lia]. }
    exists ip, s'. exact E.
Defined.

Lemma fil_place k : slot k → place fs0 1 k = if decide (k = 0) then 61 else if decide (k = 1) then 62 else 0.
Proof.
  intros Hk. assert (forallb (λ k, bool_decide (place fs0 1 k = if decide (k = 0) then 61 else if decide (k = 1) then 62 else 0)) (seqZ (-1) 269) = true) as H
    by (vm_compute; reflexivity).
  rewrite forallb_forall in H. specialize (H k). rewrite bool_decide_eq_true in H. apply H, list_elem_of_In, elem_of_seqZ.
  unfold slot in Hk. change MAXFILE with 268 in Hk. lia.
Qed.
Lemma fil_data x : 50 ≤ x < 100 → data_block fs0 1 x.
Proof.
  intros Hx. unfold data_block. change (sb_size (sb fs0)) with 100. change (log_start (lg fs0)) with 2. change (iblock fs0 1) with 32. unfold in_log.
  split; [lia|]. split; [lia|]. split; [lia|]. intros (b & Hb & E). rewrite bblock0 in E by exact Hb. lia.
Qed.
Lemma fil_layout : layout_ok fs0 1.
Proof.
  split.
  - split; [exact bitmap0|vm_compute; intuition discriminate|..].
    + intros x (b & Hb & ->). rewrite bblock0 by exact Hb. change (log_start (lg fs0)) with 2. change (iblock fs0 1) with 32. unfold in_log. lia.
    + change (log_start (lg fs0)) with 2. change (iblock fs0 1) with 32. unfold in_log. lia.
    + intros x Hx Hu. change (sb_size (sb fs0)) with 100 in Hx. rewrite in_use0 in Hu by done. apply bool_decide_eq_false in Hu. apply fil_data. lia.
  - vm_compute. lia.
  - reflexivity.
  - vm_compute. intuition discriminate.
  - exact fil_ok.
  - intros b [Hb0 Hb]. change (i_size (inode_at 1 fs0)) with 1100 in Hb. change BSIZE with 1024 in Hb.
    rewrite fil_place by (unfold slot; change MAXFILE with 268; lia). assert (b = 0 ∨ b = 1) as [-> | ->] by lia; discriminate.
  - intros k Hs. rewrite fil_place by done. intros Hne. destruct (decide (k = 0)); [|destruct (decide (k = 1)); [|done]];
      (split; [apply fil_data; lia|rewrite in_use0 by lia; reflexivity]).
  - intros k k' Hs Hs' Hne. rewrite fil_place in Hne |- * by done. rewrite fil_place by done.
    destruct (decide (k = 0)), (decide (k = 1)), (decide (k' = 0)), (decide (k' = 1)); lia.
Qed.

(** 1000 bytes at 1050 of a file of 1100: it grows to 2050 bytes, into a third block *)
Lemma writei_readi_roundtrip_witness :
  ∃ s', writei 1 (FromKernel (replicate 1000 9)) 1050 1000 fs0 = Ret 1000 s' ∧ i_size (inode_at 1 s') = 2050 ∧
    ∃ s'', readi 1 ToKernel 1020 2000 s' = Ret (1030, replicate 4 5 ++ replicate 26 0 ++ replicate 1000 9) s''.
Proof.
  destruct (writei_readi_roundtrip 0 1 fs0 1050 (replicate 1000 9) 1020 2000) as (s' & E & _ & Hs & Hc & s'' & E2).
  - exact trans0.
  - exact fil_layout.
  - split; [lia|vm_compute; discriminate].
  - vm_compute. discriminate.
  - vm_compute. reflexivity.
  - vm_compute. discriminate.
  - split; [lia|vm_compute; discriminate].
  - lia.
  - exists s'. split; [exact E|]. split; [exact Hs|]. exists s''. rewrite E2, Hc. f_equal; vm_compute; reflexivity.
Defined.
End Fs0.
