(* ===== verification/Mkfs.v ===== *)
(** mkfs/mkfs.c: the program that builds the file system image on the host.

    The image is a map of its blocks; the host's open(), lseek() and write() of the
    image are taken to succeed, and a read() behind the end of the image is die().
    xshort() and xint() put numbers into the byte order of the target, so a field
    is the little-endian bytes the kernel reads. *)

From S2P Require Import Prelude Mem Layout Kalloc Vm State Sched Bio Log Console Fs.

Definition NINODES : Z := 200.

Definition nbitmap : Z := FSSIZE / (BSIZE * 8) + 1.
Definition ninodeblocks : Z := NINODES / IPB + 1.
Definition nlog : Z := LOGSIZE.
Definition nmeta : Z := 2 + nlog + ninodeblocks + nbitmap.
Definition nblocks : Z := FSSIZE - nmeta.
Definition msb : superblock := mkSb FSMAGIC FSSIZE nblocks NINODES nlog 2 (2 + nlog) (2 + nlog + ninodeblocks).

Record image := mkImage { img : gmap Z (list Z); freeinode : Z; freeblock : Z }.
Definition set_img (v : gmap Z (list Z)) (s : image) : image := mkImage v (freeinode s) (freeblock s).

(** the bytes of a number in the order of the target *)
Definition xshort (x : Z) : list Z := [u8 x; u8 (Z.shiftr x 8)].
Definition xint (x : Z) : list Z := [u8 x; u8 (Z.shiftr x 8); u8 (Z.shiftr x 16); u8 (Z.shiftr x 24)].

Definition wsect (sec : Z) (buf : list Z) : M image unit := modify (λ s, set_img (<[sec := buf]> (img s)) s).
Definition rsect (sec : Z) : M image (list Z) := λ s, match img s !! sec with Some d => Ret d s | None => Panic "read" s end.

Definition winode (inum : Z) (ip : dinode) : M image unit :=
  let bn := IBLOCK inum msb in
  let! buf := rsect bn in
  wsect bn (put_dinode (dinode_off inum) ip buf).
Definition rinode (inum : Z) : M image dinode :=
  let bn := IBLOCK inum msb in
  let! buf := rsect bn in
  ret (get_dinode (dinode_off inum) buf).

Definition mk_ialloc (type : Z) : M image Z :=
  let! inum := gets freeinode in
  do! modify (λ s, mkImage (img s) (u32 (inum + 1)) (freeblock s)) in
  do! winode inum (mkDinode type 0 0 1 0 (replicate 13 0)) in
  ret inum.

(** buf[i/8] = buf[i/8] | (0x1 << (i%8)); *)
Definition set_bit (buf : list Z) (i : Z) : list Z := put_bit_byte i (Z.lor (bit_byte i buf) (bit_mask i)) buf.
Definition mk_balloc (used : Z) : M image unit :=
  if negb (used <? BSIZE * 8) then panic "assert" else
  wsect (sb_bmapstart msb) (foldl set_bit zero_block (seqZ 0 used)).

(** freeblock++ *)
Definition take_block : M image Z :=
  let! b := gets freeblock in
  do! modify (λ s, mkImage (img s) (freeinode s) (u32 (b + 1))) in
  ret b.

Definition daddr (k : Z) (d : dinode) : Z := default 0 (d_addrs d !! Z.to_nat k).
Definition set_daddr (k v : Z) (d : dinode) : dinode := mkDinode (d_type d) (d_major d) (d_minor d) (d_nlink d) (d_size d) (<[Z.to_nat k := v]> (d_addrs d)).
Definition set_dsize (v : Z) (d : dinode) : dinode := mkDinode (d_type d) (d_major d) (d_minor d) (d_nlink d) v (d_addrs d).

(** if(xint(din.addrs[k]) == 0) din.addrs[k] = xint(freeblock++); *)
Definition need_addr (k : Z) (d : dinode) : M image dinode :=
  if daddr k d =? 0 then let! b := take_block in ret (set_daddr k b d) else ret d.

(** the block [x] of the file's block [fbn] *)
Definition file_block (fbn : Z) (din : dinode) : M image (dinode * Z) :=
  if fbn <? NDIRECT then
    let! din := need_addr fbn din in
    ret (din, daddr fbn din)
  else
    let! din := need_addr NDIRECT din in
    let! ind := rsect (daddr NDIRECT din) in
    let k := Z.to_nat (4 * (fbn - NDIRECT)) in
    let! ind := (if get_u32 k ind =? 0 then
                   let! b := take_block in
                   do! wsect (daddr NDIRECT din) (put_u32 k b ind) in
                   ret (put_u32 k b ind)
                 else ret ind) in
    ret (din, get_u32 k ind).

Definition iappend_step (st : list Z * Z * dinode) : M image ((list Z * Z * dinode) + (Z * dinode)) :=
  let '(data, off, din) := st in
  if (length data <=? 0)%nat then ret (inr (off, din)) else
  let fbn := off / BSIZE in
  if negb (fbn <? MAXFILE) then panic "assert" else
  let! '(din, x) := file_block fbn din in
  let n1 := Z.min (Z.of_nat (length data)) ((fbn + 1) * BSIZE - off) in
  let! buf := rsect x in
  do! wsect x (splice (Z.to_nat (off - fbn * BSIZE)) (take (Z.to_nat n1) data) buf) in
  ret (inl (drop (Z.to_nat n1) data, off + n1, din)).
Definition iappend (inum : Z) (data : list Z) : M image unit :=
  let! din := rinode inum in
  let! '(off, din) := loop iappend_step (data, d_size din, din) in
  winode inum (set_dsize off din).

(** the part of main() before the files *)
Definition format : M image unit :=
  do! for_each (seqZ 0 FSSIZE) (λ i, wsect i zero_block) in
  wsect 1 (put_u32s 0 [sb_magic msb; sb_size msb; sb_nblocks msb; sb_ninodes msb; sb_nlog msb; sb_logstart msb; sb_inodestart msb; sb_bmapstart msb] zero_block).

(** without user/ and a leading underscore *)
Definition shortname (arg : list Z) : list Z :=
  if bool_decide (take 5 arg = bytes_of "user/") then drop 5 arg else arg.
Definition stripname (n : list Z) : list Z := match n with c :: l => if c =? 95 then l else n | [] => [] end.

(** a file of the command line: its name and the pieces read() delivers *)
Definition add_file (rootino : Z) (f : list Z * list (list Z)) : M image unit :=
  let n := shortname f.1 in
  if bool_decide (47 ∈ n) then panic "assert" else
  let! inum := mk_ialloc T_FILE in
  do! iappend rootino (mk_dirent inum (stripname n)) in
  for_each f.2 (iappend inum).

Definition mkfs_main (files : list (list Z * list (list Z))) : M image unit :=
  do! modify (λ s, mkImage (img s) (freeinode s) nmeta) in
  do! format in
  let! rootino := mk_ialloc T_DIR in
  if negb (rootino =? ROOTINO) then panic "assert" else
  do! iappend rootino (mk_dirent rootino (bytes_of ".")) in
  do! iappend rootino (mk_dirent rootino (bytes_of "..")) in
  do! for_each files (add_file rootino) in
  let! din := rinode rootino in
  do! winode rootino (set_dsize ((d_size din / BSIZE + 1) * BSIZE) din) in
  let! used := gets freeblock in
  mk_balloc used.
