(* ===== verification/MkfsSpec.v ===== *)
(** The image mkfs builds is one the kernel can read: the blocks of each file are
    those its inode names, no block belongs to two files, and the bitmap marks
    exactly the blocks in use. *)

From S2P Require Import Prelude Mem Layout Kalloc Vm State Sched Bio Log LogDisk Console Fs FsOps FsNames FsAlloc Mkfs.

Lemma xint_le x : xint x = le_bytes 4 x.
Proof. unfold xint, u8. cbn [le_bytes]. rewrite !Z.shiftr_div_pow2 by lia. rewrite !Z.div_div by lia. done. Qed.
Lemma xshort_le x : xshort x = le_bytes 2 x.
Proof. unfold xshort, u8. cbn [le_bytes]. rewrite !Z.shiftr_div_pow2 by lia. done. Qed.

Ltac consts :=
  assert (BSIZE = 1024 ∧ NDIRECT = 12 ∧ MAXFILE = 268 ∧ FSSIZE = 2000 ∧ nmeta = 46) as (HBSIZE & HNDIRECT & HMAXFILE & HFSSIZE & Hnmeta) by done.

(** * The files of an image *)

Definition iblk (m : gmap Z (list Z)) (b : Z) : list Z := default zero_block (m !! b).
(** the block of the file's block [bn], as bmap() of the kernel finds it; 0 if there is none *)
Definition mbaddr (m : gmap Z (list Z)) (d : dinode) (bn : Z) : Z :=
  if bn <? NDIRECT then daddr bn d else if daddr NDIRECT d =? 0 then 0 else ind_at (bn - NDIRECT) (iblk m (daddr NDIRECT d)).
Definition mbyte (m : gmap Z (list Z)) (d : dinode) (off : Z) : Z :=
  default 0 (iblk m (mbaddr m d (off / BSIZE)) !! Z.to_nat (off mod BSIZE)).
Definition mbytes (m : gmap Z (list Z)) (d : dinode) (n : Z) : list Z := (λ j, mbyte m d j) <$> seqZ 0 n.

(** all blocks are there, and those from [fb] on are zero *)
Record disk_ok (m : gmap Z (list Z)) (fb : Z) : Prop := {
  dk_blocks b : 0 ≤ b < FSSIZE → ∃ d, m !! b = Some d ∧ length d = 1024%nat;
  dk_zero b : fb ≤ b < FSSIZE → m !! b = Some zero_block;
  dk_fb : nmeta ≤ fb ≤ FSSIZE;
}.

(** the inode has [nb] blocks, all different and below [fb] *)
Record inode_inv (m : gmap Z (list Z)) (fb : Z) (d : dinode) (nb : Z) : Prop := {
  iv_nb : 0 ≤ nb ≤ MAXFILE;
  iv_ok : dinode_ok d;
  iv_in bn : 0 ≤ bn < nb → nmeta ≤ mbaddr m d bn < fb;
  iv_out bn : nb ≤ bn < MAXFILE → mbaddr m d bn = 0;
  iv_ind : if decide (NDIRECT < nb) then nmeta ≤ daddr NDIRECT d < fb else daddr NDIRECT d = 0;
  iv_inj bn bn' : 0 ≤ bn < nb → 0 ≤ bn' < nb → mbaddr m d bn = mbaddr m d bn' → bn = bn';
  iv_indne bn : 0 ≤ bn < nb → mbaddr m d bn ≠ daddr NDIRECT d;
}.

(** one more block *)
Lemma inv_extend m fb d nb m' fb' d' v : inode_inv m fb d nb → nb < MAXFILE → nmeta ≤ fb → dinode_ok d' →
  (∀ bn, 0 ≤ bn < MAXFILE → mbaddr m' d' bn = if decide (bn = nb) then v else mbaddr m d bn) → fb ≤ v < fb' →
  (if decide (nb = NDIRECT) then fb ≤ daddr NDIRECT d' < fb' ∧ daddr NDIRECT d' ≠ v else daddr NDIRECT d' = daddr NDIRECT d) →
  inode_inv m' fb' d' (nb + 1).
Proof.
  intros H Hnb Hfb Hok Hb Hv Hi. consts. pose proof (iv_nb _ _ _ _ H) as H0. pose proof (iv_ind _ _ _ _ H) as Hind.
  assert (∀ bn, 0 ≤ bn < nb → mbaddr m' d' bn = mbaddr m d bn ∧ nmeta ≤ mbaddr m d bn < fb) as Hold.
  { intros bn Hbn. rewrite Hb by lia. rewrite decide_False by lia. split; [done|by apply (iv_in _ _ _ _ H)]. }
  assert (mbaddr m' d' nb = v) as Hnew by (rewrite Hb by lia; by rewrite decide_True).
  split.
  - lia.
  - done.
  - intros bn Hbn. destruct (decide (bn = nb)) as [->|]; [rewrite Hnew; lia|]. destruct (Hold bn ltac:(lia)) as [-> ?]. lia.
  - intros bn Hbn. rewrite Hb by lia. rewrite decide_False by lia. apply (iv_out _ _ _ _ H). lia.
  - destruct (decide (nb = NDIRECT)) as [->|Hne]; [rewrite decide_True by lia; lia|]. rewrite Hi. destruct (decide (NDIRECT < nb)); [rewrite decide_True by lia; lia|rewrite decide_False by lia; done].
  - intros bn bn' Hbn Hbn' E. destruct (decide (bn = nb)) as [->|H1], (decide (bn' = nb)) as [->|H2]; [done| | |].
    + destruct (Hold bn' ltac:(lia)) as [E' ?]. rewrite Hnew, E' in E. lia.
    + destruct (Hold bn ltac:(lia)) as [E' ?]. rewrite Hnew, E' in E. lia.
    + destruct (Hold bn ltac:(lia)) as [E1 _], (Hold bn' ltac:(lia)) as [E2 _]. rewrite E1, E2 in E. apply (iv_inj _ _ _ _ H); [lia|lia|done].
  - intros bn Hbn. destruct (decide (nb = NDIRECT)) as [->|Hne].
    + destruct (decide (bn = NDIRECT)) as [->|]; [rewrite Hnew; lia|]. destruct (Hold bn ltac:(lia)) as [-> ?]. lia.
    + rewrite Hi. destruct (decide (bn = nb)) as [->|]; [rewrite Hnew; destruct (decide (NDIRECT < nb)); lia|]. destruct (Hold bn ltac:(lia)) as [-> ?]. apply (iv_indne _ _ _ _ H). lia.
Qed.

Lemma daddr_set k k' v d : length (d_addrs d) = 13%nat → 0 ≤ k < 13 → 0 ≤ k' < 13 → daddr k' (set_daddr k v d) = if decide (k' = k) then v else daddr k' d.
Proof.
  intros Hl Hk Hk'. unfold daddr, set_daddr. cbn [d_addrs]. case_decide as E; [subst k'; by rewrite list_lookup_insert_eq by lia|]. by rewrite list_lookup_insert_ne by lia.
Qed.
Lemma dinode_ok_set k v d : dinode_ok d → 0 ≤ v < 2 ^ 32 → dinode_ok (set_daddr k v d).
Proof. intros [H1 H2 [H3 H4]] Hv. split; [done|done|]. cbn. rewrite length_insert. split; [done|]. by apply Forall_insert. Qed.

Lemma wp_rsect s sec d (Q : list Z → image → Prop) E : img s !! sec = Some d → Q d s → wp (rsect sec) Q E s.
Proof. intros H HQ. unfold wp, rsect. by rewrite H. Qed.
Lemma wp_take_block s (Q : Z → image → Prop) E : 0 ≤ freeblock s < 2 ^ 31 → Q (freeblock s) (mkImage (img s) (freeinode s) (freeblock s + 1)) → wp take_block Q E s.
Proof. intros H HQ. unfold take_block. apply wp_bind, wp_gets, wp_bind, wp_modify, wp_ret. by rewrite u32_small by lia. Qed.

(** the blocks taken for the file's block [fbn] *)
Definition cost (nb fbn : Z) : Z := if decide (fbn < nb) then 0 else if decide (fbn = NDIRECT) then 2 else 1.
Definition same_head (d d' : dinode) : Prop := d_type d' = d_type d ∧ d_major d' = d_major d ∧ d_minor d' = d_minor d ∧ d_nlink d' = d_nlink d ∧ d_size d' = d_size d.

Record got_block (s : image) (d : dinode) (nb fbn : Z) (d' : dinode) (x : Z) (s' : image) : Prop := {
  gb_inode : freeinode s' = freeinode s;
  gb_free : freeblock s' = freeblock s + cost nb fbn;
  gb_disk : disk_ok (img s') (freeblock s');
  gb_inv : inode_inv (img s') (freeblock s') d' (Z.max nb (fbn + 1));
  gb_x : x = mbaddr (img s') d' fbn;
  gb_head : same_head d d';
  gb_old bn : 0 ≤ bn < nb → mbaddr (img s') d' bn = mbaddr (img s) d bn;
  gb_ind : NDIRECT < nb → daddr NDIRECT d' = daddr NDIRECT d;
  gb_new : nb ≤ fbn → freeblock s ≤ x;
  gb_newind : nb ≤ NDIRECT ≤ fbn → freeblock s ≤ daddr NDIRECT d';
  gb_rest b : b ≠ daddr NDIRECT d' ∨ fbn < NDIRECT → img s' !! b = img s !! b;
}.

Lemma disk_more m fb fb' : disk_ok m fb → fb ≤ fb' ≤ FSSIZE → disk_ok m fb'.
Proof. intros [H1 H2 H3] Hf. split; [done|intros b Hb; apply H2; lia|lia]. Qed.
Lemma disk_put m fb b d : disk_ok m fb → 0 ≤ b < fb → length d = 1024%nat → disk_ok (<[b := d]> m) fb.
Proof.
  intros [H1 H2 H3] Hb Hd. split; [|intros b' Hb'; rewrite lookup_insert_ne by lia; by apply H2|done].
  intros b' Hb'. destruct (decide (b' = b)) as [->|]; [exists d; by rewrite lookup_insert_eq|]. rewrite lookup_insert_ne by done. by apply H1.
Qed.

(** a block the file already has *)
Lemma got_old s d nb fbn : disk_ok (img s) (freeblock s) → inode_inv (img s) (freeblock s) d nb → 0 ≤ fbn < nb → got_block s d nb fbn d (mbaddr (img s) d fbn) s.
Proof.
  intros HD HI Hf. split; try done.
  - unfold cost. rewrite decide_True by lia. lia.
  - by replace (Z.max nb (fbn + 1)) with nb by lia.
  - lia.
  - lia.
Qed.

Section FileBlock.
Context (s : image) (d : dinode) (nb fbn : Z) (HD : disk_ok (img s) (freeblock s)) (HI : inode_inv (img s) (freeblock s) d nb).
Context (Hfbn : 0 ≤ fbn < MAXFILE) (Hnb : nb ≤ fbn + 1) (Hfnb : fbn ≤ nb) (Hroom : freeblock s + cost nb fbn ≤ FSSIZE).

Lemma wp_direct : fbn < NDIRECT → wp (file_block fbn d) (λ r s', got_block s d nb fbn r.1 r.2 s') nopanic s.
Proof.
  intros Hlt. consts. unfold file_block, need_addr. apply wp_if_t; [lia|]. pose proof (dk_fb _ _ HD) as Hfb. pose proof (iv_ok _ _ _ _ HI) as Hok. pose proof (di_addrs _ Hok) as [Hl _].
  assert (mbaddr (img s) d fbn = daddr fbn d) as Ea by (unfold mbaddr; by rewrite (proj2 (Z.ltb_lt _ _)) by lia).
  destruct (decide (fbn < nb)) as [Hin|Hout].
  - pose proof (iv_in _ _ _ _ HI fbn ltac:(lia)) as Hr. rewrite Ea in Hr. apply wp_bind, wp_if_f; [lia|]. apply wp_ret, wp_ret. cbn. rewrite <- Ea. apply got_old; [done|done|lia].
  - assert (fbn = nb) as -> by lia. pose proof (iv_out _ _ _ _ HI nb ltac:(lia)) as Hr. rewrite Ea in Hr. unfold cost in Hroom. rewrite decide_False, decide_False in Hroom by lia.
    apply wp_bind, wp_if_t; [lia|]. apply wp_bind, wp_take_block; [lia|]. apply wp_ret, wp_ret. cbn [fst snd]. set (b := freeblock s) in *.
    assert (∀ k, 0 ≤ k < 13 → daddr k (set_daddr nb b d) = if decide (k = nb) then b else daddr k d) as Hset by (intros k Hk; apply daddr_set; lia).
    assert (∀ bn, 0 ≤ bn < MAXFILE → mbaddr (img s) (set_daddr nb b d) bn = if decide (bn = nb) then b else mbaddr (img s) d bn) as Hmb.
    { intros bn Hbn. unfold mbaddr. destruct (Z.ltb_spec bn NDIRECT); [by rewrite Hset by lia|]. rewrite (Hset NDIRECT), (decide_False (P := NDIRECT = nb)), decide_False by lia. done. }
    split; cbn [img freeinode freeblock].
    + done.
    + unfold cost. rewrite decide_False, decide_False by lia. done.
    + apply (disk_more _ b); [done|lia].
    + replace (Z.max nb (nb + 1)) with (nb + 1) by lia. apply (inv_extend (img s) b d nb _ _ _ b HI); [lia|lia|apply dinode_ok_set; [done|lia]|done|lia|].
      rewrite decide_False by lia. rewrite Hset by lia. by rewrite decide_False by lia.
    + rewrite Hmb by lia. rewrite Hset by lia. by rewrite !decide_True.
    + done.
    + intros bn Hbn. rewrite Hmb by lia. by rewrite decide_False by lia.
    + intros Hn. lia.
    + intros _. rewrite Hset by lia. by rewrite decide_True.
    + lia.
    + done.
Qed.

Lemma wp_indirect : NDIRECT ≤ fbn → wp (file_block fbn d) (λ r s', got_block s d nb fbn r.1 r.2 s') nopanic s.
Proof.
  intros Hge. consts. unfold file_block, need_addr. apply wp_if_f; [lia|]. pose proof (dk_fb _ _ HD) as Hfb. pose proof (iv_ok _ _ _ _ HI) as Hok. pose proof (di_addrs _ Hok) as [Hl _].
  pose proof (iv_ind _ _ _ _ HI) as Hind. set (b := freeblock s) in *. change (Z.to_nat (4 * (fbn - NDIRECT))) with (Z.to_nat (4 * (fbn - NDIRECT))).
  destruct (decide (NDIRECT < nb)) as [Hold|Hnew].
  - apply wp_bind, wp_if_f; [lia|]. apply wp_ret. set (a := daddr NDIRECT d) in *. destruct (dk_blocks _ _ HD a ltac:(lia)) as (ind & Ea & Hli). eapply wp_bind, wp_rsect; [exact Ea|].
    assert (mbaddr (img s) d fbn = get_u32 (Z.to_nat (4 * (fbn - NDIRECT))) ind) as Em.
    { unfold mbaddr. rewrite (proj2 (Z.ltb_ge _ _)) by lia. fold a. rewrite (proj2 (Z.eqb_neq _ _)) by lia. unfold iblk. by rewrite Ea. }
    rewrite <- Em. destruct (decide (fbn < nb)) as [Hin|Hout].
    + pose proof (iv_in _ _ _ _ HI fbn ltac:(lia)). apply wp_bind, wp_if_f; [lia|]. apply wp_ret, wp_ret. cbn. rewrite <- Em. apply got_old; [done|done|lia].
    + assert (fbn = nb) as -> by lia. rewrite (iv_out _ _ _ _ HI nb ltac:(lia)). unfold cost in Hroom. rewrite decide_False, decide_False in Hroom by lia.
      apply wp_bind, wp_if_t; [done|]. apply wp_bind, wp_take_block; [lia|]. apply wp_bind, wp_modify, wp_ret, wp_ret. cbn [fst snd]. fold a b. set (ind' := put_u32 (Z.to_nat (4 * (nb - NDIRECT))) b ind).
      assert (length ind' = 1024%nat) as Hli' by (unfold ind'; rewrite length_put_u32; lia).
      assert (∀ bn, 0 ≤ bn < MAXFILE → mbaddr (<[a := ind']> (img s)) d bn = if decide (bn = nb) then b else mbaddr (img s) d bn) as Hmb.
      { intros bn Hbn. unfold mbaddr. fold a. rewrite (proj2 (Z.eqb_neq a 0)) by lia. destruct (Z.ltb_spec bn NDIRECT); [by rewrite decide_False by lia|]. unfold iblk. rewrite lookup_insert_eq, Ea. cbn [from_option id].
        unfold ind'. rewrite ind_put by lia. by case_decide; case_decide; try lia. }
      split; cbn [img freeinode freeblock set_img].
      * done.
      * unfold cost. rewrite decide_False, decide_False by lia. done.
      * apply (disk_more _ b); [apply disk_put; [done|lia|done]|lia].
      * replace (Z.max nb (nb + 1)) with (nb + 1) by lia. apply (inv_extend (img s) b d nb _ _ _ b HI); [lia|lia|done|done|lia|]. by rewrite decide_False by lia.
      * rewrite Hmb by lia. rewrite decide_True by done. unfold ind'. rewrite get_put_u32 by lia. apply Z.mod_small. lia.
      * done.
      * intros bn Hbn. rewrite Hmb by lia. by rewrite decide_False by lia.
      * done.
      * intros _. unfold ind'. rewrite get_put_u32 by lia. rewrite Z.mod_small by lia. done.
      * lia.
      * intros b' [Hb'|Hb']; [|lia]. rewrite lookup_insert_ne; [done|]. intros E. by apply Hb'.
  - assert (fbn = nb ∧ nb = NDIRECT) as [-> ->] by lia. unfold cost in Hroom. rewrite decide_False, decide_True in Hroom by lia.
    apply wp_bind, wp_if_t; [lia|]. apply wp_bind, wp_take_block; [lia|]. apply wp_ret. fold b. set (d' := set_daddr NDIRECT b d).
    assert (∀ k, 0 ≤ k < 13 → daddr k d' = if decide (k = NDIRECT) then b else daddr k d) as Hset by (intros k Hk; apply daddr_set; lia).
    assert (daddr NDIRECT d' = b) as -> by (rewrite Hset by lia; by rewrite decide_True).
    eapply wp_bind, wp_rsect; [cbn; apply (dk_zero _ _ HD); lia|]. change (get_u32 (Z.to_nat (4 * (NDIRECT - NDIRECT))) zero_block) with (ind_at (NDIRECT - NDIRECT) zero_block). rewrite ind_zero by lia.
    apply wp_bind, wp_if_t; [done|]. apply wp_bind, wp_take_block; [cbn; lia|]. apply wp_bind, wp_modify, wp_ret, wp_ret. cbn [fst snd freeblock img freeinode set_img]. set (ind' := put_u32 (Z.to_nat (4 * (NDIRECT - NDIRECT))) (b + 1) zero_block).
    assert (length ind' = 1024%nat) as Hli' by (unfold ind'; rewrite length_put_u32; cbn; lia).
    assert (daddr NDIRECT d' = b) as Hb' by (rewrite Hset by lia; by rewrite decide_True).
    assert (∀ bn, 0 ≤ bn < MAXFILE → mbaddr (<[b := ind']> (img s)) d' bn = if decide (bn = NDIRECT) then b + 1 else mbaddr (img s) d bn) as Hmb.
    { intros bn Hbn. unfold mbaddr. rewrite Hb', Hind. rewrite (proj2 (Z.eqb_neq b 0)) by lia. destruct (Z.ltb_spec bn NDIRECT).
      - rewrite Hset by lia. by rewrite !decide_False by lia.
      - unfold iblk. rewrite lookup_insert_eq. cbn [from_option id]. unfold ind'. rewrite ind_put by (done || lia). case_decide; case_decide; try lia. by rewrite ind_zero by lia. }
    split; cbn [img freeinode freeblock set_img].
    + done.
    + unfold cost. rewrite decide_False, decide_True by lia. lia.
    + apply (disk_more _ (b + 1)); [apply disk_put; [apply (disk_more _ b); [done|lia]|lia|done]|lia].
    + replace (Z.max NDIRECT (NDIRECT + 1)) with (NDIRECT + 1) by lia. apply (inv_extend (img s) b d NDIRECT _ _ _ (b + 1) HI); [lia|lia|apply dinode_ok_set; [done|lia]|done|lia|].
      rewrite decide_True by done. rewrite Hb'. lia.
    + rewrite Hmb by lia. rewrite decide_True by done. unfold ind'. rewrite get_put_u32 by (cbn; lia). apply Z.mod_small. lia.
    + done.
    + intros bn Hbn. rewrite Hmb by lia. by rewrite decide_False by lia.
    + lia.
    + intros _. unfold ind'. rewrite get_put_u32 by (cbn; lia). rewrite Z.mod_small by lia. lia.
    + intros _. rewrite Hb'. done.
    + intros b' [Hne|Hne]; [|lia]. rewrite Hb' in Hne. rewrite lookup_insert_ne; [done|]. intros E. by apply Hne.
Qed.

Lemma wp_file_block : wp (file_block fbn d) (λ r s', got_block s d nb fbn r.1 r.2 s') nopanic s.
Proof. destruct (decide (fbn < NDIRECT)); [by apply wp_direct|apply wp_indirect; lia]. Qed.
End FileBlock.

(** * Appending *)

(** the file starts with [c] *)
Definition has (m : gmap Z (list Z)) (d : dinode) (c : list Z) : Prop := ∀ j v, c !! j = Some v → mbyte m d (Z.of_nat j) = v.

Lemma put_keeps m fb d nb x v bn : inode_inv m fb d nb → 0 ≤ bn < nb → x = mbaddr m d bn → ∀ bn', mbaddr (<[x := v]> m) d bn' = mbaddr m d bn'.
Proof.
  intros HI Hbn -> bn'. unfold mbaddr at 1 3. destruct (bn' <? NDIRECT); [done|]. destruct (daddr NDIRECT d =? 0); [done|]. unfold iblk. rewrite lookup_insert_ne; [done|]. by apply (iv_indne _ _ _ _ HI).
Qed.
Lemma inv_ext m m' fb d nb : inode_inv m fb d nb → (∀ bn, 0 ≤ bn < MAXFILE → mbaddr m' d bn = mbaddr m d bn) → inode_inv m' fb d nb.
Proof.
  intros HI H. pose proof (iv_nb _ _ _ _ HI). destruct HI. split; try done; intros bn; intros; rewrite ?H by lia; try (by auto); try (by eauto). apply iv_inj0; [done|done|]. rewrite <- !H by lia. done.
Qed.

Lemma block_of j : 0 ≤ j → j = BSIZE * (j / BSIZE) + j mod BSIZE ∧ 0 ≤ j mod BSIZE < BSIZE.
Proof. intros Hj. consts. pose proof (Z.div_mod j BSIZE). pose proof (Z.mod_pos_bound j BSIZE). lia. Qed.

(** a piece written behind the contents, inside one block *)
Lemma write_piece m fb d nb fbn buf c l : disk_ok m fb → inode_inv m fb d nb → has m d c → 0 ≤ fbn < nb → Z.of_nat (length c) / BSIZE = fbn → m !! mbaddr m d fbn = Some buf →
  Z.of_nat (length c + length l) ≤ (fbn + 1) * BSIZE →
  let m' := <[mbaddr m d fbn := splice (Z.to_nat (Z.of_nat (length c) - fbn * BSIZE)) l buf]> m in
  disk_ok m' fb ∧ inode_inv m' fb d nb ∧ (∀ bn, mbaddr m' d bn = mbaddr m d bn) ∧ has m' d (c ++ l).
Proof.
  intros HD HI Hc Hfbn Hdiv Hbuf Hlen m'. consts. pose proof (iv_in _ _ _ _ HI fbn Hfbn) as Hx. pose proof (dk_fb _ _ HD). destruct (dk_blocks _ _ HD (mbaddr m d fbn) ltac:(lia)) as (buf' & E & Hlb).
  rewrite Hbuf in E. injection E as <-. pose proof (block_of (Z.of_nat (length c)) ltac:(lia)) as [Hoff Hmod]. rewrite Hdiv in Hoff. set (o := Z.to_nat (Z.of_nat (length c) - fbn * BSIZE)) in *.
  assert (o + length l ≤ length buf)%nat as Hfit by (unfold o; lia). assert (∀ bn, mbaddr m' d bn = mbaddr m d bn) as Hmb by by eapply put_keeps.
  split_and!; [apply disk_put; [done|lia|rewrite length_splice; done]|by apply (inv_ext m)|done|].
  intros j v Hj. pose proof (lookup_lt_Some _ _ _ Hj) as Hjl. rewrite length_app in Hjl. pose proof (block_of (Z.of_nat j) ltac:(lia)) as [Hjo Hjm]. unfold mbyte. rewrite Hmb.
  destruct (decide (Z.of_nat j / BSIZE = fbn)) as [Ej|Ej].
  - rewrite Ej in Hjo |- *. unfold iblk, m'. rewrite lookup_insert_eq. cbn [from_option id]. rewrite lookup_splice by lia. replace (Z.to_nat (Z.of_nat j mod BSIZE)) with (j - Z.to_nat (fbn * BSIZE))%nat by lia.
    destruct (decide (j < length c)%nat) as [Hjc|Hjc].
    + rewrite lookup_app_l in Hj by done. rewrite decide_False by (unfold o; lia). specialize (Hc j v Hj). unfold mbyte in Hc. rewrite Ej in Hc. unfold iblk in Hc. rewrite Hbuf in Hc. cbn [from_option id] in Hc.
      by replace (Z.to_nat (Z.of_nat j mod BSIZE)) with (j - Z.to_nat (fbn * BSIZE))%nat in Hc by lia.
    + rewrite lookup_app_r in Hj by lia. rewrite decide_True by (unfold o; lia). replace (j - Z.to_nat (fbn * BSIZE) - o)%nat with (j - length c)%nat by (unfold o; lia). by rewrite Hj.
  - assert (j < length c)%nat as Hjc by nia. rewrite lookup_app_l in Hj by done. specialize (Hc j v Hj). unfold mbyte, iblk in *. unfold m'. rewrite lookup_insert_ne; [done|].
    intros E. apply Ej. symmetry. apply (iv_inj _ _ _ _ HI); [done| |done]. nia.
Qed.

(** the block [b] belongs to the inode, which has [nb] blocks *)
Definition owns (m : gmap Z (list Z)) (d : dinode) (nb b : Z) : Prop := (∃ bn, 0 ≤ bn < nb ∧ mbaddr m d bn = b) ∨ (NDIRECT < nb ∧ daddr NDIRECT d = b).
(** the blocks of a file of [n] bytes *)
Definition blocks_of (n : Z) : Z := (n + (BSIZE - 1)) / BSIZE.
(** the blocks that take a file from [nb] to [nb'] blocks *)
Definition room (nb nb' : Z) : Z := nb' - nb + (if decide (nb ≤ NDIRECT ∧ NDIRECT < nb') then 1 else 0).

Lemma blocks_of_spec n : 0 ≤ n → (blocks_of n - 1) * BSIZE < n ≤ blocks_of n * BSIZE ∧ 0 ≤ blocks_of n.
Proof. intros Hn. unfold blocks_of. consts. pose proof (block_of (n + (BSIZE - 1)) ltac:(lia)) as [H1 H2]. pose proof (Z.div_pos (n + (BSIZE - 1)) BSIZE). lia. Qed.
Lemma blocks_of_unique n nb : (nb - 1) * BSIZE < n ≤ nb * BSIZE → 0 ≤ n → nb = blocks_of n.
Proof. intros H Hn. pose proof (blocks_of_spec n Hn). consts. nia. Qed.

(** the file [d] of [nb] blocks in [s] has grown from [d0] of [nb0] blocks in [s0]: it has
    the contents [c], keeps its blocks, and has taken only free ones *)
Record grown (s0 : image) (d0 : dinode) (nb0 : Z) (s : image) (d : dinode) (c : list Z) : Prop := {
  g_inode : freeinode s = freeinode s0;
  g_disk : disk_ok (img s) (freeblock s);
  g_inv : inode_inv (img s) (freeblock s) d (blocks_of (Z.of_nat (length c)));
  g_has : has (img s) d c;
  g_head : same_head d0 d;
  g_nb : nb0 ≤ blocks_of (Z.of_nat (length c));
  g_free : freeblock s = freeblock s0 + room nb0 (blocks_of (Z.of_nat (length c)));
  g_old bn : 0 ≤ bn < nb0 → mbaddr (img s) d bn = mbaddr (img s0) d0 bn;
  g_ind : NDIRECT < nb0 → daddr NDIRECT d = daddr NDIRECT d0;
  g_new bn : nb0 ≤ bn < blocks_of (Z.of_nat (length c)) → freeblock s0 ≤ mbaddr (img s) d bn;
  g_newind : nb0 ≤ NDIRECT → NDIRECT < blocks_of (Z.of_nat (length c)) → freeblock s0 ≤ daddr NDIRECT d;
  g_frame b : b < freeblock s0 → ¬ owns (img s0) d0 nb0 b → img s !! b = img s0 !! b;
}.

Lemma cost_room nb0 nb fbn : nb0 ≤ nb → fbn ≤ nb → nb ≤ fbn + 1 → room nb0 nb + cost nb fbn = room nb0 (Z.max nb (fbn + 1)).
Proof.
  intros H1 H2 H3. unfold room, cost. consts. destruct (decide (fbn < nb)); [replace (Z.max nb (fbn + 1)) with nb by lia; lia|]. assert (fbn = nb) as -> by lia.
  replace (Z.max nb (nb + 1)) with (nb + 1) by lia. repeat case_decide; lia.
Qed.
Lemma room_mono nb0 nb nb' : nb0 ≤ nb ≤ nb' → 0 ≤ room nb0 nb ≤ room nb0 nb'.
Proof. intros H. unfold room. repeat case_decide; lia. Qed.

(** the blocks after the piece [l] of one block is written *)
Lemma blocks_of_piece c l fbn : fbn = c / BSIZE → 0 ≤ c → 0 < l → c + l ≤ (fbn + 1) * BSIZE → blocks_of (c + l) = Z.max (blocks_of c) (fbn + 1) ∧ fbn ≤ blocks_of c ≤ fbn + 1.
Proof. intros -> Hc Hl Hle. pose proof (block_of c Hc) as [H1 H2]. pose proof (blocks_of_spec c Hc). pose proof (blocks_of_spec (c + l) ltac:(lia)). consts. split; [nia|nia]. Qed.

Lemma has_got s d nb fbn d' x s' c : inode_inv (img s) (freeblock s) d nb → got_block s d nb fbn d' x s' → Z.of_nat (length c) ≤ nb * BSIZE → has (img s) d c → has (img s') d' c.
Proof.
  intros HI HG Hlen Hc j v Hj. pose proof (lookup_lt_Some _ _ _ Hj). consts. pose proof (block_of (Z.of_nat j) ltac:(lia)). pose proof (Z.div_pos (Z.of_nat j) BSIZE). assert (0 ≤ Z.of_nat j / BSIZE < nb) as Hb by nia.
  rewrite <- (Hc j v Hj). unfold mbyte. rewrite (gb_old _ _ _ _ _ _ _ HG _ Hb). unfold iblk. rewrite (gb_rest _ _ _ _ _ _ _ HG); [done|]. left.
  rewrite <- (gb_old _ _ _ _ _ _ _ HG _ Hb). apply (iv_indne _ _ _ _ (gb_inv _ _ _ _ _ _ _ HG)). lia.
Qed.

Lemma grown_step s0 d0 nb0 s d c l fbn d' x s1 buf : 0 ≤ nb0 → grown s0 d0 nb0 s d c → fbn = Z.of_nat (length c) / BSIZE → l ≠ [] → Z.of_nat (length c + length l) ≤ (fbn + 1) * BSIZE →
  got_block s d (blocks_of (Z.of_nat (length c))) fbn d' x s1 → img s1 !! x = Some buf →
  grown s0 d0 nb0 (set_img (<[x := splice (Z.to_nat (Z.of_nat (length c) - fbn * BSIZE)) l buf]> (img s1)) s1) d' (c ++ l).
Proof.
  intros Hnb0 G Efbn Hl Hle B Hbuf. consts. assert (0 < Z.of_nat (length l)) as Hlp by (destruct l; [done|cbn; lia]).
  destruct (blocks_of_piece (Z.of_nat (length c)) (Z.of_nat (length l)) fbn Efbn ltac:(lia) Hlp ltac:(lia)) as [Enb Hnb]. set (nb := blocks_of (Z.of_nat (length c))) in *.
  pose proof (blocks_of_spec (Z.of_nat (length c)) ltac:(lia)) as [Hc Hnbp]. fold nb in Hc, Hnbp. assert (0 ≤ fbn) as Hf0 by (rewrite Efbn; apply Z.div_pos; lia).
  pose proof (g_nb _ _ _ _ _ _ G) as Hge. fold nb in Hge. pose proof (g_free _ _ _ _ _ _ G) as Hfree. fold nb in Hfree. pose proof (room_mono nb0 nb nb ltac:(lia)) as Hroom.
  pose proof (has_got _ _ _ _ _ _ _ c (g_inv _ _ _ _ _ _ G) B ltac:(fold nb; lia) (g_has _ _ _ _ _ _ G)) as Hhas. rewrite (gb_x _ _ _ _ _ _ _ B) in Hbuf |- *.
  pose proof (write_piece _ _ _ _ fbn buf c l (gb_disk _ _ _ _ _ _ _ B) (gb_inv _ _ _ _ _ _ _ B) Hhas ltac:(lia) (eq_sym Efbn) Hbuf Hle) as (W1 & W2 & W3 & W4).
  assert (blocks_of (Z.of_nat (length (c ++ l))) = Z.max nb (fbn + 1)) as El by (rewrite length_app, Nat2Z.inj_add; exact Enb).
  split; cbn [img freeinode freeblock set_img]; rewrite ?El.
  - rewrite (gb_inode _ _ _ _ _ _ _ B). apply G.
  - exact W1.
  - exact W2.
  - exact W4.
  - destruct (g_head _ _ _ _ _ _ G) as (?&?&?&?&?), (gb_head _ _ _ _ _ _ _ B) as (?&?&?&?&?). unfold same_head. split_and!; congruence.
  - lia.
  - rewrite (gb_free _ _ _ _ _ _ _ B), Hfree, <- cost_room by lia. lia.
  - intros bn Hbn. rewrite W3, (gb_old _ _ _ _ _ _ _ B) by lia. by apply (g_old _ _ _ _ _ _ G).
  - intros Hn. rewrite (gb_ind _ _ _ _ _ _ _ B) by lia. by apply (g_ind _ _ _ _ _ _ G).
  - intros bn Hbn. rewrite W3. destruct (decide (bn < nb)); [rewrite (gb_old _ _ _ _ _ _ _ B) by lia; apply (g_new _ _ _ _ _ _ G); fold nb; lia|].
    assert (bn = fbn) as -> by lia. rewrite <- (gb_x _ _ _ _ _ _ _ B). pose proof (gb_new _ _ _ _ _ _ _ B ltac:(lia)). lia.
  - intros Hn1 Hn2. destruct (decide (NDIRECT < nb)); [rewrite (gb_ind _ _ _ _ _ _ _ B) by lia; apply (g_newind _ _ _ _ _ _ G); fold nb; lia|].
    pose proof (gb_newind _ _ _ _ _ _ _ B ltac:(lia)). lia.
  - intros b Hb Ho. rewrite lookup_insert_ne.
    + rewrite (gb_rest _ _ _ _ _ _ _ B); [by apply (g_frame _ _ _ _ _ _ G)|]. destruct (decide (fbn < NDIRECT)) as [|Hfi]; [by right|left]. intros ->.
      destruct (decide (NDIRECT < nb0)); [apply Ho; right; split; [done|]; rewrite (gb_ind _ _ _ _ _ _ _ B) by lia; symmetry; by apply (g_ind _ _ _ _ _ _ G)|].
      destruct (decide (NDIRECT < nb)) as [Hn|Hn]; [|pose proof (gb_newind _ _ _ _ _ _ _ B ltac:(lia)); lia]. rewrite (gb_ind _ _ _ _ _ _ _ B) in Hb by lia. pose proof (g_newind _ _ _ _ _ _ G ltac:(lia) Hn). lia.
    + intros <-. destruct (decide (fbn < nb)) as [Hin|]; [|rewrite <- (gb_x _ _ _ _ _ _ _ B) in Hb; pose proof (gb_new _ _ _ _ _ _ _ B ltac:(lia)); lia].
      rewrite (gb_old _ _ _ _ _ _ _ B) in Hb, Ho by lia. destruct (decide (fbn < nb0)); [|pose proof (g_new _ _ _ _ _ _ G fbn ltac:(fold nb; lia)); lia].
      apply Ho. left. exists fbn. split; [lia|]. symmetry. apply (g_old _ _ _ _ _ _ G). lia.
Qed.

Lemma wp_append s0 d0 c0 data : let nb0 := blocks_of (Z.of_nat (length c0)) in let nb := blocks_of (Z.of_nat (length (c0 ++ data))) in
  disk_ok (img s0) (freeblock s0) → inode_inv (img s0) (freeblock s0) d0 nb0 → has (img s0) d0 c0 → nb ≤ MAXFILE → freeblock s0 + room nb0 nb ≤ FSSIZE →
  wp (loop iappend_step (data, Z.of_nat (length c0), d0)) (λ r s, r.1 = Z.of_nat (length (c0 ++ data)) ∧ grown s0 d0 nb0 s r.2 (c0 ++ data)) nopanic s0.
Proof.
  intros nb0 nb HD HI Hc Hmax Hroom. consts. pose proof (blocks_of_spec (Z.of_nat (length c0)) ltac:(lia)) as [_ Hnb0]. fold nb0 in Hnb0. pose proof (blocks_of_spec (Z.of_nat (length (c0 ++ data))) ltac:(lia)) as [Hnb1 _]. fold nb in Hnb1.
  apply (wp_loop_n _ (λ n st s, n = Z.of_nat (length st.1.1) ∧ ∃ done, c0 ++ data = done ++ st.1.1 ∧ st.1.2 = Z.of_nat (length done) ∧ grown s0 d0 nb0 s st.2 done) _ _ (Z.of_nat (length data))).
  - intros n [[rest off] d] s [-> (done & Edone & Eoff & G)]. cbn [fst snd] in *. unfold iappend_step. destruct rest as [|z rest'] eqn:Erest.
    { apply wp_if_t; [done|]. apply wp_ret. rewrite app_nil_r in Edone. by rewrite Edone. }
    rewrite <- Erest in *. assert (0 < length rest)%nat as Hrest by (subst rest; cbn; lia). clear z rest' Erest. apply wp_if_f; [by apply Nat.leb_gt|]. subst off. set (fbn := Z.of_nat (length done) / BSIZE).
    assert (length done + length rest = length (c0 ++ data))%nat as Hlen by (by rewrite Edone, length_app). pose proof (block_of (Z.of_nat (length done)) ltac:(lia)) as [Hb1 Hb2]. fold fbn in Hb1. pose proof (Z.div_pos (Z.of_nat (length done)) BSIZE ltac:(lia) ltac:(lia)) as Hf0. fold fbn in Hf0.
    assert (fbn + 1 ≤ nb) as Hfn by nia. apply wp_if_f; [lia|]. set (n1 := Z.min _ _). set (l := take (Z.to_nat n1) rest). assert (length l = Z.to_nat n1) as Hll by (unfold l; rewrite length_take; lia).
    destruct (blocks_of_piece (Z.of_nat (length done)) (Z.of_nat (length l)) fbn eq_refl ltac:(lia) ltac:(lia) ltac:(lia)) as [_ Hk]. set (k := blocks_of (Z.of_nat (length done))) in *.
    pose proof (g_nb _ _ _ _ _ _ G) as Hge. fold k in Hge. pose proof (g_free _ _ _ _ _ _ G) as Hfree. fold k in Hfree. pose proof (room_mono nb0 (Z.max k (fbn + 1)) nb ltac:(nia)) as Hmono. pose proof (cost_room nb0 k fbn ltac:(lia) ltac:(lia) ltac:(lia)) as Hcost.
    apply wp_bind. eapply wp_post; [apply (wp_file_block s d k fbn); [apply G|apply G|lia|lia|lia|lia]|]. intros [d' x] s1 B. cbn [fst snd] in B.
    pose proof (iv_in _ _ _ _ (gb_inv _ _ _ _ _ _ _ B) fbn ltac:(lia)) as Hx. rewrite <- (gb_x _ _ _ _ _ _ _ B) in Hx. pose proof (dk_fb _ _ (gb_disk _ _ _ _ _ _ _ B)) as Hfb.
    destruct (dk_blocks _ _ (gb_disk _ _ _ _ _ _ _ B) x ltac:(lia)) as (buf & Ebuf & _). eapply wp_bind, wp_rsect; [exact Ebuf|]. apply wp_bind, wp_modify, wp_ret. cbn [fst snd].
    exists (Z.of_nat (length (drop (Z.to_nat n1) rest))). rewrite length_drop. split; [lia|]. split; [done|]. exists (done ++ l). split; [rewrite <- app_assoc; unfold l; by rewrite take_drop|]. split; [rewrite length_app; lia|].
    apply (grown_step _ _ _ s d done l fbn d' x s1 buf Hnb0 G); [done|by destruct l; [cbn in Hll; lia|]|lia|done|done].
  - cbn [fst snd]. split; [done|]. exists c0. split_and!; [done|done|]. split; fold nb0; try done; try lia. unfold room. case_decide; lia.
  - rewrite length_app in Hnb1. lia.
Qed.

(** * The image as a map of files *)

(** the inode [i] as the kernel reads it *)
Definition mino (m : gmap Z (list Z)) (i : Z) : dinode := get_dinode (dinode_off i) (iblk m (IBLOCK i msb)).

(** a volume: the type and the contents of each inode, the next inode and the first free block *)
Record vol := mkVol { v_files : gmap Z (Z * list Z); v_next : Z; v_used : Z }.

Definition nb_of (c : list Z) : Z := blocks_of (Z.of_nat (length c)).

(** the inode [i] of the type [t] and of [sz] bytes, whose blocks hold [c] *)
Record file_is (m : gmap Z (list Z)) (fb i t sz : Z) (c : list Z) : Prop := {
  fi_type : d_type (mino m i) = t;
  fi_dev : d_major (mino m i) = 0 ∧ d_minor (mino m i) = 0 ∧ d_nlink (mino m i) = 1;
  fi_size : d_size (mino m i) = sz;
  fi_inv : inode_inv m fb (mino m i) (nb_of c);
  fi_has : has m (mino m i) c;
}.
Definition owner (m : gmap Z (list Z)) (v : vol) (i b : Z) : Prop := ∃ t c, v_files v !! i = Some (t, c) ∧ owns m (mino m i) (nb_of c) b.

(** the blocks before the inodes: the boot block, the super block and an empty log *)
Definition head_block (b : Z) : list Z :=
  if b =? 1 then put_u32s 0 [sb_magic msb; sb_size msb; sb_nblocks msb; sb_ninodes msb; sb_nlog msb; sb_logstart msb; sb_inodestart msb; sb_bmapstart msb] zero_block else zero_block.

Record represents (s : image) (v : vol) : Prop := {
  r_disk : disk_ok (img s) (freeblock s);
  r_used : freeblock s = v_used v;
  r_next : freeinode s = v_next v;
  r_dom i : is_Some (v_files v !! i) → 0 < i < v_next v;
  r_head b : 0 ≤ b < sb_inodestart msb → img s !! b = Some (head_block b);
  r_max : 0 < v_next v ≤ NINODES;
  r_file i t c : v_files v !! i = Some (t, c) → file_is (img s) (freeblock s) i t (Z.of_nat (length c)) c;
  r_sep i i' b : owner (img s) v i b → owner (img s) v i' b → i = i';
  r_free i : v_next v ≤ i < NINODES → d_type (mino (img s) i) = 0;
}.

Lemma IBLOCK_msb i : 0 ≤ i < NINODES → IBLOCK i msb = i / 16 + 32 ∧ 32 ≤ IBLOCK i msb < nmeta ∧ dinode_off i = Z.to_nat (i mod 16 * 64).
Proof.
  intros Hi. consts. unfold NINODES in Hi. assert (0 ≤ i / 16 ≤ 12) as H by (split; [apply Z.div_pos; lia|]; assert (i / 16 < 13) by (apply Z.div_lt_upper_bound; lia); lia).
  assert (IBLOCK i msb = i / 16 + 32) as -> by (unfold IBLOCK; change IPB with 16; change (sb_inodestart msb) with 32; rewrite u32_small; lia). split_and!; [done|lia|lia|]. done.
Qed.
Lemma dinode_off_fit i : 0 ≤ i < NINODES → (dinode_off i + 64 ≤ 1024)%nat.
Proof. intros Hi. destruct (IBLOCK_msb i Hi) as (_ & _ & ->). pose proof (Z.mod_pos_bound i 16). lia. Qed.

(** the inode [i] is stored in its slot, and no other slot changes *)
Lemma mino_put m i x d : 0 ≤ i < NINODES → m !! IBLOCK i msb = Some d → length d = 1024%nat → dinode_ok x →
  let m' := <[IBLOCK i msb := put_dinode (dinode_off i) x d]> m in mino m' i = x ∧ ∀ i', 0 ≤ i' < NINODES → i' ≠ i → mino m' i' = mino m i'.
Proof.
  intros Hi Hd Hl Hx m'. pose proof (dinode_off_fit i Hi) as Hfit. destruct (IBLOCK_msb i Hi) as (E & _ & Eo). split.
  - unfold mino, iblk, m'. rewrite lookup_insert_eq. cbn [from_option id]. apply get_put_dinode; [lia|done].
  - intros i' Hi' Hne. destruct (IBLOCK_msb i' Hi') as (E' & _ & Eo'). unfold mino, iblk, m'. destruct (decide (IBLOCK i' msb = IBLOCK i msb)) as [Eb|Eb]; [|by rewrite lookup_insert_ne].
    rewrite Eb, lookup_insert_eq, Hd. cbn [from_option id]. apply get_put_dinode_ne; [lia|by destruct (di_addrs _ Hx)|]. pose proof (Z.div_mod i 16). pose proof (Z.div_mod i' 16). pose proof (Z.mod_pos_bound i 16). pose proof (Z.mod_pos_bound i' 16). lia.
Qed.

(** a file is what it was when its blocks are *)
Lemma mbaddr_stable m m' fb d nb : inode_inv m fb d nb → (∀ b, owns m d nb b → m' !! b = m !! b) → ∀ bn, mbaddr m' d bn = mbaddr m d bn.
Proof.
  intros HI H bn. unfold mbaddr. destruct (bn <? NDIRECT); [done|]. destruct (Z.eqb_spec (daddr NDIRECT d) 0) as [|Hn]; [done|]. unfold iblk. rewrite H; [done|]. right. split; [|done].
  pose proof (iv_ind _ _ _ _ HI). by destruct (decide (NDIRECT < nb)).
Qed.
Lemma inv_fb m fb fb' d nb : inode_inv m fb d nb → fb ≤ fb' → inode_inv m fb' d nb.
Proof.
  intros [H1 H2 H3 H4 H5 H6 H7] Hf. split; try done; [intros bn Hbn; specialize (H3 bn Hbn); lia|]. case_decide; lia.
Qed.
Lemma owns_range m fb d nb b : inode_inv m fb d nb → owns m d nb b → nmeta ≤ b < fb.
Proof. intros HI [(bn & Hbn & <-)|[Hn <-]]; [by apply (iv_in _ _ _ _ HI)|]. pose proof (iv_ind _ _ _ _ HI) as H. by rewrite decide_True in H. Qed.
Lemma owns_stable m m' d nb : (∀ bn, mbaddr m' d bn = mbaddr m d bn) → ∀ b, owns m' d nb b ↔ owns m d nb b.
Proof. intros H b. unfold owns. split; (intros [(bn & Hbn & E)|E]; [left; exists bn; split; [done|]; rewrite <- E; by rewrite H|by right]). Qed.

Lemma file_stable m m' fb fb' i t sz c : file_is m fb i t sz c → fb ≤ fb' → mino m' i = mino m i → (∀ b, owns m (mino m i) (nb_of c) b → m' !! b = m !! b) →
  file_is m' fb' i t sz c ∧ ∀ b, owns m' (mino m' i) (nb_of c) b ↔ owns m (mino m i) (nb_of c) b.
Proof.
  intros [F1 F2 F3 F4 F5] Hf Em H. pose proof (mbaddr_stable _ m' _ _ _ F4 H) as Hmb. split; [|rewrite Em; by apply owns_stable]. split; rewrite ?Em; try done.
  - apply (inv_fb _ fb); [|done]. by apply (inv_ext m).
  - intros j x Hj. rewrite <- (F5 j x Hj). unfold mbyte. rewrite Hmb. unfold iblk. rewrite H; [done|]. left. eexists; split; [|done].
    pose proof (lookup_lt_Some _ _ _ Hj). pose proof (blocks_of_spec (Z.of_nat (length c)) ltac:(lia)). pose proof (block_of (Z.of_nat j) ltac:(lia)). unfold nb_of. consts. split; [apply Z.div_pos; lia|]. nia.
Qed.

(** [data] at the end of the inode [i], if the file and the volume can hold it *)
Definition v_append (i : Z) (data : list Z) (v : vol) : option vol :=
  match v_files v !! i with
  | Some (t, c) =>
      if decide (nb_of (c ++ data) ≤ MAXFILE ∧ v_used v + room (nb_of c) (nb_of (c ++ data)) ≤ FSSIZE)
      then Some (mkVol (<[i := (t, c ++ data)]> (v_files v)) (v_next v) (v_used v + room (nb_of c) (nb_of (c ++ data)))) else None
  | None => None
  end.

Lemma nb_of_app c l : 0 ≤ nb_of c ≤ nb_of (c ++ l).
Proof.
  unfold nb_of. pose proof (blocks_of_spec (Z.of_nat (length c)) ltac:(lia)) as [H1 H2]. pose proof (blocks_of_spec (Z.of_nat (length (c ++ l))) ltac:(lia)) as [H3 _]. rewrite length_app in *. consts. nia.
Qed.

(** the image after the inode is written back *)
Lemma append_represents s v i t c data s1 d1 buf : represents s v → v_files v !! i = Some (t, c) → nb_of (c ++ data) ≤ MAXFILE →
  grown s (mino (img s) i) (nb_of c) s1 d1 (c ++ data) → img s1 !! IBLOCK i msb = Some buf → length buf = 1024%nat →
  represents (set_img (<[IBLOCK i msb := put_dinode (dinode_off i) (set_dsize (Z.of_nat (length (c ++ data))) d1) buf]> (img s1)) s1)
    (mkVol (<[i := (t, c ++ data)]> (v_files v)) (v_next v) (v_used v + room (nb_of c) (nb_of (c ++ data)))).
Proof.
  intros R Hi Hmax G Hbuf Hlb. consts. pose proof (r_file _ _ R i t c Hi) as F. pose proof (r_dom _ _ R i ltac:(by eexists)) as Hdom. pose proof (r_max _ _ R) as Hnx. assert (0 ≤ i < NINODES) as Hin by lia.
  set (n := Z.of_nat (length (c ++ data))) in *. set (d2 := set_dsize n d1). set (m2 := <[IBLOCK i msb := _]> (img s1)). pose proof (IBLOCK_msb i Hin) as (_ & Hib & _).
  pose proof (blocks_of_spec n ltac:(lia)) as [Hn1 Hn2]. change (blocks_of n) with (nb_of (c ++ data)) in *. pose proof (dk_fb _ _ (r_disk _ _ R)) as Hfb0. pose proof (dk_fb _ _ (g_disk _ _ _ _ _ _ G)) as Hfb1.
  assert (dinode_ok d2) as Hok. { destruct (iv_ok _ _ _ _ (g_inv _ _ _ _ _ _ G)). split; cbn; [done| |done]. lia. }
  destruct (mino_put (img s1) i d2 buf Hin Hbuf Hlb Hok) as [Mi Mo]. fold m2 in Mi, Mo.
  pose proof (nb_of_app c data) as Hnb. assert (freeblock s1 = freeblock s + room (nb_of c) (nb_of (c ++ data))) as Hfree by apply (g_free _ _ _ _ _ _ G). pose proof (room_mono (nb_of c) (nb_of c) (nb_of (c ++ data)) ltac:(lia)) as Hroom. assert (freeblock s ≤ freeblock s1) as Hle by lia.
  assert (∀ b, nmeta ≤ b → m2 !! b = img s1 !! b) as Hm2 by (intros b Hb; unfold m2; by rewrite lookup_insert_ne by lia).
  assert (∀ bn, mbaddr m2 d2 bn = mbaddr (img s1) d1 bn) as Hmb. { intros bn. change (mbaddr m2 d1 bn = mbaddr (img s1) d1 bn). apply (mbaddr_stable _ _ _ _ _ (g_inv _ _ _ _ _ _ G)). intros b Hb. apply Hm2. by apply (owns_range _ _ _ _ _ (g_inv _ _ _ _ _ _ G)). }
  assert (∀ i', 0 ≤ i' < NINODES → i' ≠ i → mino m2 i' = mino (img s) i') as Mother.
  { intros i' Hi' Hne. rewrite Mo by done. unfold mino, iblk. pose proof (IBLOCK_msb i' Hi') as (_ & Hb & _). rewrite (g_frame _ _ _ _ _ _ G); [done|lia|]. intros Ho. pose proof (owns_range _ _ _ _ _ (fi_inv _ _ _ _ _ _ F) Ho). lia. }
  assert (∀ i' t' c', i' ≠ i → v_files v !! i' = Some (t', c') → file_is m2 (freeblock s1) i' t' (Z.of_nat (length c')) c' ∧ ∀ b, owns m2 (mino m2 i') (nb_of c') b ↔ owns (img s) (mino (img s) i') (nb_of c') b) as Fother.
  { intros i' t' c' Hne Hi'. pose proof (r_dom _ _ R i' ltac:(by eexists)). pose proof (r_file _ _ R i' t' c' Hi') as F'. apply (file_stable _ _ (freeblock s)); [done|done|apply Mother; [lia|done]|].
    intros b Hb. pose proof (owns_range _ _ _ _ _ (fi_inv _ _ _ _ _ _ F') Hb). rewrite Hm2 by lia. apply (g_frame _ _ _ _ _ _ G); [lia|]. intros Ho. apply Hne. apply (r_sep _ _ R i' i b); [by exists t', c'|by exists t, c]. }
  assert (∀ b, owns m2 (mino m2 i) (nb_of (c ++ data)) b → owns (img s) (mino (img s) i) (nb_of c) b ∨ freeblock s ≤ b) as Town.
  { rewrite Mi. intros b [(bn & Hbn & <-)|[Hn <-]].
    - rewrite Hmb. destruct (decide (bn < nb_of c)); [left; left; exists bn; split; [lia|]; symmetry; apply (g_old _ _ _ _ _ _ G); lia|right; apply (g_new _ _ _ _ _ _ G); split; [lia|exact (proj2 Hbn)]].
    - change (daddr NDIRECT d2) with (daddr NDIRECT d1). destruct (decide (NDIRECT < nb_of c)); [left; right; split; [done|]; symmetry; by apply (g_ind _ _ _ _ _ _ G)|right; apply (g_newind _ _ _ _ _ _ G); [lia|done]]. }
  assert (∀ i' b, i' ≠ i → (∃ t' c', v_files v !! i' = Some (t', c') ∧ owns m2 (mino m2 i') (nb_of c') b) → owns m2 (mino m2 i) (nb_of (c ++ data)) b → False) as Hsep.
  { intros i' b Hne (t' & c' & Hi' & Ho') Ho. apply (Fother i' t' c' Hne Hi') in Ho'. pose proof (owns_range _ _ _ _ _ (fi_inv _ _ _ _ _ _ (r_file _ _ R _ _ _ Hi')) Ho'). apply Town in Ho as [Ho|Ho]; [|lia]. apply Hne, (r_sep _ _ R i' i b); [by exists t', c'|by exists t, c]. }
  split; cbn [img freeinode freeblock set_img v_files v_next v_used].
  - apply disk_put; [apply G|lia|]. pose proof (dinode_off_fit i Hin). destruct (put_dinode_split (dinode_off i) d2 buf) as [-> _]; [lia|apply Hok|done].
  - by rewrite Hfree, (r_used _ _ R).
  - rewrite (g_inode _ _ _ _ _ _ G). apply R.
  - intros i' Hi'. destruct (decide (i' = i)) as [->|]; [done|]. rewrite lookup_insert_ne in Hi' by done. by apply (r_dom _ _ R).
  - intros b Hb. change (sb_inodestart msb) with 32 in Hb. unfold m2. rewrite lookup_insert_ne by lia. rewrite (g_frame _ _ _ _ _ _ G); [by apply (r_head _ _ R)|lia|]. intros Ho. pose proof (owns_range _ _ _ _ _ (fi_inv _ _ _ _ _ _ F) Ho). lia.
  - done.
  - intros i' t' c' Hi'. fold m2. destruct (decide (i' = i)) as [->|Hne]; [|rewrite lookup_insert_ne in Hi' by done; by apply Fother]. rewrite lookup_insert_eq in Hi'. injection Hi' as <- <-.
    destruct (g_head _ _ _ _ _ _ G) as (h1 & h2 & h3 & h4 & h5). split; rewrite ?Mi; cbn [d2 set_dsize d_type d_major d_minor d_nlink d_size].
    + rewrite h1. apply F. 
    + rewrite h2, h3, h4. apply F.
    + done.
    + pose proof (inv_ext _ m2 _ _ _ (g_inv _ _ _ _ _ _ G) (λ bn _, Hmb bn)) as []. by split.
    + intros j x Hj. rewrite <- (g_has _ _ _ _ _ _ G j x Hj). unfold mbyte. rewrite Hmb. unfold iblk. rewrite Hm2; [done|]. pose proof (lookup_lt_Some _ _ _ Hj). pose proof (block_of (Z.of_nat j) ltac:(lia)). apply (iv_in _ _ _ _ (g_inv _ _ _ _ _ _ G)). split; [apply Z.div_pos; lia|]. change (Z.of_nat j / BSIZE < nb_of (c ++ data)). nia.
  - intros i1 i2 b (t1 & c1 & H1 & O1) (t2 & c2 & H2 & O2). cbn [v_files] in H1, H2. fold m2 in O1, O2. destruct (decide (i1 = i)) as [->|N1], (decide (i2 = i)) as [->|N2]; [done| | |].
    + rewrite lookup_insert_eq in H1. injection H1 as <- <-. rewrite lookup_insert_ne in H2 by done. exfalso. apply (Hsep i2 b N2); [by exists t2, c2|done].
    + rewrite lookup_insert_eq in H2. injection H2 as <- <-. rewrite lookup_insert_ne in H1 by done. exfalso. apply (Hsep i1 b N1); [by exists t1, c1|done].
    + rewrite lookup_insert_ne in H1, H2 by done. apply (Fother _ _ _ N1 H1) in O1. apply (Fother _ _ _ N2 H2) in O2. apply (r_sep _ _ R i1 i2 b); [by exists t1, c1|by exists t2, c2].
  - intros i' Hi'. fold m2. rewrite Mother by lia. by apply (r_free _ _ R).
Qed.

Lemma wp_rinode s i d (Q : dinode → image → Prop) E : img s !! IBLOCK i msb = Some d → Q (mino (img s) i) s → wp (rinode i) Q E s.
Proof. intros Hd HQ. unfold rinode. eapply wp_bind, wp_rsect; [exact Hd|]. apply wp_ret. unfold mino, iblk in HQ. by rewrite Hd in HQ. Qed.
Lemma wp_winode s i x d (Q : unit → image → Prop) E : img s !! IBLOCK i msb = Some d → Q tt (set_img (<[IBLOCK i msb := put_dinode (dinode_off i) x d]> (img s)) s) → wp (winode i x) Q E s.
Proof. intros Hd HQ. unfold winode. eapply wp_bind, wp_rsect; [exact Hd|]. by apply wp_modify. Qed.
Lemma inode_block m fb i : disk_ok m fb → 0 ≤ i < NINODES → ∃ d, m !! IBLOCK i msb = Some d ∧ length d = 1024%nat.
Proof. intros HD Hi. consts. pose proof (IBLOCK_msb i Hi) as (_ & H & _). apply (dk_blocks _ _ HD). lia. Qed.

Lemma wp_iappend s v i data v' : represents s v → v_append i data v = Some v' → wp (iappend i data) (λ _ s', represents s' v') nopanic s.
Proof.
  intros R Hv. unfold v_append in Hv. destruct (v_files v !! i) as [[t c]|] eqn:Hi; [|done]. case_decide as Hroom; [|done]. injection Hv as <-. destruct Hroom as [Hmax Hroom].
  pose proof (r_file _ _ R i t c Hi) as F. pose proof (r_dom _ _ R i ltac:(by eexists)). pose proof (r_max _ _ R). destruct (inode_block _ _ i (r_disk _ _ R) ltac:(lia)) as (b0 & Hb0 & _).
  unfold iappend. eapply wp_bind, wp_rinode; [exact Hb0|]. apply wp_bind. rewrite (fi_size _ _ _ _ _ _ F).
  eapply wp_post; [apply (wp_append s (mino (img s) i) c data); [apply R|apply F|apply F|done|rewrite (r_used _ _ R); done]|]. intros [off d1] s1 [Eoff G]. cbn [fst snd] in *. subst off.
  destruct (inode_block _ _ i (g_disk _ _ _ _ _ _ G) ltac:(lia)) as (buf & Hbuf & Hlb). eapply wp_winode; [exact Hbuf|]. by apply (append_represents s v i t c data).
Qed.

(** a new inode of the type [t] *)
Definition v_new (t : Z) (v : vol) : option vol :=
  if decide (v_next v < NINODES) then Some (mkVol (<[v_next v := (t, [])]> (v_files v)) (v_next v + 1) (v_used v)) else None.

Lemma empty_inode m fb t : - 2 ^ 15 ≤ t < 2 ^ 15 → inode_inv m fb (mkDinode t 0 0 1 0 (replicate 13 0)) 0.
Proof.
  intros Ht. consts. set (d := mkDinode _ _ _ _ _ _). assert (∀ k, daddr k d = 0) as Ha. { intros k. unfold daddr, d. cbn [d_addrs]. destruct (replicate 13 0 !! Z.to_nat k) as [x|] eqn:E; [|done]. apply lookup_replicate in E as [-> _]. done. }
  split; try lia.
  - split; cbn; [repeat constructor; lia|lia|]. split; [done|]. repeat constructor; lia.
  - intros bn Hbn. unfold mbaddr. rewrite !Ha. by destruct (bn <? NDIRECT).
  - rewrite decide_False by lia. apply Ha.
Qed.

(** an inode is written; the blocks of the files stay *)
Lemma stable_winode m fb i x buf : disk_ok m fb → 0 ≤ i < NINODES → m !! IBLOCK i msb = Some buf → length buf = 1024%nat → dinode_ok x →
  let m' := <[IBLOCK i msb := put_dinode (dinode_off i) x buf]> m in
  disk_ok m' fb ∧ (∀ b, nmeta ≤ b ∨ b < sb_inodestart msb → m' !! b = m !! b) ∧ mino m' i = x ∧
  (∀ i', 0 ≤ i' < NINODES → i' ≠ i → mino m' i' = mino m i' ∧ ∀ t sz c, file_is m fb i' t sz c → file_is m' fb i' t sz c ∧ ∀ b, owns m' (mino m' i') (nb_of c) b ↔ owns m (mino m i') (nb_of c) b).
Proof.
  intros HD Hi Hbuf Hlb Hx m'. pose proof (IBLOCK_msb i Hi) as (_ & Hib & _). pose proof (dk_fb _ _ HD). pose proof (dinode_off_fit i Hi). destruct (mino_put m i x buf Hi Hbuf Hlb Hx) as [M1 M2]. change (sb_inodestart msb) with 32.
  assert (∀ b, nmeta ≤ b ∨ b < 32 → m' !! b = m !! b) as Hsame by (intros b Hb; unfold m'; rewrite lookup_insert_ne; [done|lia]).
  split_and!; [apply disk_put; [done|lia|]; destruct (put_dinode_split (dinode_off i) x buf) as [-> _]; [lia|apply Hx|done]|done|done|].
  intros i' Hi' Hne. split; [by apply M2|]. intros t sz c F. apply (file_stable _ _ fb); [done|done|by apply M2|]. intros b Hb. apply Hsame. left. by apply (owns_range _ _ _ _ _ (fi_inv _ _ _ _ _ _ F)).
Qed.

Lemma wp_mk_ialloc s v t v' : represents s v → - 2 ^ 15 ≤ t < 2 ^ 15 → v_new t v = Some v' → wp (mk_ialloc t) (λ i s', i = v_next v ∧ represents s' v') nopanic s.
Proof.
  intros R Ht Hv. unfold v_new in Hv. case_decide as Hn; [|done]. injection Hv as <-. consts. pose proof (r_max _ _ R) as Hmax. set (i := v_next v) in *. assert (0 ≤ i < NINODES) as Hi by lia.
  destruct (inode_block _ _ i (r_disk _ _ R) Hi) as (buf & Hbuf & Hlb). unfold mk_ialloc. apply wp_bind, wp_gets, wp_bind, wp_modify, wp_bind. rewrite (r_next _ _ R). fold i. rewrite u32_small by (unfold NINODES in *; lia).
  eapply wp_winode; [exact Hbuf|]. apply wp_ret. split; [done|]. set (x := mkDinode _ _ _ _ _ _). pose proof (empty_inode (img s) (freeblock s) t Ht) as HE. fold x in HE.
  destruct (stable_winode _ _ i x buf (r_disk _ _ R) Hi Hbuf Hlb (iv_ok _ _ _ _ HE)) as (W1 & W2 & W3 & W4). cbn [img]. set (m' := <[IBLOCK i msb := _]> (img s)) in *.
  assert (∀ i' y, v_files v !! i' = Some y → 0 ≤ i' < NINODES ∧ i' ≠ i) as Hold by (intros i' y Hy; pose proof (r_dom _ _ R i' ltac:(by eexists)); lia).
  assert (∀ i' b, owner m' (mkVol (<[i := (t, [])]> (v_files v)) (i + 1) (v_used v)) i' b → owner (img s) v i' b) as Hown.
  { intros i' b (t' & c' & H' & O). cbn [v_files] in H'. apply lookup_insert_Some in H' as [[<- E]|[Hne H']].
    - injection E as <- <-. exfalso. assert (nb_of [] = 0) as E0 by done. rewrite E0 in O. destruct O as [(bn & Hbn & _)|[Hbn _]]; lia.
    - exists t', c'. split; [done|]. destruct (Hold _ _ H') as [H1 H2]. destruct (W4 i' H1 H2) as [_ F]. by apply (F t' _ c' (r_file _ _ R _ _ _ H')). }
  split; cbn [img freeinode freeblock set_img v_files v_next v_used]; fold m'.
  - exact W1.
  - apply R.
  - done.
  - intros i' H'. destruct (decide (i' = i)) as [->|]; [lia|]. rewrite lookup_insert_ne in H' by done. pose proof (r_dom _ _ R i' H') as Hd. fold i in Hd. lia.
  - intros b Hb. rewrite W2 by lia. by apply (r_head _ _ R).
  - lia.
  - intros i' t' c' H'. apply lookup_insert_Some in H' as [[<- E]|[Hne H']]; [|destruct (Hold _ _ H') as [H1 H2]; destruct (W4 i' H1 H2) as [_ F]; by apply F, (r_file _ _ R)].
    injection E as <- <-. split; rewrite ?W3; try done. by apply empty_inode.
  - intros i1 i2 b O1 O2. by apply (r_sep _ _ R i1 i2 b); apply Hown.
  - intros i' Hi'. destruct (W4 i' ltac:(lia) ltac:(lia)) as [-> _]. apply (r_free _ _ R). fold i. lia.
Qed.

(** * The whole image *)

Definition v_empty : vol := mkVol ∅ 1 nmeta.
Definition v_all {A} (g : A → vol → option vol) (l : list A) (v : vol) : option vol := foldl (λ o x, o ≫= g x) (Some v) l.
Definition v_file (f : list Z * list (list Z)) (v : vol) : option vol :=
  let n := shortname f.1 in
  if bool_decide (47 ∈ n) then None else
  v1 ← v_new T_FILE v; v2 ← v_append ROOTINO (mk_dirent (v_next v) (stripname n)) v1; v_all (v_append (v_next v)) f.2 v2.
(** the volume of the files: the root directory, and an inode for each file *)
Definition v_mkfs (files : list (list Z * list (list Z))) : option vol :=
  v ← v_new T_DIR v_empty; v ← v_append ROOTINO (mk_dirent ROOTINO (bytes_of ".")) v; v ← v_append ROOTINO (mk_dirent ROOTINO (bytes_of "..")) v; v_all v_file files v.

Lemma v_all_none {A} (g : A → vol → option vol) l : foldl (λ o x, o ≫= g x) None l = None.
Proof. induction l as [|x l IH]; [done|exact IH]. Qed.
Lemma wp_v_all {A} (f : A → M image unit) (g : A → vol → option vol) l :
  (∀ x s v v', represents s v → g x v = Some v' → wp (f x) (λ _ s', represents s' v') nopanic s) →
  ∀ s v v', represents s v → v_all g l v = Some v' → wp (for_each l f) (λ _ s', represents s' v') nopanic s.
Proof.
  intros Hf. unfold v_all. induction l as [|x l IH]; intros s v v' R E; cbn [foldl for_each] in *.
  - injection E as <-. by apply wp_ret.
  - destruct (g x v) as [v1|] eqn:Eg; cbn [mbind option_bind] in E; rewrite Eg in E; [|by rewrite v_all_none in E]. apply wp_bind. eapply wp_post; [by eapply Hf|]. intros [] s1 R1. by eapply IH.
Qed.

Lemma wp_add_file f s v v' : represents s v → v_file f v = Some v' → wp (add_file ROOTINO f) (λ _ s', represents s' v') nopanic s.
Proof.
  intros R. unfold v_file, add_file. destruct (bool_decide (47 ∈ shortname f.1)) eqn:Es; [done|]. intros E. apply bind_Some in E as (v1 & E1 & E). apply bind_Some in E as (v2 & E2 & E3).
  apply wp_bind. eapply wp_post; [apply (wp_mk_ialloc s v T_FILE v1 R); [done|done]|]. intros i s1 [-> R1]. apply wp_bind. eapply wp_post; [by eapply wp_iappend|]. intros [] s2 R2.
  eapply (wp_v_all _ _ _ (λ x s v v', wp_iappend s v _ x v')); [exact R2|exact E3].
Qed.

Lemma wp_format s : freeinode s = 1 → freeblock s = nmeta → wp format (λ _ s', represents s' v_empty) nopanic s.
Proof.
  intros Hi Hf. consts. unfold format. apply wp_bind. eapply wp_post.
  - apply (wp_for_each (seqZ 0 FSSIZE) [] _ _ (λ l s, freeinode s = 1 ∧ freeblock s = nmeta ∧ ∀ b, 0 ≤ b < FSSIZE → b ∉ l → img s !! b = Some zero_block)); [|done|].
    + intros d x l s1 _ (H1 & H2 & H3). apply wp_modify. split_and!; [done|done|]. intros b Hb Hl. cbn [img set_img]. destruct (decide (b = x)) as [->|]; [by rewrite lookup_insert_eq|]. rewrite lookup_insert_ne by done. apply H3; [done|]. set_solver.
    + split_and!; [done|done|]. intros b Hb Hn. destruct Hn. by apply elem_of_seqZ.
  - intros _ s1 (H1 & H2 & H3). apply wp_modify. fold (head_block 1). assert (∀ b, 0 ≤ b < FSSIZE → <[1 := head_block 1]> (img s1) !! b = Some (head_block b)) as Hb.
    { intros b Hb. destruct (decide (b = 1)) as [->|]; [by rewrite lookup_insert_eq|]. rewrite lookup_insert_ne by done. unfold head_block. rewrite (proj2 (Z.eqb_neq b 1)) by done. apply H3; [done|apply not_elem_of_nil]. }
    change (put_u32s 0 _ zero_block) with (head_block 1).
    assert (∀ b, 1 < b → head_block b = zero_block) as Hz by (intros b Hgt; unfold head_block; by rewrite (proj2 (Z.eqb_neq b 1)) by lia).
    split; cbn [img freeinode freeblock set_img]; try done.
    + split; [|rewrite H2; intros b Hbb; rewrite Hb by lia; by rewrite Hz by lia|lia]. intros b Hbb. rewrite Hb by done. eexists; split; [done|]. unfold head_block. by destruct (b =? 1).
    + intros i [x Hx]. cbn in Hx. by rewrite lookup_empty in Hx.
    + intros b Hbb. change (sb_inodestart msb) with 32 in Hbb. by rewrite Hb by lia.
    + intros i i' b (t & c & H & _). cbn in H. by rewrite lookup_empty in H.
    + intros i Hin. pose proof (IBLOCK_msb i ltac:(cbn in Hin; lia)) as (_ & Hib & _). unfold mino, iblk. rewrite Hb by lia. cbn [from_option id]. rewrite Hz by lia. cbn [d_type get_dinode]. unfold get_s16, get_u16, zero_block. rewrite drop_replicate, take_replicate.
      assert (∀ n, le_val (replicate n 0) = 0) as -> by (induction n as [|n IH]; [done|]; cbn; rewrite IH; done). done.
Qed.

(** the bitmap of balloc() *)
Lemma bitmap_bits l d y : Forall (λ x, 0 ≤ x < BPB) l → length d = 1024%nat → 0 ≤ y →
  length (foldl set_bit d l) = 1024%nat ∧ Z.testbit (bit_byte y (foldl set_bit d l)) (y mod 8) = bool_decide (y ∈ l) || Z.testbit (bit_byte y d) (y mod 8).
Proof.
  intros Hl Hd Hy. revert d Hd. induction Hl as [|x l Hx Hl IH]; intros d Hd; cbn [foldl].
  - split; [done|]. by rewrite bool_decide_false by apply not_elem_of_nil.
  - destruct (IH (set_bit d x)) as [H1 H2]; [unfold set_bit, put_bit_byte; by rewrite length_insert|]. split; [done|]. rewrite H2. unfold set_bit. rewrite (bit_set x y d) by done.
    rewrite orb_assoc. f_equal. rewrite (bool_decide_ext (y ∈ x :: l) (y ∈ l ∨ y = x)) by set_solver. by rewrite bool_decide_or.
Qed.

(** the size of the inode [i] at the end: main() rounds the one of the root directory *)
Definition final_size (i : Z) (c : list Z) : Z := if i =? ROOTINO then (Z.of_nat (length c) / BSIZE + 1) * BSIZE else Z.of_nat (length c).

(** the finished image: the super block and an empty log, the files of the volume in
    blocks of their own, and a bitmap of exactly the blocks up to the last one used *)
Record built (m : gmap Z (list Z)) (v : vol) : Prop := {
  bt_blocks b : 0 ≤ b < FSSIZE → ∃ d, m !! b = Some d ∧ length d = 1024%nat;
  bt_sb : get_sb (iblk m 1) = msb;
  bt_log b : sb_logstart msb ≤ b < sb_inodestart msb → m !! b = Some zero_block;
  bt_file i t c : v_files v !! i = Some (t, c) → 0 < i < NINODES ∧ file_is m (v_used v) i t (final_size i c) c;
  bt_sep i i' b : owner m v i b → owner m v i' b → i = i';
  bt_free i : v_next v ≤ i < NINODES → d_type (mino m i) = 0;
  bt_map b : 0 ≤ b < FSSIZE → in_use (iblk m) msb b = bool_decide (b < v_used v);
}.

Lemma IBLOCK_map i : 0 ≤ i < NINODES → IBLOCK i msb < sb_bmapstart msb.
Proof. intros Hi. destruct (IBLOCK_msb i Hi) as [-> _]. change (sb_bmapstart msb) with 45. unfold NINODES in Hi. assert (i / 16 < 13) by (apply Z.div_lt_upper_bound; lia). lia. Qed.

Lemma bitmap_in_use m used b : 0 ≤ used ≤ FSSIZE → 0 ≤ b < FSSIZE →
  in_use (iblk (<[sb_bmapstart msb := foldl set_bit zero_block (seqZ 0 used)]> m)) msb b = bool_decide (b < used).
Proof.
  intros Hu Hb. consts. change BPB with 8192. assert (b / BPB = 0) as Hq by (apply Z.div_small; change BPB with 8192; lia). assert (b mod BPB = b) as Hr by (apply Z.mod_small; change BPB with 8192; lia). unfold in_use. rewrite Hr.
  replace (BBLOCK b msb) with (sb_bmapstart msb) by (unfold BBLOCK; rewrite Hq; done). unfold iblk. rewrite lookup_insert_eq. cbn [from_option id].
  destruct (bitmap_bits (seqZ 0 used) zero_block b) as [_ ->]; [apply Forall_forall; intros x Hx; apply elem_of_seqZ in Hx; change BPB with 8192; lia|done|lia|].
  assert (bit_byte b zero_block = 0) as -> by (unfold bit_byte, zero_block; destruct (replicate _ _ !! _) as [x|] eqn:E; [|done]; by apply lookup_replicate in E as [-> _]). rewrite Z.bits_0, orb_false_r. apply bool_decide_ext. rewrite elem_of_seqZ. lia.
Qed.

(** the two last writes of main() *)
Lemma finish_built s v t c buf : represents s v → v_files v !! ROOTINO = Some (t, c) → img s !! IBLOCK ROOTINO msb = Some buf → length buf = 1024%nat →
  built (<[sb_bmapstart msb := foldl set_bit zero_block (seqZ 0 (v_used v))]>
    (<[IBLOCK ROOTINO msb := put_dinode (dinode_off ROOTINO) (set_dsize (final_size ROOTINO c) (mino (img s) ROOTINO)) buf]> (img s))) v.
Proof.
  intros R Hr Hbuf Hlb. consts. set (x := set_dsize _ _). pose proof (r_file _ _ R _ _ _ Hr) as F. pose proof (dk_fb _ _ (r_disk _ _ R)) as Hfb. rewrite (r_used _ _ R) in F, Hfb. pose proof (r_disk _ _ R) as HD. rewrite (r_used _ _ R) in HD.
  pose proof (blocks_of_spec (Z.of_nat (length c)) ltac:(lia)) as [Hb1 _]. pose proof (iv_nb _ _ _ _ (fi_inv _ _ _ _ _ _ F)) as Hnb. fold (nb_of c) in Hb1. pose proof (block_of (Z.of_nat (length c)) ltac:(lia)) as [Hdm1 Hdm2].
  assert (dinode_ok x) as Hx. { destruct (iv_ok _ _ _ _ (fi_inv _ _ _ _ _ _ F)). split; [done| |done]. cbn. unfold final_size. cbn. lia. }
  destruct (stable_winode _ _ ROOTINO x buf HD ltac:(done) Hbuf Hlb Hx) as (W1 & W2 & W3 & W4). set (m1 := <[IBLOCK ROOTINO msb := _]> (img s)) in *. set (bm := foldl set_bit _ _). set (m2 := <[sb_bmapstart msb := bm]> m1).
  assert (∀ b, b ≠ sb_bmapstart msb → m2 !! b = m1 !! b) as H2 by (intros b Hb; unfold m2; by rewrite lookup_insert_ne). change (sb_bmapstart msb) with 45 in *.
  assert (∀ i, 0 ≤ i < NINODES → mino m2 i = mino m1 i) as Hmino by (intros i Hi; pose proof (IBLOCK_map i Hi) as Hlt; change (sb_bmapstart msb) with 45 in Hlt; unfold mino, iblk; by rewrite H2 by lia).
  assert (∀ i t' c', v_files v !! i = Some (t', c') → 0 < i < NINODES ∧ file_is m2 (v_used v) i t' (final_size i c') c' ∧ ∀ b, owns m2 (mino m2 i) (nb_of c') b ↔ owns (img s) (mino (img s) i) (nb_of c') b) as HF.
  { intros i t' c' Hi. pose proof (r_dom _ _ R i ltac:(by eexists)). pose proof (r_max _ _ R). split; [lia|].
    assert (file_is m1 (v_used v) i t' (final_size i c') c' ∧ ∀ b, owns m1 (mino m1 i) (nb_of c') b ↔ owns (img s) (mino (img s) i) (nb_of c') b) as [F1 O1].
    { destruct (decide (i = ROOTINO)) as [->|Hne].
      - rewrite Hr in Hi. injection Hi as <- <-. assert (∀ bn, mbaddr m1 x bn = mbaddr (img s) (mino (img s) ROOTINO) bn) as Hmb. { intros bn. apply (mbaddr_stable (img s) m1 _ _ _ (fi_inv _ _ _ _ _ _ F)). intros b Hb. apply W2. left. by apply (owns_range _ _ _ _ _ (fi_inv _ _ _ _ _ _ F)). }
        split; [|rewrite W3; intros b; apply (owns_stable (img s) m1 (mino (img s) ROOTINO)); exact Hmb]. destruct F as [F1 F2 F3 F4 F5]. split; rewrite ?W3; try done.
        + destruct (inv_ext _ m1 _ _ _ F4 (λ bn _, Hmb bn)). by split.
        + intros j y Hj. rewrite <- (F5 j y Hj). unfold mbyte. rewrite Hmb. unfold iblk. rewrite W2; [done|]. left. apply (iv_in _ _ _ _ F4). pose proof (lookup_lt_Some _ _ _ Hj). pose proof (block_of (Z.of_nat j) ltac:(lia)). split; [apply Z.div_pos; lia|]. nia.
      - destruct (W4 i ltac:(lia) Hne) as [_ Hs]. apply Hs. unfold final_size. rewrite (proj2 (Z.eqb_neq _ _) Hne). rewrite <- (r_used _ _ R). by apply (r_file _ _ R). }
    destruct (file_stable m1 m2 _ (v_used v) i t' _ c' F1 ltac:(lia) (Hmino i ltac:(lia))) as [F2 O2]; [intros b Hb; apply H2; pose proof (owns_range _ _ _ _ _ (fi_inv _ _ _ _ _ _ F1) Hb); lia|]. split; [done|]. intros b. by rewrite O2. }
  assert (∀ i b, owner m2 v i b → owner (img s) v i b) as Hown by (intros i b (t' & c' & Hi & Ho); exists t', c'; split; [done|]; by apply (HF i t' c' Hi)).
  split.
  - intros b Hb. destruct (decide (b = 45)) as [->|]; [|rewrite H2 by done; by apply (dk_blocks _ _ W1)]. exists bm. unfold m2. rewrite lookup_insert_eq. split; [done|]. apply (bitmap_bits _ zero_block 0); [apply Forall_forall; intros y Hy; apply elem_of_seqZ in Hy; change BPB with 8192; lia|done|lia].
  - unfold iblk. rewrite H2, W2, (r_head _ _ R) by (done || (right; done)). by vm_compute.
  - intros b Hb. change (sb_logstart msb) with 2 in Hb. change (sb_inodestart msb) with 32 in Hb. rewrite H2 by lia. rewrite W2 by (right; change (sb_inodestart msb) with 32; lia). rewrite (r_head _ _ R) by (change (sb_inodestart msb) with 32; lia). unfold head_block. by rewrite (proj2 (Z.eqb_neq b 1)) by lia.
  - intros i t' c' Hi. destruct (HF i t' c' Hi) as (? & ? & _). done.
  - intros i i' b O1 O2. apply (r_sep _ _ R i i' b); by apply Hown.
  - intros i Hi. pose proof (r_max _ _ R). pose proof (r_dom _ _ R ROOTINO ltac:(by eexists)). rewrite Hmino by lia. destruct (W4 i ltac:(lia) ltac:(lia)) as [-> _]. by apply (r_free _ _ R).
  - intros b Hb. apply bitmap_in_use; lia.
Qed.

Definition has_root (v : vol) : Prop := ∃ t c, v_files v !! ROOTINO = Some (t, c).
Lemma v_append_root i l v v' : has_root v → v_append i l v = Some v' → has_root v'.
Proof.
  intros (t & c & H) E. unfold v_append in E. destruct (v_files v !! i) as [[t' c']|] eqn:Hi; [|done]. case_decide; [|done]. injection E as <-. unfold has_root. cbn [v_files].
  destruct (decide (i = ROOTINO)) as [->|]; [rewrite lookup_insert_eq|rewrite lookup_insert_ne by done]; eauto.
Qed.
Lemma v_new_root t v v' : has_root v ∨ v_next v = ROOTINO → v_new t v = Some v' → has_root v'.
Proof.
  intros H E. unfold v_new in E. case_decide; [|done]. injection E as <-. unfold has_root. cbn [v_files].
  destruct (decide (v_next v = ROOTINO)) as [->|]; [rewrite lookup_insert_eq|rewrite lookup_insert_ne by done; destruct H as [(? & ? & ?)|]]; naive_solver.
Qed.
Lemma v_all_root {A} (g : A → vol → option vol) l v v' : (∀ x v v', has_root v → g x v = Some v' → has_root v') → has_root v → v_all g l v = Some v' → has_root v'.
Proof.
  intros Hg. unfold v_all. revert v. induction l as [|x l IH]; intros v H E; cbn [foldl] in E; [by injection E as <-|].
  destruct (g x v) as [v1|] eqn:Eg; cbn [mbind option_bind] in E; rewrite Eg in E; [|by rewrite v_all_none in E]. eapply IH; [|exact E]. by eapply Hg.
Qed.
Lemma v_file_root f v v' : has_root v → v_file f v = Some v' → has_root v'.
Proof.
  intros H. unfold v_file. destruct (bool_decide _); [done|]. intros E. apply bind_Some in E as (v1 & E1 & E). apply bind_Some in E as (v2 & E2 & E3).
  eapply v_all_root; [intros x; apply v_append_root| |exact E3]. eapply v_append_root; [|exact E2]. eapply v_new_root; [by left|exact E1].
Qed.

Lemma wp_mkfs_main files s v : freeinode s = 1 → v_mkfs files = Some v → wp (mkfs_main files) (λ _ s', built (img s') v) nopanic s.
Proof.
  intros Hi Hv. unfold v_mkfs in Hv. apply bind_Some in Hv as (v1 & E1 & Hv). apply bind_Some in Hv as (v2 & E2 & Hv). apply bind_Some in Hv as (v3 & E3 & E4).
  unfold mkfs_main. apply wp_bind, wp_modify, wp_bind. eapply wp_post; [by apply wp_format|]. intros [] s1 R1. apply wp_bind. eapply wp_post; [apply (wp_mk_ialloc _ _ T_DIR v1 R1); [done|exact E1]|]. intros i s2 [-> R2].
  apply wp_if_f; [done|]. change (v_next v_empty) with ROOTINO. apply wp_bind. eapply wp_post; [by eapply wp_iappend|]. intros [] s3 R3. apply wp_bind. eapply wp_post; [by eapply wp_iappend|]. intros [] s4 R4.
  apply wp_bind. eapply wp_post; [eapply (wp_v_all _ _ _ wp_add_file); [exact R4|exact E4]|]. intros [] s5 R5.
  assert (has_root v) as (t & c & Hr). { eapply v_all_root; [exact v_file_root| |exact E4]. eapply v_append_root; [|exact E3]. eapply v_append_root; [|exact E2]. apply (v_new_root T_DIR v_empty v1); [by right|exact E1]. }
  destruct (inode_block _ _ ROOTINO (r_disk _ _ R5) ltac:(done)) as (buf & Hbuf & Hlb). eapply wp_bind, wp_rinode; [exact Hbuf|]. eapply wp_bind, wp_winode; [exact Hbuf|]. apply wp_bind, wp_gets. cbn [freeblock set_img].
  pose proof (dk_fb _ _ (r_disk _ _ R5)) as Hfb. consts. apply wp_if_f; [lia|]. apply wp_modify. cbn [img set_img]. rewrite (r_used _ _ R5), (fi_size _ _ _ _ _ _ (r_file _ _ R5 _ _ _ Hr)).
  apply (finish_built s5 v t c buf R5 Hr Hbuf Hlb).
Qed.

(** C9: mkfs with files that fit ends, and the image it leaves is the volume of the files:
    the super block describes the layout, the log is empty, the root directory holds the
    entries of ., .. and every file, every inode holds the bytes of its file in blocks of
    its own as the kernel's bmap() finds them, and the kernel's bitmap marks exactly the
    blocks before the first one never taken. *)
Theorem mkfs_builds_volume files s v : freeinode s = 1 → v_mkfs files = Some v → ∃ s', mkfs_main files s = Ret tt s' ∧ built (img s') v.
Proof. intros Hi Hv. destruct (proj1 (wp_returns _ _ _) (wp_mkfs_main files s v Hi Hv)) as ([] & s' & E & H). by exists s'. Qed.

Module Image0.
(** two files; the second in two pieces *)
Definition files0 : list (list Z * list (list Z)) := [(bytes_of "user/_cat", [[127; 69; 76; 70]]); (bytes_of "README", [replicate 1024 120; repeat 121 300])].
Definition s0 : image := mkImage ∅ 1 0.
Definition v0 : vol := default v_empty (v_mkfs files0).

Lemma v0_ok : v_mkfs files0 = Some v0.
Proof. by vm_compute. Qed.
(** the root directory, the two files, and four blocks *)
Lemma v0_is : v_next v0 = 4 ∧ v_used v0 = nmeta + 4 ∧ (fst <$> v_files v0 !! 2) = Some T_FILE ∧ (snd <$> v_files v0 !! 2) = Some [127; 69; 76; 70].
Proof. by vm_compute. Qed.

Lemma mkfs_builds_volume_witness : freeinode s0 = 1 ∧ v_mkfs files0 = Some v0 ∧ ∃ s', mkfs_main files0 s0 = Ret tt s' ∧ built (img s') v0.
Proof. split; [reflexivity|]. split; [exact v0_ok|]. exact (mkfs_builds_volume files0 s0 v0 eq_refl v0_ok). Defined.
End Image0.
