(* ===== verification/File.v ===== *)
(** kernel/pipe.c and kernel/file.c: pipes and open files.

    A pipe lives in a page of its own; its fields are kept in the table [pipes]
    under the address of the page, from pipealloc() to the kfree() of the page. *)

From S2P Require Import Prelude Mem Layout Kalloc Vm State Sched Bio Log Console Fs.

Definition PIPESIZE : Z := 512.
(** offsetof(struct pipe, data) *)
Definition PIPE_DATA : Z := 24.

Section Files.
Context `{PageAlloc}.

(** * Pipes *)

(** pi->data[k % PIPESIZE] *)
Definition pipe_byte (k : Z) (p : pipe) : Z := default 0 (pi_data p !! Z.to_nat (k mod PIPESIZE)).

Definition pipeclose (pi : Z) (writable : bool) : M K unit :=
  do! acquire (LkPipe pi) in
  do! (if writable then
         do! upd_pipe pi (set_pi_writeopen false) in
         wakeup (ChPipeR pi)
       else
         do! upd_pipe pi (set_pi_readopen false) in
         wakeup (ChPipeW pi)) in
  let! s := get in
  if negb (pi_readopen (pipe_at pi s)) && negb (pi_writeopen (pipe_at pi s)) then
    do! release (LkPipe pi) in
    do! modify (λ s, set_pipes (delete pi (pipes s)) s) in
    phy_do (pg_free pi)
  else release (LkPipe pi).

(** the loop: [inl] keeps writing, [inr None] returns -1, [inr (Some i)] wrote [i] bytes *)
Definition pipewrite_turn (pi addr n : Z) (pr : nat) (i : Z) : M K (Z + option Z) :=
  if i <? n then
    let! s := get in
    let! dead := (if negb (pi_readopen (pipe_at pi s)) then ret true else
      let! k := killed pr in ret (negb (k =? 0))) in
    if dead : bool then
      do! release (LkPipe pi) in ret (inr None)
    else
    let! s := get in
    let p := pipe_at pi s in
    if pi_nwrite p =? u32 (pi_nread p + PIPESIZE) then
      do! wakeup (ChPipeR pi) in
      do! sleep (ChPipeW pi) (LkPipe pi) in
      ret (inl i)
    else
      let! r := phy_do (copyin (p_pagetable (proc_at pr s)) (u64 (addr + i)) 1) in
      if r.1 =? -1 then ret (inr (Some i)) else
      do! upd_pipe pi (λ p, set_pi_nwrite (u32 (pi_nwrite p + 1))
            (set_pi_data (<[Z.to_nat (pi_nwrite p mod PIPESIZE) := default 0 (r.2 !! 0%nat)]> (pi_data p)) p)) in
      ret (inl (i + 1))
  else ret (inr (Some i)).

Definition pipewrite (pi addr n : Z) : M K Z :=
  let! pr := myproc in
  do! acquire (LkPipe pi) in
  let! r := loop (pipewrite_turn pi addr n pr) 0 in
  match r with
  | None => ret (-1)
  | Some i =>
      do! wakeup (ChPipeR pi) in
      do! release (LkPipe pi) in
      ret i
  end.

(** wait for data or for the last writer to leave; [false]: the process was killed *)
Definition piperead_wait (pi : Z) (pr : nat) : M K bool :=
  loop (λ _ : unit,
    let! s := get in
    let p := pipe_at pi s in
    if (pi_nread p =? pi_nwrite p) && pi_writeopen p then
      let! k := killed pr in
      if negb (k =? 0) then do! release (LkPipe pi) in ret (inr false) else
      do! sleep (ChPipeR pi) (LkPipe pi) in
      ret (inl tt)
    else ret (inr true)) tt.

Definition piperead_copy (pi addr n : Z) (pr : nat) : M K Z :=
  loop (λ i,
    if i <? n then
      let! s := get in
      let p := pipe_at pi s in
      if pi_nread p =? pi_nwrite p then ret (inr i) else
      let ch := pipe_byte (pi_nread p) p in
      do! upd_pipe pi (λ p, set_pi_nread (u32 (pi_nread p + 1)) p) in
      let! r := phy_do (copyout (p_pagetable (proc_at pr s)) (u64 (addr + i)) [ch] 1) in
      if r =? -1 then ret (inr i) else ret (inl (i + 1))
    else ret (inr i)) 0.

Definition piperead (pi addr n : Z) : M K Z :=
  let! pr := myproc in
  do! acquire (LkPipe pi) in
  let! ok := piperead_wait pi pr in
  if negb ok then ret (-1) else
  let! i := piperead_copy pi addr n pr in
  do! wakeup (ChPipeW pi) in
  do! release (LkPipe pi) in
  ret i.

(** * The file table *)

Definition nfiles : list nat := seq 0 100.

Definition filealloc : M K (option nat) :=
  do! acquire LkFtable in
  let! r := for_some nfiles (λ i,
    let! s := get in
    if f_ref (file_at i s) =? 0 then
      do! upd_file i (set_f_ref 1) in
      do! release LkFtable in
      ret (Some i)
    else ret None) in
  match r with
  | Some i => ret (Some i)
  | None => do! release LkFtable in ret None
  end.

Definition filedup (f : nat) : M K nat :=
  do! acquire LkFtable in
  let! s := get in
  if f_ref (file_at f s) <? 1 then panic "filedup" else
  do! upd_file f (λ x, set_f_ref (s32 (f_ref x + 1)) x) in
  do! release LkFtable in
  ret f.

(** f->ip, which the caller dereferences *)
Definition file_ip (x : file) : M K nat := match f_ip x with Some i => ret i | None => ub "f->ip is null" end.

Definition fileclose (f : nat) : M K unit :=
  do! acquire LkFtable in
  let! s := get in
  if f_ref (file_at f s) <? 1 then panic "fileclose" else
  do! upd_file f (λ x, set_f_ref (f_ref x - 1) x) in
  let! s := get in
  if 0 <? f_ref (file_at f s) then release LkFtable else
  let ff := file_at f s in
  do! upd_file f (λ x, set_f_type FD_NONE (set_f_ref 0 x)) in
  do! release LkFtable in
  match f_type ff with
  | FD_PIPE => pipeclose (f_pipe ff) (f_writable ff)
  | FD_INODE | FD_DEVICE =>
      do! begin_op in
      let! ip := file_ip ff in
      do! iput ip in
      end_op
  | FD_NONE => ret tt
  end.

(** the two files of a new pipe, reader first *)
Definition pipealloc : M K (option (nat * nat)) :=
  let! f0 := filealloc in
  let! f1 := (match f0 with None => ret None | Some _ => filealloc end) in
  match f0, f1 with
  | Some a, Some b =>
      let! pi := phy_do pg_alloc in
      if pi =? 0 then do! fileclose a in do! fileclose b in ret None else
      do! modify (λ s, set_pipes (<[pi := mkPipe (ld_bytes (mem (phy s)) (pi + PIPE_DATA) PIPESIZE) 0 0 true true]> (pipes s)) s) in
      do! upd_file a (λ x, set_f_pipe pi (set_f_writable false (set_f_readable true (set_f_type FD_PIPE x)))) in
      do! upd_file b (λ x, set_f_pipe pi (set_f_writable true (set_f_readable false (set_f_type FD_PIPE x)))) in
      ret (Some (a, b))
  | _, _ =>
      do! (match f0 with Some a => fileclose a | None => ret tt end) in
      ret None
  end.

(** * Reading and writing *)

(** struct stat in memory: int, uint, two shorts, padding, uint64 *)
Definition stat_bytes (x : stat) : list Z :=
  le_bytes 4 (st_dev x) ++ le_bytes 4 (st_ino x) ++ le_bytes 2 (st_type x) ++ le_bytes 2 (st_nlink x) ++
  replicate 4 0 ++ le_bytes 8 (st_size x).

Definition filestat (f : nat) (addr : Z) : M K Z :=
  let! p := myproc in
  let! s := get in
  match f_type (file_at f s) with
  | FD_INODE | FD_DEVICE =>
      let! ip := file_ip (file_at f s) in
      do! ilock ip in
      let! s := get in
      let st := stati ip s in
      do! iunlock ip in
      let! r := phy_do (copyout (p_pagetable (proc_at p s)) addr (stat_bytes st) 24) in
      if r <? 0 then ret (-1) else ret 0
  | _ => ret (-1)
  end.

(** devsw[] as consoleinit() fills it: only major number CONSOLE has a driver *)
Definition CONSOLE : Z := 1.
Definition devsw_read (major : Z) : option (dst → Z → M K (Z * list Z)) := if major =? CONSOLE then Some consoleread else None.
Definition devsw_write (major : Z) : option (src → Z → M K Z) := if major =? CONSOLE then Some consolewrite else None.

Definition fileread (f : nat) (addr n : Z) : M K Z :=
  let! s := get in
  let x := file_at f s in
  if negb (f_readable x) then ret (-1) else
  match f_type x with
  | FD_PIPE => piperead (f_pipe x) addr n
  | FD_DEVICE =>
      if (f_major x <? 0) || (NDEV <=? f_major x) then ret (-1) else
      match devsw_read (f_major x) with
      | None => ret (-1)
      | Some rd => let! r := rd (ToUser addr) n in ret r.1
      end
  | FD_INODE =>
      let! ip := file_ip x in
      do! ilock ip in
      let! r := readi ip (ToUser addr) (f_off x) (u32 n) in
      do! when (0 <? r.1) (upd_file f (λ x, set_f_off (u32 (f_off x + r.1)) x)) in
      do! iunlock ip in
      ret r.1
  | FD_NONE => panic "fileread"
  end.

Definition WRITE_MAX : Z := (MAXOPBLOCKS - 1 - 1 - 2) / 2 * BSIZE.

(** one transaction of a write to an inode: what writei() returns *)
Definition filewrite_part (f ip : nat) (addr n1 : Z) : M K Z :=
  do! begin_op in
  do! ilock ip in
  let! s := get in
  let! r := writei ip (FromUser addr) (f_off (file_at f s)) (u32 n1) in
  do! when (0 <? r) (upd_file f (λ x, set_f_off (u32 (f_off x + r)) x)) in
  do! iunlock ip in
  do! end_op in
  ret r.

Definition filewrite (f : nat) (addr n : Z) : M K Z :=
  let! s := get in
  let x := file_at f s in
  if negb (f_writable x) then ret (-1) else
  match f_type x with
  | FD_PIPE => pipewrite (f_pipe x) addr n
  | FD_DEVICE =>
      if (f_major x <? 0) || (NDEV <=? f_major x) then ret (-1) else
      match devsw_write (f_major x) with
      | None => ret (-1)
      | Some wr => wr (FromUser addr) n
      end
  | FD_INODE =>
      let! ip := file_ip x in
      let! i := loop (λ i,
        if i <? n then
          let n1 := Z.min (n - i) WRITE_MAX in
          let! r := filewrite_part f ip (u64 (addr + i)) n1 in
          if negb (r =? n1) then ret (inr i) else ret (inl (i + r))
        else ret (inr i)) 0 in
      ret (if i =? n then n else -1)
  | FD_NONE => panic "filewrite"
  end.

End Files.
