(* ===== verification/PipeSpec.v ===== *)
(** What a pipe promises: a first-in first-out queue of bytes between processes,
    of which pipewrite() and piperead() move user bytes in order, sleeping while
    it is full or empty. *)

From S2P Require Import Prelude Mem Layout Kalloc Vm PageTable VmProofs UserMem Uvm VmSpec State Sched UserCtx Fifo Bio Log Console Fs File.

Definition pipe_queue (x : pipe) : list Z := queue (2 ^ 32) PIPESIZE (pi_data x) (pi_nread x) (pi_nwrite x).
Record pipe_ok (x : pipe) : Prop := {
  po_ring : ring_ok (2 ^ 32) PIPESIZE (pi_data x) (pi_nread x) (pi_nwrite x);
  po_bytes : Forall (λ b, 0 ≤ b < 256) (pi_data x);
}.

Lemma ps_pos : 0 < PIPESIZE. Proof. done. Qed.
Lemma ps_div : (PIPESIZE | 2 ^ 32). Proof. by exists (2 ^ 23). Qed.
Lemma ps_lt : PIPESIZE < 2 ^ 32. Proof. done. Qed.



Lemma pipe_empty x : pipe_ok x → pi_nread x = pi_nwrite x ↔ pipe_queue x = [].
Proof. intros [(_ & Hr & Hw & _) _]. by apply queue_empty. Qed.


Definition pipe_drop (x : pipe) : pipe := set_pi_nread (u32 (pi_nread x + 1)) x.
Lemma pipe_pop x : pipe_ok x → pi_nread x ≠ pi_nwrite x →
  pipe_ok (pipe_drop x) ∧ pipe_queue x = pipe_byte (pi_nread x) x :: pipe_queue (pipe_drop x) ∧ 0 ≤ pipe_byte (pi_nread x) x < 256.
Proof.
  intros [Hr Hb] Hne. destruct (queue_pop _ _ ps_pos ps_div ps_lt _ _ _ Hr Hne) as [H1 H2].
  split; [by split|]. split; [exact H2|]. unfold pipe_byte.
  destruct (pi_data x !! _) as [c|] eqn:E; simpl; [|lia]. by rewrite Forall_lookup in Hb; apply Hb in E.
Qed.

Section Pipes.
Context `{PA : PageAlloc} (p : nat) (root : Z) (T : ptree) (sz pi : Z).

Abbreviation user := (user p root T sz).
Abbreviation ubytes := (ubytes T).
Definition pq (s : K) : list Z := pipe_queue (pipe_at pi s).

Lemma pipe_at_put x s : pipe_at pi (set_pipes (<[pi := x]> (pipes s)) s) = x.
Proof. unfold pipe_at. cbn. by rewrite lookup_insert_eq. Qed.

Lemma unlocked_pipe s : held s = [LkPipe pi] → proc_unlocked s.
Proof. intros Hh i _. rewrite Hh. set_solver. Qed.

Lemma wp_wakeup_pipe ch (Q : unit → K → Prop) E s :
  held s = [LkPipe pi] → user s →
  (∀ s', user s' → held s' = held s → pipes s' = pipes s → phy s' = phy s → Q tt s') → wp (wakeup ch) Q E s.
Proof.
  intros Hh Hu HQ. apply wp_wakeup; [by apply unlocked_pipe|]. apply HQ; try done. by apply user_wake.
Qed.

Section Write.
Context (addr : Z) (b : list Z) (Haddr : 0 ≤ addr) (Hlen : Z.of_nat (length b) < 2 ^ 31).
Abbreviation n := (Z.of_nat (length b)).




(** turns left: two per byte, one less when the writer need not sleep *)
Definition must_sleep (s : K) : Prop := length (pq s) = 512%nat ∧ pi_readopen (pipe_at pi s) = true.
#[local] Instance must_sleep_dec s : Decision (must_sleep s).
Proof. unfold must_sleep. apply _. Defined.





End Write.

Section Read.
Context (addr N : Z) (Haddr : 0 ≤ addr) (HN : 0 ≤ N < 2 ^ 31).

(** a reader's view of the world: the process may write to its buffer *)
Definition reading (s : K) : Prop := user s ∧ pipe_ok (pipe_at pi s) ∧ accessible (mem (phy s)) T addr N.
(** the mappings, and user memory outside the range read into so far *)
Definition spared (i : Z) (s s' : K) : Prop :=
  (∀ v, pte_of (mem (phy s')) T v = pte_of (mem (phy s)) T v) ∧
  ∀ x, 0 ≤ x → umapped (mem (phy s)) T x → ¬ addr ≤ x < addr + i → ubyte T s' x = ubyte T s x.
(** what other processes may do while the reader sleeps: write something, or close the write end *)
Definition feeders (s s' : K) : Prop :=
  reading s' ∧ held s' = [LkProc p] ∧ spared 0 s s' ∧
  ∃ e, pq s' = pq s ++ e ∧ (e ≠ [] ∨ pi_writeopen (pipe_at pi s') = false).
(** the reader sleeps only while the pipe is empty and has a writer *)
Definition starved (s : K) : Prop := reading s ∧ pq s = [] ∧ pi_writeopen (pipe_at pi s) = true.

Lemma reading_pipe s s' : reading s → user s' → pipes s' = pipes s → phy s' = phy s → reading s'.
Proof. intros (Hu & Hok & Ha) Hu' Hp Hphy. unfold reading, pipe_at in *. by rewrite Hp, Hphy. Qed.

Definition got (s0 : K) (q : list Z) (i : Z) (s : K) : Prop :=
  0 ≤ i ≤ N ∧ i ≤ Z.of_nat (length q) ∧ reading s ∧ held s = [LkPipe pi] ∧ pq s = drop (Z.to_nat i) q ∧
  ubytes s addr i = take (Z.to_nat i) q ∧ spared i s0 s ∧ pi_writeopen (pipe_at pi s) = pi_writeopen (pipe_at pi s0).

Lemma ubytes_snoc s i : 0 ≤ i → UserCtx.ubytes T s addr (i + 1) = UserCtx.ubytes T s addr i ++ UserCtx.ubytes T s (addr + i) 1.
Proof. intros Hi. unfold UserCtx.ubytes. by apply uld_bytes_app. Qed.

Lemma ubytes_ext s s' va n : (∀ x, va ≤ x < va + n → ubyte T s' x = ubyte T s x) → UserCtx.ubytes T s' va n = UserCtx.ubytes T s va n.
Proof.
  intros Hx. unfold UserCtx.ubytes, uld_bytes. apply list_fmap_ext. intros i x Hi. apply lookup_seqZ in Hi as [-> Hi].
  apply Hx. lia.
Qed.

Lemma wp_piperead_turn s0 q i s E :
  got s0 q i s → i < N → pi_nread (pipe_at pi s) ≠ pi_nwrite (pipe_at pi s) →
  wp (do! upd_pipe pi (λ p, set_pi_nread (u32 (pi_nread p + 1)) p) in
      let! r := phy_do (copyout (p_pagetable (proc_at p s)) (u64 (addr + i)) [pipe_byte (pi_nread (pipe_at pi s)) (pipe_at pi s)] 1) in
      if r =? -1 then ret (inr i) else ret (inl (i + 1)))
     (λ r s', r = inl (i + 1) ∧ got s0 q (i + 1) s') E s.
Proof.
  intros (Hi & Hiq & (Hu & Hok & Ha) & Hh & Hq & Hb & Hsp & Hwo) Hlt Hne.
  destruct (pipe_pop _ Hok Hne) as (Hok' & Hpop & Hc). set (c := pipe_byte _ _) in *.
  change (pipe_queue (pipe_at pi s)) with (pq s) in Hpop.
  pose proof (f_equal length Hpop) as Hlen. rewrite Hq, length_drop in Hlen. simpl in Hlen.
  assert (q !! Z.to_nat i = Some c) as Hqi by (rewrite <- (Nat.add_0_r (Z.to_nat i)), <- lookup_drop, <- Hq, Hpop; done).
  apply wp_bind, wp_modify. fold (pipe_drop (pipe_at pi s)). set (s1 := set_pipes _ s).
  assert (user s1) as Hu1 by by apply (user_same _ _ _ _ s).
  pose proof (accessible_max _ _ _ _ Ha ltac:(lia)) as Hmax.
  apply wp_bind. rewrite (u_root _ _ _ _ _ Hu), u64_small by (consts; lia).
  apply (wp_user_copyout p root T sz s1 (addr + i) [c]); [done|consts; lia|by apply (accessible_sub _ _ addr N); [|lia|simpl; lia]|by apply Forall_singleton|].
  intros s2 Hu2 Hs2 Hb2 Hpte Hsame. cbn [Z.eqb]. apply wp_ret. split; [done|]. cbn [length] in *. change (Z.of_nat 1) with 1 in *.
  change (phy s1) with (phy s) in *. change (ubyte T s1) with (ubyte T s) in Hsame.
  assert (pipe_at pi s2 = pipe_drop (pipe_at pi s)) as Hp2 by (rewrite Hs2; exact (pipe_at_put _ s)).
  split; [lia|]. split; [lia|]. split; [split; [done|split; [by rewrite Hp2|by apply (accessible_pte (mem (phy s)))]]|]. split; [by rewrite Hs2|]. split; [|split; [|split]].
  - unfold pq. rewrite Hp2. replace (Z.to_nat (i + 1)) with (S (Z.to_nat i)) by lia.
    rewrite Hpop, (drop_S _ _ _ Hqi) in Hq. by injection Hq.
  - rewrite ubytes_snoc by lia. rewrite Hb2. rewrite (ubytes_ext s) by (intros x Hx; apply Hsame; [lia|by replace x with (addr + (x - addr)) by lia; apply Ha; lia|lia]). rewrite Hb.
    replace (Z.to_nat (i + 1)) with (S (Z.to_nat i)) by lia. symmetry. by apply take_S_r.
  - destruct Hsp as [Hp Hsp]. split; [intros v; by rewrite Hpte|]. intros x Hx Hmx Hn. rewrite Hsame; [apply Hsp; [done|done|lia]|done| |lia].
    unfold umapped. by rewrite (xlate_pte (mem (phy s0))).
  - by rewrite Hp2.
Qed.

Lemma got_0 s : reading s → held s = [LkPipe pi] → got s (pq s) 0 s.
Proof. intros HR Hh. repeat (split; [done || lia|]). done. Qed.

Lemma wp_piperead_copy s E :
  reading s → held s = [LkPipe pi] →
  wp (piperead_copy pi addr N p) (λ r s', r = Z.min N (Z.of_nat (length (pq s))) ∧ got s (pq s) r s') E s.
Proof.
  intros HR Hh. unfold piperead_copy. apply (wp_loop _ (got s (pq s)) (λ i _, N - i)); [|by apply got_0|lia].
  intros i s1 HG. pose proof HG as (Hi & Hiq & (Hu & Hok & _) & Hh1 & Hq & _).
  destruct (Z.ltb_spec i N) as [Hlt|]; [|apply wp_ret; by assert (i = Z.min N (Z.of_nat (length (pq s)))) as <- by lia].
  apply wp_bind, wp_get. destruct (Z.eqb_spec (pi_nread (pipe_at pi s1)) (pi_nwrite (pipe_at pi s1))) as [E1|E1].
  - apply (pipe_empty _ Hok) in E1. change (pq s1 = []) in E1. rewrite Hq in E1. apply (f_equal length) in E1.
    rewrite length_drop in E1. simpl in E1. apply wp_ret. by assert (i = Z.min N (Z.of_nat (length (pq s)))) as <- by lia.
  - eapply wp_post; [by apply (wp_piperead_turn s (pq s) i s1)|]. intros r s2 [-> HG2]. split; [done|]. lia.
Qed.

(** asleep, then fed *)
Definition fed (s0 s : K) : Prop :=
  reading s ∧ held s = [LkPipe pi] ∧ spared 0 s0 s ∧ ∃ e, pq s = pq s0 ++ e ∧
  (pq s0 ≠ [] ∨ pi_writeopen (pipe_at pi s0) = false → e = []) ∧ (pq s ≠ [] ∨ pi_writeopen (pipe_at pi s) = false).

Lemma sat_piperead_wait s :
  reading s → held s = [LkPipe pi] → sat (λ r s', r = true ∧ fed s s') nopanic starved feeders (piperead_wait pi p s).
Proof.
  intros HR Hh. unfold piperead_wait.
  apply (sat_loop _ (λ _ s', s' = s ∨ fed s s') (λ _ s', if decide (pq s' = [] ∧ pi_writeopen (pipe_at pi s') = true) then 1 else 0));
    [|by left|destruct (decide _); lia].
  intros [] s1 HI. apply sat_wp_bind, wp_get.
  assert (reading s1 ∧ held s1 = [LkPipe pi]) as [HR1 Hh1] by (destruct HI as [->|(? & ? & _)]; done). pose proof HR1 as (Hu1 & Hok1 & Ha1).
  destruct (decide (pq s1 = [] ∧ pi_writeopen (pipe_at pi s1) = true)) as [[He Hwo]|Hno].
  - assert (s1 = s) as -> by (destruct HI as [->|(_ & _ & _ & e & _ & _ & [?|?])]; [done|done|congruence]).
    rewrite Hwo. pose proof (proj2 (pipe_empty _ Hok1) He) as En. apply Z.eqb_eq in En. rewrite En. cbn [andb].
    apply sat_wp_bind, (wp_user_killed p root T sz); [done|rewrite Hh; set_solver|]. cbn [Z.eqb negb].
    apply sat_mbnd, (sat_sleep _ _ p); [apply (u_cur _ _ _ _ _ Hu1)|done|done|apply (u_lt _ _ _ _ _ Hu1)|..].
    + split; [|done]. by apply (reading_pipe s); [|apply user_asleep|..].
    + intros s2 (HR2 & Hh2 & Hsp & e & Hq & Hcase). split; [apply (u_cur _ _ _ _ _ (proj1 HR2))|]. split; [done|].
      change (pq (asleep p (ChPipeR pi) s)) with (pq s) in Hq.
      assert (pq (awake p (LkPipe pi) (intr s) s2) ≠ [] ∨ pi_writeopen (pipe_at pi (awake p (LkPipe pi) (intr s) s2)) = false) as Hend.
      { destruct Hcase as [Hne|]; [left|by right]. change (pq s2 ≠ []). rewrite Hq, He. done. }
      split; [right|destruct (decide _) as [[??]|]; [|lia]; exfalso; destruct Hend; congruence].
      split; [by apply (reading_pipe s2); [|apply user_awake; apply HR2|..]|]. split; [done|]. split; [done|].
      exists e. split; [done|]. split; [|done]. intros [?|?]; congruence.
  - assert ((pi_nread (pipe_at pi s1) =? pi_nwrite (pipe_at pi s1)) && pi_writeopen (pipe_at pi s1) = false) as ->.
    { apply andb_false_iff. destruct (pi_writeopen (pipe_at pi s1)) eqn:Ew; [left|by right].
      apply Z.eqb_neq. intros E. apply (pipe_empty _ Hok1) in E. destruct Hno. done. }
    split; [done|]. destruct HI as [->|HF]; [|done]. split; [done|]. split; [done|]. split; [done|].
    exists []. rewrite app_nil_r. split; [done|]. split; [done|]. destruct (pq s); [|by left]. right.
    destruct (pi_writeopen (pipe_at pi s)); [|done]. destruct Hno. done.
Qed.

Definition read_result (s : K) (r : Z) (s' : K) : Prop :=
  ∃ e, let q := pq s ++ e in
  (pq s ≠ [] ∨ pi_writeopen (pipe_at pi s) = false → e = []) ∧ r = Z.min N (Z.of_nat (length q)) ∧
  ubytes s' addr r = take (Z.to_nat r) q ∧ pq s' = drop (Z.to_nat r) q ∧ spared r s s' ∧
  (r = 0 → 0 < N → pi_writeopen (pipe_at pi s') = false).

Lemma spared_trans i s1 s2 s3 : 0 ≤ i → spared 0 s1 s2 → spared i s2 s3 → spared i s1 s3.
Proof.
  intros Hi [P1 H1] [P2 H2]. split; [intros v; by rewrite P2|]. intros x Hx Hm Hn. rewrite H2; [apply H1; [done|done|lia]|done| |done].
  unfold umapped. by rewrite (xlate_pte (mem (phy s1))).
Qed.

Lemma sat_piperead s :
  reading s → held s = [] →
  sat (λ r s', reading s' ∧ held s' = [] ∧ read_result s r s') nopanic starved feeders (piperead pi addr N s).
Proof.
  intros HR Hh. pose proof HR as [Hu _]. unfold piperead.
  apply sat_wp_bind, wp_myproc with (p := p); [apply (u_cur _ _ _ _ _ Hu)|]. apply sat_wp_bind, wp_acquire; [rewrite Hh; set_solver|].
  rewrite Hh. set (s1 := set_held [LkPipe pi] s). assert (reading s1) as HR1 by (by apply (reading_pipe s); [|apply (user_same _ _ _ _ s)|..]).
  apply sat_mbnd. eapply sat_mono; [| |by apply (sat_piperead_wait s1)]; [|done].
  intros b s2 [-> (HR2 & Hh2 & Hsp & e & Hq & He & Hend)]. cbn [negb]. apply sat_of_wp, wp_bind.
  eapply wp_post; [by apply (wp_piperead_copy s2)|]. intros r s3 [Hr (Hr3 & Hrq & HR3 & Hh3 & Hq3 & Hb3 & Hsp3 & Hwo3)].
  apply wp_bind, wp_wakeup_pipe; [done|apply HR3|]. intros s4 Hu4 Hh4 Hp4 Hphy4.
  apply wp_bind. eapply wp_release_head; [by rewrite Hh4|]. apply wp_ret.
  assert (pq s4 = pq s3) as Hpq by (unfold pq, pipe_at; by rewrite Hp4).
  split; [|split; [done|]]; [by apply (reading_pipe s3); [|apply (user_same _ _ _ _ s4)|..]|].
  exists e. change (pq s1) with (pq s) in *. rewrite <- Hq. split; [exact He|]. split; [done|]. split; [|split; [|split]].
  - rewrite <- Hb3. unfold UserCtx.ubytes. change (phy (set_held [] s4)) with (phy s4). by rewrite Hphy4.
  - change (pq (set_held [] s4)) with (pq s4). by rewrite Hpq.
  - apply (spared_trans _ s1 s2); [lia|done|]. unfold spared, ubyte in *. change (phy (set_held [] s4)) with (phy s4). by rewrite Hphy4.
  - intros -> HN0. change (pi_writeopen (pipe_at pi s4) = false). unfold pipe_at in *. rewrite Hp4, Hwo3.
    destruct Hend as [Hne|]; [|done]. destruct (pq s2); [done|]. simpl in Hr. lia.
Qed.
End Read.
End Pipes.


(** C15: piperead() is a first-in first-out dequeue.  With [q] the contents of the
    pipe when it has any (after sleeping only if it was empty and had a writer),
    it stores the first min(n, |q|) bytes of [q] at the user's address, where the
    process may write, and nothing else, leaves the rest in the pipe, and returns
    that number; a count of 0 means there is no writer any more. *)
Theorem piperead_fifo `{PA : PageAlloc} p root T sz pi addr N s :
  0 ≤ addr → 0 ≤ N < 2 ^ 31 → reading p root T sz pi addr N s → held s = [] →
  sat (λ r s', reading p root T sz pi addr N s' ∧ held s' = [] ∧ read_result T pi addr N s r s')
    nopanic (starved p root T sz pi addr N) (feeders p root T sz pi addr N) (piperead pi addr N s).
Proof. intros H1 H2 H3 H4. by apply sat_piperead. Qed.

Module Pipe0.
Import Image0 Machine0 User0.

(** process 0 and an empty pipe, and one with three bytes across the wrap *)
Definition base (x : pipe) : K :=
  set_pipes {[ 4096 := x ]} one_user.
Definition wrapped : pipe := mkPipe (<[0%nat := 8]> (<[511%nat := 7]> (replicate 512 0))) (2 ^ 32 - 1) 1 true true.


Lemma piperead_fifo_witness :
  pipe_queue wrapped = [7; 8] ∧
  ∃ A T ph, let s := set_phy ph (base wrapped) in uvm A (pg 0) T ph (below 12288) ∧ guarded (mem ph) T ∧
  sat (λ r s', reading 0 (pg 0) T 12288 4096 100 1 s' ∧ held s' = [] ∧ read_result T 4096 100 1 s r s')
    nopanic (starved 0 (pg 0) T 12288 4096 100 1) (feeders 0 (pg 0) T 12288 4096 100 1) (piperead 4096 100 1 s).
Proof.
  split; [vm_compute; reflexivity|].
  destruct image as (A & T & ph & HU & _ & _ & _ & Hg). exists A, T, ph. split; [exact HU|]. split; [exact Hg|].
  apply (piperead_fifo 0 (pg 0) T 12288 4096 100 1 (set_phy ph (base wrapped))); [lia|lia| |reflexivity].
  split; [apply (user_intro (base wrapped) A); [reflexivity|reflexivity|exact HU|consts; lia]|]. split.
  - split; [split; [reflexivity|vm_compute; intuition discriminate]|].
    apply Forall_insert; [apply Forall_insert; [apply Forall_replicate; lia|lia]|lia].
  - apply (accessible_sub _ _ 0 4096); [apply Hg|lia|lia].
Defined.

End Pipe0.
