(* ===== verification/Proc.v ===== *)
(** kernel/proc.c: the process table, creation and end of processes, the
    scheduler.  [Symbols] holds the addresses the linker assigns. *)

From S2P Require Import Prelude Mem Layout Kalloc Vm State Sched Bio Log Console Fs File.

Class Symbols := { trampoline : Z; etext : Z; forkret_pc : Z; usertrap_pc : Z; uservec_off : Z; userret_off : Z; kernelvec_pc : Z }.

(** * Arrays *)

(** safestrcpy(s, t, n) with k = n - 1, on arrays *)
Fixpoint safestrcpy_l (k : nat) (s t : list Z) : list Z :=
  match s with
  | [] => []
  | _ :: s' =>
      match k with
      | O => 0 :: s'
      | S k' =>
          let c := default 0 (head t) in
          if c =? 0 then 0 :: match s' with _ :: s'' => 0 :: s'' | [] => [] end
          else c :: safestrcpy_l k' s' (tail t)
      end
  end.

(** the trapframe of process [p]: a page of memory with 64-bit fields *)
Definition TF_kernel_satp : Z := 0.
Definition TF_kernel_sp : Z := 8.
Definition TF_kernel_trap : Z := 16.
Definition TF_epc : Z := 24.
Definition TF_kernel_hartid : Z := 32.
Definition TF_sp : Z := 48.
Definition TF_a0 : Z := 112.
Definition TF_a1 : Z := 120.
Definition TF_a7 : Z := 168.
Definition TF_SIZE : Z := 288.
Definition tf_get (p : nat) (off : Z) : M K Z := gets (λ s, ld64 (mem (phy s)) (p_trapframe (proc_at p s) + off)).
Definition tf_set (p : nat) (off v : Z) : M K unit :=
  let! pr := getproc p in
  phy_do (store64 (p_trapframe pr + off) v).

Section Procs.
Context `{PageAlloc} `{Symbols}.

Definition proc_mapstacks (kpgtbl : Z) : M phys unit :=
  for_each nprocs (λ i,
    let! pa := pg_alloc in
    if pa =? 0 then panic "kalloc" else
    kvmmap kpgtbl (KSTACK (Z.of_nat i)) pa PGSIZE (Z.lor PTE_R PTE_W)).

Definition procinit : M K unit :=
  for_each nprocs (λ i, upd_proc i (λ p, set_p_kstack (KSTACK (Z.of_nat i)) (set_p_state UNUSED p))).

(** * Page tables of processes *)

Definition proc_pagetable (trapframe : Z) : M phys Z :=
  let! pagetable := uvmcreate in
  if pagetable =? 0 then ret 0 else
  let! r := mappages pagetable TRAMPOLINE PGSIZE trampoline (Z.lor PTE_R PTE_X) in
  if r <? 0 then do! uvmfree pagetable 0 in ret 0 else
  let! r := mappages pagetable TRAPFRAME PGSIZE trapframe (Z.lor PTE_R PTE_W) in
  if r <? 0 then
    do! uvmunmap pagetable TRAMPOLINE 1 false in
    do! uvmfree pagetable 0 in
    ret 0
  else ret pagetable.

Definition proc_freepagetable (pagetable sz : Z) : M phys unit :=
  do! uvmunmap pagetable TRAMPOLINE 1 false in
  do! uvmunmap pagetable TRAPFRAME 1 false in
  uvmfree pagetable sz.

(** * Allocation *)

Definition freeproc (p : nat) : M K unit :=
  let! pr := getproc p in
  do! when (negb (p_trapframe pr =? 0)) (phy_do (pg_free (p_trapframe pr))) in
  do! upd_proc p (set_p_trapframe 0) in
  do! when (negb (p_pagetable pr =? 0)) (phy_do (proc_freepagetable (p_pagetable pr) (p_sz pr))) in
  upd_proc p (λ x, set_p_state UNUSED (set_p_xstate 0 (set_p_killed 0 (set_p_chan None
    (set_p_name (<[0%nat := 0]> (p_name x)) (set_p_parent None (set_p_pid 0 (set_p_sz 0 (set_p_pagetable 0 x))))))))).

(** the first UNUSED process, locked *)
Definition find_unused : M K (option nat) :=
  for_some nprocs (λ p,
    do! acquire (LkProc p) in
    let! pr := getproc p in
    if bool_decide (p_state pr = UNUSED) then ret (Some p) else
    do! release (LkProc p) in
    ret None).

(** freeproc(p); release(&p->lock); return 0; *)
Definition alloc_fail (p : nat) : M K (option nat) :=
  do! freeproc p in
  do! release (LkProc p) in
  ret None.

Definition allocproc : M K (option nat) :=
  let! r := find_unused in
  match r with
  | None => ret None
  | Some p =>
      let! pid := allocpid in
      do! upd_proc p (set_p_pid pid) in
      do! upd_proc p (set_p_state USED) in
      let! tf := phy_do pg_alloc in
      do! upd_proc p (set_p_trapframe tf) in
      if tf =? 0 then alloc_fail p else
      let! pt := phy_do (proc_pagetable tf) in
      do! upd_proc p (set_p_pagetable pt) in
      if pt =? 0 then alloc_fail p else
      do! upd_proc p (λ x, set_p_context (forkret_pc :: (p_kstack x + PGSIZE) :: replicate 12 0) x) in
      ret (Some p)
  end.

Definition initcode : list Z := [
  0x17; 0x05; 0x00; 0x00; 0x13; 0x05; 0x45; 0x02; 0x97; 0x05; 0x00; 0x00; 0x93; 0x85; 0x35; 0x02;
  0x93; 0x08; 0x70; 0x00; 0x73; 0x00; 0x00; 0x00; 0x93; 0x08; 0x20; 0x00; 0x73; 0x00; 0x00; 0x00;
  0xef; 0xf0; 0x9f; 0xff; 0x2f; 0x69; 0x6e; 0x69; 0x74; 0x00; 0x00; 0x24; 0x00; 0x00; 0x00; 0x00;
  0x00; 0x00; 0x00; 0x00].

Definition userinit : M K unit :=
  let! r := allocproc in
  do! modify (set_initproc r) in
  match r with
  | None => ub "allocproc() is null"
  | Some p =>
      let! pr := getproc p in
      do! phy_do (uvmfirst (p_pagetable pr) initcode 52) in
      do! upd_proc p (set_p_sz PGSIZE) in
      do! tf_set p TF_epc 0 in
      do! tf_set p TF_sp PGSIZE in
      do! upd_proc p (λ x, set_p_name (safestrcpy_l 15 (p_name x) (bytes_of "initcode")) x) in
      let! cwd := namei [SLASH] in
      do! upd_proc p (set_p_cwd cwd) in
      do! upd_proc p (set_p_state RUNNABLE) in
      release (LkProc p)
  end.

Definition growproc (n : Z) : M K Z :=
  let! p := myproc in
  let! pr := getproc p in
  let sz := p_sz pr in
  if 0 <? n then
    let! sz' := phy_do (uvmalloc (p_pagetable pr) sz (u64 (sz + n)) PTE_W) in
    if sz' =? 0 then ret (-1) else
    do! upd_proc p (set_p_sz sz') in
    ret 0
  else if n <? 0 then
    let! sz' := phy_do (uvmdealloc (p_pagetable pr) sz (u64 (sz + n))) in
    do! upd_proc p (set_p_sz sz') in
    ret 0
  else
    do! upd_proc p (set_p_sz sz) in
    ret 0.

(** * fork *)

(** the loop over the open files: np->ofile[i] = filedup(p->ofile[i]) *)
Definition fork_files (p np : nat) : M K unit :=
  for_each (seq 0 16) (λ i,
    let! pr := getproc p in
    match default None (p_ofile pr !! i) with
    | None => ret tt
    | Some f =>
        let! f' := filedup f in
        upd_proc np (λ x, set_p_ofile (<[i := Some f']> (p_ofile x)) x)
    end).

Definition fork : M K Z :=
  let! p := myproc in
  let! r := allocproc in
  match r with
  | None => ret (-1)
  | Some np =>
      let! pr := getproc p in
      let! npr := getproc np in
      let! c := phy_do (uvmcopy (p_pagetable pr) (p_pagetable npr) (p_sz pr)) in
      if c <? 0 then
        do! freeproc np in
        do! release (LkProc np) in
        ret (-1)
      else
      do! upd_proc np (set_p_sz (p_sz pr)) in
      do! phy_do (mem_move (p_trapframe npr) (p_trapframe pr) TF_SIZE) in
      do! tf_set np TF_a0 0 in
      do! fork_files p np in
      let! pr := getproc p in
      let! cwd := (match p_cwd pr with Some d => idup d | None => ub "p->cwd is null" end) in
      do! upd_proc np (set_p_cwd (Some cwd)) in
      do! upd_proc np (λ x, set_p_name (safestrcpy_l 15 (p_name x) (p_name pr)) x) in
      let! npr := getproc np in
      let pid := p_pid npr in
      do! release (LkProc np) in
      do! acquire LkWait in
      do! upd_proc np (set_p_parent (Some p)) in
      do! release LkWait in
      do! acquire (LkProc np) in
      do! upd_proc np (set_p_state RUNNABLE) in
      do! release (LkProc np) in
      ret pid
  end.

(** * exit and wait *)

(** wakeup(p) of a process pointer, which may be null *)
Definition wakeup_proc (q : option nat) : M K unit :=
  match q with
  | Some i => wakeup (ChProc i)
  | None => for_each nprocs (λ p,
      let! c := gets cur in
      when (negb (bool_decide (c = Some p)))
        (do! acquire (LkProc p) in
         let! pr := getproc p in
         do! when (bool_decide (p_state pr = SLEEPING) && bool_decide (p_chan pr = None)) (upd_proc p (set_p_state RUNNABLE)) in
         release (LkProc p)))
  end.

Definition reparent (p : nat) : M K unit :=
  for_each nprocs (λ pp,
    let! pr := getproc pp in
    when (bool_decide (p_parent pr = Some p))
      (let! i := gets initproc in
       do! upd_proc pp (set_p_parent i) in
       wakeup_proc i)).

Definition exit_files (p : nat) : M K unit :=
  for_each (seq 0 16) (λ fd,
    let! pr := getproc p in
    match default None (p_ofile pr !! fd) with
    | None => ret tt
    | Some f =>
        do! fileclose f in
        upd_proc p (λ x, set_p_ofile (<[fd := None]> (p_ofile x)) x)
    end).

Definition exit (status : Z) : M K unit :=
  let! p := myproc in
  let! i := gets initproc in
  if bool_decide (i = Some p) then panic "init exiting" else
  do! exit_files p in
  do! begin_op in
  let! pr := getproc p in
  do! (match p_cwd pr with Some d => iput d | None => ub "p->cwd is null" end) in
  do! end_op in
  do! upd_proc p (set_p_cwd None) in
  do! acquire LkWait in
  do! reparent p in
  let! pr := getproc p in
  do! wakeup_proc (p_parent pr) in
  do! acquire (LkProc p) in
  do! upd_proc p (set_p_xstate status) in
  do! upd_proc p (set_p_state ZOMBIE) in
  do! release LkWait in
  do! sched in
  panic "zombie exit".

(** the scan of the table: [inl havekids], or [inr r] to return [r] *)
Fixpoint wait_scan (l : list nat) (p : nat) (addr : Z) (havekids : bool) : M K (bool + Z) :=
  match l with
  | [] => ret (inl havekids)
  | pp :: l' =>
      let! ppr := getproc pp in
      if negb (bool_decide (p_parent ppr = Some p)) then wait_scan l' p addr havekids else
      do! acquire (LkProc pp) in
      let! ppr := getproc pp in
      if negb (bool_decide (p_state ppr = ZOMBIE)) then
        do! release (LkProc pp) in
        wait_scan l' p addr true
      else
      let pid := p_pid ppr in
      let! pr := getproc p in
      let! c := (if addr =? 0 then ret 0 else
        phy_do (copyout (p_pagetable pr) addr (le_bytes 4 (p_xstate ppr)) 4)) in
      if c <? 0 then
        do! release (LkProc pp) in
        do! release LkWait in
        ret (inr (-1))
      else
        do! freeproc pp in
        do! release (LkProc pp) in
        do! release LkWait in
        ret (inr pid)
  end.

Definition wait_turn (p : nat) (addr : Z) : M K (unit + Z) :=
  let! r := wait_scan nprocs p addr false in
  match r with
  | inr v => ret (inr v)
  | inl havekids =>
      let! k := (if havekids : bool then killed p else ret 1) in
      if negb (k =? 0) then
        do! release LkWait in ret (inr (-1))
      else
        do! sleep (ChProc p) LkWait in ret (inl tt)
  end.

Definition wait (addr : Z) : M K Z :=
  let! p := myproc in
  do! acquire LkWait in
  loop (λ _ : unit, wait_turn p addr) tt.

(** * The scheduler *)

(** the index of rr_scheduler in available_schedulers *)
Definition RR : Z := 0.
Definition SCHEDC : Z := 1.

(** one process in a round; [Some tt] returns from rr_scheduler() *)
Definition rr_one (p : nat) : M K (option unit) :=
  do! acquire (LkProc p) in
  let! pr := getproc p in
  if bool_decide (p_state pr = RUNNABLE) then
    do! upd_proc p (set_p_state RUNNING) in
    do! modify (set_cur (Some p)) in
    do! swtch in
    let! id := gets sched_id in
    if negb (id =? RR) then
      do! release (LkProc p) in ret (Some tt)
    else
      do! modify (set_cur None) in
      do! release (LkProc p) in
      ret None
  else
    do! release (LkProc p) in
    ret None.

Definition rr_round : M K (option unit) := for_some nprocs rr_one.

Definition rr_scheduler : M K unit :=
  do! modify (set_cur None) in
  loop (λ _ : unit,
    do! modify (set_intr true) in  (* intr_on() *)
    let! r := rr_round in
    match r with Some _ => ret (inr tt) | None => ret (inl tt) end) tt.

(** the scheduler sched_pointer points to, for ever *)
Definition scheduler : M K unit :=
  loop (λ _ : unit,
    let! id := gets sched_id in
    if id =? RR then do! rr_scheduler in ret (inl tt) else ub "available_schedulers[id]") tt.

(** available_schedulers[i] *)
Definition sched_name (i : Z) : list Z := bytes_of "Round Robin".
Definition sched_number (i : Z) : Z := 1.
Definition TAB : Z := 9.

Definition schedls : M K unit :=
  do! printf (bytes_of "[ ]" ++ [TAB] ++ bytes_of "Scheduler Name" ++ [TAB] ++ bytes_of "Scheduler ID" ++ [NL]) [] in
  do! printf (bytes_of "====================================" ++ [NL]) [] in
  do! for_each (seqZ 0 SCHEDC) (λ i,
    let! id := gets sched_id in
    do! (if i =? id then printf (bytes_of "[*]" ++ [TAB]) [] else printf (bytes_of "   " ++ [TAB]) []) in
    printf (bytes_of "%s" ++ [TAB] ++ bytes_of "%d" ++ [NL]) [PStr (Some (sched_name i)); PInt (sched_number i)]) in
  printf ([NL] ++ bytes_of "*: current scheduler" ++ [NL; NL]) [].

Definition schedset (id : Z) : M K unit :=
  if (id <? 0) || (SCHEDC <=? id) then
    printf (bytes_of "Scheduler unchanged: ID out of range" ++ [NL]) []
  else
    do! modify (set_sched_id id) in
    printf (bytes_of "Scheduler successfully changed to %s" ++ [NL]) [PStr (Some (sched_name id))].

(** * ps *)

(** sizeof(struct user_proc), sizeof(struct proc), sizeof(proc) *)
Definition USER_PROC_SIZE : Z := 36.
Definition PROC_SIZE : Z := 360.
Definition PROC_TABLE_SIZE : Z := NPROC * PROC_SIZE.

Definition state_num (x : procstate) : Z :=
  match x with UNUSED => 0 | USED => 1 | SLEEPING => 2 | RUNNABLE => 3 | RUNNING => 4 | ZOMBIE => 5 end.

(** loc_result[k] of the array [r] *)
Definition put_state (k : Z) (v : Z) (r : list Z) : list Z := put_u32 (Z.to_nat (k * USER_PROC_SIZE)) v r.
Definition put_user_proc (k : Z) (p : proc) (parent_pid : option Z) (r : list Z) : list Z :=
  let o := Z.to_nat (k * USER_PROC_SIZE) in
  let r := put_u32 (o + 12) (p_pid p) (put_u32 (o + 8) (p_xstate p) (put_u32 (o + 4) (p_killed p) (put_u32 o (state_num (p_state p)) r))) in
  let r := splice (o + 20) (p_name p) r in
  match parent_pid with Some x => put_u32 (o + 16) x r | None => r end.

(** the loop over the table from index [i] with [n] entries filled *)
Fixpoint ps_loop (fuel : nat) (i : nat) (n count : Z) (r : list Z) : M K (Z * list Z) :=
  match fuel with
  | O => ret (n, r)
  | S k =>
      if (64 <=? i)%nat then ret (n, r) else
      if n =? count then ret (n, r) else
      do! acquire (LkProc i) in
      let! s := get in
      let p := proc_at i s in
      if bool_decide (p_state p = UNUSED) then
        do! release (LkProc i) in
        ret (n, put_state n (state_num UNUSED) r)
      else
        let parent := match p_parent p with Some q => Some (p_pid (proc_at q s)) | None => None end in
        do! release (LkProc i) in
        ps_loop k (S i) (u8 (n + 1)) count (put_user_proc n p parent r)
  end.

(** [junk] is what the stack held where loc_result[count] is *)
Definition ps (junk : list Z) (start count : Z) : M K Z :=
  let! p := myproc in
  let! pr := getproc p in
  let result := p_sz pr in
  if count =? 0 then ret 0 else
  let! g := growproc (count * USER_PROC_SIZE) in
  if g <? 0 then ret 0 else
  let first := start * PROC_TABLE_SIZE in
  if NPROC <=? first then ret 0 else
  let! r := ps_loop 65 (Z.to_nat first) 0 count (take (Z.to_nat (count * USER_PROC_SIZE)) junk) in
  let res := if r.1 <? count then put_state r.1 (state_num UNUSED) r.2 else r.2 in
  let! pr := getproc p in
  let! _ := phy_do (copyout (p_pagetable pr) result res (count * USER_PROC_SIZE)) in
  ret result.

End Procs.
