(* ===== verification/SchedSpec.v ===== *)
(** The round-robin scheduler gives every runnable process its turn. *)

From Stdlib Require Import Sorting.Sorted.
From S2P Require Import Prelude Mem Layout Kalloc Vm State Sched Proc.

(** the processes code hands the processor to, in order, when the others behave as [R] says *)
Inductive turns {A} (R : K → K → Prop) : outcome K A → list nat → Prop :=
| turns_ret a s : turns R (Ret a s) []
| turns_swtch s k s' p l : cur s = Some p → R s s' → turns R (k s') l → turns R (Swtch s k) (p :: l).

Definition runnable (q : nat) (s : K) : Prop := p_state (proc_at q s) = RUNNABLE.
#[export] Instance runnable_dec q s : Decision (runnable q s).
Proof. unfold runnable. apply _. Defined.

(** a process gives the processor back: it holds its own lock again, the scheduler is still the round-robin one,
    and no other runnable process has been stopped or taken by another hart *)
Record hands_back (s s' : K) : Prop := {
  hb_held : held s' = held s;
  hb_sched : sched_id s' = RR;
  hb_len : length (procs s') = 64%nat;
  hb_keep q : cur s ≠ Some q → runnable q s → runnable q s';
}.

(** between two processes *)
Record between (s : K) : Prop := {
  bt_held : held s = [];
  bt_sched : sched_id s = RR;
  bt_len : length (procs s) = 64%nat;
}.

(** the processor is given to a process with its lock held and its state RUNNING *)
Definition dispatched (s : K) : Prop := ∃ p, cur s = Some p ∧ held s = [LkProc p] ∧ p_state (proc_at p s) = RUNNING.

(** the state process [p] starts in, and the scheduler after it *)
Definition started (p : nat) (s : K) : K := set_cur (Some p) (set_procs (alter (set_p_state RUNNING) p (procs s)) (set_held [LkProc p] s)).
Definition stopped (s : K) : K := set_held [] (set_cur None s).

Lemma rr_one_skip p s : between s → ¬ runnable p s → rr_one p s = Ret None s.
Proof.
  intros [Hh _ _] Hr. unfold rr_one, mbnd at 1, acquire. rewrite Hh, decide_False by apply not_elem_of_nil. cbn [obind].
  unfold mbnd at 1, getproc, gets. cbn [obind]. change (proc_at p (set_held [LkProc p] s)) with (proc_at p s). rewrite bool_decide_false by done.
  unfold mbnd at 1, release. cbn [held set_held]. rewrite decide_True by by apply list_elem_of_here. cbn [obind unheld]. rewrite decide_True by done.
  unfold ret. f_equal. rewrite <- Hh. by destruct s.
Qed.

Lemma rr_one_run p s : between s → runnable p s →
  ∃ k, rr_one p s = Swtch (started p s) k ∧ ∀ s', held s' = [LkProc p] → sched_id s' = RR → k s' = Ret None (stopped s').
Proof.
  intros [Hh _ _] Hr. unfold rr_one, mbnd at 1, acquire. rewrite Hh, decide_False by apply not_elem_of_nil. cbn [obind].
  unfold mbnd at 1, getproc, gets. cbn [obind]. change (proc_at p (set_held [LkProc p] s)) with (proc_at p s). rewrite bool_decide_true by done.
  unfold mbnd at 1, upd_proc, modify. cbn [obind]. unfold mbnd at 1. cbn [obind]. unfold mbnd at 1, swtch. cbn [obind]. eexists. split; [reflexivity|].
  intros s' Hh' Hs'. cbn beta. unfold ret at 1. cbn [obind]. unfold mbnd at 1. cbn [obind]. rewrite Hs'. cbn [negb Z.eqb RR].
  unfold mbnd at 1. cbn [obind]. unfold mbnd at 1, release. cbn [held set_cur]. rewrite Hh', decide_True by by apply list_elem_of_here. cbn [obind unheld].
  rewrite decide_True by done. reflexivity.
Qed.

Lemma started_at p s : between s → (p < 64)%nat → dispatched (started p s) ∧ ∀ q, q ≠ p → runnable q s → runnable q (started p s).
Proof.
  intros [_ _ Hl] Hp. split.
  - exists p. split_and!; [done|done|]. unfold proc_at, started. cbn. rewrite list_lookup_alter_eq. destruct (lookup_lt_is_Some_2 (procs s) p) as [x ->]; [lia|done].
  - intros q Hq. unfold runnable, proc_at, started. cbn. by rewrite list_lookup_alter_ne.
Qed.

Lemma stopped_between p s s' : between s → (p < 64)%nat → hands_back (started p s) s' →
  held s' = [LkProc p] ∧ sched_id s' = RR ∧ between (stopped s') ∧ ∀ q, q ≠ p → runnable q s → runnable q (stopped s').
Proof.
  intros HB Hp [H1 H2 H3 H4]. split_and!; [exact H1|exact H2|by split|]. intros q Hq Hr. apply (H4 q); [by intros [= ->]|]. by apply started_at.
Qed.

(** the rest of a round *)
Lemma round_from n k s : (k + n = 64)%nat → between s →
  sat (λ r s', r = None ∧ between s') nopanic dispatched hands_back (for_some (seq k n) rr_one s) ∧
  ∀ l, turns hands_back (for_some (seq k n) rr_one s) l →
    StronglySorted lt l ∧ Forall (λ q, k ≤ q)%nat l ∧ ∀ q, (k ≤ q < 64)%nat → runnable q s → q ∈ l.
Proof.
  revert k s. induction n as [|n IH]; intros k s Hk HB; cbn [seq for_some].
  { split; [done|]. intros l Hl. inversion Hl; subst. split_and!; [constructor|constructor|intros; lia]. }
  destruct (decide (runnable k s)) as [Hr|Hr].
  - destruct (rr_one_run k s HB Hr) as (c & E & Hc). unfold mbnd. rewrite E. cbn [obind sat].
    assert (∀ s', hands_back (started k s) s' → between (stopped s') ∧ (∀ q, q ≠ k → runnable q s → runnable q (stopped s')) ∧
      obind (c s') (λ r, match r with Some b => ret (Some b) | None => for_some (seq (S k) n) rr_one end) = for_some (seq (S k) n) rr_one (stopped s')) as Hnext.
    { intros s' Hs. destruct (stopped_between k s s' HB ltac:(lia) Hs) as (H1 & H2 & H3 & H4). split_and!; [done|done|]. by rewrite (Hc s' H1 H2). }
    split.
    + split; [by apply started_at; [|lia]|]. intros s' Hs. destruct (Hnext s' Hs) as (H1 & _ & ->). by apply IH; [lia|].
    + intros l Hl. inversion Hl as [|? ? s' p l' Hcur Hs Ht]; subst. cbn in Hcur. injection Hcur as <-. destruct (Hnext s' Hs) as (H1 & H2 & H3). rewrite H3 in Ht.
      destruct (IH (S k) (stopped s') ltac:(lia) H1) as [_ HI]. destruct (HI l' Ht) as (I1 & I2 & I3). split_and!.
      * constructor; [done|]. eapply Forall_impl; [exact I2|]. intros q Hq. cbn in Hq. lia.
      * constructor; [lia|]. eapply Forall_impl; [exact I2|]. intros q Hq. cbn in Hq. lia.
      * intros q Hq Hrq. destruct (decide (q = k)) as [->|Hne]; [left|right]. apply I3; [lia|by apply H2].
  - unfold mbnd. rewrite (rr_one_skip k s HB Hr). cbn [obind]. destruct (IH (S k) s ltac:(lia) HB) as [I0 HI]. split; [exact I0|].
    intros l Ht. destruct (HI l Ht) as (I1 & I2 & I3). split_and!; [done| |].
    + eapply Forall_impl; [exact I2|]. intros q Hq. cbn in Hq. lia.
    + intros q Hq Hrq. destruct (decide (q = k)) as [->|Hne]; [done|]. apply I3; [lia|done].
Qed.

(** C16: round robin is fair.  A round of rr_scheduler() over the process table comes to its end whenever the processes
    it runs give the processor back, it hands the processor over only with the process marked RUNNING and its
    lock held, it goes through the table in order, running no process twice, and every process that is runnable
    when the round starts gets its turn. *)
Theorem rr_round_fair s : between s →
  sat (λ r s', r = None ∧ between s') nopanic dispatched hands_back (rr_round s) ∧
  ∀ l, turns hands_back (rr_round s) l → StronglySorted lt l ∧ ∀ q, (q < 64)%nat → runnable q s → q ∈ l.
Proof.
  intros HB. destruct (round_from 64 0 s eq_refl HB) as [H1 H2]. split; [exact H1|]. intros l Hl. destruct (H2 l Hl) as (H3 & _ & H4).
  split; [exact H3|]. intros q Hq. apply H4. lia.
Qed.

Module Sched0.
(** processes 2 and 5 are runnable *)
Definition two : K := set_procs (alter (set_p_state RUNNABLE) 2%nat (alter (set_p_state RUNNABLE) 5%nat (replicate 64 proc0))) (k_boot ∅).

Lemma rr_round_fair_witness :
  sat (λ r s', r = None ∧ between s') nopanic dispatched hands_back (rr_round two) ∧
  ∀ l, turns hands_back (rr_round two) l → 2%nat ∈ l ∧ 5%nat ∈ l.
Proof.
  destruct (rr_round_fair two) as [H1 H]; [split; vm_compute; reflexivity|]. split; [exact H1|]. intros l Hl. destruct (H l Hl) as [_ Hq].
  split; apply Hq; [lia|vm_compute; reflexivity|lia|vm_compute; reflexivity].
Defined.
End Sched0.
