(* ===== verification/ForkSpec.v ===== *)
(** proc.c: a process is made by allocproc() from free pages only, and fork()
    makes it a copy of its parent. *)

From S2P Require Import Prelude Mem Layout Kalloc Vm PageTable VmProofs UserMem Uvm VmSpec State Sched Bio Log Console Fs File Proc.

(** * A new address space *)

Definition no_tables : ptree := mkTree ∅ ∅.

Lemma table_no_tables root p : table root no_tables p → p = root.
Proof. intros [H|[[i Hi]|[i Hi]]]; done. Qed.

Lemma pt_rep_no_tables m root :
  phys_page root → (∀ a, in_page root a → ld8 m a = 0) → pt_rep m root no_tables.
Proof.
  intros Hr Hz. constructor; cbn [lev1 lev0 no_tables]; try done.
  - by intros p ->%table_no_tables.
  - intros i Hi. rewrite lookup_empty. symmetry. by apply (entry_page_zero root).
Qed.

Section Made.
Context `{PA : PageAlloc}.

Lemma uvmcreate_ok A s :
  pg_rep A s →
  wp uvmcreate (λ r s', ∃ fl, free A = r :: fl ∧ vm_inv (mkAlloc fl (<[r := 1]> (refs A))) r no_tables s' ∧
                 same_outside r (mem s) (mem s')) (oom 1 A) s.
Proof.
  intros HA. unfold uvmcreate. apply wp_bind, (wp_pg_alloc A); [done| |].
  2: { intros s1 Hf. split; [done|]. rewrite Hf. simpl. lia. }
  intros x fl s1 Hfl Hx HA1 Hout. assert ((x =? 0) = false) as -> by (destruct Hx as [_ Hx]; consts; lia).
  wp_mem. exists fl. split; [done|].
  assert (same_outside x (mem s1) (memset (mem s1) x 0 PGSIZE)) as Hset by apply same_outside_memset.
  split; [|by eapply same_outside_trans].
  pose proof (pg_nodup A s HA) as Hnd. rewrite Hfl in Hnd. apply NoDup_cons in Hnd as [Hxfl _].
  constructor; cbn [mem set_mem refs].
  - apply pg_rep_mem; [done|]. cbn [free]. intros y a Hy Hin. apply Hset.
    assert (phys_page y) as Hyp by (eapply (pg_free_page A s); [done|rewrite Hfl; set_solver]).
    eapply pages_apart; [apply Hyp|apply Hx| |exact Hin]. by intros ->.
  - apply pt_rep_no_tables; [done|]. intros a Hin. rewrite ld8_memset. unfold in_page in Hin.
    bool_true ((x <=? a) && (a <? x + PGSIZE)). done.
  - intros p ->%table_no_tables. cbn [refs]. by rewrite lookup_insert_eq.
Qed.

(** The address space at [root] was made of pages that were free, and what was
    allocated before is as it was. *)
Record made (A : alloc_st) (s : phys) (root : Z) (A' : alloc_st) (T' : ptree) (s' : phys) (P : Z → Prop) : Prop := {
  md_uvm : uvm A' root T' s' P;
  md_foot p : foot root T' (mem s') P p → p ∈ free A;
  md_free p : p ∈ free A' → p ∈ free A;
  md_refs p c : refs A !! p = Some c → refs A' !! p = Some c;
  md_mem p a : is_Some (refs A !! p) → in_page p a → ld8 (mem s') a = ld8 (mem s) a;
}.

(** every page that left the free list is one of [F] *)
Definition nothing_lost (A A' : alloc_st) (F : Z → Prop) : Prop := ∀ p, p ∈ free A → p ∈ free A' ∨ F p.

Lemma grow_made A s root fl s1 A2 T2 s2 used :
  pg_rep A s → free A = root :: fl → same_outside root (mem s) (mem s1) →
  grow root (mkAlloc fl (<[root := 1]> (refs A))) no_tables s1 A2 T2 s2 used →
  uvm A2 root T2 s2 (λ _, False) →
  made A s root A2 T2 s2 (λ _, False) ∧ nothing_lost A A2 (foot root T2 (mem s2) (λ _, False)).
Proof.
  intros HA Hfl Hout HG HU. pose proof (g_free HG) as Hf. cbn [free] in Hf.
  assert (∀ p, p ∈ root :: used → p ∈ free A) as Hused by (rewrite Hfl, Hf; set_solver).
  assert (∀ p, table root T2 p → p ∈ free A) as Htab.
  { intros p Hp. destruct (g_new HG p Hp) as [->%table_no_tables|]; apply Hused; set_solver. }
  split.
  2: { intros p Hp. rewrite Hfl, Hf in Hp. apply elem_of_cons in Hp as [->|[Hp|Hp]%elem_of_app]; [| |by left]; right; left.
       - apply (g_old HG). by left.
       - by apply (g_tab HG). }
  constructor; [done| | | |].
  - intros p [Hp|(va & _ & _ & [] & _)]. by apply Htab.
  - rewrite Hfl, Hf. set_solver.
  - intros p c Hp. apply (g_refs HG). cbn [refs]. rewrite lookup_insert_ne; [done|]. intros <-.
    by rewrite (free_not_refs A s root HA) in Hp by (apply Hused; set_solver).
  - intros p a Hp Hin.
    assert (∀ q, q ∈ root :: used → ¬ in_page q a) as Hne.
    { intros q Hq. destruct (pg_refs_page A s p HA Hp) as [Hpp Hnf]. specialize (Hused q Hq).
      pose proof (pg_free_page A s q HA Hused) as Hqp. eapply pages_apart; [apply Hpp|apply Hqp| |done]. by intros ->. }
    rewrite (g_frame HG); [apply Hout, Hne; set_solver| |].
    + intros q ->%table_no_tables. apply Hne. set_solver.
    + intros q Hq. apply Hne. set_solver.
Qed.

End Made.

(** * proc_pagetable *)

(** The two pages above the process image. *)
Definition RX : Z := Z.lor PTE_R PTE_X.
Definition RW : Z := Z.lor PTE_R PTE_W.

Lemma high_pages va : aligned va → TRAPFRAME ≤ va < MAXVA → va = TRAPFRAME ∨ va = TRAMPOLINE.
Proof. unfold aligned. consts. intros. Z.div_mod_to_equations. lia. Qed.

Section PageTables.
Context `{PA : PageAlloc} `{Sy : Symbols}.

(** the trampoline is a page of the kernel's text *)
Definition text_page : Prop := pte_pa trampoline ∧ trampoline + PGSIZE ≤ 2 ^ 56.

(** what an address space maps above the image *)
Definition high_maps (m : gmap Z Z) (T : ptree) (tf : Z) : Prop :=
  pte_of m T TRAMPOLINE = leaf trampoline RX ∧ pte_of m T TRAPFRAME = leaf tf RW.

Lemma high_uvm A root T s tf :
  text_page → phys_page tf → vm_inv A root T s → high_maps (mem s) T tf →
  (∀ va, aligned va → 0 ≤ va < TRAPFRAME → pte_of (mem s) T va = 0) → uvm A root T s (λ _, False).
Proof.
  intros [Ht _] Htf HI [H1 H2] H0. constructor; [done|done|done| |].
  - intros va Ha Hr _. by rewrite H0.
  - intros va Ha Hr. destruct (high_pages va Ha Hr) as [->| ->]; [rewrite H2|rewrite H1]; by rewrite leaf_user by auto with cmem.
Qed.

Lemma proc_pagetable_ok A s tf :
  pg_rep A s → text_page → phys_page tf →
  wp (proc_pagetable tf)
    (λ r s', (r =? 0) = false ∧ ∃ A' T', made A s r A' T' s' (λ _, False) ∧ high_maps (mem s') T' tf ∧
               nothing_lost A A' (foot r T' (mem s') (λ _, False)) ∧
               Z.of_nat (length (free A)) ≤ Z.of_nat (length (free A')) + 5) (oom 5 A) s.
Proof.
  intros HA [Hp1 Hp2] Htf. unfold proc_pagetable. apply wp_bind.
  eapply wp_mono; [by apply (uvmcreate_ok A)| |].
  2: { intros msg s' [-> Hl]. split; [done|lia]. }
  intros r s1 (fl & Hfl & HI1 & Hout). cbn beta.
  assert (phys_page r) as Hr by (eapply (pg_free_page A s); [done|rewrite Hfl; set_solver]).
  assert ((r =? 0) = false) as Hr0 by (destruct Hr as [_ Hr]; consts; lia). rewrite Hr0.
  destruct (npages_page TRAMPOLINE ltac:(done)) as (Hn1 & _). destruct (npages_page TRAPFRAME ltac:(done)) as (Hn2 & _).
  apply wp_bind. eapply wp_mono; [apply (mappages_ok r _ no_tables _ TRAMPOLINE PGSIZE trampoline RX HI1)| |]; try done.
  2: { rewrite Hn1. intros msg s' [-> Hl]. cbn [free] in Hl. split; [done|]. rewrite Hfl. cbn [length]. lia. }
  intros z s2 (-> & A2 & T2 & u2 & HG2 & Hu2 & HL2). rewrite Hn1 in Hu2. cbn [Z.ltb Z.compare].
  assert (∀ va, aligned va → 0 ≤ va < MAXVA → pte_of (mem s2) T2 va = if decide (va = TRAMPOLINE) then leaf trampoline RX else 0) as HP2.
  { intros va Ha Hva. rewrite HL2 by done. rewrite (decide_ext _ (va = TRAMPOLINE)) by by apply in_span_page.
    case_decide; [|done]. subst va. unfold first_page. f_equal. lia. }
  apply wp_bind. eapply wp_mono; [apply (mappages_ok r _ T2 _ TRAPFRAME PGSIZE tf RW (g_inv HG2))| |]; try done.
  { by apply phys_page_pte. }
  { rewrite Hn2. destruct Htf as [_ Htf]. consts. lia. }
  { intros va Hva Hsp. rewrite <- pte_of_page, HP2 by (apply PGROUNDDOWN_aligned || by apply PGROUNDDOWN_range).
    rewrite decide_False; [done|]. unfold in_span in Hsp. destruct (npages_page TRAPFRAME ltac:(done)) as (_ & E1 & E2).
    rewrite E1, E2 in Hsp. consts. lia. }
  2: { rewrite Hn2. intros msg s' [-> Hl]. pose proof (g_free HG2) as E. cbn [free] in E. split; [done|].
       rewrite Hfl, E. cbn [length]. rewrite length_app. lia. }
  intros z s3 (-> & A3 & T3 & u3 & HG3 & Hu3 & HL3). rewrite Hn2 in Hu3. cbn [Z.ltb Z.compare]. apply wp_ret.
  pose proof (grow_trans _ _ _ _ _ _ _ _ _ _ _ _ HG2 HG3) as HG.
  assert (∀ va, aligned va → 0 ≤ va < MAXVA → pte_of (mem s3) T3 va =
    if decide (va = TRAPFRAME) then leaf tf RW else if decide (va = TRAMPOLINE) then leaf trampoline RX else 0) as HP3.
  { intros va Ha Hva. rewrite HL3 by done. rewrite (decide_ext _ (va = TRAPFRAME)) by by apply in_span_page.
    case_decide; [|by apply HP2]. subst va. unfold first_page. f_equal. lia. }
  assert (high_maps (mem s3) T3 tf) as Hhigh by (split; by rewrite HP3 by done).
  assert (uvm A3 r T3 s3 (λ _, False)) as HU.
  { apply (high_uvm _ _ _ _ tf); [done|done|apply HG|done|].
    intros va Ha Hva. rewrite HP3 by (done || (consts; lia)). rewrite !decide_False by (consts; lia). done. }
  destruct (grow_made _ _ _ _ _ _ _ _ _ HA Hfl Hout HG HU) as [HM Hlost].
  split; [done|]. exists A3, T3. split; [done|]. split; [done|]. split; [done|].
  pose proof (g_free HG) as E. cbn [free] in E. rewrite Hfl, E. cbn [length]. rewrite !length_app. lia.
Qed.

End PageTables.

(** * allocproc *)

(** the slot of an unused process *)
Definition unused (s : K) : option (nat * proc) := list_find (λ p, p_state p = UNUSED) (procs s).

Lemma wp_find_unused (Q : option nat → K → Prop) E s :
  held s = [] → length (procs s) = 64%nat →
  match unused s with Some (i, _) => Q (Some i) (set_held [LkProc i] s) | None => Q None s end →
  wp find_unused Q E s.
Proof.
  intros Hh Hlen HQ. unfold find_unused.
  apply (wp_for_some nprocs [] nprocs _ (λ d s', s' = s ∧ ∀ i, (i < length d)%nat → p_state (proc_at i s) ≠ UNUSED));
    [| |done|split; [done|simpl; lia]].
  - intros d p l s' Hd [-> Hno]. destruct (nprocs_split d p l Hd) as [-> Hl]. set (i := length d) in *.
    assert (∃ x, procs s !! i = Some x) as [x Hx] by (apply lookup_lt_is_Some_2; lia).
    assert (proc_at i s = x) as Hpx by (unfold proc_at; by rewrite Hx).
    wp_k; [by rewrite Hh; set_solver|]. change (proc_at i (set_held _ s)) with (proc_at i s). rewrite Hpx.
    case_bool_decide as Hs; wp_k.
    + unfold unused in HQ. rewrite (proj2 (list_find_Some _ _ i x)) in HQ; [by rewrite Hh|]. split; [done|]. split; [done|].
      intros j y Hj Hlt. specialize (Hno j Hlt). unfold proc_at in Hno. by rewrite Hj in Hno.
    + kst. split; [by rewrite set_held_same|]. intros j Hj. rewrite length_app in Hj. simpl in Hj.
      destruct (decide (j = i)) as [->|]; [by rewrite Hpx|]. apply Hno. lia.
  - intros s' [-> Hno]. unfold unused in HQ. destruct (list_find _ (procs s)) as [[i x]|] eqn:Hf; [|done].
    apply list_find_Some in Hf as (Hx & Hst & _). pose proof (lookup_lt_Some _ _ _ Hx).
    destruct (Hno i); [unfold nprocs; rewrite length_seq; lia|]. unfold proc_at. by rewrite Hx.
Qed.

Lemma unused_at s i x : unused s = Some (i, x) → procs s !! i = Some x ∧ p_state x = UNUSED.
Proof. intros Hu. unfold unused in Hu. apply list_find_Some in Hu as (H1 & H2 & _). done. Qed.

Section Allocproc.
Context `{PA : PageAlloc} `{Sy : Symbols}.

(** the slot as allocproc() leaves it *)
Definition embryo (pid tf pt : Z) (x : proc) : proc :=
  set_p_context (forkret_pc :: (p_kstack x + PGSIZE) :: replicate 12 0)
    (set_p_pagetable pt (set_p_trapframe tf (set_p_state USED (set_p_pid pid x)))).

(** a page and then an address space taken from the free list *)
Record newborn (A : alloc_st) (s : phys) (tf pt : Z) (A' : alloc_st) (T' : ptree) (s' : phys) (P : Z → Prop) : Prop := {
  nb_made : made A s pt A' T' s' P;
  nb_tf : tf ∈ free A;
  nb_tf_refs : refs A' !! tf = Some 1;
  nb_tf_foot : ¬ foot pt T' (mem s') P tf;
  nb_high : high_maps (mem s') T' tf;
  nb_lost : nothing_lost A A' (λ p, p = tf ∨ foot pt T' (mem s') P p);
}.

Lemma newborn_intro A s tf fl s1 pt A' T' s' P :
  pg_rep A s → free A = tf :: fl → same_outside tf (mem s) (mem s1) →
  made (mkAlloc fl (<[tf := 1]> (refs A))) s1 pt A' T' s' P → high_maps (mem s') T' tf →
  nothing_lost (mkAlloc fl (<[tf := 1]> (refs A))) A' (foot pt T' (mem s') P) →
  newborn A s tf pt A' T' s' P.
Proof.
  intros HA Hfl Hout HM Hhigh Hlost. pose proof (pg_nodup A s HA) as Hnd. rewrite Hfl in Hnd. apply NoDup_cons in Hnd as [Hn _].
  assert (tf ∈ free A) as Htf by (rewrite Hfl; set_solver).
  assert (∀ p, is_Some (refs A !! p) → p ≠ tf) as Hne.
  { intros p [c Hc] ->. by rewrite (free_not_refs A s tf HA Htf) in Hc. }
  constructor; [|done| | |done|].
  - constructor.
    + apply HM.
    + intros p Hp. pose proof (md_foot _ _ _ _ _ _ _ HM p Hp) as Hf. cbn [free] in Hf. rewrite Hfl. set_solver.
    + intros p Hp. pose proof (md_free _ _ _ _ _ _ _ HM p Hp) as Hf. cbn [free] in Hf. rewrite Hfl. set_solver.
    + intros p c Hp. apply (md_refs _ _ _ _ _ _ _ HM). cbn [refs].
      rewrite lookup_insert_ne; [done|]. intros <-. by eapply Hne.
    + intros p a Hp Hin. pose proof (Hne p Hp) as Hpt.
      rewrite (md_mem _ _ _ _ _ _ _ HM p) by (done || (cbn [refs]; rewrite lookup_insert_ne by done; done)).
      apply Hout. destruct (pg_refs_page A s p HA Hp) as [Hpp _]. pose proof (pg_free_page A s tf HA Htf) as Htp.
      eapply pages_apart; [apply Hpp|apply Htp|done|done].
  - apply (md_refs _ _ _ _ _ _ _ HM). cbn [refs]. by rewrite lookup_insert_eq.
  - intros Hf. by apply (md_foot _ _ _ _ _ _ _ HM) in Hf.
  - intros p Hp. rewrite Hfl in Hp. apply elem_of_cons in Hp as [->|Hp]; [by right; left|]. destruct (Hlost p Hp); auto.
Qed.

Lemma allocproc_ok A s np x :
  pg_rep A (phy s) → text_page → held s = [] → length (procs s) = 64%nat → unused s = Some (np, x) →
  wp allocproc
    (λ r s', r = Some np ∧ ∃ tf pt ph A' T', newborn A (phy s) tf pt A' T' ph (λ _, False) ∧
       Z.of_nat (length (free A)) ≤ Z.of_nat (length (free A')) + 6 ∧
       s' = set_held [LkProc np] (set_phy ph (set_nextpid (s32 (nextpid s + 1))
              (set_procs (alter (embryo (nextpid s) tf pt) np (procs s)) s))))
    (λ msg s', oom 6 A msg (phy s')) s.
Proof.
  intros HA Htext Hh Hlen Hun. unfold allocproc. apply wp_bind, wp_find_unused; [done..|]. rewrite Hun.
  unfold allocpid. wp_k; [set_solver|]. unfold phy_do. apply wp_lift. kst.
  apply (wp_pg_alloc A); [done| |].
  2: { intros s1 Hf. split; [done|]. rewrite Hf. simpl. lia. }
  intros tf fl ph1 Hfl Htf HA1 Hout. wp_k. assert ((tf =? 0) = false) as -> by (destruct Htf as [_ Htf]; consts; lia).
  wp_k. unfold phy_do. apply wp_lift. kst.
  eapply wp_mono; [by apply (proc_pagetable_ok (mkAlloc fl (<[tf := 1]> (refs A))) ph1 tf)| |].
  2: { intros msg s' [-> Hl]. cbn [free] in Hl. split; [done|]. rewrite Hfl. cbn [length]. lia. }
  intros pt ph2 (Hpt & A' & T' & HM & Hhigh & Hlost & Hl). cbn [free] in Hl. wp_k. kst. split; [done|].
  exists tf, pt, ph2, A', T'. split; [by eapply newborn_intro|]. split; [rewrite Hfl; cbn [length]; lia|].
  rewrite !alter_compose. done.
Qed.

End Allocproc.

(** * The pages of the child *)

Section Child.
Context `{PA : PageAlloc} `{Sy : Symbols}.
Context (A : alloc_st) (s : phys) (tf pt : Z).

(** an address space that was there before *)
Lemma newborn_other A' T' s' P root T PO :
  newborn A s tf pt A' T' s' P → uvm A root T s PO → uvm A' root T s' PO ∧ ukeep (mem s) T (mem s') T PO.
Proof.
  intros [HM _ _ _ _ _] HO. apply (uvm_frame A A' root T s s' PO HO).
  - apply HM.
  - intros p c _. apply (md_refs _ _ _ _ _ _ _ HM).
  - intros p a Hp. apply (md_mem _ _ _ _ _ _ _ HM). by eapply foot_refs.
Qed.

Lemma newborn_grow A1 T1 s1 P A2 T2 s2 P' :
  pg_rep A s → newborn A s tf pt A1 T1 s1 P → ugrow A1 pt T1 s1 P A2 T2 s2 P' → newborn A s tf pt A2 T2 s2 P'.
Proof.
  intros HA [HM Htf Hrf Hnf Hhigh Hlost] HG. pose proof (md_uvm _ _ _ _ _ _ _ HM) as HU1. constructor.
  - constructor.
    + apply HG.
    + intros p Hp. destruct (ug_foot _ _ _ _ _ _ _ _ _ HG p Hp); [by apply (md_foot _ _ _ _ _ _ _ HM)|by apply (md_free _ _ _ _ _ _ _ HM)].
    + intros p Hp. by apply (md_free _ _ _ _ _ _ _ HM), (ug_free _ _ _ _ _ _ _ _ _ HG).
    + intros p c Hp. by apply (ug_refs _ _ _ _ _ _ _ _ _ HG), (md_refs _ _ _ _ _ _ _ HM).
    + intros p a Hp Hin. rewrite (ug_mem _ _ _ _ _ _ _ _ _ HG p); [by apply (md_mem _ _ _ _ _ _ _ HM p)| | |done].
      * destruct Hp as [c Hc]. exists c. by apply (md_refs _ _ _ _ _ _ _ HM).
      * intros Ht. destruct Hp as [c Hc].
        rewrite (free_not_refs A s p HA) in Hc; [done|]. apply (md_foot _ _ _ _ _ _ _ HM). by left.
  - done.
  - by apply (ug_refs _ _ _ _ _ _ _ _ _ HG).
  - intros Hp. destruct (ug_foot _ _ _ _ _ _ _ _ _ HG tf Hp) as [|Hf]; [done|].
    by rewrite (free_not_refs A1 s1 tf ltac:(apply HU1) Hf) in Hrf.
  - destruct Hhigh as [H1 H2]. split; by rewrite (ug_high _ _ _ _ _ _ _ _ _ HG).
  - intros p Hp. destruct (Hlost p Hp) as [Hf|[->|[Ht|(va & Ha & Hr & HPv & ->)]]].
    + destruct (ug_leak _ _ _ _ _ _ _ _ _ HG p Hf); auto.
    + right. by left.
    + right. right. left. by apply (ug_old _ _ _ _ _ _ _ _ _ HG).
    + right. right. right. exists va. split_and!; try lia; [done|by eapply (ug_sub _ _ _ _ _ _ _ _ _ HG)|].
      unfold upage. by rewrite (proj1 (ug_keep _ _ _ _ _ _ _ _ _ HG va Ha Hr HPv)).
Qed.

(** writing the trapframe *)
Lemma newborn_write A' T' s' P m :
  pg_rep A s → newborn A s tf pt A' T' s' P → same_outside tf (mem s') m →
  newborn A s tf pt A' T' (set_mem m s') P ∧ ukeep (mem s') T' m T' P.
Proof.
  intros HA [HM Htf Hrf Hnf Hhigh Hlost] Hout. pose proof (md_uvm _ _ _ _ _ _ _ HM) as HU.
  assert (∀ p a, phys_page p → p ≠ tf → in_page p a → ld8 m a = ld8 (mem s') a) as Hm.
  { intros p a Hp Hne Hin. apply Hout. pose proof (pg_free_page A s tf HA Htf) as Htp.
    eapply pages_apart; [apply Hp|apply Htp|done|done]. }
  assert (pg_rep A' s') as HA' by apply HU.
  assert (pg_rep A' (set_mem m s')) as HA2.
  { apply pg_rep_mem; [done|]. intros x a Hx. apply Hm; [by eapply (pg_free_page A' s')|].
    intros ->. by rewrite (free_not_refs A' s' tf HA' Hx) in Hrf. }
  assert (∀ p a, foot pt T' (mem s') P p → in_page p a → ld8 m a = ld8 (mem s') a) as Hfoot.
  { intros p a Hp. apply Hm; [by eapply foot_refs|]. by intros ->. }
  assert (∀ va, pte_of m T' va = pte_of (mem s') T' va) as Hpte.
  { intros va. apply (pte_of_frame _ pt). intros p a Hp. apply Hfoot. by left. }
  destruct (uvm_frame A' A' pt T' s' (set_mem m s') P HU HA2) as [HU2 Hk]; [done|done|]. split; [|done].
  assert (∀ p, foot pt T' m P p ↔ foot pt T' (mem s') P p) as Hf2.
  { intros p. unfold foot, upage. by setoid_rewrite Hpte. }
  constructor; [|done|done| | |].
  - constructor; [done| | | |]; cbn [mem set_mem].
    + intros p Hp. by apply (md_foot _ _ _ _ _ _ _ HM), Hf2.
    + apply HM.
    + apply HM.
    + intros p a Hp Hin. rewrite (Hm p); [by apply (md_mem _ _ _ _ _ _ _ HM p)|by eapply (pg_refs_page A s)| |done].
      intros ->. by apply (pg_refs_page A s tf HA) in Hp as [_ Hp].
  - cbn [mem set_mem]. intros Hp. by apply Hnf, Hf2.
  - cbn [mem set_mem]. destruct Hhigh as [H1 H2]. split; by rewrite Hpte.
  - intros p Hp. cbn [mem set_mem]. rewrite Hf2. by apply Hlost.
Qed.

Lemma copied_keep m T m1 m2 T2 m3 sz :
  0 ≤ sz ≤ TRAPFRAME → ukeep m T m1 T (below sz) → ukeep m2 T2 m3 T2 (below sz) →
  copied m1 T m2 T2 (PGROUNDUP sz) → copied m T m3 T2 (PGROUNDUP sz).
Proof.
  intros Hsz K1 K2 Hc va Ha Hva.
  assert (0 ≤ va < TRAPFRAME) as Hr.
  { destruct (PGROUNDUP_spec sz ltac:(lia) ltac:(consts; lia)) as [Hu1 Hu2].
    assert (aligned TRAPFRAME) by done. unfold aligned in *. consts. Z.div_mod_to_equations. lia. }
  destruct (K1 va Ha Hr ltac:(unfold below; lia)) as [E1 B1]. destruct (K2 va Ha Hr ltac:(unfold below; lia)) as [E2 B2].
  destruct (Hc va Ha Hva) as [Hf Hb]. unfold upage in *. rewrite E2, <- E1. split; [done|]. intros i Hi.
  rewrite B2 by (unfold in_page; lia). rewrite Hb by done. rewrite E1. apply B1. unfold in_page. lia.
Qed.

(** uvmcopy() into the new address space *)
Lemma newborn_copy A1 T1 s1 root T sz :
  pg_rep A s → newborn A s tf pt A1 T1 s1 (λ _, False) → uvm A root T s (below sz) → 0 ≤ sz ≤ TRAPFRAME →
  wp (uvmcopy root pt sz)
    (λ r s2, r = 0 ∧ ∃ A2 T2, newborn A s tf pt A2 T2 s2 (below sz) ∧ copied (mem s) T (mem s2) T2 (PGROUNDUP sz))
    (oom (3 * (PGROUNDUP sz / PGSIZE)) A1) s1.
Proof.
  intros HA HB HO Hsz. destruct (newborn_other _ _ _ _ _ _ _ HB HO) as [HO1 Hk].
  pose proof (nb_made _ _ _ _ _ _ _ _ HB) as HM. pose proof (md_uvm _ _ _ _ _ _ _ HM) as HN.
  eapply wp_post; [apply (uvmcopy_ok A1 root pt T T1 s1 sz HO1 HN Hsz)|].
  - intros p Hp Ht. assert (foot root T (mem s) (below sz) p) as Hp0.
    { destruct Hp as [|(va & Ha & Hr & HP & ->)]; [by left|]. right. exists va. split_and!; try done; try lia.
      unfold upage. by rewrite (proj1 (Hk va Ha Hr HP)). }
    destruct (foot_refs _ _ _ _ _ _ HO Hp0) as [_ [c Hc]].
    rewrite (free_not_refs A s p HA) in Hc; [done|]. apply (md_foot _ _ _ _ _ _ _ HM). by left.
  - intros r s2 (-> & A2 & T2 & HG & Hc). split; [done|]. exists A2, T2.
    split; [by eapply newborn_grow|]. eapply copied_keep; [done|exact Hk|apply ukeep_refl|done].
Qed.

End Child.

(** * The open files *)

(** how many of the descriptors [fs] name file [f] *)
Definition opens (f : nat) (fs : list (option nat)) : Z := Z.of_nat (length (filter (λ x, x = Some f) fs)).
(** the file table with a reference more per descriptor of [fs] *)
Definition dup_files (fs : list (option nat)) (ft : list file) : list file :=
  imap (λ i f, set_f_ref (f_ref f + opens i fs) f) ft.

(** the descriptors name open files, whose counters do not overflow *)
Definition files_open (fs : list (option nat)) (ft : list file) : Prop :=
  ∀ f, Some f ∈ fs → ∃ x, ft !! f = Some x ∧ 1 ≤ f_ref x ∧ f_ref x + Z.of_nat (length fs) < 2 ^ 31.

Lemma opens_app f fs gs : opens f (fs ++ gs) = opens f fs + opens f gs.
Proof. unfold opens. rewrite filter_app, length_app. lia. Qed.
Lemma opens_one f y : opens f [y] = if decide (y = Some f) then 1 else 0.
Proof. unfold opens. rewrite filter_cons, filter_nil. by case_decide. Qed.
Lemma opens_range f fs : 0 ≤ opens f fs ≤ Z.of_nat (length fs).
Proof. unfold opens. pose proof (length_filter (λ x, x = Some f) fs). lia. Qed.

Lemma dup_files_nil ft : dup_files [] ft = ft.
Proof.
  apply list_eq. intros i. unfold dup_files. rewrite list_lookup_imap. destruct (ft !! i) as [[]|]; simpl; [|done].
  unfold set_f_ref, opens. cbn. by rewrite Z.add_0_r.
Qed.

Lemma dup_files_none fs ft : dup_files (fs ++ [None]) ft = dup_files fs ft.
Proof. apply imap_ext. intros i x _. by rewrite opens_app, opens_one, Z.add_0_r. Qed.

Lemma dup_files_lookup fs ft f x : ft !! f = Some x → dup_files fs ft !! f = Some (set_f_ref (f_ref x + opens f fs) x).
Proof. intros Hx. unfold dup_files. by rewrite list_lookup_imap, Hx. Qed.

Lemma dup_files_some fs ft f x :
  ft !! f = Some x → 1 ≤ f_ref x → f_ref x + opens f fs + 1 < 2 ^ 31 →
  alter (λ x, set_f_ref (s32 (f_ref x + 1)) x) f (dup_files fs ft) = dup_files (fs ++ [Some f]) ft.
Proof.
  intros Hx H1 Hb. pose proof (opens_range f fs). apply list_eq. intros i. destruct (decide (i = f)) as [->|Hne].
  - rewrite list_lookup_alter_eq, !(dup_files_lookup _ _ _ _ Hx). cbn. rewrite opens_app, opens_one, decide_True by done.
    unfold s32. rewrite swrap_small by (cbn; lia). unfold set_f_ref. cbn. do 2 f_equal. lia.
  - rewrite list_lookup_alter_ne by done. unfold dup_files. rewrite !list_lookup_imap.
    destruct (ft !! i); cbn; [|done]. rewrite opens_app, opens_one, decide_False by congruence. by rewrite Z.add_0_r.
Qed.

Lemma wp_filedup f x (Q : nat → K → Prop) E s :
  (LkFtable ∉ held s) → ftab s !! f = Some x → 1 ≤ f_ref x →
  Q f (set_ftab (alter (λ x, set_f_ref (s32 (f_ref x + 1)) x) f (ftab s)) s) → wp (filedup f) Q E s.
Proof.
  intros Hl Hx Hr HQ. unfold filedup. wp_k. apply wp_if_f.
  { unfold file_at. kst. rewrite Hx. cbn. lia. }
  wp_k. kst. by rewrite set_held_id.
Qed.

(** the child with the first descriptors copied *)
Definition with_files (fs : list (option nat)) (x : proc) : proc :=
  set_p_ofile (fs ++ replicate (16 - length fs) None) x.

Lemma fork_files_ok p np s (Q : unit → K → Prop) E :
  let fs := p_ofile (proc_at p s) in
  p ≠ np → length fs = 16%nat → p_ofile (proc_at np s) = replicate 16 None → files_open fs (ftab s) → (LkFtable ∉ held s) →
  Q tt (set_ftab (dup_files fs (ftab s)) (set_procs (alter (set_p_ofile fs) np (procs s)) s)) →
  wp (fork_files p np) Q E s.
Proof.
  intros fs Hne Hlen Hnp Hop Hlk HQ. unfold fork_files.
  set (st n := set_ftab (dup_files (take n fs) (ftab s)) (set_procs (alter (with_files (take n fs)) np (procs s)) s)).
  eapply wp_post; [eapply (wp_for_each (seq 0 16) [] (seq 0 16) _ (λ l s', s' = st (16 - length l)%nat))|]; [|done| |].
  - intros d i l s' Hd ->.
    assert (i = length d ∧ (length d + S (length l) = 16)%nat) as [-> Hl].
    { assert (seq 0 16 !! length d = Some i) as Hi by (rewrite Hd; by apply list_lookup_middle).
      apply lookup_seq in Hi as [-> _]. split; [done|].
      change (S (length l)) with (length ((0 + length d)%nat :: l)). rewrite <- length_app, <- Hd. done. }
    cbn [length]. set (i := length d) in *. replace (16 - S (length l))%nat with i by lia.
    replace (16 - length l)%nat with (S i) by lia.
    wp_k. assert (p_ofile (proc_at p (st i)) = fs) as -> by (unfold proc_at, st; kst; by rewrite list_lookup_alter_ne).
    destruct (lookup_lt_is_Some_2 fs i) as [y Hy]; [lia|]. rewrite Hy. cbn [default].
    assert (length (take i fs) = i) as Hti by (rewrite length_take; lia).
    pose proof (take_S_r _ _ _ Hy) as HS. destruct y as [f|].
    + destruct (Hop f) as (x & Hx & H1 & Hb); [by eapply list_elem_of_lookup_2|].
      pose proof (opens_range f (take i fs)). apply wp_bind. eapply wp_filedup; [exact Hlk|by apply dup_files_lookup| |].
      { cbn. lia. }
      wp_k. unfold st. kst. rewrite (dup_files_some _ _ f x) by (done || lia). rewrite HS, alter_compose.
      rewrite (list_alter_ext _ (with_files (take i fs ++ [Some f])) (procs s) (procs s) np); [reflexivity| |done]. intros z Hz. unfold with_files, set_p_ofile. cbn. f_equal.
      rewrite length_app, Hti. cbn [length]. replace (16 - i)%nat with (S (16 - (i + 1))) by lia. cbn [replicate].
      rewrite insert_app_r_alt by lia. rewrite Hti, Nat.sub_diag. cbn. by rewrite <- app_assoc.
    + wp_k. unfold st. rewrite HS, dup_files_none. f_equal. f_equal.
      apply list_alter_ext; [|done]. intros z Hz. unfold with_files. f_equal. rewrite length_app, Hti. cbn [length].
      replace (16 - i)%nat with (S (16 - (i + 1))) by lia. cbn [replicate]. by rewrite <- app_assoc.
  - unfold st. cbn [length seq Nat.sub take]. rewrite dup_files_nil. symmetry.
    rewrite (alter_id _ (procs s)); [by destruct s|]. intros x Hx. unfold with_files. cbn [app length Nat.sub].
    unfold proc_at in Hnp. rewrite Hx in Hnp. change (p_ofile x = replicate 16 None) in Hnp. transitivity (set_p_ofile (replicate 16 None) x); [done|]. rewrite <- Hnp. by destruct x.
  - intros [] s' ->. unfold st. cbn [length Nat.sub]. rewrite take_ge by lia.
    unfold with_files. rewrite Hlen. cbn [Nat.sub replicate]. by rewrite app_nil_r.
Qed.

(** * fork *)

Section Fork.
Context `{PA : PageAlloc} `{Sy : Symbols}.

(** A running process [p] with the image [T] and working directory [d], and a
    free slot [np] of the process table, which holds [x]. *)
Record can_fork (A : alloc_st) (T : ptree) (p np : nat) (x : proc) (d : nat) (s : K) : Prop := {
  cf_cur : cur s = Some p;
  cf_run : p_state (proc_at p s) = RUNNING;
  cf_held : held s = [];
  cf_len : length (procs s) = 64%nat;
  cf_slot : unused s = Some (np, x);
  cf_clean : p_ofile x = replicate 16 None;
  cf_mem : uvm A (p_pagetable (proc_at p s)) T (phy s) (below (p_sz (proc_at p s)));
  cf_sz : 0 ≤ p_sz (proc_at p s) ≤ TRAPFRAME;
  cf_tf : is_Some (refs A !! p_trapframe (proc_at p s));
  cf_nfiles : length (p_ofile (proc_at p s)) = 16%nat;
  cf_files : files_open (p_ofile (proc_at p s)) (ftab s);
  cf_cwd : p_cwd (proc_at p s) = Some d;
  cf_dir : 0 ≤ i_ref (inode_at d s) < 2 ^ 31 - 1;
}.

(** the child in its slot *)
Definition child (p : nat) (pr : proc) (pid tf pt : Z) (x : proc) : proc :=
  mkProc RUNNABLE (p_chan x) (p_killed x) (p_xstate x) pid (Some p) (p_kstack x) (p_sz pr) pt tf
    (forkret_pc :: (p_kstack x + PGSIZE) :: replicate 12 0) (p_ofile pr) (p_cwd pr) (safestrcpy_l 15 (p_name x) (p_name pr)).

(** the kernel after a fork, [ph] being its memory *)
Definition forked (p np d : nat) (tf pt : Z) (ph : phys) (s : K) : K :=
  set_phy ph (set_nextpid (s32 (nextpid s + 1))
    (set_procs (alter (child p (proc_at p s) (nextpid s) tf pt) np (procs s))
      (set_ftab (dup_files (p_ofile (proc_at p s)) (ftab s))
        (set_itab (alter (λ i, set_i_ref (i_ref i + 1) i) d (itab s)) s)))).

(** the child's registers: the parent's, with 0 in a0 *)
Definition same_frame (m : gmap Z Z) (tf : Z) (m' : gmap Z Z) (tf' : Z) : Prop :=
  ∀ i, 0 ≤ i < TF_SIZE →
    ld8 m' (tf' + i) = if decide (TF_a0 ≤ i < TF_a0 + 8) then 0 else ld8 m (tf + i).

Lemma frame_copied m tf m' tf' :
  let m1 := st64 (memmove m' tf' tf TF_SIZE) (tf' + TF_a0) 0 in
  (∀ i, 0 ≤ i < TF_SIZE → ld8 m' (tf + i) = ld8 m (tf + i)) →
  same_outside tf' m' m1 ∧ same_frame m tf m1 tf'.
Proof.
  intros m1 Hm. unfold m1, TF_SIZE, TF_a0 in *. split.
  - intros a Ha. unfold in_page in Ha. consts. rewrite ld8_st64 by lia. rewrite ld8_memmove by lia.
    by bool_false ((tf' <=? a) && (a <? tf' + 288)).
  - intros i Hi. unfold TF_SIZE, TF_a0 in *. case_decide as Hd.
    + with_strategy transparent [st64] (unfold st64). rewrite ld8_st. bool_true ((tf' + 112 <=? tf' + i) && (tf' + i <? tf' + 112 + Z.of_nat 8)).
      rewrite Z.div_0_l; [done|]. apply Z.pow_nonzero; lia.
    + rewrite ld8_st64 by lia. rewrite ld8_memmove by lia. bool_true ((tf' <=? tf' + i) && (tf' + i <? tf' + 288)).
      replace (tf + (tf' + i - tf')) with (tf + i) by lia. by apply Hm.
Qed.

Lemma wp_idup d (Q : nat → K → Prop) E s :
  (LkItable ∉ held s) → 0 ≤ i_ref (inode_at d s) < 2 ^ 31 - 1 →
  Q d (set_itab (alter (λ i, set_i_ref (i_ref i + 1) i) d (itab s)) s) → wp (idup d) Q E s.
Proof.
  intros Hl Hr HQ. unfold idup. wp_k. kst. rewrite set_held_id.
  rewrite (list_alter_ext _ (λ i, set_i_ref (i_ref i + 1) i) (itab s) (itab s) d); [done| |done].
  intros i Hi. unfold inode_at in Hr. rewrite Hi in Hr. cbn [default from_option id] in Hr.
  unfold s32. by rewrite swrap_small by (cbn; lia).
Qed.

(** fork() between its calls: only the slot [np], memory and the pid counter differ from [s] *)
Section Steps.
Context (s : K) (p np : nat) (x : proc) (Hnp : procs s !! np = Some x) (Hne : p ≠ np).

Definition mid (h : list lockid) (ph : phys) (f : proc → proc) : K :=
  set_held h (set_phy ph (set_nextpid (s32 (nextpid s + 1)) (set_procs (alter f np (procs s)) s))).

Lemma mid_p h ph f : proc_at p (mid h ph f) = proc_at p s.
Proof using Hne. unfold proc_at, mid. kst. by rewrite list_lookup_alter_ne. Qed.
Lemma mid_np h ph f : proc_at np (mid h ph f) = f x.
Proof using Hnp. unfold proc_at, mid. kst. by rewrite list_lookup_alter_eq, Hnp. Qed.

Lemma wp_mid_upd h ph f g (Q : unit → K → Prop) E :
  Q tt (mid h ph (λ y, g (f y))) → wp (upd_proc np g) Q E (mid h ph f).
Proof using. intros HQ. unfold upd_proc. apply wp_modify. unfold mid in *. kst. rewrite alter_compose. exact HQ. Qed.

Lemma wp_mid_phy {A} (m : M phys A) h ph f (Q : A → K → Prop) E :
  wp m (λ a ph', Q a (mid h ph' f)) (λ msg ph', E msg (mid h ph' f)) ph → wp (phy_do m) Q E (mid h ph f).
Proof using. intros Hm. unfold phy_do. apply wp_lift. exact Hm. Qed.

Lemma wp_mid_tf h ph f off v (Q : unit → K → Prop) E :
  Q tt (mid h (set_mem (st64 (mem ph) (p_trapframe (f x) + off) v) ph) f) → wp (tf_set np off v) Q E (mid h ph f).
Proof using Hnp.
  intros HQ. unfold tf_set. apply wp_bind. unfold getproc. apply wp_gets. rewrite mid_np. apply wp_mid_phy. by wp_mem.
Qed.

(** from the copy of the open files to the end, [y] being the child so far *)
Lemma fork_end ph f d (Q : Z → K → Prop) E :
  let pr := proc_at p s in
  length (p_ofile pr) = 16%nat → p_ofile (f x) = replicate 16 None → files_open (p_ofile pr) (ftab s) →
  p_cwd pr = Some d → 0 ≤ i_ref (inode_at d s) < 2 ^ 31 - 1 →
  Q (p_pid (f x)) (set_held [] (set_ftab (dup_files (p_ofile pr) (ftab s)) (set_itab (alter (λ i, set_i_ref (i_ref i + 1) i) d (itab s))
    (mid [] ph (λ z, set_p_state RUNNABLE (set_p_parent (Some p) (set_p_name (safestrcpy_l 15 (p_name (f z)) (p_name pr))
       (set_p_cwd (Some d) (set_p_ofile (p_ofile pr) (f z)))))))))) →
  wp (do! fork_files p np in
      let! pr := getproc p in
      let! cwd := (match p_cwd pr with Some d => idup d | None => ub "p->cwd is null" end) in
      do! upd_proc np (set_p_cwd (Some cwd)) in
      do! upd_proc np (λ x, set_p_name (safestrcpy_l 15 (p_name x) (p_name pr)) x) in
      let! npr := getproc np in
      let pid := p_pid npr in
      do! release (LkProc np) in
      do! acquire LkWait in
      do! upd_proc np (set_p_parent (Some p)) in
      do! release LkWait in
      do! acquire (LkProc np) in
      do! upd_proc np (set_p_state RUNNABLE) in
      do! release (LkProc np) in
      ret pid) Q E (mid [LkProc np] ph f).
Proof using Hnp Hne.
  intros pr Hlen Hcl Hop Hcwd Hdir HQ. apply wp_bind. apply fork_files_ok; rewrite ?mid_p, ?mid_np; try done.
  { by intros ?%list_elem_of_singleton. }
  change (procs (mid [LkProc np] ph f)) with (alter f np (procs s)). change (ftab (mid [LkProc np] ph f)) with (ftab s).
  rewrite alter_compose. set (g := λ z, set_p_ofile (p_ofile (proc_at p s)) (f z)).
  set (s1 := set_ftab (dup_files (p_ofile pr) (ftab s)) (mid [LkProc np] ph g)).
  lazymatch goal with |- wp ?m ?Q ?E _ => change (wp m Q E s1) end. assert (proc_at p s1 = pr) as Hpr by apply mid_p.
  apply wp_bind. unfold getproc at 1. apply wp_gets. rewrite Hpr, Hcwd.
  apply wp_bind. apply wp_idup; [by intros ?%list_elem_of_singleton|exact Hdir|].
  change (itab s1) with (itab s).
  wp_k; [apply not_elem_of_nil..|]. subst s1 g. unfold mid in *. unfold proc_at at 1. kst. rewrite !alter_compose.
  rewrite list_lookup_alter_eq, Hnp. exact HQ.
Qed.
End Steps.

(** What a successful fork() leaves behind. *)
Definition fork_post (A : alloc_st) (T : ptree) (p np d : nat) (s : K) (r : Z) (s' : K) : Prop :=
  let pr := proc_at p s in
  r = nextpid s ∧ ∃ tf pt ph A' T', s' = forked p np d tf pt ph s ∧
    newborn A (phy s) tf pt A' T' ph (below (p_sz pr)) ∧
    copied (mem (phy s)) T (mem ph) T' (PGROUNDUP (p_sz pr)) ∧
    same_frame (mem (phy s)) (p_trapframe pr) (mem ph) tf.

Lemma forked_mid s p np d tf pt ph x :
  held s = [] → p_cwd (proc_at p s) = Some d → procs s !! np = Some x →
  set_held [] (set_ftab (dup_files (p_ofile (proc_at p s)) (ftab s)) (set_itab (alter (λ i, set_i_ref (i_ref i + 1) i) d (itab s))
    (mid s np [] ph (λ z, set_p_state RUNNABLE (set_p_parent (Some p)
      (set_p_name (safestrcpy_l 15 (p_name z) (p_name (proc_at p s)))
       (set_p_cwd (Some d) (set_p_ofile (p_ofile (proc_at p s))
         (set_p_sz (p_sz (proc_at p s)) (embryo (nextpid s) tf pt z)))))))))) = forked p np d tf pt ph s.
Proof.
  intros Hh Hc Hx. unfold forked, mid. kst. rewrite (set_held_same s) by done.
  rewrite (list_alter_ext _ (child p (proc_at p s) (nextpid s) tf pt) (procs s) (procs s) np); [reflexivity| |done].
  intros z _. unfold child. rewrite Hc. reflexivity.
Qed.

Lemma fork_ok A T p np x d s :
  text_page → can_fork A T p np x d s →
  wp fork (fork_post A T p np d s)
    (λ msg s', oom (6 + 3 * (PGROUNDUP (p_sz (proc_at p s)) / PGSIZE)) A msg (phy s')) s.
Proof.
  intros Htext HF. pose proof (cf_mem _ _ _ _ _ _ _ HF) as HO. pose proof (vi_alloc (uv_vm _ _ _ _ _ HO)) as HA.
  destruct (unused_at _ _ _ (cf_slot _ _ _ _ _ _ _ HF)) as [Hnp Hun]. pose proof (cf_sz _ _ _ _ _ _ _ HF) as Hsz.
  assert (0 ≤ PGROUNDUP (p_sz (proc_at p s)) / PGSIZE) as Hn.
  { destruct (PGROUNDUP_spec (p_sz (proc_at p s)) ltac:(lia) ltac:(consts; lia)). consts. Z.div_mod_to_equations. lia. }
  assert (p ≠ np) as Hne.
  { intros ->. pose proof (cf_run _ _ _ _ _ _ _ HF) as Hr. unfold proc_at in Hr. rewrite Hnp in Hr. cbn in Hr. congruence. }
  unfold fork. apply wp_bind. eapply wp_myproc; [apply HF|]. apply wp_bind.
  eapply wp_mono; [apply (allocproc_ok A s np x HA Htext); apply HF| |].
  2: { intros msg s' [-> Hl]. split; [done|]. lia. }
  intros r s1 (-> & tf & pt & ph1 & A1 & T1 & HB1 & Hlen & ->). cbn beta iota zeta.
  change (set_held _ _) with (mid s np [LkProc np] ph1 (embryo (nextpid s) tf pt)).
  apply wp_bind, wp_gets. rewrite (mid_p s p np Hne). apply wp_bind, wp_gets. rewrite (mid_np s np x Hnp).
  apply wp_bind, wp_mid_phy. eapply wp_mono; [by apply (newborn_copy A (phy s) tf pt A1 T1 ph1)| |].
  2: { intros msg s' [-> Hl]. split; [done|]. lia. }
  intros r ph2 (-> & A2 & T2 & HB2 & Hc). cbn [Z.ltb Z.compare].
  apply wp_bind, wp_mid_upd, wp_bind, wp_mid_phy. unfold mem_move. apply wp_modify.
  apply wp_bind, (wp_mid_tf s np x Hnp). cbn beta.
  destruct (frame_copied (mem (phy s)) (p_trapframe (proc_at p s)) (mem ph2) tf) as [Hout Hfr].
  { intros i Hi. pose proof (nb_made _ _ _ _ _ _ _ _ HB2) as HM.
    apply (md_mem _ _ _ _ _ _ _ HM (p_trapframe (proc_at p s))); [exact (cf_tf _ _ _ _ _ _ _ HF)|]. unfold in_page, TF_SIZE in *. consts. lia. }
  set (m3 := st64 _ _ _) in Hout, Hfr. change (set_mem _ (set_mem _ ph2)) with (set_mem m3 ph2).
  destruct (newborn_write A (phy s) tf pt A2 T2 ph2 _ m3 HA HB2 Hout) as [HB3 Hk3].
  apply (fork_end s p np x Hnp Hne _ _ d); try apply HF. cbn beta.
  split; [done|]. exists tf, pt, (set_mem m3 ph2), A2, T2. split; [|split; [done|split; [|done]]].
  - apply (forked_mid s p np d tf pt _ x); [apply HF|apply HF|done].
  - by eapply copied_keep; [done|apply ukeep_refl|exact Hk3|].
Qed.

Lemma fork_returns A T p np x d s :
  text_page → can_fork A T p np x d s →
  6 + 3 * (PGROUNDUP (p_sz (proc_at p s)) / PGSIZE) ≤ Z.of_nat (length (free A)) →
  ∃ r s', fork s = Ret r s' ∧ fork_post A T p np d s r s'.
Proof.
  intros Htext HF Hfree. apply wp_returns. eapply wp_mono; [by eapply fork_ok|done|]. intros msg s' [_ Hl]. lia.
Qed.

(** C5: fork() duplicates a process.  With a free slot in the process table and
    six free pages plus three per page of the image, it returns the new pid to
    the parent, and the child is RUNNABLE with the parent's size, open files,
    working directory and name, its kernel context starting at forkret; the
    child's address space maps fresh pages with the contents and exactly the
    permissions of the parent's (no page is shared, and exec()'s guard page stays
    out of user mode's reach) and, above them, the trampoline and its own trapframe, which
    holds the parent's registers with 0 in a0; the open files and the directory
    have one more reference per use, the parent's address space and every page
    allocated before are as they were, every page that left the free list is the
    child's, and nothing else in the kernel changed. *)
Theorem fork_duplicates A T p np x d s :
  text_page → can_fork A T p np x d s →
  6 + 3 * (PGROUNDUP (p_sz (proc_at p s)) / PGSIZE) ≤ Z.of_nat (length (free A)) →
  let pr := proc_at p s in
  ∃ tf pt ph A' T', fork s = Ret (nextpid s) (forked p np d tf pt ph s) ∧
    newborn A (phy s) tf pt A' T' ph (below (p_sz pr)) ∧
    copied (mem (phy s)) T (mem ph) T' (PGROUNDUP (p_sz pr)) ∧
    same_frame (mem (phy s)) (p_trapframe pr) (mem ph) tf ∧
    uvm A' (p_pagetable pr) T ph (below (p_sz pr)) ∧ ukeep (mem (phy s)) T (mem ph) T (below (p_sz pr)).
Proof.
  intros Htext HF Hfree pr.
  destruct (fork_returns _ _ _ _ _ _ _ Htext HF Hfree) as (r & s' & E & -> & tf & pt & ph & A' & T' & -> & HB & Hc & Hfr).
  destruct (newborn_other _ _ _ _ _ _ _ _ _ _ _ HB (cf_mem _ _ _ _ _ _ _ HF)) as [HU Hk].
  exists tf, pt, ph, A', T'. split_and!; done.
Qed.

(** A child's image takes a free page for each of its pages. *)
Lemma newborn_pages A s tf pt A' T' s' sz :
  newborn A s tf pt A' T' s' (below sz) → 0 ≤ sz ≤ TRAPFRAME → PGROUNDUP sz / PGSIZE ≤ Z.of_nat (length (free A)).
Proof.
  intros HB Hsz. pose proof (nb_made _ _ _ _ _ _ _ _ HB) as HM. pose proof (md_uvm _ _ _ _ _ _ _ HM) as HU.
  destruct (PGROUNDUP_spec sz ltac:(lia) ltac:(consts; lia)) as [Ha Hb]. set (n := PGROUNDUP sz / PGSIZE).
  assert (n * PGSIZE = PGROUNDUP sz ∧ PGROUNDUP sz ≤ TRAPFRAME) as [En Hle].
  { assert (aligned TRAPFRAME) by done. unfold n, aligned in *. consts. Z.div_mod_to_equations. lia. }
  assert (∀ i, 0 ≤ i < n → aligned (i * PGSIZE) ∧ 0 ≤ i * PGSIZE < TRAPFRAME ∧ below sz (i * PGSIZE)) as Hi.
  { intros i Hi. unfold aligned, below. rewrite Z.mod_mul by done. consts. lia. }
  set (L := (λ i, upage (mem s') T' (i * PGSIZE)) <$> seqZ 0 n).
  assert (NoDup L) as HL.
  { apply NoDup_fmap_2_strong; [|apply NoDup_seqZ]. intros i j Hin%elem_of_seqZ Hjn%elem_of_seqZ E.
    destruct (Hi i Hin) as (? & ? & ?), (Hi j Hjn) as (? & ? & ?).
    assert (i * PGSIZE = j * PGSIZE); [by apply (uv_inj _ _ _ _ _ HU)|]. consts. lia. }
  assert (∀ p, p ∈ L → p ∈ free A) as Hsub.
  { intros p (i & -> & Hin%elem_of_seqZ)%list_elem_of_fmap. apply (md_foot _ _ _ _ _ _ _ HM). right.
    exists (i * PGSIZE). destruct (Hi i Hin) as (? & ? & ?). split_and!; done || lia. }
  pose proof (submseteq_length _ _ (NoDup_submseteq L (free A) HL Hsub)) as Hlen.
  unfold L in Hlen. rewrite length_fmap, length_seqZ in Hlen. lia.
Qed.

(** C38: fork() with too little memory stops the kernel.  If there are fewer free pages
    than the parent's image has, fork() neither shares pages nor returns -1: the
    assertion of kalloc() fails and the kernel panics. *)
Theorem fork_no_memory_panics A T p np x d s :
  text_page → can_fork A T p np x d s →
  Z.of_nat (length (free A)) < PGROUNDUP (p_sz (proc_at p s)) / PGSIZE →
  ∃ s', fork s = Panic "assert failed" s'.
Proof.
  intros Htext HF Hfew. pose proof (fork_ok _ _ _ _ _ _ _ Htext HF) as Hwp. unfold wp in Hwp.
  destruct (fork s) as [r s'|msg s'| | | |]; try done.
  - destruct Hwp as (_ & tf & pt & ph & A' & T' & _ & HB & _).
    pose proof (newborn_pages _ _ _ _ _ _ _ _ HB (cf_sz _ _ _ _ _ _ _ HF)). lia.
  - destruct Hwp as [-> _]. eauto.
Qed.

(** With no free slot fork() returns -1 and changes nothing. *)
Lemma fork_table_full p s :
  cur s = Some p → held s = [] → length (procs s) = 64%nat → unused s = None → fork s = Ret (-1) s.
Proof.
  intros Hc Hh Hl Hu. assert (wp fork (λ r s', r = -1 ∧ s' = s) nopanic s) as Hwp.
  { unfold fork. apply wp_bind. eapply wp_myproc; [done|]. apply wp_bind. unfold allocproc.
    apply wp_bind, wp_find_unused; [done..|]. by rewrite Hu. }
  apply wp_returns in Hwp as (r & s' & E & -> & ->). done.
Qed.

End Fork.

(** * Witness *)

(** Process 0, an image of a program page, a guard page and a stack page, with an
    open file, forks. *)
Module Fork0.
Import Image0 Machine0.

#[export] Instance symbols0 : Symbols := {|
  trampoline := KERNBASE + 0x7000; etext := KERNBASE + 0x8000; forkret_pc := KERNBASE + 0x1a00; usertrap_pc := KERNBASE + 0x2600;
  uservec_off := 0; userret_off := 156; kernelvec_pc := KERNBASE + 0x5a00 |}.

Definition parent : proc :=
  mkProc RUNNING None 0 0 1 None (KSTACK 0) 12288 (pg 0) (pg 1) (replicate 14 0) (Some 0%nat :: replicate 15 None) (Some 0%nat)
    (bytes_of "init" ++ replicate 12 0).
Definition before (ph : phys) : K :=
  set_phy ph (set_cur (Some 0%nat) (set_initproc (Some 0%nat) (set_nextpid 2 (set_procs (parent :: replicate 63 proc0)
    (set_ftab (set_f_ref 1 file0 :: replicate 99 file0) (set_itab (set_i_ref 1 inode0 :: replicate 49 inode0) (k_boot ∅))))))).

Lemma image_refs : ∃ A T ph, uvm A (pg 0) T ph (below 12288) ∧ is_Some (refs A !! pg 1) ∧ guarded (mem ph) T ∧ 15 ≤ Z.of_nat (length (free A)).
Proof.
  destruct image as (A & T & ph & HU & HN & _ & Hl & Hg). exists A, T, ph. split_and!; [done| |done|done].
  apply (vi_tables (uv_vm _ _ _ _ _ HN)). by left.
Qed.

Lemma can_fork0 A T ph : uvm A (pg 0) T ph (below 12288) → is_Some (refs A !! pg 1) → can_fork A T 0 1 proc0 0 (before ph).
Proof.
  intros HU Hr. constructor; try reflexivity; try done.
  intros f Hf. exists (set_f_ref 1 file0). apply elem_of_cons in Hf as [[= ->]|Hf]; [done|].
  by apply elem_of_replicate_inv in Hf.
Qed.

Lemma fork_duplicates_witness :
  ∃ A T ph0 tf pt ph A' T', guarded (mem ph0) T ∧ fork (before ph0) = Ret 2 (forked 0 1 0 tf pt ph (before ph0)) ∧
    newborn A ph0 tf pt A' T' ph (below 12288) ∧ copied (mem ph0) T (mem ph) T' 12288.
Proof.
  destruct image_refs as (A & T & ph0 & HU & Hr & Hg & Hl). exists A, T, ph0.
  destruct (fork_duplicates A T 0 1 proc0 0 (before ph0)) as (tf & pt & ph & A' & T' & E & HB & Hc & _);
    [split; [split; [done|]|]; cbn [trampoline symbols0]; consts; lia|by apply can_fork0|exact Hl|].
  exists tf, pt, ph, A', T'. split; [exact Hg|]. split; [exact E|]. split; [exact HB|exact Hc].
Defined.

(** The same process on a machine that has run out of pages. *)
Definition exhausted (ph : phys) : phys := mkPhys (mem ph) (kmem_lock ph) 0 0 (MAX_PAGES ph) (ref_count ph).

Lemma exhausted_rep A ph : alloc_rep A ph → alloc_rep (mkAlloc [] (refs A)) (exhausted ph).
Proof.
  intros []. constructor; cbn [free refs exhausted freelist FREE_PAGES MAX_PAGES]; try done.
  - by apply NoDup_nil.
  - intros x Hx. by apply elem_of_nil in Hx.
  - intros p c Hp. destruct (ar_refs p c Hp) as (H1 & _ & H3 & H4). split_and!; try done; try lia. apply not_elem_of_nil.
  - destruct ar_max as [|Hm]; [by left|]. right. cbn [length]. lia.
Qed.

Lemma exhausted_uvm A T ph : uvm A (pg 0) T ph (below 12288) → uvm (mkAlloc [] (refs A)) (pg 0) T (exhausted ph) (below 12288).
Proof.
  intros HU. apply (uvm_frame A _ (pg 0) T ph _ _ HU); [|done|done]. apply exhausted_rep, HU.
Qed.

Lemma fork_no_memory_panics_witness : ∃ ph s', fork (before ph) = Panic "assert failed" s'.
Proof.
  destruct image_refs as (A & T & ph0 & HU & Hr & _). exists (exhausted ph0).
  apply (fork_no_memory_panics (mkAlloc [] (refs A)) T 0 1 proc0 0);
    [split; [split; [done|]|]; cbn [trampoline symbols0]; consts; lia|apply can_fork0; [by apply exhausted_uvm|done]|by vm_compute].
Defined.
End Fork0.
