(* ===== verification/ExitSpec.v ===== *)
(** proc.c: exit() closes the files of a process, gives its children to init, wakes
    its parent and gives the processor away for good, as a zombie. *)

From S2P Require Import Prelude Mem Layout Kalloc Vm UserMem State Sched Bio Log LogOps Console Fs File Proc ForkSpec.

(** * Closing the files *)

(** the file table with a reference less per descriptor of [fs] *)
Definition close_files (fs : list (option nat)) (ft : list file) : list file :=
  imap (λ i f, set_f_ref (f_ref f - opens i fs) f) ft.

(** the descriptors name open files that others have open too *)
Definition files_shared (fs : list (option nat)) (ft : list file) : Prop :=
  ∀ f, Some f ∈ fs → ∃ x, ft !! f = Some x ∧ opens f fs < f_ref x.

Lemma close_files_nil ft : close_files [] ft = ft.
Proof.
  apply list_eq. intros i. unfold close_files. rewrite list_lookup_imap. destruct (ft !! i) as [[]|]; simpl; [|done].
  unfold set_f_ref, opens. cbn. by rewrite Z.sub_0_r.
Qed.

Lemma close_files_none fs ft : close_files (fs ++ [None]) ft = close_files fs ft.
Proof. apply imap_ext. intros i x _. by rewrite opens_app, opens_one, Z.add_0_r. Qed.

Lemma close_files_some fs ft f :
  alter (λ x, set_f_ref (f_ref x - 1) x) f (close_files fs ft) = close_files (fs ++ [Some f]) ft.
Proof.
  apply list_eq. intros i. unfold close_files. destruct (decide (i = f)) as [->|Hne].
  - rewrite list_lookup_alter_eq, !list_lookup_imap. destruct (ft !! f); cbn; [|done].
    rewrite opens_app, opens_one, decide_True by done. unfold set_f_ref. cbn. do 2 f_equal. lia.
  - rewrite list_lookup_alter_ne, !list_lookup_imap by done. destruct (ft !! i); cbn; [|done].
    rewrite opens_app, opens_one, decide_False by congruence. by rewrite Z.add_0_r.
Qed.

(** closing what a fork opened *)
Lemma close_dup_files fs ft : close_files fs (dup_files fs ft) = ft.
Proof.
  apply list_eq. intros i. unfold close_files, dup_files. rewrite !list_lookup_imap. destruct (ft !! i) as [[]|]; cbn; [|done].
  unfold set_f_ref. cbn. by rewrite Z.add_simpl_r.
Qed.

Lemma opens_take f n fs : opens f (take n fs) ≤ opens f fs.
Proof. rewrite <- (take_drop n fs) at 2. rewrite opens_app. pose proof (opens_range f (drop n fs)). lia. Qed.

Section Exit.
Context `{PA : PageAlloc} `{Sy : Symbols}.

Lemma wp_fileclose f x (Q : unit → K → Prop) E s :
  (LkFtable ∉ held s) → ftab s !! f = Some x → 2 ≤ f_ref x →
  Q tt (set_ftab (alter (λ x, set_f_ref (f_ref x - 1) x) f (ftab s)) s) → wp (fileclose f) Q E s.
Proof.
  intros Hl Hf Hr HQ. unfold fileclose. wp_k. unfold file_at at 1. cbn [ftab set_held]. rewrite Hf. cbn [default from_option id].
  bfalse (f_ref x <? 1). wp_k. unfold file_at at 1. kproj. rewrite list_lookup_alter_eq, Hf. cbn [fmap option_fmap option_map default from_option id f_ref set_f_ref].
  btrue (0 <? f_ref x - 1). wp_k. kst. by rewrite set_held_id.
Qed.

Lemma exit_files_ok p (Q : unit → K → Prop) E s :
  let fs := p_ofile (proc_at p s) in
  length fs = 16%nat → (p < length (procs s))%nat → files_shared fs (ftab s) → (LkFtable ∉ held s) →
  Q tt (set_ftab (close_files fs (ftab s)) (set_procs (alter (set_p_ofile (replicate 16 None)) p (procs s)) s)) →
  wp (exit_files p) Q E s.
Proof.
  intros fs Hlen Hp Hop Hlk HQ. unfold exit_files. destruct (lookup_lt_is_Some_2 _ _ Hp) as [x Hx].
  set (st n := set_ftab (close_files (take n fs) (ftab s)) (set_procs (alter (set_p_ofile (replicate n None ++ drop n fs)) p (procs s)) s)).
  eapply wp_post; [eapply (wp_for_each (seq 0 16) [] (seq 0 16) _ (λ l s', s' = st (16 - length l)%nat))|]; [|done| |].
  - intros d i l s' Hd ->.
    assert (i = length d ∧ (length d + S (length l) = 16)%nat) as [-> Hl].
    { assert (seq 0 16 !! length d = Some i) as Hi by (rewrite Hd; by apply list_lookup_middle).
      apply lookup_seq in Hi as [-> _]. split; [done|].
      change (S (length l)) with (length ((0 + length d)%nat :: l)). rewrite <- length_app, <- Hd. done. }
    cbn [length]. replace (16 - S (length l))%nat with (length d) by lia. replace (16 - length l)%nat with (S (length d)) by lia.
    set (i := length d) in *. destruct (lookup_lt_is_Some_2 fs i) as [o Ho]; [lia|].
    unfold getproc. apply wp_bind, wp_gets.
    assert (p_ofile (proc_at p (st i)) = replicate i None ++ drop i fs) as ->.
    { unfold proc_at, st. kproj. by rewrite list_lookup_alter_eq, Hx. }
    rewrite (drop_S fs o i) by done.
    rewrite lookup_app_r by (by rewrite length_replicate). rewrite length_replicate, Nat.sub_diag. cbn [lookup list_lookup default from_option id].
    assert (take (S i) fs = take i fs ++ [o]) as HS by by apply take_S_r.
    assert (replicate (S i) None ++ drop (S i) fs = <[i := None]> (replicate i None ++ o :: drop (S i) fs)) as HI.
    { rewrite insert_app_r_alt by (by rewrite length_replicate). rewrite length_replicate, Nat.sub_diag. cbn [insert list_insert].
      rewrite replicate_S_end. by rewrite <- app_assoc. }
    destruct o as [f|].
    + destruct (Hop f) as (y & Hy & Hr); [by eapply list_elem_of_lookup_2|]. apply wp_bind.
      assert (opens f (take i fs) < opens f fs) as Hlt.
      { pose proof (opens_take f (S i) fs) as Ht. rewrite HS, opens_app, opens_one, decide_True in Ht by done. lia. }
      eapply wp_fileclose; [exact Hlk| |  |].
      * unfold st. kproj. unfold close_files. by rewrite list_lookup_imap, Hy.
      * cbn. lia.
      * wp_k. unfold st. kst. rewrite HS, close_files_some, alter_compose.
        rewrite (list_alter_ext _ (set_p_ofile (replicate (S i) None ++ drop (S i) fs)) (procs s) (procs s) p); [reflexivity| |done].
        intros z Hz. rewrite HI. unfold set_p_ofile. cbn. by rewrite (drop_S fs (Some f) i) by done.
    + wp_k. unfold st. rewrite HS, close_files_none. f_equal. f_equal. apply list_alter_ext; [|done]. intros z Hz. f_equal.
      rewrite HI, (drop_S fs None i) by done. rewrite list_insert_id; [done|].
      rewrite lookup_app_r by (by rewrite length_replicate). by rewrite length_replicate, Nat.sub_diag.
  - unfold st. cbn [length seq Nat.sub take drop replicate app]. rewrite close_files_nil. symmetry.
    rewrite (alter_id _ (procs s)); [by destruct s|]. intros z Hz. unfold fs, proc_at. rewrite Hz. by destruct z.
  - intros [] s' ->. unfold st. cbn [length Nat.sub]. rewrite take_ge, drop_ge, app_nil_r by lia. done.
Qed.
(** * The other processes *)

(** what becomes of another process: it is woken, or init is its parent from now on *)
Definition kin (np : nat) (ini : option nat) (x x' : proc) : Prop :=
  ∃ st pa, x' = set_p_state st (set_p_parent pa x) ∧ (st = p_state x ∨ p_state x = SLEEPING ∧ st = RUNNABLE) ∧
    (pa = p_parent x ∨ p_parent x = Some np ∧ pa = ini).
Record roused (np : nat) (ini : option nat) (ps ps' : list proc) : Prop := {
  ro_len : length ps' = length ps;
  ro_own : ps' !! np = ps !! np;
  ro_kin i x' : i ≠ np → ps' !! i = Some x' → ∃ x, ps !! i = Some x ∧ kin np ini x x';
}.

Lemma kin_refl np ini x : kin np ini x x.
Proof. exists (p_state x), (p_parent x). split; [by destruct x|]. split; by left. Qed.
Lemma kin_trans np ini x y z : kin np ini x y → kin np ini y z → kin np ini x z.
Proof.
  intros (st & pa & -> & Hs & Hp) (st' & pa' & -> & Hs' & Hp'). exists st', pa'. cbn in *. split; [by destruct x|].
  split; [destruct Hs as [->|[? ->]], Hs' as [->|[? ->]]; by auto|]. destruct Hp as [->|[? ->]], Hp' as [->|[? ->]]; by auto.
Qed.
Lemma roused_refl np ini ps : roused np ini ps ps.
Proof. split; [done|done|]. intros i x' _ Hx. exists x'. split; [done|apply kin_refl]. Qed.
Lemma roused_trans np ini ps1 ps2 ps3 : roused np ini ps1 ps2 → roused np ini ps2 ps3 → roused np ini ps1 ps3.
Proof.
  intros [L1 O1 K1] [L2 O2 K2]. split; [congruence|congruence|]. intros i z Hi Hz.
  destruct (K2 i z Hi Hz) as (y & Hy & Hyz). destruct (K1 i y Hi Hy) as (x & Hx & Hxy). exists x. split; [done|]. by eapply kin_trans.
Qed.

Lemma woken_kin ch c i np ini x : kin np ini x (woken ch c i x).
Proof.
  unfold woken. destruct (decide (c = Some i)); [apply kin_refl|].
  destruct (bool_decide_reflect (p_state x = SLEEPING)); [|apply kin_refl]. destruct (bool_decide _); [|apply kin_refl].
  exists RUNNABLE, (p_parent x). split; [by destruct x|]. auto.
Qed.
Lemma wake_lookup ch c ps i x' : length ps = 64%nat → wake ch c 64 ps !! i = Some x' → ∃ x, ps !! i = Some x ∧ x' = woken ch c i x.
Proof.
  intros Hl. unfold wake. rewrite list_lookup_imap. destruct (ps !! i) as [x|] eqn:Hx; [|done]. cbn. intros [= <-]. exists x. split; [done|].
  apply lookup_lt_Some in Hx. by rewrite decide_True by lia.
Qed.
Lemma roused_wake ch np ini ps : length ps = 64%nat → roused np ini ps (wake ch (Some np) 64 ps).
Proof.
  intros Hl. split.
  - unfold wake. apply length_imap.
  - unfold wake. rewrite list_lookup_imap. destruct (ps !! np); [|done]. cbn. case_decide; [|done]. unfold woken. by rewrite decide_True.
  - intros i x' _ Hx. apply wake_lookup in Hx as (x & Hx & ->); [|done]. exists x. split; [done|apply woken_kin].
Qed.
Lemma woken_parent ch c i x : p_parent (woken ch c i x) = p_parent x.
Proof. unfold woken. destruct (decide _); [done|]. by destruct (_ && _). Qed.
Lemma wake_parent ch c ps i x' (P : option nat → Prop) :
  length ps = 64%nat → wake ch c 64 ps !! i = Some x' → (∀ x, ps !! i = Some x → P (p_parent x)) → P (p_parent x').
Proof. intros Hl Hx HP. apply wake_lookup in Hx as (x & Hx & ->); [|done]. rewrite woken_parent. by apply HP. Qed.

(** reparent(): init is the parent of every child, and is woken *)
Lemma reparent_ok np ini (Q : unit → K → Prop) E s :
  cur s = Some np → held s = [LkWait] → initproc s = Some ini → ini ≠ np → length (procs s) = 64%nat → p_parent (proc_at np s) ≠ Some np →
  (∀ ps, roused np (Some ini) (procs s) ps → (∀ i x, ps !! i = Some x → p_parent x ≠ Some np) → Q tt (set_procs ps s)) →
  wp (reparent np) Q E s.
Proof.
  intros Hc Hh Hi Hne Hlen Hown HQ. unfold reparent.
  eapply wp_post; [eapply (wp_for_each nprocs [] nprocs _ (λ l s', ∃ ps, s' = set_procs ps s ∧ roused np (Some ini) (procs s) ps ∧
    ∀ i x, (i < 64 - length l)%nat → ps !! i = Some x → p_parent x ≠ Some np))|]; [|done| |].
  - intros d pp l s1 Hd (ps & -> & HR & Hno). destruct (nprocs_split d pp l Hd) as [-> Hl]. set (i := length d) in *.
    cbn [length] in Hno. pose proof (ro_len _ _ _ _ HR) as Hlp.
    destruct (lookup_lt_is_Some_2 ps i) as [x Hx]; [lia|]. unfold getproc. apply wp_bind, wp_gets.
    replace (proc_at i (set_procs ps s)) with x by (unfold proc_at; kproj; by rewrite Hx).
    apply wp_when; intros Hb; [apply bool_decide_eq_true in Hb|apply bool_decide_eq_false in Hb].
    2: { exists ps. split; [done|]. split; [done|]. intros j y Hj Hy. destruct (decide (j = i)) as [->|]; [by simplify_eq|]. eapply Hno; [|done]. lia. }
    assert (i ≠ np) as Hin.
    { intros ->. apply Hown. rewrite (ro_own _ _ _ _ HR) in Hx. unfold proc_at. by rewrite Hx. }
    wp_k. kproj. rewrite Hi. cbn [wakeup_proc]. set (ps' := alter (set_p_parent (Some ini)) i ps).
    assert (length ps' = 64%nat) as Hlp' by (unfold ps'; rewrite length_alter; lia).
    apply wp_wakeup; [intros j _; kproj; rewrite Hh; by intros ?%list_elem_of_singleton|]. kproj. rewrite Hc.
    exists (wake (ChProc ini) (Some np) 64 ps'). split; [done|]. split.
    + eapply roused_trans; [exact HR|]. eapply roused_trans; [|by apply roused_wake]. unfold ps'.
      split; [by rewrite length_alter|by rewrite list_lookup_alter_ne|]. intros j y Hj Hy. destruct (decide (j = i)) as [->|].
      * rewrite list_lookup_alter_eq, Hx in Hy. cbn in Hy. injection Hy as <-. exists x. split; [done|].
        exists (p_state x), (Some ini). split; [by destruct x|]. auto.
      * rewrite list_lookup_alter_ne in Hy by done. exists y. split; [done|apply kin_refl].
    + intros j y Hj Hy. apply (wake_parent _ _ _ _ _ (λ o, o ≠ Some np) Hlp' Hy). intros z Hz. unfold ps' in Hz.
      destruct (decide (j = i)) as [->|].
      * rewrite list_lookup_alter_eq, Hx in Hz. cbn in Hz. injection Hz as <-. cbn. congruence.
      * rewrite list_lookup_alter_ne in Hz by done. eapply Hno; [|done]. lia.
  - exists (procs s). split; [by destruct s|]. split; [apply roused_refl|]. intros i x Hi0. exfalso. unfold nprocs in Hi0. rewrite length_seq in Hi0. lia.
  - intros [] s1 (ps & -> & HR & Hno). apply HQ; [done|]. intros i x Hx. eapply Hno; [|done].
    apply lookup_lt_Some in Hx. rewrite (ro_len _ _ _ _ HR) in Hx. cbn [length]. lia.
Qed.

(** * The working directory *)

(** a directory that others use too *)
Lemma wp_iput d x (Q : unit → K → Prop) E s :
  (LkItable ∉ held s) → itab s !! d = Some x → 2 ≤ i_ref x < 2 ^ 31 →
  Q tt (set_itab (alter (λ i, set_i_ref (i_ref i - 1) i) d (itab s)) s) → wp (iput d) Q E s.
Proof.
  intros Hl Hx Hr HQ. unfold iput. wp_k. unfold inode_at. cbn [itab set_held]. rewrite Hx. cbn [default from_option id].
  apply wp_when_f; [bfalse (i_ref x =? 1); done|]. wp_k. kst. rewrite set_held_id.
  rewrite (list_alter_ext _ (λ i, set_i_ref (i_ref i - 1) i) (itab s) (itab s) d); [done| |done].
  intros y Hy. simplify_eq. f_equal. apply s32_small. lia.
Qed.

(** end_op() of an operation that wrote nothing *)
Lemma wp_end_op_empty np (Q : unit → K → Prop) E s :
  held s = [] → cur s = Some np → length (procs s) = 64%nat → log_committing (lg s) = false → log_outstanding (lg s) ≠ 1 ∨ lh_n (lg s) = 0 →
  (∀ ps, roused np (initproc s) (procs s) ps → Q tt (set_procs ps (set_lg (set_log_outstanding (log_outstanding (lg s) - 1) (lg s)) s))) →
  wp end_op Q E s.
Proof.
  intros Hh Hc Hlen Hcom Hcase HQ. unfold end_op. apply wp_bind, wp_acquire; [rewrite Hh; apply not_elem_of_nil|].
  apply wp_bind, wp_modify. apply wp_bind, wp_gets. kst. cbn [log_committing set_log_outstanding log_outstanding]. rewrite Hcom.
  destruct (Z.eqb_spec (log_outstanding (lg s) - 1) 0) as [E0|E0].
  - destruct Hcase as [|Hn]; [lia|]. apply wp_bind, wp_modify. kst. apply wp_bind. eapply wp_release_head; [kproj; by rewrite Hh|].
    kst. rewrite (set_held_same s []) by done. cbn [when]. apply wp_bind. unfold commit. apply wp_bind, wp_gets. kproj.
    apply wp_when_f; [cbn; by rewrite Hn|]. apply wp_bind, wp_acquire; [kproj; rewrite Hh; apply not_elem_of_nil|].
    apply wp_bind, wp_modify. kst. apply wp_bind, wp_wakeup; [intros j _; kproj; rewrite Hh; by intros ?%list_elem_of_singleton|].
    eapply wp_release_head; [kproj; by rewrite Hh|]. kst. rewrite (set_held_same s []), Hc by done.
    replace (set_log_committing false _) with (set_log_outstanding (log_outstanding (lg s) - 1) (lg s)).
    + apply HQ. by apply roused_wake.
    + destruct (lg s). cbn in *. unfold set_log_committing, set_log_outstanding. cbn. by rewrite Hcom.
  - apply wp_bind, wp_wakeup; [intros j _; kproj; rewrite Hh; by intros ?%list_elem_of_singleton|].
    apply wp_bind. eapply wp_release_head; [kproj; by rewrite Hh|]. kst. rewrite (set_held_same s []), Hc by done. apply HQ. by apply roused_wake.
Qed.
(** * exit *)

(** Process [np], a child of [p], may exit: it is not init, others have its files and its
    working directory [d] in use too, and the log lets an operation in that writes nothing. *)
Record can_exit (np p d : nat) (s : K) : Prop := {
  ce_cur : cur s = Some np;
  ce_held : held s = [];
  ce_init : ∃ ini, initproc s = Some ini ∧ ini ≠ np;
  ce_len : length (procs s) = 64%nat;
  ce_lt : (np < 64)%nat;
  ce_parent : p_parent (proc_at np s) = Some p;
  ce_ne : p ≠ np;
  ce_nfiles : length (p_ofile (proc_at np s)) = 16%nat;
  ce_files : files_shared (p_ofile (proc_at np s)) (ftab s);
  ce_cwd : p_cwd (proc_at np s) = Some d;
  ce_dir : ∃ x, itab s !! d = Some x ∧ 2 ≤ i_ref x < 2 ^ 31;
  ce_log : admits (lg s) = true;
  ce_quiet : log_outstanding (lg s) ≠ 0 ∨ lh_n (lg s) = 0;
}.

(** the slot of a process that has exited *)
Definition zombie (status : Z) (x : proc) : proc :=
  set_p_state ZOMBIE (set_p_xstate status (set_p_cwd None (set_p_ofile (replicate 16 None) x))).

(** the process table when exit() gives the processor away *)
Record left (np p : nat) (status : Z) (s : K) (ps : list proc) : Prop := {
  lf_len : length ps = 64%nat;
  lf_own : ps !! np = Some (zombie status (proc_at np s));
  lf_kin i x' : i ≠ np → ps !! i = Some x' → ∃ x, procs s !! i = Some x ∧ kin np (initproc s) x x';
  lf_kids i x : ps !! i = Some x → p_parent x ≠ Some np;
  lf_woken x x' : procs s !! p = Some x → ps !! p = Some x' → p_state x = SLEEPING → p_chan x = Some (ChProc p) → p_state x' = RUNNABLE;
}.
(** the kernel then: one reference less per file and on the directory, and the lock of its slot held *)
Definition exited (np p d : nat) (status : Z) (s s' : K) : Prop :=
  ∃ ps, left np p status s ps ∧
    s' = set_held [LkProc np] (set_procs ps (set_ftab (close_files (p_ofile (proc_at np s)) (ftab s))
           (set_itab (alter (λ i, set_i_ref (i_ref i - 1) i) d (itab s)) s))).

(** the parent, which may sleep in wait(), runs after the wakeup *)
Lemma woken_parent_runs np ini p x y :
  p ≠ np → kin np ini x y → p_state x = SLEEPING → p_chan x = Some (ChProc p) → p_state (woken (ChProc p) (Some np) p y) = RUNNABLE.
Proof.
  intros Hne (st & pa & -> & Hs & _) Hx Hch. unfold woken. rewrite decide_False by congruence. cbn. rewrite Hch.
  rewrite (bool_decide_true (Some (ChProc p) = _)) by done. rewrite andb_true_r. destruct Hs as [->|[_ ->]]; [|done].
  by rewrite bool_decide_true.
Qed.

(** the process table through the steps of exit() *)
Lemma left_intro np p status s ps1 ps2 :
  length (procs s) = 64%nat → (np < 64)%nat → p ≠ np → p_parent (proc_at np s) = Some p →
  roused np (initproc s) (alter (set_p_ofile (replicate 16 None)) np (procs s)) ps1 →
  roused np (initproc s) (alter (set_p_cwd None) np ps1) ps2 → (∀ i x, ps2 !! i = Some x → p_parent x ≠ Some np) →
  left np p status s (alter (set_p_state ZOMBIE) np (alter (set_p_xstate status) np (wake (ChProc p) (Some np) 64 ps2))).
Proof.
  intros Hlen Hlt Hne Hpar [L1 O1 K1] [L2 O2 K2] Hno. rewrite length_alter in L1, L2.
  assert (length ps2 = 64%nat) as Hl2 by congruence.
  destruct (roused_wake (ChProc p) np (initproc s) ps2 Hl2) as [L3 O3 K3]. set (ps3 := wake _ _ _ ps2) in *.
  destruct (lookup_lt_is_Some_2 (procs s) np) as [x Hx]; [lia|].
  assert (proc_at np s = x) as Epx by (unfold proc_at; by rewrite Hx).
  rewrite list_lookup_alter_eq, Hx in O1. rewrite list_lookup_alter_eq, O1 in O2. rewrite O2 in O3. cbn in O3.
  rewrite alter_compose.
  assert (∀ i y, i ≠ np → ps2 !! i = Some y → ∃ x, procs s !! i = Some x ∧ kin np (initproc s) x y) as Hkin.
  { intros i y Hi Hy. destruct (K2 i y Hi Hy) as (z & Hz & Hzy). rewrite list_lookup_alter_ne in Hz by done.
    destruct (K1 i z Hi Hz) as (w & Hw & Hwz). rewrite list_lookup_alter_ne in Hw by done. exists w. split; [done|]. by eapply kin_trans. }
  split.
  - rewrite length_alter. congruence.
  - rewrite list_lookup_alter_eq, O3, Epx. done.
  - intros i y' Hi Hy'. rewrite list_lookup_alter_ne in Hy' by done. destruct (K3 i y' Hi Hy') as (y & Hy & Hyy).
    destruct (Hkin i y Hi Hy) as (w & Hw & Hwy). exists w. split; [done|]. by eapply kin_trans.
  - intros i y Hy. destruct (decide (i = np)) as [->|Hi].
    + rewrite list_lookup_alter_eq, O3 in Hy. cbn in Hy. injection Hy as <-. cbn. rewrite <- Epx, Hpar. congruence.
    + rewrite list_lookup_alter_ne in Hy by done. apply (wake_parent _ _ _ _ _ (λ o, o ≠ Some np) Hl2 Hy). intros z Hz. by eapply Hno.
  - intros y y' Hy Hy' Hs Hch. rewrite list_lookup_alter_ne in Hy' by done. apply wake_lookup in Hy' as (z & Hz & ->); [|done].
    destruct (Hkin p z Hne Hz) as (w & Hw & Hwz). simplify_eq. by eapply woken_parent_runs.
Qed.

(** what a computation does after its first steps *)
Lemma wp_run {A B} (m : M K A) (k : A → M K B) (X : outcome K B → Prop) s : wp m (λ a s', X (k a s')) nopanic s → X (mbnd m k s).
Proof. unfold wp, mbnd. by destruct (m s). Qed.

(** the steps of exit() after end_op() *)
Lemma exit_tail np ini p status s ps1 y (X : outcome K unit → Prop) :
  cur s = Some np → held s = [] → initproc s = Some ini → ini ≠ np → length ps1 = 64%nat → ps1 !! np = Some y → p_parent y = Some p → p ≠ np →
  (∀ ps2 k, roused np (Some ini) (alter (set_p_cwd None) np ps1) ps2 → (∀ i x, ps2 !! i = Some x → p_parent x ≠ Some np) →
     (∀ s2, ∃ s3, k s2 = Panic "zombie exit" s3) →
     X (Swtch (set_held [LkProc np] (set_procs (alter (set_p_state ZOMBIE) np (alter (set_p_xstate status) np (wake (ChProc p) (Some np) 64 ps2))) s)) k)) →
  X ((do! upd_proc np (set_p_cwd None) in
      do! acquire LkWait in
      do! reparent np in
      let! pr := getproc np in
      do! wakeup_proc (p_parent pr) in
      do! acquire (LkProc np) in
      do! upd_proc np (set_p_xstate status) in
      do! upd_proc np (set_p_state ZOMBIE) in
      do! release LkWait in
      do! sched in
      panic "zombie exit") (set_procs ps1 s)).
Proof.
  intros Hc Hh Hi Hni Hlen Hy Hpar Hne HX. unfold upd_proc at 1. apply (wp_run _ _ X), wp_modify. kproj.
  apply (wp_run _ _ X), wp_acquire; [kproj; rewrite Hh; apply not_elem_of_nil|]. kst. rewrite Hh. set (ps := alter _ np ps1).
  assert (ps !! np = Some (set_p_cwd None y)) as Hnp by (unfold ps; by rewrite list_lookup_alter_eq, Hy).
  assert (length ps = 64%nat) as Hlp by (unfold ps; by rewrite length_alter).
  apply (wp_run _ _ X), (reparent_ok np ini); [done|done|done|done|done| |].
  { unfold proc_at. kproj. rewrite Hnp. cbn. rewrite Hpar. congruence. }
  kproj. intros ps2 HR Hno. assert (length ps2 = 64%nat) as Hl2 by (by rewrite (ro_len _ _ _ _ HR)).
  unfold getproc. apply (wp_run _ _ X), wp_gets. unfold proc_at at 1. kproj. rewrite (ro_own _ _ _ _ HR), Hnp. cbn [default from_option id p_parent set_p_cwd].
  rewrite Hpar. cbn [wakeup_proc]. apply (wp_run _ _ X), wp_wakeup; [intros j _; kproj; by intros ?%list_elem_of_singleton|]. kproj. rewrite Hc.
  apply (wp_run _ _ X), wp_acquire; [kproj; by intros ?%list_elem_of_singleton|]. kst.
  apply (wp_run _ _ X), wp_modify. kproj. apply (wp_run _ _ X), wp_modify. kproj.
  apply (wp_run _ _ X), wp_release; [kproj; right; by left|]. kst. cbn [unheld]. rewrite decide_False, decide_True by done.
  set (s' := set_procs _ _). destruct (sched_form np s') as (k & Ek & Hk); [done|done| |].
  { unfold proc_at, s'. kproj. rewrite list_lookup_alter_eq, list_lookup_alter_eq.
    rewrite (ro_own _ _ _ _ (roused_wake (ChProc p) np None ps2 Hl2)), (ro_own _ _ _ _ HR), Hnp. done. }
  unfold mbnd at 1. rewrite Ek. cbn [obind]. apply (HX ps2); [done|done|]. intros s2. rewrite Hk. cbn [obind]. eexists. reflexivity.
Qed.

Lemma set_lg_id s : set_lg (lg s) s = s.
Proof using. by destruct s. Qed.
Lemma log_back g : set_log_outstanding (log_outstanding (set_log_outstanding (log_outstanding g + 1) g) - 1) (set_log_outstanding (log_outstanding g + 1) g) = g.
Proof using. destruct g. unfold set_log_outstanding. cbn. f_equal. lia. Qed.

(** exit() never returns: it gives the processor away, and if the zombie were run again it would panic *)
Lemma exit_ok np p d status s :
  can_exit np p d s → ∃ s' k, exit status s = Swtch s' k ∧ exited np p d status s s' ∧ ∀ s2, ∃ s3, k s2 = Panic "zombie exit" s3.
Proof.
  intros [Hc Hh (ini & Hi & Hni) Hlen Hlt Hpar Hne Hnf Hf Hcwd (x & Hx & Hr) Hadm Hq].
  destruct (lookup_lt_is_Some_2 (procs s) np) as [y Hy]; [lia|]. assert (proc_at np s = y) as Ey by (unfold proc_at; by rewrite Hy).
  unfold exit. set (X (o : outcome K unit) := ∃ s' k, o = Swtch s' k ∧ exited np p d status s s' ∧ ∀ s2, ∃ s3, k s2 = Panic "zombie exit" s3).
  apply (wp_run _ _ X). eapply wp_myproc; [done|]. apply (wp_run _ _ X), wp_gets. rewrite Hi, bool_decide_false by congruence.
  apply (wp_run _ _ X), exit_files_ok; [done|lia|done|rewrite Hh; apply not_elem_of_nil|].
  set (ft := close_files _ _). set (ps0 := alter _ np (procs s)).
  assert (ps0 !! np = Some (set_p_ofile (replicate 16 None) y)) as Hnp by (unfold ps0; by rewrite list_lookup_alter_eq, Hy).
  apply (wp_run _ _ X), wp_begin_op; [done|done|]. kproj. unfold getproc at 1. apply (wp_run _ _ X), wp_gets.
  unfold proc_at at 1. kproj. rewrite Hnp. cbn [default from_option id p_cwd set_p_ofile]. rewrite <- Ey at 1. rewrite Hcwd.
  apply (wp_run _ _ X), (wp_iput d x); [kproj; rewrite Hh; apply not_elem_of_nil|done|done|]. kproj.
  set (it := alter _ d (itab s)).
  apply (wp_run _ _ X), (wp_end_op_empty np); [done|done|kproj; unfold ps0; by rewrite length_alter| | |].
  { kproj. cbn. unfold admits in Hadm. by destruct (log_committing (lg s)). }
  { kproj. cbn. destruct Hq; [left; lia|by right]. }
  kproj. rewrite Hi. intros ps1 HR1. set (s0 := set_ftab ft (set_itab it s)).
  match goal with |- X (_ ?u) => replace u with (set_procs ps1 s0) end.
  2: { rewrite <- (set_lg_id s0). unfold s0. kproj. rewrite log_back. reflexivity. }
  apply (exit_tail np ini p _ s0 ps1 (set_p_ofile (replicate 16 None) y)); try done.
  - rewrite (ro_len _ _ _ _ HR1). unfold ps0. by rewrite length_alter.
  - by rewrite (ro_own _ _ _ _ HR1).
  - cbn. by rewrite <- Ey.
  - intros ps2 k HR2 Hno Hk. eexists _, k. split; [reflexivity|]. split; [|done]. eexists. split; [|reflexivity].
    rewrite <- Hi in HR1, HR2. by eapply left_intro.
Qed.
End Exit.
