(* ===== verification/ReapSpec.v ===== *)
(** vm.c and proc.c: freewalk(), uvmfree() and proc_freepagetable() give every
    page of an address space back, and wait() reaps a zombie with them. *)

From S2P Require Import Prelude Mem Layout Kalloc Vm PageTable VmProofs UserMem Uvm VmSpec State Sched Bio Log LogOps Console Fs File Proc SchedSpec ForkSpec ExitSpec.

(** * Giving pages back *)

Definition freed (L : list Z) (A : alloc_st) : alloc_st :=
  foldl (λ A q, mkAlloc (q :: free A) (delete q (refs A))) A L.

Lemma freed_app L L' A : freed (L ++ L') A = freed L' (freed L A).
Proof. apply foldl_app. Qed.

Lemma freed_elem L A p : p ∈ free (freed L A) ↔ p ∈ L ∨ p ∈ free A.
Proof.
  revert A. induction L as [|q L IH]; intros A; [set_solver|].
  change (freed (q :: L) A) with (freed L (mkAlloc (q :: free A) (delete q (refs A)))). rewrite IH. cbn [free]. set_solver.
Qed.

Lemma freed_refs L A p : refs (freed L A) !! p = if decide (p ∈ L) then None else refs A !! p.
Proof.
  revert A. induction L as [|q L IH]; intros A; [done|].
  change (freed (q :: L) A) with (freed L (mkAlloc (q :: free A) (delete q (refs A)))). rewrite IH. cbn [refs].
  rewrite lookup_delete. repeat case_decide; try done; set_solver.
Qed.

(** Memory outside the pages of [L] is the same. *)
Definition same_but (L : list Z) (m m' : gmap Z Z) : Prop :=
  ∀ a, (∀ q, q ∈ L → ¬ in_page q a) → ld8 m' a = ld8 m a.

Lemma same_but_refl L m : same_but L m m.
Proof. done. Qed.
Lemma same_but_trans L L' m m1 m2 :
  same_but L m m1 → same_but L' m1 m2 → (∀ q, q ∈ L → q ∈ L') → same_but L' m m2.
Proof. intros H1 H2 Hs a Ha. rewrite H2 by done. apply H1. auto. Qed.
Lemma same_but_page L m m' p a :
  same_but L m m' → aligned p → (∀ q, q ∈ L → aligned q) → (p ∉ L) → in_page p a → ld8 m' a = ld8 m a.
Proof.
  intros H Hp HL Hn Hin. apply H. intros q Hq. eapply pages_apart; [exact Hp|by apply HL| |done]. by intros ->.
Qed.

(** * freewalk *)

(** A table at [p] with [lvl] levels of tables below it and no leaf in them;
    [L] are its pages in the order freewalk() frees them. *)
Fixpoint dead (lvl : nat) (m : gmap Z Z) (p : Z) (L : list Z) : Prop :=
  ∃ Ls : Z → list Z, L = (seqZ 0 512 ≫= Ls) ++ [p] ∧
    ∀ i, 0 ≤ i < 512 →
      (Z.testbit (ld64 m (p + 8 * i)) 0 = false ∧ Ls i = []) ∨
      match lvl with
      | O => False
      | S l => ∃ q, phys_page q ∧ ld64 m (p + 8 * i) = Z.lor (PA2PTE q) PTE_V ∧ dead l m q (Ls i)
      end.

Lemma dead_head lvl m p L : dead lvl m p L → p ∈ L.
Proof. destruct lvl; intros (Ls & -> & _); apply elem_of_app; right; by left. Qed.

Lemma dead_frame lvl m m' p L :
  (∀ q a, q ∈ L → in_page q a → ld8 m' a = ld8 m a) → dead lvl m p L → dead lvl m' p L.
Proof.
  revert p L. induction lvl as [|l IH]; intros p L Hm (Ls & -> & HL); exists Ls; (split; [done|]); intros i Hi;
    (rewrite (ld64_ext m' m (p + 8 * i)); [|intros b Hb; apply (Hm p); [apply elem_of_app; right; by left|by apply slot_in_page]]).
  - by apply HL.
  - destruct (HL i Hi) as [|(q & Hq & E & Hd)]; [by left|]. right. exists q. split; [done|]. split; [done|].
    apply IH; [|done]. intros q' a Hq'. apply Hm. apply elem_of_app. left. apply list_elem_of_bind. exists i.
    split; [done|]. by apply elem_of_seqZ.
Qed.

Lemma split_range d i l : seqZ 0 512 = d ++ i :: l → 0 ≤ i < 512.
Proof. intros E. apply (elem_of_seqZ 0 512 i). rewrite E. apply elem_of_app. right. by left. Qed.

Section Freewalk.
Context `{PA : PageAlloc}.

Definition owned (A : alloc_st) (L : list Z) : Prop := NoDup L ∧ ∀ q, q ∈ L → refs A !! q = Some 1.

(** the walk below one entry *)
Lemma table_entry q : phys_page q →
  let v := Z.lor (PA2PTE q) PTE_V in
  c_true (Z.land v PTE_V) = true ∧ (Z.land v (Z.lor (Z.lor PTE_R PTE_W) PTE_X) =? 0) = true ∧ PTE2PA v = q.
Proof.
  intros Hq v. assert (pte_pa q) as Hp by auto with cmem. split_and!.
  - rewrite PTE_V_testbit. unfold v. rewrite Z.lor_spec. change (Z.testbit PTE_V 0) with true. apply orb_true_r.
  - apply Z.eqb_eq. unfold v. rewrite PA2PTE_eq by done. apply Z.bits_inj'. intros n Hn.
    rewrite Z.land_spec, Z.lor_spec, Z.bits_0. destruct (decide (n < 10)) as [Hlt|Hge].
    + rewrite Z.shiftl_spec_low by lia. assert (n = 0 ∨ n = 1 ∨ n = 2 ∨ n = 3 ∨ n = 4 ∨ n = 5 ∨ n = 6 ∨ n = 7 ∨ n = 8 ∨ n = 9) as Hc by lia.
      repeat (destruct Hc as [->|Hc]; [done|]). by subst n.
    + rewrite (Z.bits_above_log2 (Z.lor _ _) n), andb_false_r; [done|by vm_compute|].
      change (Z.log2 (Z.lor (Z.lor PTE_R PTE_W) PTE_X)) with 3. lia.
  - by apply PTE2PA_PA2PTE.
Qed.

Lemma owned_app A L L' : owned A (L ++ L') → owned A L ∧ owned (freed L A) L'.
Proof.
  intros [Hn Hr]. apply NoDup_app in Hn as (H1 & H2 & H3). split; split; try done.
  - intros q Hq. apply Hr. set_solver.
  - intros q Hq. rewrite freed_refs, decide_False by (intros Hq'; by apply (H2 q)). apply Hr. set_solver.
Qed.

Lemma owned_page A s L q : pg_rep A s → owned A L → q ∈ L → phys_page q ∧ q ∉ free A.
Proof. intros HA [_ Hr] Hq. apply (pg_refs_page A s); [done|]. rewrite Hr by done. eauto. Qed.

(** a store in a page that is not free *)
Lemma pg_rep_store A s q i v :
  pg_rep A s → refs A !! q = Some 1 → 0 ≤ i < 512 →
  pg_rep A (set_mem (st64 (mem s) (q + 8 * i) v) s) ∧ same_outside q (mem s) (st64 (mem s) (q + 8 * i) v).
Proof.
  intros HA Hq Hi. assert (same_outside q (mem s) (st64 (mem s) (q + 8 * i) v)) as Hout.
  { intros a Ha. apply ld8_st64. unfold in_page in Ha. consts. lia. }
  split; [|done]. apply pg_rep_mem; [done|]. intros x a Hx Hin. apply Hout.
  destruct (pg_refs_page A s q HA ltac:(eauto)) as [Hqp Hqf]. pose proof (pg_free_page A s x HA Hx) as Hxp.
  eapply pages_apart; [apply Hxp|apply Hqp| |done]. by intros ->.
Qed.

Section Level.
Context (A : alloc_st) (s : phys) (p : Z) (Ls : Z → list Z).
Context (HA : pg_rep A s) (Hown : owned A ((seqZ 0 512 ≫= Ls) ++ [p])).

(** after the entries [d] *)
Definition walk_inv (d : list Z) (s1 : phys) : Prop :=
  pg_rep (freed (d ≫= Ls) A) s1 ∧ same_but ((d ≫= Ls) ++ [p]) (mem s) (mem s1) ∧
  ∀ i, i ∈ seqZ 0 512 → i ∉ d → ld64 (mem s1) (p + 8 * i) = ld64 (mem s) (p + 8 * i).

(** the pages of entry [i], with those of the entries before it gone *)
Lemma entry_owned d i l : seqZ 0 512 = d ++ i :: l →
  owned (freed (d ≫= Ls) A) (Ls i) ∧ owned (freed ((d ++ [i]) ≫= Ls) A) [p] ∧ (p ∉ Ls i) ∧ (p ∉ d ≫= Ls) ∧
  (∀ q, q ∈ Ls i → q ∉ d ≫= Ls).
Proof using Hown.
  intros E. rewrite E, bind_app, bind_cons in Hown. rewrite <- !app_assoc in Hown.
  destruct (owned_app _ _ _ Hown) as [H1 H2]. destruct (owned_app _ _ _ H2) as [H3 H4].
  destruct (owned_app _ _ _ H4) as [H5 H6]. split; [done|].
  destruct Hown as [Hn Hr]. apply NoDup_app in Hn as (_ & Hn1 & Hn2). apply NoDup_app in Hn2 as (_ & Hn3 & Hn4).
  assert (p ∈ (l ≫= Ls) ++ [p]) as Hp by (apply elem_of_app; right; by left).
  assert (p ∉ d ≫= Ls) as Hpd by (intros Hd; apply (Hn1 p Hd), elem_of_app; by right).
  assert (p ∉ Ls i) as Hpi by (intros Hi; by apply (Hn3 p Hi)).
  split_and!; [|done|done|].
  - split; [apply NoDup_singleton|]. intros q ->%list_elem_of_singleton.
    rewrite bind_app, bind_singleton, freed_refs, decide_False.
    + apply Hr. rewrite !elem_of_app. right. right. right. by left.
    + intros [|]%elem_of_app; done.
  - intros q Hq Hd. apply (Hn1 q Hd), elem_of_app. by left.
Qed.

Lemma walk_inv_skip d i l s1 :
  seqZ 0 512 = d ++ i :: l → walk_inv d s1 → Ls i = [] → walk_inv (d ++ [i]) s1.
Proof using.
  intros E (H1 & H2 & H3) Hn. unfold walk_inv. rewrite bind_app, bind_singleton, Hn, app_nil_r. split; [done|].
  split; [done|]. intros j Hj Hnj. apply H3; [done|]. by apply not_elem_of_app in Hnj as [].
Qed.

Lemma walk_inv_child d i l s1 s2 :
  seqZ 0 512 = d ++ i :: l → walk_inv d s1 →
  pg_rep (freed (Ls i) (freed (d ≫= Ls) A)) s2 → same_but (Ls i) (mem s1) (mem s2) →
  walk_inv (d ++ [i]) (set_mem (st64 (mem s2) (p + 8 * i) 0) s2).
Proof using HA Hown.
  intros E (H1 & H2 & H3) HA2 Hm2. destruct (entry_owned d i l E) as (Ho & Hp & Hpi & Hpd & Hdis).
  assert (0 ≤ i < 512) as Hi by by eapply split_range.
  rewrite <- freed_app in HA2. unfold walk_inv. rewrite bind_app, bind_singleton in *.
  destruct (pg_rep_store _ s2 p i 0 HA2) as [HA3 Hout]; [apply Hp; by left|done|]. cbn [mem set_mem].
  assert (aligned p) as Hap by (eapply (owned_page A s); [done|exact Hown|apply elem_of_app; right; by left]).
  split; [done|]. split.
  - apply (same_but_trans (((d ≫= Ls) ++ Ls i) ++ [p]) _ _ (mem s2)); [|intros a Ha; apply Hout, Ha, elem_of_app; right; by left|done].
    eapply same_but_trans; [exact H2| |clear; set_solver]. intros a Ha. apply Hm2. intros q Hq. apply Ha. clear -Hq. set_solver.
  - intros j Hj Hnj. apply not_elem_of_app in Hnj as [Hnd Hne%not_elem_of_cons]. rewrite ld64_st64_ne by lia. rewrite <- H3 by done.
    apply elem_of_seqZ in Hj. apply ld64_ext. intros b Hb. eapply (same_but_page _ _ _ p); [exact Hm2|done| |done|by apply slot_in_page].
    intros q Hq. eapply (owned_page _ s1); [exact H1|exact Ho|done].
Qed.
End Level.

Lemma freewalk_ok fuel lvl A s p L :
  (lvl < fuel)%nat → pg_rep A s → dead lvl (mem s) p L → owned A L →
  wp (freewalk_fuel fuel p) (λ _ s', pg_rep (freed L A) s' ∧ same_but L (mem s) (mem s')) nopanic s.
Proof.
  revert lvl A s p L. induction fuel as [|fuel IH]; intros lvl A s p L Hlt HA HD Hown; [lia|]. cbn [freewalk_fuel].
  assert (∃ Ls : Z → list Z, L = (seqZ 0 512 ≫= Ls) ++ [p] ∧ ∀ i, 0 ≤ i < 512 →
      (Z.testbit (ld64 (mem s) (p + 8 * i)) 0 = false ∧ Ls i = []) ∨
      ∃ q l, lvl = S l ∧ phys_page q ∧ ld64 (mem s) (p + 8 * i) = Z.lor (PA2PTE q) PTE_V ∧ dead l (mem s) q (Ls i))
    as (Ls & -> & HL).
  { destruct lvl; destruct HD as (Ls & -> & HL); exists Ls; (split; [done|]); intros i Hi;
      destruct (HL i Hi) as [|H]; auto; [done|]. destruct H as (q & Hq). right. eauto. }
  apply wp_bind. eapply wp_post; [eapply (wp_for_each (seqZ 0 512) [] (seqZ 0 512) _
    (λ l s1, ∃ d, seqZ 0 512 = d ++ l ∧ walk_inv A s p Ls d s1)); [|done|]|].
  - intros d' i l s1 _ (d & E & HI). pose proof HI as (H1 & H2 & H3).
    assert (0 ≤ i < 512) as Hi by by eapply split_range.
    assert (i ∈ seqZ 0 512 ∧ i ∉ d) as [Hin Hid].
    { split; [by apply elem_of_seqZ|]. intros Hd. pose proof (NoDup_seqZ 0 512) as Hnd. rewrite E in Hnd.
      apply NoDup_app in Hnd as (_ & Hnd & _). apply (Hnd i Hd). by left. }
    assert (seqZ 0 512 = (d ++ [i]) ++ l) as E' by by rewrite <- app_assoc.
    apply wp_bind. unfold load64. apply wp_gets. rewrite (H3 i Hin Hid).
    destruct (HL i Hi) as [[Hv Hn]|(q & l' & -> & Hq & Hv & HDq)].
    + rewrite PTE_V_testbit, Hv. cbn [andb]. apply wp_when_f; [done|]. exists (d ++ [i]). split; [done|]. by eapply walk_inv_skip.
    + rewrite Hv. destruct (table_entry q Hq) as (-> & -> & ->). cbn [andb].
      destruct (entry_owned A p Ls Hown d i l E) as (Ho & _ & Hpi & _ & Hdis).
      apply wp_bind. eapply wp_post; [apply (IH l' (freed (d ≫= Ls) A) s1 q (Ls i)); [lia|exact H1| |exact Ho]|].
      * eapply dead_frame; [|exact HDq]. intros x a Hx Hxa.
        eapply (same_but_page _ _ _ x); [exact H2| | | |exact Hxa].
        -- eapply (owned_page _ s1); [exact H1|exact Ho|done].
        -- intros y Hy. eapply (owned_page A s); [done|exact Hown|]. apply elem_of_app in Hy as [Hy|Hy]; apply elem_of_app; [left|by right].
           rewrite E, bind_app. apply elem_of_app. by left.
        -- intros [Hd|Hp]%elem_of_app; [by eapply Hdis|]. apply list_elem_of_singleton in Hp as ->. done.
      * intros [] s2 [HA2 Hm2]. unfold store64. apply wp_modify. exists (d ++ [i]). split; [done|]. by eapply walk_inv_child.
  - exists []. split; [done|]. split_and!; [done|apply same_but_refl|done].
  - intros [] s1 (d & E & H1 & H2 & _). rewrite app_nil_r in E. subst d.
    destruct (owned_app _ _ _ Hown) as [_ Hp]. destruct Hp as [_ Hp].
    eapply wp_post; [apply (pg_free_ok (freed (seqZ 0 512 ≫= Ls) A) (freed ((seqZ 0 512 ≫= Ls) ++ [p]) A)); [exact H1|]|].
    + unfold spec_free. rewrite Hp by by left. by rewrite freed_app.
    + intros [] s2 [HA2 Hm2]. split; [done|]. intros a Ha. rewrite Hm2; [by apply H2|]. apply Ha, elem_of_app. right. by left.
Qed.

End Freewalk.

(** * The tables of an address space *)

Definition pages0 (T : ptree) (i j : Z) : list Z := match lev0 T !! (i, j) with Some q => [q] | None => [] end.
Definition pages1 (T : ptree) (i : Z) : list Z :=
  match lev1 T !! i with Some p => (seqZ 0 512 ≫= pages0 T i) ++ [p] | None => [] end.
Definition table_pages (root : Z) (T : ptree) : list Z := (seqZ 0 512 ≫= pages1 T) ++ [root].

Definition no_leaf (m : gmap Z Z) (T : ptree) : Prop :=
  ∀ ij q k, lev0 T !! ij = Some q → 0 ≤ k < 512 → Z.testbit (ld64 m (q + 8 * k)) 0 = false.

Lemma entry_some m a p : entry m a = Some p → Z.testbit (ld64 m a) 0 = true.
Proof. unfold entry. by destruct (Z.testbit _ 0). Qed.
Lemma entry_none m a : entry m a = None → Z.testbit (ld64 m a) 0 = false.
Proof. unfold entry. by destruct (Z.testbit _ 0). Qed.

Lemma dead0 m q : (∀ k, 0 ≤ k < 512 → Z.testbit (ld64 m (q + 8 * k)) 0 = false) → dead 0 m q [q].
Proof.
  intros H. exists (λ _, []). split; [|intros i Hi; left; by rewrite H].
  assert (∀ l : list Z, l ≫= (λ _, []) = @nil Z) as -> by (by induction l). done.
Qed.

Section Tables.
Context (m : gmap Z Z) (root : Z) (T : ptree) (HT : pt_rep m root T).

Lemma tables_dead : no_leaf m T → dead 2 m root (table_pages root T).
Proof using HT.
  intros HN. exists (pages1 T). split; [done|]. intros i Hi. pose proof (pr_ent1 _ _ _ HT i Hi) as E1. unfold pages1.
  destruct (lev1 T !! i) as [p|] eqn:Hp; [right|left; split; [by apply entry_none|done]].
  exists p. split; [by eapply (pr_page _ _ _ HT), table_lev1|]. split; [by apply (pr_pure1 _ _ _ HT)|].
  exists (pages0 T i). split; [done|]. intros j Hj. pose proof (pr_ent0 _ _ _ HT i j p Hp Hj) as E0. unfold pages0.
  destruct (lev0 T !! (i, j)) as [q|] eqn:Hq; [right|left; split; [by apply entry_none|done]].
  exists q. split; [by eapply (pr_page _ _ _ HT), table_lev0|]. split; [by eapply (pr_pure0 _ _ _ HT)|].
  apply dead0. intros k Hk. by eapply HN.
Qed.

Lemma elem_pages0 i j q : q ∈ pages0 T i j ↔ lev0 T !! (i, j) = Some q.
Proof using. unfold pages0. destruct (lev0 T !! (i, j)); [rewrite list_elem_of_singleton|rewrite elem_of_nil]; naive_solver. Qed.

Lemma elem_pages1 i q : q ∈ pages1 T i ↔ lev1 T !! i = Some q ∨ ∃ j, lev0 T !! (i, j) = Some q.
Proof using HT.
  unfold pages1. destruct (lev1 T !! i) as [p|] eqn:Hp.
  - rewrite elem_of_app, list_elem_of_singleton, list_elem_of_bind. split.
    + intros [(j & Hq & _)| ->]; [right; exists j; by apply elem_pages0|by left].
    + intros [[= ->]|[j Hj]]; [by right|]. left. exists j. split; [by apply elem_pages0|].
      apply elem_of_seqZ. by apply (pr_dom0 _ _ _ HT) in Hj as [_ Hj].
  - rewrite elem_of_nil. split; [done|]. intros [|[j Hj]]; [done|]. apply (pr_dom0 _ _ _ HT) in Hj as [[p' Hp'] _]. congruence.
Qed.

Lemma elem_table_pages q : q ∈ table_pages root T ↔ table root T q.
Proof using HT.
  unfold table_pages, table. rewrite elem_of_app, list_elem_of_singleton, list_elem_of_bind. split.
  - intros [(i & [Hq|[j Hq]]%elem_pages1 & _)| ->]; eauto.
  - intros [->|[[i Hi]|[[i j] Hij]]]; [by right|left; exists i..].
    + split; [apply elem_pages1; by left|]. apply elem_of_seqZ. by apply (pr_dom1 _ _ _ HT) in Hi.
    + split; [apply elem_pages1; right; eauto|]. apply elem_of_seqZ.
      apply (pr_dom0 _ _ _ HT) in Hij as [[p Hp] _]. by apply (pr_dom1 _ _ _ HT) in Hp.
Qed.

Lemma NoDup_table_pages : NoDup (table_pages root T).
Proof using HT.
  apply NoDup_app. split_and!; [apply NoDup_bind; [| |apply NoDup_seqZ]| |apply NoDup_singleton].
  - intros i i' q _ _ [Hq|[j Hq]]%elem_pages1 [Hq'|[j' Hq']]%elem_pages1.
    + by eapply (pr_inj1 _ _ _ HT).
    + by apply (pr_disj _ _ _ HT) with (ij := (i', j')) in Hq.
    + by apply (pr_disj _ _ _ HT) with (ij := (i, j)) in Hq'.
    + by pose proof (pr_inj0 _ _ _ HT _ _ _ Hq Hq') as [= -> _].
  - intros i _. unfold pages1. destruct (lev1 T !! i) as [p|] eqn:Hp; [|constructor].
    apply NoDup_app. split_and!; [apply NoDup_bind; [| |apply NoDup_seqZ]| |apply NoDup_singleton].
    + intros j j' q _ _ Hq%elem_pages0 Hq'%elem_pages0. by pose proof (pr_inj0 _ _ _ HT _ _ _ Hq Hq') as [= ->].
    + intros j _. unfold pages0. destruct (lev0 T !! (i, j)); [apply NoDup_singleton|constructor].
    + intros q (j & Hq%elem_pages0 & _)%list_elem_of_bind ->%list_elem_of_singleton. by eapply (pr_disj _ _ _ HT).
  - intros q (i & [Hq|[j Hq]]%elem_pages1 & _)%list_elem_of_bind ->%list_elem_of_singleton.
    + by eapply (pr_root1 _ _ _ HT).
    + by eapply (pr_root0 _ _ _ HT).
Qed.

End Tables.

(** the address whose indices are [i], [j] and [k] *)
Lemma PX_build i j k : 0 ≤ i < 256 → 0 ≤ j < 512 → 0 ≤ k < 512 →
  let va := i * 2 ^ 30 + j * 2 ^ 21 + k * 2 ^ 12 in
  aligned va ∧ 0 ≤ va < MAXVA ∧ PX 2 va = i ∧ PX 1 va = j ∧ PX 0 va = k.
Proof.
  intros Hi Hj Hk va. unfold va. rewrite !PX_div by lia. unfold PXSHIFT, aligned. consts.
  change (2 ^ (12 + 9 * 2)) with (2 ^ 30). change (2 ^ (12 + 9 * 1)) with (2 ^ 21). change (2 ^ (12 + 9 * 0)) with (2 ^ 12).
  split_and!; Z.div_mod_to_equations; lia.
Qed.

Lemma no_leaf_intro m root T :
  pt_rep m root T → (∀ va, aligned va → 0 ≤ va < MAXVA → Z.testbit (pte_of m T va) 0 = false) → no_leaf m T.
Proof.
  intros HT H [i j] q k Hq Hk. destruct (pr_dom0 _ _ _ HT i j q Hq) as [[p Hp] Hj].
  pose proof (pr_dom1 _ _ _ HT i p Hp). pose proof (pr_low _ _ _ HT i p Hp).
  destruct (PX_build i j k ltac:(lia) Hj Hk) as (Ha & Hr & E2 & E1 & E0). set (va := _ + k * 2 ^ 12) in *.
  specialize (H va Ha Hr). unfold pte_of, pte_slot in H. by rewrite E2, E1, E0, Hq in H.
Qed.

(** * uvmfree *)

Section Free.
Context `{PA : PageAlloc}.

(** Exactly the pages [F] went back to the allocator. *)
Record released (A : alloc_st) (s : phys) (F : Z → Prop) (A' : alloc_st) (s' : phys) : Prop := {
  rl_rep : pg_rep A' s';
  rl_free p : p ∈ free A' ↔ p ∈ free A ∨ F p;
  rl_refs p : refs A' !! p = if decide (p ∈ free A') then None else refs A !! p;
  rl_mem p a : is_Some (refs A' !! p) → in_page p a → ld8 (mem s') a = ld8 (mem s) a;
}.

Lemma freewalk_tables A root T s :
  vm_inv A root T s → no_leaf (mem s) T →
  wp (freewalk root) (λ _ s', ∃ A', released A s (table root T) A' s') nopanic s.
Proof.
  intros HI HN. pose proof (vi_tree HI) as HT. pose proof (elem_table_pages _ _ _ HT) as Hel. set (L := table_pages root T) in *.
  assert (owned A L) as Hown.
  { split; [by eapply NoDup_table_pages|]. intros q Hq%Hel. by apply (vi_owned HI). }
  eapply wp_post; [apply (freewalk_ok 4 2 A s root L); [lia|apply HI|by apply tables_dead|done]|].
  intros [] s' [HA' Hm]. exists (freed L A). constructor; [done| | |].
  - intros p. rewrite freed_elem, Hel. tauto.
  - intros p. rewrite freed_refs. destruct (decide (p ∈ L)) as [Hp|Hp].
    + rewrite decide_True; [done|]. apply freed_elem. by left.
    + case_decide as Hf; [|done]. apply freed_elem in Hf as [|Hf]; [done|]. eapply free_not_refs; [apply HI|done].
  - intros p a Hp Hin. destruct (pg_refs_page _ s' p HA' Hp) as [Hpp Hpf]. eapply (same_but_page L _ _ p); [done|apply Hpp| | |done].
    + intros q Hq. eapply (owned_page A s); [apply HI|done|done].
    + intros Hq. apply Hpf, freed_elem. by left.
Qed.

Lemma uvmfree_ok A root T s sz :
  uvm A root T s (below sz) → 0 ≤ sz ≤ TRAPFRAME →
  (∀ va, aligned va → TRAPFRAME ≤ va < MAXVA → Z.testbit (pte_of (mem s) T va) 0 = false) →
  wp (uvmfree root sz) (λ _ s', ∃ A', released A s (foot root T (mem s) (below sz)) A' s') nopanic s.
Proof.
  intros HU Hsz Hhigh. unfold uvmfree. apply wp_bind.
  destruct (PGROUNDUP_spec sz ltac:(lia) ltac:(consts; lia)) as [Ha Hb].
  assert (aligned TRAPFRAME) as HTF by done.
  assert (PGROUNDUP sz / PGSIZE * PGSIZE = PGROUNDUP sz ∧ PGROUNDUP sz ≤ TRAPFRAME ∧ 0 ≤ PGROUNDUP sz / PGSIZE) as (En & Hle & Hn)
    by (unfold aligned in *; consts; Z.div_mod_to_equations; lia).
  assert (wp (when (0 <? sz) (uvmunmap root 0 (PGROUNDUP sz / PGSIZE) true))
    (λ _ s1, ∃ A1, ushrink A root T s (below sz) A1 s1 (λ _, False)) nopanic s) as Hun.
  { apply wp_when; intros Hlt.
    - eapply wp_post; [apply (uvmunmap_ok A root T s (below sz)); try done; try lia; unfold below; lia|].
      intros [] s1 (A1 & HS). exists A1. eapply ushrink_iff; [|exact HS]. intros va _ Hva. unfold below. simpl. lia.
    - exists A. eapply ushrink_iff; [|by apply ushrink_refl]. intros va _ Hva. unfold below.
      assert (sz = 0) as -> by lia. change (PGROUNDUP 0) with 0. lia. }
  eapply wp_post; [exact Hun|]. clear Hun. intros [] s1 (A1 & HS).
  pose proof (uh_uvm _ _ _ _ _ _ _ _ HS) as HU1.
  eapply wp_post; [apply (freewalk_tables A1 root T s1); [apply HU1|]|].
  - apply (no_leaf_intro _ root); [apply HU1|]. intros va Hva Hr. destruct (decide (va < TRAPFRAME)).
    + apply (uv_none _ _ _ _ _ HU1); [done|lia|by intros []].
    + rewrite (uh_high _ _ _ _ _ _ _ _ HS) by (done || lia). apply Hhigh; [done|lia].
  - intros [] s2 (A2 & HR). exists A2. destruct HR as [R1 R2 R3 R4].
    assert (∀ p, p ∈ free A2 ↔ p ∈ free A ∨ foot root T (mem s) (below sz) p) as Hfree.
    { intros p. rewrite R2, (uh_free _ _ _ _ _ _ _ _ HS). unfold foot. split.
      - intros [[|(va & H1 & H2 & H3 & _ & ->)]|]; eauto 10.
      - intros [|[|(va & H1 & H2 & H3 & ->)]]; eauto 15. }
    constructor; [done|done| |].
    + intros p. rewrite R3, (uh_refs _ _ _ _ _ _ _ _ HS). repeat case_decide; try done. rewrite R2 in *. tauto.
    + intros p a Hp Hin. rewrite (R4 p) by done. destruct (pg_refs_page A2 s2 p R1 Hp) as [_ Hnf]. rewrite R2 in Hnf.
      apply (uh_mem _ _ _ _ _ _ _ _ HS p); [|tauto|done].
      rewrite R3 in Hp. case_decide; [|done]. by destruct Hp.
Qed.

End Free.

(** * proc_freepagetable *)

Section FreePageTable.
Context `{PA : PageAlloc} `{Sy : Symbols}.

(** Only the leaf entry of [va] changed. *)
Record cleared (A : alloc_st) (root : Z) (T : ptree) (s : phys) (va : Z) (s' : phys) : Prop := {
  cl_inv : vm_inv A root T s';
  cl_pte va' : aligned va' → 0 ≤ va' < MAXVA → pte_of (mem s') T va' = if decide (va' = va) then 0 else pte_of (mem s) T va';
  cl_mem a : (∀ p, table root T p → ¬ in_page p a) → ld8 (mem s') a = ld8 (mem s) a;
}.

(** uvmunmap() of one page without freeing it *)
Lemma unmap_keep A root T s va pa perm :
  vm_inv A root T s → aligned va → 0 ≤ va < MAXVA → pte_of (mem s) T va = leaf pa perm → pte_pa pa → 0 ≤ perm < 1024 →
  (Z.lor perm PTE_V =? PTE_V) = false →
  wp (uvmunmap root va 1 false) (λ _ s', cleared A root T s va s') nopanic s.
Proof.
  intros HI Ha Hr E Hpa Hperm Hfl. unfold uvmunmap. pose proof Ha as Hal. unfold aligned in Hal. rewrite Hal. cbn [negb Z.eqb].
  rewrite Z.mul_1_l. assert (va + PGSIZE ≤ MAXVA) as Hmax by (clear -Ha Hr; unfold aligned in *; consts; Z.div_mod_to_equations; lia).
  rewrite u64_small by (consts; lia).
  apply (wp_loop _ (λ a s1, (a = va ∧ s1 = s) ∨ (a = va + PGSIZE ∧ cleared A root T s va s1)) (λ a _, va + PGSIZE - a));
    [|by left|consts; lia].
  intros a s1 [[-> ->]|[-> HC]].
  - apply wp_if_t; [consts; lia|].
    destruct (pte_of_valid_slot (mem s) T va) as [r Hsl]; [rewrite E; apply leaf_valid|].
    apply wp_bind, (wp_walk_lookup root T); [apply HI|done|]. rewrite Hsl. cbn [default from_option id].
    rewrite (pte_slot_nonzero _ _ _ _ _ (vi_tree HI) Hsl). wp_mem.
    rewrite (pte_of_slot _ _ _ _ Hsl), E, PTE_V_testbit, leaf_valid. cbn [negb]. rewrite leaf_flags, Hfl by done.
    apply wp_bind, wp_when_f; [done|]. wp_mem. rewrite u64_small by (consts; lia). split; [|consts; lia]. right. split; [done|].
    destruct (grow_leaf root A T s va r 0 HI Hsl Hr ltac:(lia)) as [HG HL]. constructor; [apply HG| |].
    + intros va' Ha' Hr'. rewrite HL by done. by rewrite !PGROUNDDOWN_id by done.
    + intros b Hb. apply (g_frame HG); [done|]. intros p Hp. by apply elem_of_nil in Hp.
  - apply wp_if_f; [lia|]. by apply wp_ret.
Qed.

(** clearing a page above the image *)
Lemma cleared_uvm A root T s va s' P :
  uvm A root T s P → TRAPFRAME ≤ va → cleared A root T s va s' →
  uvm A root T s' P ∧ ∀ p, foot root T (mem s') P p ↔ foot root T (mem s) P p.
Proof.
  intros HU Hva [C1 C2 C3].
  assert (∀ v, aligned v → 0 ≤ v < TRAPFRAME → pte_of (mem s') T v = pte_of (mem s) T v) as Hp.
  { intros v Hv Hr. rewrite C2 by (done || (consts; lia)). by rewrite decide_False by lia. }
  split.
  - constructor; [done| | | |].
    + intros v Hv Hr HPv. rewrite Hp by done. by apply (uv_leaf _ _ _ _ _ HU).
    + intros v v' Hv Hr HPv Hv' Hr' HPv'. unfold upage. rewrite !Hp by done. by apply (uv_inj _ _ _ _ _ HU).
    + intros v Hv Hr Hn. rewrite Hp by done. by apply (uv_none _ _ _ _ _ HU).
    + intros v Hv Hr. rewrite C2 by (done || (consts; lia)). case_decide; [done|]. by apply (uv_high _ _ _ _ _ HU).
  - intros p. unfold foot, upage. split; (intros [|(v & Hv & Hr & HPv & ->)]; [by left|]); right; exists v;
      (split_and!; [done|lia|lia|done|by rewrite Hp]).
Qed.

Lemma proc_freepagetable_ok A root T s sz tf :
  uvm A root T s (below sz) → 0 ≤ sz ≤ TRAPFRAME → high_maps (mem s) T tf → text_page → phys_page tf →
  wp (proc_freepagetable root sz) (λ _ s', ∃ A', released A s (foot root T (mem s) (below sz)) A' s') nopanic s.
Proof.
  intros HU Hsz [H1 H2] [Htr _] Htf. unfold proc_freepagetable. apply wp_bind.
  eapply wp_post; [by apply (unmap_keep A root T s TRAMPOLINE trampoline RX); [apply HU|..]|].
  intros [] s1 HC1. destruct (cleared_uvm _ _ _ _ TRAMPOLINE _ _ HU ltac:(done) HC1) as [HU1 Hf1]. apply wp_bind.
  eapply wp_post; [apply (unmap_keep A root T s1 TRAPFRAME tf RW); try done; [apply HU1| |by apply phys_page_pte]|].
  { rewrite (cl_pte _ _ _ _ _ _ HC1) by done. by rewrite decide_False. }
  intros [] s2 HC2. destruct (cleared_uvm _ _ _ _ TRAPFRAME _ _ HU1 ltac:(done) HC2) as [HU2 Hf2].
  eapply wp_post; [apply (uvmfree_ok A root T s2 sz HU2 Hsz)|].
  - intros va Ha Hr. rewrite (cl_pte _ _ _ _ _ _ HC2) by (done || (consts; lia)). case_decide; [done|].
    rewrite (cl_pte _ _ _ _ _ _ HC1) by (done || (consts; lia)). case_decide; [done|].
    destruct (high_pages va Ha Hr); done.
  - intros [] s3 (A' & [R1 R2 R3 R4]). exists A'. constructor; [done| |done|].
    + intros p. by rewrite R2, Hf2, Hf1.
    + intros p a Hp Hin. rewrite (R4 p) by done. destruct (pg_refs_page A' s3 p R1 Hp) as [Hpp Hnf]. rewrite R2 in Hnf.
      assert (∀ q, table root T q → ¬ in_page q a) as Hnt.
      { intros q Hq. eapply pages_apart; [apply Hpp|by eapply table_aligned; [apply HU|]| |done].
        intros ->. apply Hnf. right. by left. }
      by rewrite (cl_mem _ _ _ _ _ _ HC2), (cl_mem _ _ _ _ _ _ HC1).
Qed.

End FreePageTable.

(** * freeproc *)

Section Freeproc.
Context `{PA : PageAlloc} `{Sy : Symbols}.

(** the slot as freeproc() leaves it *)
Definition blank (x : proc) : proc :=
  mkProc UNUSED None 0 0 0 None (p_kstack x) 0 0 0 (p_context x) (p_ofile x) (p_cwd x) (<[0%nat := 0]> (p_name x)).

(** the memory of a process: its image and tables, and its trapframe *)
Record process_mem (A : alloc_st) (x : proc) (T : ptree) (s : phys) : Prop := {
  pm_uvm : uvm A (p_pagetable x) T s (below (p_sz x));
  pm_sz : 0 ≤ p_sz x ≤ TRAPFRAME;
  pm_high : high_maps (mem s) T (p_trapframe x);
  pm_tf : refs A !! p_trapframe x = Some 1;
  pm_apart : ¬ foot (p_pagetable x) T (mem s) (below (p_sz x)) (p_trapframe x);
}.
Definition process_page (x : proc) (T : ptree) (s : phys) (q : Z) : Prop :=
  q = p_trapframe x ∨ foot (p_pagetable x) T (mem s) (below (p_sz x)) q.

(** a page that is not part of an address space is freed *)
Lemma free_apart A root T s P q s1 :
  uvm A root T s P → refs A !! q = Some 1 → ¬ foot root T (mem s) P q →
  let A1 := mkAlloc (q :: free A) (delete q (refs A)) in
  pg_rep A1 s1 → same_outside q (mem s) (mem s1) →
  uvm A1 root T s1 P ∧ (∀ va, pte_of (mem s1) T va = pte_of (mem s) T va).
Proof.
  intros HU Hq Hn A1 HA1 Hout.
  assert (∀ p a, foot root T (mem s) P p → in_page p a → ld8 (mem s1) a = ld8 (mem s) a) as Hm.
  { intros p a Hp Hin. apply Hout. destruct (foot_refs _ _ _ _ _ _ HU Hp) as [Hpp _].
    destruct (pg_refs_page A s q ltac:(apply HU) ltac:(eauto)) as [Hqp _].
    eapply pages_apart; [apply Hpp|apply Hqp| |done]. by intros ->. }
  split.
  - apply (uvm_frame A A1 root T s s1 P HU HA1); [|done]. intros p c Hp Hc. cbn [refs A1].
    rewrite lookup_delete_ne; [done|]. by intros ->.
  - intros va. apply (pte_of_frame _ root). intros p a Hp. apply Hm. by left.
Qed.

Lemma freeproc_ok A T pp x s (Q : unit → K → Prop) E :
  procs s !! pp = Some x → process_mem A x T (phy s) → text_page →
  (∀ A' ph, released A (phy s) (process_page x T (phy s)) A' ph →
     Q tt (set_phy ph (set_procs (alter blank pp (procs s)) s))) →
  wp (freeproc pp) Q E s.
Proof.
  intros Hx [HU Hsz Hhigh Htf Hn] Htext HQ. unfold freeproc.
  destruct (pg_refs_page A (phy s) (p_trapframe x) ltac:(apply HU) ltac:(eauto)) as [Htp Htnf].
  assert (phys_page (p_pagetable x)) as Hrt by (apply (pr_page _ _ _ (vi_tree (uv_vm _ _ _ _ _ HU))); by left).
  apply wp_bind, wp_gets. unfold proc_at. rewrite Hx. cbn [default from_option id].
  apply wp_bind, wp_when_t; [destruct Htp as [_ Htp]; consts; lia|]. unfold phy_do. apply wp_lift.
  eapply wp_mono; [apply (pg_free_ok A (mkAlloc (p_trapframe x :: free A) (delete (p_trapframe x) (refs A)))); [apply HU|]| |done].
  { unfold spec_free. by rewrite Htf. }
  intros [] ph1 [HA1 Hout]. destruct (free_apart _ _ _ _ _ _ _ HU Htf Hn HA1 Hout) as [HU1 Hpte]. wp_k.
  apply wp_when_t; [destruct Hrt as [_ Hrt]; consts; lia|]. unfold phy_do. apply wp_lift. kst.
  eapply wp_mono; [apply (proc_freepagetable_ok _ _ T ph1 (p_sz x) (p_trapframe x) HU1 Hsz); [|done|done]| |done].
  { destruct Hhigh as [H1 H2]. split; by rewrite Hpte. }
  intros [] ph2 (A' & [R1 R2 R3 R4]). wp_k. kst. rewrite alter_compose.
  assert (∀ p, foot (p_pagetable x) T (mem ph1) (below (p_sz x)) p ↔ foot (p_pagetable x) T (mem (phy s)) (below (p_sz x)) p) as Hf.
  { intros p. unfold foot, upage. by setoid_rewrite Hpte. }
  assert (∀ p, p ∈ free A' ↔ p ∈ free A ∨ process_page x T (phy s) p) as Hfree.
  { intros p. rewrite R2, Hf. cbn [free]. unfold process_page. set_solver. }
  apply (HQ A' ph2). constructor; [done|done| |].
  - intros p. rewrite R3. case_decide as Hp; [done|]. cbn [refs]. rewrite lookup_delete_ne; [done|].
    intros <-. apply Hp, Hfree. right. by left.
  - intros p a Hp Hin. rewrite (R4 p) by done. apply Hout. destruct (pg_refs_page A' ph2 p R1 Hp) as [Hpp Hnf].
    eapply pages_apart; [apply Hpp|apply Htp| |done]. intros ->. apply Hnf, Hfree. right. by left.
Qed.

End Freeproc.

(** * wait *)

Section Wait.
Context `{PA : PageAlloc} `{Sy : Symbols}.

(** a child of [p] among the slots [l] *)
Definition kid (p : nat) (s : K) (l : list nat) : bool := existsb (λ i, bool_decide (p_parent (proc_at i s) = Some p)) l.

(** slots without a zombie child of [p] *)
Definition no_zombie (p : nat) (s : K) (l : list nat) : Prop :=
  ∀ i, i ∈ l → p_parent (proc_at i s) = Some p → p_state (proc_at i s) ≠ ZOMBIE.

Lemma wait_skip d l p addr hk (Q : bool + Z → K → Prop) E s :
  held s = [LkWait] → no_zombie p s d →
  wp (wait_scan l p addr (hk || kid p s d)) Q E s → wp (wait_scan (d ++ l) p addr hk) Q E s.
Proof.
  intros Hh. revert hk. induction d as [|i d IH]; intros hk Hnz Hl.
  { cbn [kid existsb] in Hl. by rewrite orb_false_r in Hl. }
  assert (no_zombie p s d) as Hnz' by (intros j Hj; apply Hnz; by right).
  cbn [app wait_scan]. unfold getproc at 1. apply wp_bind, wp_gets.
  cbn [kid existsb] in Hl. case_bool_decide as Hp; cbn [negb].
  - wp_k; [by rewrite Hh; intros ?%list_elem_of_singleton|]. change (proc_at i (set_held _ s)) with (proc_at i s).
    rewrite bool_decide_false by (apply Hnz; [by left|done]). cbn [negb]. wp_k. kst. rewrite set_held_id.
    apply IH; [done|]. by rewrite orb_true_r in Hl.
  - apply IH; [done|]. exact Hl.
Qed.

(** the image of [sz] bytes has the same mappings and, but for [n] bytes at [addr] unless that is null, the same bytes *)
Definition same_image (m : gmap Z Z) (T : ptree) (m' : gmap Z Z) (sz addr n : Z) : Prop :=
  ∀ va, aligned va → 0 ≤ va < PGROUNDUP sz →
    pte_of m' T va = pte_of m T va ∧
    ∀ i, 0 ≤ i < PGSIZE → addr = 0 ∨ ¬ addr ≤ va + i < addr + n → ld8 m' (upage m T va + i) = ld8 m (upage m T va + i).

(** what copyout() of a status leaves *)
Record stored (A : alloc_st) (root : Z) (T : ptree) (sz addr : Z) (b : list Z) (s s' : phys) : Prop := {
  sd_uvm : uvm A root T s' (below sz);
  sd_bytes : addr ≠ 0 → uld_bytes (mem s') T addr (Z.of_nat (length b)) = b;
  sd_keep : same_image (mem s) T (mem s') sz addr (Z.of_nat (length b));
  sd_pte va : pte_of (mem s') T va = pte_of (mem s) T va;
  sd_other p a : phys_page p → ¬ foot root T (mem s) (below sz) p → in_page p a → ld8 (mem s') a = ld8 (mem s) a;
}.

Lemma PGROUNDUP_max sz : 0 ≤ sz ≤ TRAPFRAME → PGROUNDUP sz ≤ TRAPFRAME.
Proof.
  intros Hsz. destruct (PGROUNDUP_spec sz ltac:(lia) ltac:(consts; lia)) as [Ha Hb]. assert (aligned TRAPFRAME) by done.
  unfold aligned in *. consts. Z.div_mod_to_equations. lia.
Qed.

(** a byte of the image at one address is not the byte at another *)
Lemma image_apart A root T s sz va i a :
  uvm A root T s (below sz) → 0 ≤ sz ≤ TRAPFRAME → aligned va → 0 ≤ va < PGROUNDUP sz → 0 ≤ i < PGSIZE → 0 ≤ a →
  umapped (mem s) T a → va + i ≠ a → upage (mem s) T va + i ≠ upa (mem s) T a.
Proof.
  intros HU Hsz Hva Hr Hi Ha Hm Hne E. destruct (uvm_xlate A root T s _ a HU (below_dec sz) Ha Hm) as (Hra & HPa & Ex).
  pose proof (PGROUNDUP_max sz Hsz). pose proof (PGROUNDDOWN_aligned a) as Hal. pose proof (PGROUNDDOWN_bounds a) as Hb.
  assert (below sz va) as HPv by (unfold below; lia).
  destruct (decide (va = PGROUNDDOWN a)) as [->|Hd].
  - unfold upa in E. rewrite Ex in E. lia.
  - eapply (pages_apart (upage (mem s) T va) (xlate (mem s) T a)); [|by apply xlate_aligned| |split; [|instantiate (1 := upage (mem s) T va + i)]|rewrite E; apply upa_in_page].
    + eapply foot_refs; [exact HU|]. right. exists va. split_and!; done || lia.
    + rewrite Ex. intros E'. apply Hd. eapply (uv_inj _ _ _ _ _ HU); done || lia.
    + lia.
    + lia.
Qed.

Lemma copyout_stored A root T sz addr b s :
  uvm A root T s (below sz) → 0 ≤ sz ≤ TRAPFRAME → 0 < addr < 2 ^ 64 → accessible (mem s) T addr (Z.of_nat (length b)) → Forall (λ x, 0 ≤ x < 256) b →
  wp (copyout root addr b (Z.of_nat (length b))) (λ r s', r = 0 ∧ stored A root T sz addr b s s') nopanic s.
Proof.
  intros HU Hsz Ha Hm Hb.
  destruct (roundtrip A root T s _ addr b HU (below_dec sz) ltac:(lia) Hm Hb) as (s' & E & HU' & _ & Hby & Hpte & _ & Hfr).
  eapply wp_eq; [exact E|]. split; [done|]. constructor; [done|done| |done|].
  - intros va Hva Hr. split; [done|]. intros i Hi [->|Hn]; [lia|]. apply Hfr. intros j Hj.
    eapply image_apart; try done; try lia. by apply Hm.
  - intros p a Hp Hnf Hin. apply Hfr. intros i Hi ->.
    destruct (uvm_xlate A root T s _ (addr + i) HU (below_dec sz) ltac:(lia) (Hm i Hi)) as (Hr & HPv & Ex).
    eapply pages_apart; [apply Hp|apply (xlate_aligned (mem s) T (addr + i))| |exact Hin|apply upa_in_page].
    intros ->. apply Hnf. right. exists (PGROUNDDOWN (addr + i)). split_and!; try done; try lia. apply PGROUNDDOWN_aligned.
Qed.

Lemma stored_refl A root T sz b s : uvm A root T s (below sz) → stored A root T sz 0 b s s.
Proof. intros HU. by constructor. Qed.

(** an address space that shares no page with it *)
Lemma process_stored A x T s rootp Tp szp addr b s1 :
  process_mem A x T s → stored A rootp Tp szp addr b s s1 →
  (∀ q, process_page x T s q → ¬ foot rootp Tp (mem s) (below szp) q) →
  process_mem A x T s1 ∧ ∀ q, process_page x T s1 q ↔ process_page x T s q.
Proof.
  intros [HU Hsz Hhigh Htf Hn] HS Hdis.
  assert (∀ p a, foot (p_pagetable x) T (mem s) (below (p_sz x)) p → in_page p a → ld8 (mem s1) a = ld8 (mem s) a) as Hm.
  { intros p a Hp. apply (sd_other _ _ _ _ _ _ _ _ HS); [by eapply foot_refs|]. apply Hdis. by right. }
  assert (∀ va, pte_of (mem s1) T va = pte_of (mem s) T va) as Hpte.
  { intros va. apply (pte_of_frame _ (p_pagetable x)). intros p a Hp. apply Hm. by left. }
  assert (∀ p, foot (p_pagetable x) T (mem s1) (below (p_sz x)) p ↔ foot (p_pagetable x) T (mem s) (below (p_sz x)) p) as Hf.
  { intros p. unfold foot, upage. by setoid_rewrite Hpte. }
  split; [|intros q; unfold process_page; by rewrite Hf]. constructor; [|done| |done|by rewrite Hf].
  - apply (uvm_frame A A _ T s s1 _ HU); [apply (sd_uvm _ _ _ _ _ _ _ _ HS)|done|done].
  - destruct Hhigh as [H1 H2]. split; by rewrite Hpte.
Qed.

(** Process [p] waits, and [c] is the first zombie among its children. *)
Record can_reap (A : alloc_st) (Tp Tc : ptree) (p c : nat) (x : proc) (addr : Z) (s : K) : Prop := {
  cr_cur : cur s = Some p;
  cr_held : held s = [];
  cr_slot : procs s !! c = Some x;
  cr_lt : (c < 64)%nat;
  cr_ne : c ≠ p;
  cr_kid : p_parent x = Some p;
  cr_zombie : p_state x = ZOMBIE;
  cr_first : no_zombie p s (seq 0 c);
  cr_parent : uvm A (p_pagetable (proc_at p s)) Tp (phy s) (below (p_sz (proc_at p s)));
  cr_max : 0 ≤ p_sz (proc_at p s) ≤ TRAPFRAME;
  cr_addr : addr = 0 ∨ 0 < addr < 2 ^ 64 ∧ accessible (mem (phy s)) Tp addr 4;
  cr_child : process_mem A x Tc (phy s);
  cr_apart q : process_page x Tc (phy s) q → ¬ foot (p_pagetable (proc_at p s)) Tp (mem (phy s)) (below (p_sz (proc_at p s))) q;
}.

(** the status is stored and the child's memory goes back *)
Definition reaped (A : alloc_st) (Tp Tc : ptree) (p : nat) (x : proc) (addr : Z) (s : K) (A' : alloc_st) (ph : phys) : Prop :=
  let pr := proc_at p s in
  ∃ ph1, stored A (p_pagetable pr) Tp (p_sz pr) addr (le_bytes 4 (p_xstate x)) (phy s) ph1 ∧
    released A ph1 (process_page x Tc (phy s)) A' ph.

Lemma wait_scan_ok A Tp Tc p c x addr l hk s (Q : bool + Z → K → Prop) E :
  can_reap A Tp Tc p c x addr s → text_page →
  (∀ A' ph, reaped A Tp Tc p x addr s A' ph → Q (inr (p_pid x)) (set_phy ph (set_procs (alter blank c (procs s)) s))) →
  wp (wait_scan (c :: l) p addr hk) Q E (set_held [LkWait] s).
Proof.
  intros HR Htext HQ. pose proof (cr_slot _ _ _ _ _ _ _ _ HR) as Hc. pose proof (cr_held _ _ _ _ _ _ _ _ HR) as Hh.
  assert (∀ h, proc_at c (set_held h s) = x) as Hx by (intros h; unfold proc_at; cbn; by rewrite Hc).
  cbn [wait_scan]. unfold getproc at 1. apply wp_bind, wp_gets. rewrite Hx, (cr_kid _ _ _ _ _ _ _ _ HR).
  rewrite bool_decide_true by done. cbn [negb]. wp_k; [by intros ?%list_elem_of_singleton|].
  change (set_held ?h (set_held _ s)) with (set_held h s). rewrite Hx, (cr_zombie _ _ _ _ _ _ _ _ HR).
  rewrite bool_decide_true by done. cbn [negb]. wp_k. change (proc_at p (set_held _ s)) with (proc_at p s). cbn [held set_held].
  set (pr := proc_at p s). set (b := le_bytes 4 (p_xstate x)).
  assert (wp (if addr =? 0 then ret 0 else phy_do (copyout (p_pagetable pr) addr b 4))
    (λ r s', r = 0 ∧ ∃ ph1, stored A (p_pagetable pr) Tp (p_sz pr) addr b (phy s) ph1 ∧ s' = set_phy ph1 (set_held [LkProc c; LkWait] s))
    E (set_held [LkProc c; LkWait] s)) as Hst.
  { destruct (cr_addr _ _ _ _ _ _ _ _ HR) as [->|[H1 H2]].
    - apply wp_if_t; [done|]. apply wp_ret. split; [done|]. exists (phy s). split; [apply stored_refl; apply HR|by destruct s].
    - apply wp_if_f; [lia|]. unfold phy_do. apply wp_lift. change 4 with (Z.of_nat (length b)).
      eapply wp_mono; [apply (copyout_stored A _ Tp (p_sz pr)); [apply HR|apply (cr_max _ _ _ _ _ _ _ _ HR)|exact H1|exact H2|apply le_bytes_byte]| |done].
      intros r ph1 [-> HS]. split; [done|]. by exists ph1. }
  eapply wp_post; [exact Hst|]. clear Hst. intros r s' (-> & ph1 & HS & ->). cbn [Z.ltb Z.compare].
  destruct (process_stored _ _ _ _ _ _ _ _ _ _ (cr_child _ _ _ _ _ _ _ _ HR) HS (cr_apart _ _ _ _ _ _ _ _ HR)) as [HM1 Hpg].
  apply wp_bind. eapply (freeproc_ok A Tc c x); [exact Hc|exact HM1|done|]. intros A' ph [R1 R2 R3 R4]. wp_k.
  replace (set_held [] _) with (set_phy ph (set_procs (alter blank c (procs s)) s)).
  - apply (HQ A' ph). exists ph1. split; [exact HS|]. constructor; [done| |done|done]. intros q. by rewrite <- Hpg.
  - rewrite <- (set_held_same s [] Hh) at 2. reflexivity.
Qed.

(** pages that are the same *)
Lemma same_image_keep A root T s m1 m' sz addr n :
  uvm A root T s (below sz) → 0 ≤ sz ≤ TRAPFRAME → same_image m1 T (mem s) sz addr n → ukeep (mem s) T m' T (below sz) → same_image m1 T m' sz addr n.
Proof.
  intros HU Hsz H1 Hk va Ha Hr. pose proof (PGROUNDUP_max sz Hsz). destruct (H1 va Ha Hr) as [E1 B1].
  destruct (Hk va Ha ltac:(lia) ltac:(unfold below; lia)) as [E2 B2]. split; [congruence|]. intros i Hi Hn. rewrite <- B1 by done.
  unfold upage. rewrite <- E1. apply B2. unfold in_page, upage. lia.
Qed.

(** reads through pages that are the same *)
Lemma uld_keep A root T s m' sz va :
  uvm A root T s (below sz) → ukeep (mem s) T m' T (below sz) → 0 ≤ va → umapped (mem s) T va → uld m' T va = uld (mem s) T va.
Proof.
  intros HU Hk Hva Hm. destruct (uvm_xlate _ _ _ _ _ va HU (below_dec sz) Hva Hm) as (Hr & HP & Ex).
  pose proof (PGROUNDDOWN_bounds va) as Hb. destruct (Hk _ (PGROUNDDOWN_aligned va) Hr HP) as [Ep Em].
  assert (xlate m' T va = xlate (mem s) T va) as Ex'.
  { unfold xlate. destruct (MAXVA <=? va); [done|]. unfold user_pa. by rewrite Ep. }
  unfold uld, upa. rewrite Ex', Ex. apply Em. unfold in_page. lia.
Qed.

(** the parent's memory afterwards *)
Lemma reaped_parent A Tp Tc p c x addr s A' ph :
  can_reap A Tp Tc p c x addr s → reaped A Tp Tc p x addr s A' ph →
  let pr := proc_at p s in
  uvm A' (p_pagetable pr) Tp ph (below (p_sz pr)) ∧
  (addr ≠ 0 → uld_bytes (mem ph) Tp addr 4 = le_bytes 4 (p_xstate x)) ∧
  same_image (mem (phy s)) Tp (mem ph) (p_sz pr) addr 4.
Proof.
  intros HR (ph1 & HS & HL) pr. fold pr in HS. pose proof (sd_uvm _ _ _ _ _ _ _ _ HS) as HU1.
  assert (∀ q, foot (p_pagetable pr) Tp (mem ph1) (below (p_sz pr)) q → q ∉ free A') as Hnf.
  { intros q Hq Hf. assert (foot (p_pagetable pr) Tp (mem (phy s)) (below (p_sz pr)) q) as Hq0.
    { unfold foot, upage in *. by setoid_rewrite (sd_pte _ _ _ _ _ _ _ _ HS) in Hq. }
    apply (rl_free _ _ _ _ _ HL) in Hf as [Hf|Hf]; [|by apply (cr_apart _ _ _ _ _ _ _ _ HR q Hf)].
    destruct (foot_refs _ _ _ _ _ _ HU1 Hq) as [_ [c' Hc']]. by rewrite (free_not_refs A ph1 q ltac:(apply HU1) Hf) in Hc'. }
  assert (∀ q, foot (p_pagetable pr) Tp (mem ph1) (below (p_sz pr)) q → refs A' !! q = refs A !! q) as Hrf.
  { intros q Hq. rewrite (rl_refs _ _ _ _ _ HL), decide_False; [done|]. by apply Hnf. }
  destruct (uvm_frame A A' _ Tp ph1 ph _ HU1 (rl_rep _ _ _ _ _ HL)) as [HU2 Hk].
  { intros q c' Hq. by rewrite Hrf. }
  { intros q a Hq. apply (rl_mem _ _ _ _ _ HL). rewrite Hrf by done. by eapply foot_refs. }
  pose proof (cr_max _ _ _ _ _ _ _ _ HR) as Hmax. fold pr in Hmax.
  split; [done|]. split.
  - intros Hn. destruct (cr_addr _ _ _ _ _ _ _ _ HR) as [|[Hpos Hle]]; [done|].
    rewrite <- (sd_bytes _ _ _ _ _ _ _ _ HS Hn), length_le_bytes. apply list_fmap_ext. intros i v Hv.
    apply lookup_seqZ in Hv as [-> Hi]. eapply uld_keep; [exact HU1|done|lia|].
    unfold umapped. rewrite (xlate_pte (mem (phy s))) by apply (sd_pte _ _ _ _ _ _ _ _ HS). apply Hle. lia.
  - eapply same_image_keep; [exact HU1|done| |exact Hk]. exact (sd_keep _ _ _ _ _ _ _ _ HS).
Qed.

(** wait() reaps a zombie.  With a zombie child, and [addr] null or the address
    of four bytes the process may access, it returns the pid of the first one in the
    table without sleeping; the exit status is stored at [addr] and no other
    byte of the parent's image changes; every page of the child, its image, page
    tables and trapframe, is free again and no other page is; its slot is UNUSED
    and cleared, and nothing else in the kernel changed. *)
Lemma wait_ok A Tp Tc p c x addr s :
  can_reap A Tp Tc p c x addr s → text_page →
  let pr := proc_at p s in
  ∃ A' ph, wait addr s = Ret (p_pid x) (set_phy ph (set_procs (alter blank c (procs s)) s)) ∧
    uvm A' (p_pagetable pr) Tp ph (below (p_sz pr)) ∧
    (addr ≠ 0 → uld_bytes (mem ph) Tp addr 4 = le_bytes 4 (p_xstate x)) ∧
    same_image (mem (phy s)) Tp (mem ph) (p_sz pr) addr 4 ∧
    (∀ q, q ∈ free A' ↔ q ∈ free A ∨ process_page x Tc (phy s) q) ∧
    (∀ q, refs A' !! q = if decide (q ∈ free A') then None else refs A !! q).
Proof.
  intros HR Htext pr. pose proof (cr_held _ _ _ _ _ _ _ _ HR) as Hh.
  assert (wp (wait addr) (λ r s', r = p_pid x ∧ ∃ A' ph, reaped A Tp Tc p x addr s A' ph ∧
    s' = set_phy ph (set_procs (alter blank c (procs s)) s)) nopanic s) as Hwp.
  { unfold wait. apply wp_bind. eapply wp_myproc; [apply HR|]. apply wp_bind, wp_acquire; [rewrite Hh; apply not_elem_of_nil|].
    rewrite Hh. apply (wp_loop _ (λ _ s', s' = set_held [LkWait] s) (λ _ _, 0)); [|done|lia].
    intros [] s' ->. unfold wait_turn. apply wp_bind. unfold nprocs.
    pose proof (cr_lt _ _ _ _ _ _ _ _ HR) as Hlt.
    replace (seq 0 64) with (seq 0 c ++ c :: seq (S c) (63 - c)).
    2: { change (c :: seq (S c) (63 - c)) with (seq (0 + c) (S (63 - c))). rewrite <- seq_app. f_equal. lia. }
    apply wait_skip; [done|exact (cr_first _ _ _ _ _ _ _ _ HR)|].
    eapply wait_scan_ok; [done|done|]. intros A' ph Hr. apply wp_ret. eauto. }
  apply wp_returns in Hwp as (r & s' & E & -> & A' & ph & Hr & ->). exists A', ph. split; [exact E|].
  destruct (reaped_parent _ _ _ _ _ _ _ _ _ _ HR Hr) as (H1 & H2 & H3). destruct Hr as (ph1 & _ & HL).
  split_and!; [done|done|done|apply HL|apply HL].
Qed.

(** Without children wait() returns -1 and changes nothing. *)
Lemma wait_no_children p addr s :
  cur s = Some p → held s = [] → (∀ i, (i < 64)%nat → p_parent (proc_at i s) ≠ Some p) → wait addr s = Ret (-1) s.
Proof.
  intros Hc Hh Hno. assert (wp (wait addr) (λ r s', r = -1 ∧ s' = s) nopanic s) as Hwp.
  { unfold wait. apply wp_bind. eapply wp_myproc; [done|]. apply wp_bind, wp_acquire; [rewrite Hh; apply not_elem_of_nil|].
    rewrite Hh. apply (wp_loop _ (λ _ s', s' = set_held [LkWait] s) (λ _ _, 0)); [|done|lia].
    assert (∀ i, i ∈ nprocs → p_parent (proc_at i (set_held [LkWait] s)) ≠ Some p) as Hno'.
    { intros i Hi. apply Hno. apply elem_of_seq in Hi. lia. }
    assert (kid p (set_held [LkWait] s) nprocs = false) as Hk.
    { unfold kid. induction nprocs as [|i l IH]; [done|]. cbn [existsb].
      rewrite bool_decide_false by (apply Hno'; by left). apply IH. intros j Hj. apply Hno'. by right. }
    intros [] s' ->. unfold wait_turn. apply wp_bind. rewrite <- (app_nil_r nprocs).
    apply wait_skip; [done|by intros i Hi Hp; apply Hno' in Hi|]. rewrite Hk. cbn [wait_scan orb]. wp_k. kst. split; [done|].
    by apply set_held_same. }
  apply wp_returns in Hwp as (r & s' & E & -> & ->). done.
Qed.

End Wait.

(** * From fork() to wait() *)

Section Life.
Context `{PA : PageAlloc} `{Sy : Symbols}.

(** From fork() in state [s], when [A] was the allocator's state, until wait(): slot [np] holds a child
    of [p] with the pid fork() returned, and all its pages and the free ones are the pages that were free
    then; the image of [p] is as it was.  The child's own memory, its size, its files and registers may
    have changed in any way, and so may everything else in the kernel. *)
Record family (A : alloc_st) (T : ptree) (p np : nat) (s s' : K) (A' : alloc_st) (T' : ptree) : Prop := {
  fm_len : length (procs s') = 64%nat;
  fm_kid : p_parent (proc_at np s') = Some p;
  fm_pid : p_pid (proc_at np s') = nextpid s;
  fm_mem : process_mem A' (proc_at np s') T' (phy s');
  fm_pages q : q ∈ free A' ∨ process_page (proc_at np s') T' (phy s') q ↔ q ∈ free A;
  fm_refs q c : refs A !! q = Some c → refs A' !! q = Some c;
  fm_root : p_pagetable (proc_at p s') = p_pagetable (proc_at p s);
  fm_size : p_sz (proc_at p s') = p_sz (proc_at p s);
  fm_image q a : foot (p_pagetable (proc_at p s)) T (mem (phy s)) (below (p_sz (proc_at p s))) q → in_page q a →
    ld8 (mem (phy s')) a = ld8 (mem (phy s)) a;
  fm_first : no_zombie p s' (seq 0 np);
}.

(** process [q] has the processor; since then only the scheduler ran *)
Record resumed (q : nat) (s s' : K) : Prop := {
  rs_cur : cur s' = Some q;
  rs_held : held s' = [];
  rs_phy : phy s' = phy s;
  rs_len : length (procs s') = length (procs s);
  rs_procs i : ∃ st ch, proc_at i s' = set_p_state st (set_p_chan ch (proc_at i s)) ∧ (st = ZOMBIE ↔ p_state (proc_at i s) = ZOMBIE);
}.

(** a process's memory is named by three fields of its slot *)
Lemma process_mem_eq A x x' T s :
  p_pagetable x' = p_pagetable x → p_sz x' = p_sz x → p_trapframe x' = p_trapframe x →
  (process_mem A x T s → process_mem A x' T s) ∧ ∀ q, process_page x' T s q ↔ process_page x T s q.
Proof.
  intros E1 E2 E3. split; [|intros q; unfold process_page; by rewrite E1, E2, E3].
  intros []. split; by rewrite ?E1, ?E2, ?E3.
Qed.

(** what the slots of the family keep *)
Lemma family_slots A T p np s s1 s2 A1 T1 :
  family A T p np s s1 A1 T1 → phy s2 = phy s1 → length (procs s2) = 64%nat →
  (p_parent (proc_at np s2), p_pid (proc_at np s2), p_pagetable (proc_at np s2), p_sz (proc_at np s2), p_trapframe (proc_at np s2)) =
  (p_parent (proc_at np s1), p_pid (proc_at np s1), p_pagetable (proc_at np s1), p_sz (proc_at np s1), p_trapframe (proc_at np s1)) →
  (p_pagetable (proc_at p s2), p_sz (proc_at p s2)) = (p_pagetable (proc_at p s1), p_sz (proc_at p s1)) →
  no_zombie p s2 (seq 0 np) → family A T p np s s2 A1 T1.
Proof.
  intros [F1 F2 F3 F4 F5 F6 F7 F8 F9 F10] Hphy Hlen [= E1 E2 E3 E4 E5] [= E6 E7] Hnz.
  destruct (process_mem_eq A1 (proc_at np s1) (proc_at np s2) T1 (phy s1) E3 E4 E5) as [Hm Hp].
  split; rewrite ?Hphy; try done; try congruence; auto. intros q. by rewrite Hp.
Qed.

Lemma family_resumed A T p np q s s1 s2 A1 T1 :
  family A T p np s s1 A1 T1 → resumed q s1 s2 → family A T p np s s2 A1 T1.
Proof.
  intros HF [R1 R2 R3 R4 R5]. apply (family_slots _ _ _ _ _ s1); [done|done|rewrite R4; apply HF| | |].
  - destruct (R5 np) as (st & ch & -> & _). done.
  - destruct (R5 p) as (st & ch & -> & _). done.
  - intros i Hi. destruct (R5 i) as (st & ch & -> & Hz). cbn. intros Hp Hst. apply (fm_first _ _ _ _ _ _ _ _ HF i Hi Hp). by apply Hz.
Qed.

Lemma left_kin np p status s ps i :
  left np p status s ps → length (procs s) = 64%nat → i ≠ np → kin np (initproc s) (proc_at i s) (default proc0 (ps !! i)).
Proof.
  intros HL Hlen Hi. unfold proc_at. destruct (ps !! i) as [x'|] eqn:Hx'.
  - destruct (lf_kin _ _ _ _ _ HL i x' Hi Hx') as (x & -> & Hk). done.
  - apply lookup_ge_None in Hx'. rewrite (lf_len _ _ _ _ _ HL) in Hx'. rewrite (lookup_ge_None_2 (procs s)) by lia. apply kin_refl.
Qed.

Lemma family_exited A T p np d status s s2 s3 A2 T2 :
  family A T p np s s2 A2 T2 → p ≠ np → no_zombie np s2 (seq 0 np) → exited np p d status s2 s3 → family A T p np s s3 A2 T2.
Proof.
  intros HF Hne Hnz (ps & HL & E). pose proof (fm_len _ _ _ _ _ _ _ _ HF) as Hlen.
  assert (∀ i, proc_at i s3 = default proc0 (ps !! i)) as Hat by (intros i; unfold proc_at; by rewrite E).
  apply (family_slots _ _ _ _ _ s2); [done|by rewrite E|by rewrite E; apply HL| | |].
  - rewrite Hat, (lf_own _ _ _ _ _ HL). done.
  - rewrite Hat. destruct (left_kin _ _ _ _ _ p HL Hlen Hne) as (st & pa & -> & _). done.
  - intros i Hi. assert (i ≠ np) as Hin by (apply elem_of_seq in Hi; lia). rewrite Hat.
    destruct (left_kin _ _ _ _ _ i HL Hlen Hin) as (st & pa & -> & Hst & Hpa). cbn. intros -> ->.
    destruct Hst as [Hst|[_ ?]]; [|done]. symmetry in Hst. destruct Hpa as [Hpa|[Hpa _]].
    + by apply (fm_first _ _ _ _ _ _ _ _ HF i Hi).
    + by apply (Hnz i Hi).
Qed.

(** fork() starts a family *)
Lemma forked_family A T p np x d s tf pt ph A' T' :
  can_fork A T p np x d s → newborn A (phy s) tf pt A' T' ph (below (p_sz (proc_at p s))) → no_zombie p s (seq 0 np) →
  family A T p np s (forked p np d tf pt ph s) A' T' ∧ p ≠ np.
Proof.
  intros HF HB Hnz. destruct (unused_at _ _ _ (cf_slot _ _ _ _ _ _ _ HF)) as [Hnp Hun].
  assert (p ≠ np) as Hne.
  { intros ->. pose proof (cf_run _ _ _ _ _ _ _ HF) as Hr. unfold proc_at in Hr. rewrite Hnp in Hr. cbn in Hr. congruence. }
  split; [|done]. pose proof (nb_made _ _ _ _ _ _ _ _ HB) as HM. set (s' := forked _ _ _ _ _ _ _).
  assert (proc_at np s' = child p (proc_at p s) (nextpid s) tf pt x) as Ec by (unfold proc_at at 1, s', forked; kst; by rewrite list_lookup_alter_eq, Hnp).
  assert (∀ i, i ≠ np → proc_at i s' = proc_at i s) as Ho by (intros i Hi; unfold proc_at, s', forked; kst; by rewrite list_lookup_alter_ne).
  constructor; rewrite ?Ec, ?(Ho p Hne); try done.
  - unfold s', forked. kst. rewrite length_alter. apply HF.
  - constructor; cbn [p_pagetable p_sz p_trapframe child];
      [apply HM|apply HF|apply (nb_high _ _ _ _ _ _ _ _ HB)|apply (nb_tf_refs _ _ _ _ _ _ _ _ HB)|apply (nb_tf_foot _ _ _ _ _ _ _ _ HB)].
  - intros q. split.
    + intros [Hq|[->|Hq]]; [by apply (md_free _ _ _ _ _ _ _ HM)|apply (nb_tf _ _ _ _ _ _ _ _ HB)|by apply (md_foot _ _ _ _ _ _ _ HM)].
    + intros Hq. destruct (nb_lost _ _ _ _ _ _ _ _ HB q Hq) as [|[->|]]; [by left|by right; left|by right; right].
  - apply (md_refs _ _ _ _ _ _ _ HM).
  - intros q a Hq. apply (md_mem _ _ _ _ _ _ _ HM). eapply foot_refs; [apply HF|exact Hq].
  - intros i Hi. assert (i ≠ np) by (apply elem_of_seq in Hi; lia). rewrite Ho by done. by apply Hnz.
Qed.

(** the image of the parent in a family *)
Lemma family_parent A T p np s s' A' T' (pr := proc_at p s) :
  uvm A (p_pagetable pr) T (phy s) (below (p_sz pr)) → family A T p np s s' A' T' →
  uvm A' (p_pagetable pr) T (phy s') (below (p_sz pr)) ∧ ukeep (mem (phy s)) T (mem (phy s')) T (below (p_sz pr)) ∧
  ∀ va, pte_of (mem (phy s')) T va = pte_of (mem (phy s)) T va.
Proof.
  intros HU HF. destruct (uvm_frame A A' _ T (phy s) (phy s') _ HU) as [HU' Hk].
  - exact (vi_alloc (uv_vm _ _ _ _ _ (pm_uvm _ _ _ _ (fm_mem _ _ _ _ _ _ _ _ HF)))).
  - intros q c _. apply (fm_refs _ _ _ _ _ _ _ _ HF).
  - apply (fm_image _ _ _ _ _ _ _ _ HF).
  - split; [done|]. split; [done|]. intros va. apply (pte_of_frame _ (p_pagetable pr)). intros q a Hq. apply (fm_image _ _ _ _ _ _ _ _ HF). by left.
Qed.

(** a zombie child of a family can be reaped *)
Lemma family_can_reap A T p np s s' A' T' addr (pr := proc_at p s) :
  uvm A (p_pagetable pr) T (phy s) (below (p_sz pr)) → 0 ≤ p_sz pr ≤ TRAPFRAME → p ≠ np → (np < 64)%nat →
  addr = 0 ∨ 0 < addr < 2 ^ 64 ∧ accessible (mem (phy s)) T addr 4 →
  family A T p np s s' A' T' → cur s' = Some p → held s' = [] → p_state (proc_at np s') = ZOMBIE →
  can_reap A' T T' p np (proc_at np s') addr s'.
Proof.
  intros HU Hsz Hne Hlt Haddr HF Hc Hh Hz. destruct (family_parent _ _ _ _ _ _ _ _ HU HF) as (HU' & _ & Hpte).
  pose proof HF as [F1 F2 F3 F4 F5 F6 F7 F8 F9 F10].
  constructor; rewrite ?F7, ?F8; try done.
  - unfold proc_at. destruct (lookup_lt_is_Some_2 (procs s') np) as [y ->]; [lia|done].
  - destruct Haddr as [|[? Ha]]; [by left|]. right. split; [done|]. by apply (accessible_pte (mem (phy s))).
  - intros q Hq Hf. assert (q ∈ free A) as Hqf by (apply F5; by right).
    assert (foot (p_pagetable pr) T (mem (phy s)) (below (p_sz pr)) q) as Hf0.
    { unfold foot, upage in *. setoid_rewrite Hpte in Hf. exact Hf. }
    destruct (foot_refs _ _ _ _ _ _ HU Hf0) as [_ [c Hc']].
    by rewrite (free_not_refs A (phy s) q ltac:(apply HU) Hqf) in Hc'.
Qed.

(** the image before the fork and after the wait *)
Lemma same_image_back A root T s m1 m' sz addr n :
  uvm A root T s (below sz) → 0 ≤ sz ≤ TRAPFRAME → ukeep (mem s) T m1 T (below sz) → same_image m1 T m' sz addr n → same_image (mem s) T m' sz addr n.
Proof.
  intros HU Hsz Hk H1 va Ha Hr. pose proof (PGROUNDUP_max sz Hsz). destruct (H1 va Ha Hr) as [E1 B1].
  destruct (Hk va Ha ltac:(lia) ltac:(unfold below; lia)) as [E2 B2]. split; [congruence|]. intros i Hi Hn.
  assert (upage m1 T va = upage (mem s) T va) as E by (unfold upage; by rewrite E2). rewrite <- E, B1 by done. rewrite E. apply B2. unfold in_page. lia.
Qed.
(** the scheduler gives the processor to [q], which releases its lock *)
Lemma resumed_started q s : runnable q s → resumed q s (set_held [] (started q (stopped s))).
Proof.
  intros Hr. split; [done|done|done|unfold started, stopped; kst; by rewrite length_alter|]. intros i.
  unfold proc_at, started, stopped. kst. destruct (decide (i = q)) as [->|].
  - exists RUNNING, (p_chan (proc_at q s)). unfold runnable, proc_at in *. rewrite list_lookup_alter_eq. destruct (procs s !! q) as [[]|]; [|done].
    cbn in *. split; [done|]. by rewrite Hr.
  - exists (p_state (proc_at i s)), (p_chan (proc_at i s)). rewrite list_lookup_alter_ne by done. unfold proc_at. split; [|done]. by destruct (default _ _).
Qed.

(** a process stops being the running one *)
Lemma resumed_yield p q s s' :
  p_state (proc_at p s) ≠ ZOMBIE → resumed q (set_procs (alter (set_p_state RUNNABLE) p (procs s)) s) s' → resumed q s s'.
Proof.
  intros Hz [R1 R2 R3 R4 R5]. split; [done|done|done|rewrite R4; kproj; by rewrite length_alter|]. intros i. destruct (R5 i) as (st & ch & -> & Hst).
  exists st, ch. unfold proc_at in *. cbn [procs set_procs] in *. destruct (decide (i = p)) as [->|]; [|by rewrite list_lookup_alter_ne in * by done].
  rewrite list_lookup_alter_eq in *. destruct (procs s !! p) as [[]|]; [|done]. cbn in *. split; [done|]. rewrite Hst. by split.
Qed.

(** C3: fork(), exit() and wait() leak nothing.  When a process forks, a child of its begins, whose pages
    are all taken from the free list.  Whatever the child does to its own memory, when it then calls exit()
    with files and a directory it shares, exit() closes them, gives its children to init, wakes its parent and
    gives the processor away as a zombie.  When the parent, having no other zombie child in an earlier slot,
    runs again and waits for it, wait() returns the pid fork() returned, stores the status and clears the
    slot; then exactly the pages that were free before the fork are free, the pages that were allocated still
    are, and the parent's image is as it was but for the four bytes of the status. *)
Theorem fork_wait_no_leak A T p np x d s status addr :
  let pr := proc_at p s in
  text_page → can_fork A T p np x d s →
  6 + 3 * (PGROUNDUP (p_sz pr) / PGSIZE) ≤ Z.of_nat (length (free A)) →
  no_zombie p s (seq 0 np) → addr = 0 ∨ 0 < addr < 2 ^ 64 ∧ accessible (mem (phy s)) T addr 4 →
  ∃ s1 A1 T1, fork s = Ret (nextpid s) s1 ∧ family A T p np s s1 A1 T1 ∧
  ∀ s2 A2 T2 d2, family A T p np s s2 A2 T2 → can_exit np p d2 s2 → no_zombie np s2 (seq 0 np) →
  ∃ s3 k, exit status s2 = Swtch s3 k ∧ exited np p d2 status s2 s3 ∧
  ∀ s4, resumed p s3 s4 →
  ∃ s5 A5, wait addr s4 = Ret (nextpid s) s5 ∧ procs s5 = alter blank np (procs s4) ∧
    (∀ q, q ∈ free A5 ↔ q ∈ free A) ∧ (∀ q c, refs A !! q = Some c → refs A5 !! q = Some c) ∧
    uvm A5 (p_pagetable pr) T (phy s5) (below (p_sz pr)) ∧
    (addr ≠ 0 → uld_bytes (mem (phy s5)) T addr 4 = le_bytes 4 status) ∧
    same_image (mem (phy s)) T (mem (phy s5)) (p_sz pr) addr 4.
Proof.
  intros pr Htext HF Hfree Hnz Haddr. pose proof (cf_mem _ _ _ _ _ _ _ HF) as HU. pose proof (cf_sz _ _ _ _ _ _ _ HF) as Hsz.
  destruct (fork_returns _ _ _ _ _ _ _ Htext HF Hfree) as (r & s1 & E & -> & tf & pt & ph & A1 & T1 & -> & HB & _ & _).
  destruct (forked_family _ _ _ _ _ _ _ _ _ _ _ _ HF HB Hnz) as [HF1 Hne].
  exists (forked p np d tf pt ph s), A1, T1. split; [done|]. split; [done|]. intros s2 A2 T2 d2 HF2 HE Hnz2.
  destruct (exit_ok np p d2 status s2 HE) as (s3 & k & Ex & HX & _). exists s3, k. split; [done|]. split; [done|]. intros s4 HR.
  pose proof (family_exited _ _ _ _ _ _ _ _ _ _ _ HF2 Hne Hnz2 HX) as HF3. pose proof (family_resumed _ _ _ _ _ _ _ _ _ _ HF3 HR) as HF4.
  assert (p_state (proc_at np s4) = ZOMBIE ∧ p_xstate (proc_at np s4) = status) as [Hz Hst].
  { destruct HX as (ps & HL & E3). destruct (rs_procs _ _ _ HR np) as (st & ch & -> & Hzz).
    assert (proc_at np s3 = zombie status (proc_at np s2)) as E4 by (unfold proc_at at 1; rewrite E3; kproj; by rewrite (lf_own _ _ _ _ _ HL)).
    rewrite E4 in *. split; [by apply Hzz|done]. }
  pose proof (family_can_reap _ _ _ _ _ _ _ _ addr HU Hsz Hne (ce_lt _ _ _ _ HE) Haddr HF4 (rs_cur _ _ _ HR) (rs_held _ _ _ HR) Hz) as HRe.
  destruct (wait_ok _ _ _ _ _ _ _ _ HRe Htext) as (A5 & ph5 & Ew & HU5 & Hst5 & Hkeep & Hfr & Hrf).
  rewrite (fm_root _ _ _ _ _ _ _ _ HF4), (fm_size _ _ _ _ _ _ _ _ HF4) in *. rewrite (fm_pid _ _ _ _ _ _ _ _ HF4) in Ew. rewrite Hst in Hst5.
  eexists _, A5. split; [exact Ew|]. split; [done|].
  assert (∀ q, q ∈ free A5 ↔ q ∈ free A) as Hsame by (intros q; by rewrite Hfr, (fm_pages _ _ _ _ _ _ _ _ HF4)).
  split; [done|]. split; [|split; [done|split; [done|]]].
  - intros q c Hc. rewrite Hrf, decide_False; [by apply (fm_refs _ _ _ _ _ _ _ _ HF4)|].
    rewrite Hsame. intros Hq. by rewrite (free_not_refs A (phy s) q ltac:(apply HU) Hq) in Hc.
  - eapply same_image_back; [exact HU|done|apply (family_parent _ _ _ _ _ _ _ _ HU HF4)|exact Hkeep].
Qed.

End Life.

(** * Witness *)

(** Process 0 of Fork0 forks and yields; its child runs and exits with status 7; the parent
    waits for it with the address 9000, in its stack page, for the status. *)
Module Life0.
Import Image0 Machine0 Fork0.

Lemma text0 : text_page.
Proof. split; [split; [done|]|]; cbn [trampoline symbols0]; consts; lia. Qed.

Lemma no_zombie0 ph : no_zombie 0 (before ph) (seq 0 1).
Proof. intros i Hi. apply elem_of_seq in Hi. assert (i = 0%nat) as -> by lia. done. Qed.

(** the parent yields and the scheduler runs process [q] *)
Definition yield_to (q : nat) (s : K) : K :=
  set_held [] (started q (stopped (set_procs (alter (set_p_state RUNNABLE) 0%nat (procs s)) s))).
(** the scheduler runs process 0 *)
Definition back (s : K) : K := set_held [] (started 0 (stopped s)).

Section Run.
Context (tf pt : Z) (ph0 ph : phys).
Let s1 : K := forked 0 1 0 tf pt ph (before ph0).

Lemma yielded : resumed 1 s1 (yield_to 1 s1).
Proof. apply (resumed_yield 0); [done|]. apply resumed_started. reflexivity. Qed.

Lemma can_exit0 : can_exit 1 0 0 (yield_to 1 s1).
Proof.
  constructor; try reflexivity; try done; try lia.
  - exists 0%nat. by split.
  - intros f Hf. change (p_ofile _) with (Some 0%nat :: replicate 15 None) in *. exists (set_f_ref 2 file0).
    apply elem_of_cons in Hf as [[= ->]|Hf]; [done|by apply elem_of_replicate_inv in Hf].
  - exists (set_i_ref 2 inode0). done.
  - by right.
Qed.

Lemma no_zombie1 : no_zombie 1 (yield_to 1 s1) (seq 0 1).
Proof. intros i Hi. apply elem_of_seq in Hi. assert (i = 0%nat) as -> by lia. done. Qed.

Lemma exited_runnable s3 : exited 1 0 0 7 (yield_to 1 s1) s3 → runnable 0 s3.
Proof.
  intros (ps & HL & ->). unfold runnable, proc_at. kproj.
  destruct (left_kin _ _ _ _ _ 0%nat HL) as (st & pa & -> & Hst & _); [reflexivity|done|]. by destruct Hst as [->|[? _]].
Qed.
End Run.

Lemma fork_wait_no_leak_witness :
  ∃ A T ph0 s1 s3 k s5 A5, guarded (mem ph0) T ∧ fork (before ph0) = Ret 2 s1 ∧ exit 7 (yield_to 1 s1) = Swtch s3 k ∧
    wait 9000 (back s3) = Ret 2 s5 ∧ (∀ q, q ∈ free A5 ↔ q ∈ free A) ∧ uld_bytes (mem (phy s5)) T 9000 4 = [7; 0; 0; 0].
Proof.
  destruct image_refs as (A & T & ph0 & HU & Hr & Hg & Hl). pose proof (can_fork0 A T ph0 HU Hr) as HF.
  destruct (fork_returns _ _ _ _ _ _ _ text0 HF Hl) as (r & s1 & E1 & -> & tf & pt & ph & A1 & T1 & -> & _).
  destruct (fork_wait_no_leak A T 0 1 proc0 0 (before ph0) 7 9000) as (s1 & A1' & T1' & E & HF1 & H);
    [apply text0|exact HF|exact Hl|apply no_zombie0|right; split; [lia|apply (accessible_sub _ _ 8192 4096); [apply Hg|lia|lia]]|].
  rewrite E1 in E. injection E as <-.
  destruct (H _ A1' T1' 0%nat (family_resumed _ _ _ _ _ _ _ _ _ _ HF1 (yielded tf pt ph0 ph)) (can_exit0 tf pt ph0 ph) (no_zombie1 tf pt ph0 ph))
    as (s3 & k & E3 & HX & H3).
  destruct (H3 (back s3) (resumed_started _ _ (exited_runnable tf pt ph0 ph _ HX))) as (s5 & A5 & E5 & _ & Hf & _ & _ & Hb & _).
  exists A, T, ph0, (forked 0 1 0 tf pt ph (before ph0)), s3, k, s5, A5.
  split; [exact Hg|]. split; [exact E1|]. split; [exact E3|]. split; [exact E5|]. split; [exact Hf|apply Hb; lia].
Defined.
End Life0.
