(* ===== verification/Exec.v ===== *)
(** kernel/exec.c and the argument fetching of kernel/syscall.c. *)

From S2P Require Import Prelude Mem Layout Kalloc Vm State Sched Bio Log Console Fs File Proc.

Section Exec.
Context `{PageAlloc} `{Symbols}.

(** * System call arguments (syscall.c) *)

(** [Some v] is success with *ip = v *)
Definition fetchaddr (addr : Z) : M K (option Z) :=
  let! p := myproc in
  let! pr := getproc p in
  if (p_sz pr <=? addr) || (p_sz pr <? u64 (addr + 8)) then ret None else
  let! r := phy_do (copyin (p_pagetable pr) addr 8) in
  if negb (r.1 =? 0) then ret None else ret (Some (le_val r.2)).

(** the string without its NUL; its length is what fetchstr() returns *)
Definition fetchstr (addr max : Z) : M K (option (list Z)) :=
  let! p := myproc in
  let! pr := getproc p in
  let! r := phy_do (copyinstr (p_pagetable pr) addr max) in
  if r.1 <? 0 then ret None else ret (Some (cstr r.2)).

Definition argraw (n : Z) : M K Z :=
  let! p := myproc in
  if (0 <=? n) && (n <=? 5) then tf_get p (TF_a0 + 8 * n) else panic "argraw".
Definition argint (n : Z) : M K Z := let! v := argraw n in ret (s32 v).
Definition argaddr (n : Z) : M K Z := argraw n.
Definition argstr (n max : Z) : M K (option (list Z)) :=
  let! addr := argaddr n in
  fetchstr addr max.

(** * exec *)

Definition flags2perm (flags : Z) : Z :=
  let perm := if c_true (Z.land flags 1) then PTE_X else 0 in
  if c_true (Z.land flags 2) then Z.lor perm PTE_W else perm.

Definition get_u64 (off : nat) (d : list Z) : Z := le_val (take 8 (drop off d)).

(** struct elfhdr, struct proghdr: the fields exec() uses *)
Definition ELF_MAGIC : Z := 0x464C457F.
Definition ELF_PROG_LOAD : Z := 1.
Definition ELFHDR_SIZE : Z := 64.
Definition PROGHDR_SIZE : Z := 56.
Record elfhdr := mkElf { e_magic : Z; e_entry : Z; e_phoff : Z; e_phnum : Z }.
Definition get_elfhdr (d : list Z) : elfhdr := mkElf (get_u32 0 d) (get_u64 24 d) (get_u64 32 d) (get_u16 56 d).
Record proghdr := mkPh { ph_type : Z; ph_flags : Z; ph_off : Z; ph_vaddr : Z; ph_filesz : Z; ph_memsz : Z }.
Definition get_proghdr (d : list Z) : proghdr :=
  mkPh (get_u32 0 d) (get_u32 4 d) (get_u64 8 d) (get_u64 16 d) (get_u64 32 d) (get_u64 40 d).

Definition loadseg (pagetable va : Z) (ip : nat) (offset sz : Z) : M K Z :=
  loop (λ i,
    if i <? sz then
      let! pa := phy_do (walkaddr pagetable (u64 (va + i))) in
      if pa =? 0 then panic "loadseg: address should exist" else
      let n := if sz - i <? PGSIZE then sz - i else PGSIZE in
      let! r := readi ip ToKernel (u32 (offset + i)) n in
      do! phy_do (modify (λ s, set_mem (st_bytes (mem s) pa r.2) s)) in
      if negb (r.1 =? n) then ret (inr (-1)) else ret (inl (u32 (i + PGSIZE)))
    else ret (inr 0)) 0.

(** bad: free the new image, put the inode back *)
Definition exec_bad (pagetable sz : Z) (ip : option nat) : M K Z :=
  do! when (negb (pagetable =? 0)) (phy_do (proc_freepagetable pagetable sz)) in
  do! (match ip with Some i => do! iunlockput i in end_op | None => ret tt end) in
  ret (-1).

(** the program headers: the size reached, and whether all went well *)
Definition load_segments (pagetable : Z) (ip : nat) (elf : elfhdr) : M K (bool * Z) :=
  loop (λ '(i, off, sz),
    if i <? e_phnum elf then
      let! r := readi ip ToKernel (u32 off) PROGHDR_SIZE in
      if negb (r.1 =? PROGHDR_SIZE) then ret (inr (false, sz)) else
      let ph := get_proghdr r.2 in
      if negb (ph_type ph =? ELF_PROG_LOAD) then ret (inl (i + 1, s32 (off + PROGHDR_SIZE), sz)) else
      if ph_memsz ph <? ph_filesz ph then ret (inr (false, sz)) else
      if u64 (ph_vaddr ph + ph_memsz ph) <? ph_vaddr ph then ret (inr (false, sz)) else
      if negb (ph_vaddr ph mod PGSIZE =? 0) then ret (inr (false, sz)) else
      let! sz1 := phy_do (uvmalloc pagetable sz (u64 (ph_vaddr ph + ph_memsz ph)) (flags2perm (ph_flags ph))) in
      if sz1 =? 0 then ret (inr (false, sz)) else
      let! l := loadseg pagetable (ph_vaddr ph) ip (u32 (ph_off ph)) (u32 (ph_filesz ph)) in
      if l <? 0 then ret (inr (false, sz1)) else ret (inl (i + 1, s32 (off + PROGHDR_SIZE), sz1))
    else ret (inr (true, sz))) (0, s32 (e_phoff elf), 0).

(** the argument strings go on the stack: [None] is goto bad; [ustack] grows to
    MAXARG entries *)
Fixpoint push_args (argv : list (list Z)) (argc pagetable sp stackbase : Z) (ustack : list Z) : M K (option (Z * Z * list Z)) :=
  match argv with
  | [] => ret (Some (argc, sp, ustack))
  | arg :: argv' =>
      if MAXARG <=? argc then ret None else
      let len := Z.of_nat (length arg) + 1 in
      let sp := u64 (sp - len) in
      let sp := sp - sp mod 16 in
      if sp <? stackbase then ret None else
      let! r := phy_do (copyout pagetable sp (arg ++ [0]) len) in
      if r <? 0 then ret None else
      push_args argv' (argc + 1) pagetable sp stackbase (ustack ++ [sp])
  end.

(** what follows the last slash of the path *)
Fixpoint last_elem (s last : list Z) : list Z :=
  match s with
  | [] => last
  | c :: s' => last_elem s' (if c =? SLASH then s' else last)
  end.

(** from the loaded image to the return *)
Definition exec_commit (path : list Z) (elf : elfhdr) (pagetable sz sp argc oldsz : Z) : M K Z :=
  let! p := myproc in
  do! tf_set p TF_a1 sp in
  do! upd_proc p (λ x, set_p_name (safestrcpy_l 15 (p_name x) (last_elem path path)) x) in
  let! pr := getproc p in
  let oldpagetable := p_pagetable pr in
  do! upd_proc p (set_p_pagetable pagetable) in
  do! upd_proc p (set_p_sz sz) in
  do! tf_set p TF_epc (e_entry elf) in
  do! tf_set p TF_sp sp in
  do! phy_do (proc_freepagetable oldpagetable oldsz) in
  ret argc.

(** the user stack: a guard page and a page for the arguments *)
Definition exec_stack (path : list Z) (argv : list (list Z)) (elf : elfhdr) (pagetable sz : Z) : M K Z :=
  let! p := myproc in
  let! pr := getproc p in
  let oldsz := p_sz pr in
  let sz := PGROUNDUP sz in
  let! sz1 := phy_do (uvmalloc pagetable sz (u64 (sz + 2 * PGSIZE)) PTE_W) in
  if sz1 =? 0 then exec_bad pagetable sz None else
  let sz := sz1 in
  do! phy_do (uvmclear pagetable (u64 (sz - 2 * PGSIZE))) in
  let stackbase := u64 (sz - PGSIZE) in
  let! a := push_args argv 0 pagetable sz stackbase [] in
  match a with
  | None => exec_bad pagetable sz None
  | Some (argc, sp, ustack) =>
      if MAXARG <=? argc then ub "ustack[argc]" else
      let sp := u64 (sp - (argc + 1) * 8) in
      let sp := sp - sp mod 16 in
      if sp <? stackbase then exec_bad pagetable sz None else
      let! r := phy_do (copyout pagetable sp (concat (le_bytes 8 <$> (ustack ++ [0]))) ((argc + 1) * 8)) in
      if r <? 0 then exec_bad pagetable sz None else
      exec_commit path elf pagetable sz sp argc oldsz
  end.

Definition exec (path : list Z) (argv : list (list Z)) : M K Z :=
  let! p := myproc in
  do! begin_op in
  let! r := namei path in
  match r with
  | None => do! end_op in ret (-1)
  | Some ip =>
      do! ilock ip in
      let! e := readi ip ToKernel 0 ELFHDR_SIZE in
      if negb (e.1 =? ELFHDR_SIZE) then exec_bad 0 0 (Some ip) else
      let elf := get_elfhdr e.2 in
      if negb (e_magic elf =? ELF_MAGIC) then exec_bad 0 0 (Some ip) else
      let! pr := getproc p in
      let! pagetable := phy_do (proc_pagetable (p_trapframe pr)) in
      if pagetable =? 0 then exec_bad 0 0 (Some ip) else
      let! l := load_segments pagetable ip elf in
      if negb l.1 then exec_bad pagetable l.2 (Some ip) else
      do! iunlockput ip in
      do! end_op in
      exec_stack path argv elf pagetable l.2
  end.

End Exec.
