(* ===== verification/Sysfile.v ===== *)
(** kernel/sysfile.c: the file system calls. *)

From S2P Require Import Prelude Mem Layout Kalloc Vm State Sched Bio Log Console Fs File Proc Exec.

Section Sysfile.
Context `{PageAlloc} `{Symbols}.

(** the file at descriptor [fd] of process [p] *)
Definition ofile_at (p : nat) (fd : Z) (s : K) : option nat := default None (p_ofile (proc_at p s) !! Z.to_nat fd).
Definition set_ofile (p : nat) (fd : Z) (f : option nat) : M K unit :=
  upd_proc p (λ x, set_p_ofile (<[Z.to_nat fd := f]> (p_ofile x)) x).

(** the descriptor and its file *)
Definition argfd (n : Z) : M K (option (Z * nat)) :=
  let! fd := argint n in
  if (fd <? 0) || (NOFILE <=? fd) then ret None else
  let! p := myproc in
  let! f := gets (ofile_at p fd) in
  match f with None => ret None | Some f => ret (Some (fd, f)) end.

Definition fdalloc (f : nat) : M K Z :=
  let! p := myproc in
  let! r := for_some (seqZ 0 NOFILE) (λ fd,
    let! o := gets (ofile_at p fd) in
    match o with
    | None => do! set_ofile p fd (Some f) in ret (Some fd)
    | Some _ => ret None
    end) in
  ret (default (-1) r).

Definition sys_dup : M K Z :=
  let! a := argfd 0 in
  match a with
  | None => ret (-1)
  | Some (_, f) =>
      let! fd := fdalloc f in
      if fd <? 0 then ret (-1) else
      let! _ := filedup f in
      ret fd
  end.

Definition sys_read : M K Z :=
  let! p := argaddr 1 in
  let! n := argint 2 in
  let! a := argfd 0 in
  match a with None => ret (-1) | Some (_, f) => fileread f p n end.

Definition sys_write : M K Z :=
  let! p := argaddr 1 in
  let! n := argint 2 in
  let! a := argfd 0 in
  match a with None => ret (-1) | Some (_, f) => filewrite f p n end.

Definition sys_close : M K Z :=
  let! a := argfd 0 in
  match a with
  | None => ret (-1)
  | Some (fd, f) =>
      let! p := myproc in
      do! set_ofile p fd None in
      do! fileclose f in
      ret 0
  end.

Definition sys_fstat : M K Z :=
  let! st := argaddr 1 in
  let! a := argfd 0 in
  match a with None => ret (-1) | Some (_, f) => filestat f st end.

(** bad: of sys_link() *)
Definition link_bad (ip : nat) : M K Z :=
  do! ilock ip in
  do! upd_inode ip (λ x, set_i_nlink (s16 (i_nlink x - 1)) x) in
  do! iupdate ip in
  do! iunlockput ip in
  do! end_op in
  ret (-1).

Definition sys_link : M K Z :=
  let! old := argstr 0 MAXPATH in
  let! new := (match old with None => ret None | Some _ => argstr 1 MAXPATH end) in
  match old, new with
  | Some old, Some new =>
      do! begin_op in
      let! r := namei old in
      match r with
      | None => do! end_op in ret (-1)
      | Some ip =>
          do! ilock ip in
          let! s := get in
          if i_type (inode_at ip s) =? T_DIR then
            do! iunlockput ip in do! end_op in ret (-1)
          else
          do! upd_inode ip (λ x, set_i_nlink (s16 (i_nlink x + 1)) x) in
          do! iupdate ip in
          do! iunlock ip in
          let! d := nameiparent new (replicate 14 0) in
          match d with
          | (None, _) => link_bad ip
          | (Some dp, name) =>
              do! ilock dp in
              let! s := get in
              let! bad := (if negb (i_dev (inode_at dp s) =? i_dev (inode_at ip s)) then ret true else
                let! l := dirlink dp name (i_inum (inode_at ip s)) in ret (l <? 0)) in
              if bad : bool then
                do! iunlockput dp in link_bad ip
              else
                do! iunlockput dp in
                do! iput ip in
                do! end_op in
                ret 0
          end
      end
  | _, _ => ret (-1)
  end.

Definition isdirempty (dp : nat) : M K bool :=
  loop (λ off,
    let! s := get in
    if off <? i_size (inode_at dp s) then
      let! r := readi dp ToKernel off DIRENT_SIZE in
      if negb (r.1 =? DIRENT_SIZE) then panic "isdirempty: readi" else
      if negb (de_inum r.2 =? 0) then ret (inr false) else ret (inl (off + DIRENT_SIZE))
    else ret (inr true)) (2 * DIRENT_SIZE).

(** bad: of sys_unlink() *)
Definition unlink_bad (dp : nat) : M K Z :=
  do! iunlockput dp in
  do! end_op in
  ret (-1).

(** the entry at [off] of [dp] goes, then a link of [ip] *)
Definition unlink_entry (dp ip : nat) (off : Z) : M K Z :=
  let! w := writei dp (FromKernel (replicate 16 0)) off DIRENT_SIZE in
  if negb (w =? DIRENT_SIZE) then panic "unlink: writei" else
  let! s := get in
  do! when (i_type (inode_at ip s) =? T_DIR)
        (do! upd_inode dp (λ x, set_i_nlink (s16 (i_nlink x - 1)) x) in
         iupdate dp) in
  do! iunlockput dp in
  do! upd_inode ip (λ x, set_i_nlink (s16 (i_nlink x - 1)) x) in
  do! iupdate ip in
  do! iunlockput ip in
  do! end_op in
  ret 0.

Definition sys_unlink : M K Z :=
  let! path := argstr 0 MAXPATH in
  match path with
  | None => ret (-1)
  | Some path =>
      do! begin_op in
      let! d := nameiparent path (replicate 14 0) in
      match d with
      | (None, _) => do! end_op in ret (-1)
      | (Some dp, name) =>
          do! ilock dp in
          if (namecmp name (bytes_of ".") =? 0) || (namecmp name (bytes_of "..") =? 0) then unlink_bad dp else
          let! r := dirlookup dp name in
          match r with
          | None => unlink_bad dp
          | Some (ip, off) =>
              do! ilock ip in
              let! s := get in
              if i_nlink (inode_at ip s) <? 1 then panic "unlink: nlink < 1" else
              let! e := (if i_type (inode_at ip s) =? T_DIR then isdirempty ip else ret true) in
              if negb e then
                do! iunlockput ip in unlink_bad dp
              else unlink_entry dp ip off
          end
      end
  end.

(** fail: of create() *)
Definition create_fail (dp ip : nat) : M K (option nat) :=
  do! upd_inode ip (set_i_nlink 0) in
  do! iupdate ip in
  do! iunlockput ip in
  do! iunlockput dp in
  ret None.

(** the new inode [ip] gets its entries; [true] is success *)
Definition create_link (dp ip : nat) (name : list Z) (type : Z) : M K bool :=
  let! s := get in
  let inum := i_inum (inode_at ip s) in
  let! dots := (if type =? T_DIR then
      let! r := dirlink ip (bytes_of ".") inum in
      if r <? 0 then ret false else
      let! s := get in
      let! r := dirlink ip (bytes_of "..") (i_inum (inode_at dp s)) in
      ret (negb (r <? 0))
    else ret true) in
  if negb dots then ret false else
  let! r := dirlink dp name inum in
  ret (negb (r <? 0)).

Definition create (path : list Z) (type major minor : Z) : M K (option nat) :=
  let! d := nameiparent path (replicate 14 0) in
  match d with
  | (None, _) => ret None
  | (Some dp, name) =>
      do! ilock dp in
      let! r := dirlookup dp name in
      match r with
      | Some (ip, _) =>
          do! iunlockput dp in
          do! ilock ip in
          let! s := get in
          let t := i_type (inode_at ip s) in
          if (type =? T_FILE) && ((t =? T_FILE) || (t =? T_DEVICE)) then ret (Some ip) else
          do! iunlockput ip in
          ret None
      | None =>
          let! s := get in
          let! a := ialloc (i_dev (inode_at dp s)) type in
          match a with
          | None => do! iunlockput dp in ret None
          | Some ip =>
              do! ilock ip in
              do! upd_inode ip (λ x, set_i_nlink 1 (set_i_minor minor (set_i_major major x))) in
              do! iupdate ip in
              let! ok := create_link dp ip name type in
              if negb ok then create_fail dp ip else
              do! when (type =? T_DIR)
                    (do! upd_inode dp (λ x, set_i_nlink (s16 (i_nlink x + 1)) x) in
                     iupdate dp) in
              do! iunlockput dp in
              ret (Some ip)
          end
      end
  end.

Definition O_RDONLY : Z := 0.
Definition O_WRONLY : Z := 1.
Definition O_RDWR : Z := 2.
Definition O_CREATE : Z := 0x200.
Definition O_TRUNC : Z := 0x400.

(** the inode to open, locked *)
Definition open_inode (path : list Z) (omode : Z) : M K (option nat) :=
  if c_true (Z.land omode O_CREATE) then create path T_FILE 0 0 else
  let! r := namei path in
  match r with
  | None => ret None
  | Some ip =>
      do! ilock ip in
      let! s := get in
      if (i_type (inode_at ip s) =? T_DIR) && negb (omode =? O_RDONLY) then
        do! iunlockput ip in ret None
      else ret (Some ip)
  end.

(** a file structure with a descriptor *)
Definition open_file : M K (option (nat * Z)) :=
  let! f := filealloc in
  match f with
  | None => ret None
  | Some f =>
      let! fd := fdalloc f in
      if fd <? 0 then do! fileclose f in ret None else ret (Some (f, fd))
  end.

Definition sys_open : M K Z :=
  let! omode := argint 1 in
  let! path := argstr 0 MAXPATH in
  match path with
  | None => ret (-1)
  | Some path =>
      do! begin_op in
      let! r := open_inode path omode in
      match r with
      | None => do! end_op in ret (-1)
      | Some ip =>
          let! s := get in
          let x := inode_at ip s in
          if (i_type x =? T_DEVICE) && ((i_major x <? 0) || (NDEV <=? i_major x)) then
            do! iunlockput ip in do! end_op in ret (-1)
          else
          let! o := open_file in
          match o with
          | None => do! iunlockput ip in do! end_op in ret (-1)
          | Some (f, fd) =>
              do! upd_file f (λ y, if i_type x =? T_DEVICE then set_f_major (i_major x) (set_f_type FD_DEVICE y)
                                   else set_f_off 0 (set_f_type FD_INODE y)) in
              do! upd_file f (λ y,
                set_f_writable (c_true (Z.land omode O_WRONLY) || c_true (Z.land omode O_RDWR))
                  (set_f_readable (negb (c_true (Z.land omode O_WRONLY))) (set_f_ip (Some ip) y))) in
              do! when (c_true (Z.land omode O_TRUNC) && (i_type x =? T_FILE)) (itrunc ip) in
              do! iunlock ip in
              do! end_op in
              ret fd
          end
      end
  end.

(** the end of sys_mkdir() and sys_mknod() *)
Definition put_created (r : option nat) : M K Z :=
  match r with
  | None => do! end_op in ret (-1)
  | Some ip => do! iunlockput ip in do! end_op in ret 0
  end.

Definition sys_mkdir : M K Z :=
  do! begin_op in
  let! path := argstr 0 MAXPATH in
  let! r := (match path with None => ret None | Some path => create path T_DIR 0 0 end) in
  put_created r.

Definition sys_mknod : M K Z :=
  do! begin_op in
  let! major := argint 1 in
  let! minor := argint 2 in
  let! path := argstr 0 MAXPATH in
  let! r := (match path with None => ret None | Some path => create path T_DEVICE (s16 major) (s16 minor) end) in
  put_created r.

Definition sys_chdir : M K Z :=
  let! p := myproc in
  do! begin_op in
  let! path := argstr 0 MAXPATH in
  let! r := (match path with None => ret None | Some path => namei path end) in
  match r with
  | None => do! end_op in ret (-1)
  | Some ip =>
      do! ilock ip in
      let! s := get in
      if negb (i_type (inode_at ip s) =? T_DIR) then
        do! iunlockput ip in do! end_op in ret (-1)
      else
      do! iunlock ip in
      let! pr := getproc p in
      do! (match p_cwd pr with Some d => iput d | None => ub "p->cwd is null" end) in
      do! end_op in
      do! upd_proc p (set_p_cwd (Some ip)) in
      ret 0
  end.

(** the pages of argv[] and the strings in them; [false] is goto bad *)
Fixpoint fetch_args (fuel : nat) (i uargv : Z) (pages : list Z) (argv : list (list Z)) : M K (bool * list Z * list (list Z)) :=
  match fuel with
  | O => ret (false, pages, argv)
  | S k =>
      let! u := fetchaddr (u64 (uargv + 8 * i)) in
      match u with
      | None => ret (false, pages, argv)
      | Some uarg =>
          if uarg =? 0 then ret (true, pages, argv) else
          let! a := phy_do pg_alloc in
          if a =? 0 then ret (false, pages, argv) else
          let! r := fetchstr uarg PGSIZE in
          match r with
          | None => ret (false, pages ++ [a], argv)
          | Some str =>
              do! phy_do (modify (λ s, set_mem (st_bytes (mem s) a (str ++ [0])) s)) in
              fetch_args k (i + 1) uargv (pages ++ [a]) (argv ++ [str])
          end
      end
  end.

(** i >= NELEM(argv) is the end of the fuel *)
Definition sys_exec : M K Z :=
  let! uargv := argaddr 1 in
  let! path := argstr 0 MAXPATH in
  match path with
  | None => ret (-1)
  | Some path =>
      let! r := fetch_args 32 0 uargv [] [] in
      let '(ok, pages, argv) := r in
      let! v := (if ok : bool then exec path argv else ret (-1)) in
      do! for_each pages (λ a, phy_do (pg_free a)) in
      ret v
  end.

Definition sys_pipe : M K Z :=
  let! p := myproc in
  let! fdarray := argaddr 0 in
  let! r := pipealloc in
  match r with
  | None => ret (-1)
  | Some (rf, wf) =>
      let! fd0 := fdalloc rf in
      let! fd1 := (if fd0 <? 0 then ret (-1) else fdalloc wf) in
      if (fd0 <? 0) || (fd1 <? 0) then
        do! when (0 <=? fd0) (set_ofile p fd0 None) in
        do! fileclose rf in
        do! fileclose wf in
        ret (-1)
      else
      let! pr := getproc p in
      let! c0 := phy_do (copyout (p_pagetable pr) fdarray (le_bytes 4 fd0) 4) in
      let! c1 := (if c0 <? 0 then ret (-1) else phy_do (copyout (p_pagetable pr) (u64 (fdarray + 4)) (le_bytes 4 fd1) 4)) in
      if (c0 <? 0) || (c1 <? 0) then
        do! set_ofile p fd0 None in
        do! set_ofile p fd1 None in
        do! fileclose rf in
        do! fileclose wf in
        ret (-1)
      else ret 0
  end.

End Sysfile.
