(* ===== verification/Virtio.v ===== *)
(** kernel/virtio_disk.c: the disk driver.

    The queue memory the driver shares with the device (descriptors, available
    ring, used ring) and the driver's own book-keeping form [vdisk]; addresses
    the driver hands to the device name the object they point to.  [mmio_read]
    stands for the device's registers: what a read of a register returns after a
    sequence of register writes. *)

From S2P Require Import Prelude Mem Layout Kalloc Vm State Sched Bio.

Definition NUM : Z := 8.

(** what a descriptor points to: a request header, the data of a buffer, a status byte *)
Inductive vaddr := VNull | VOps (i : Z) | VData (b : nat) | VStatus (i : Z).
#[export] Instance vaddr_eq_dec : EqDecision vaddr.
Proof. solve_decision. Defined.

Record virtq_desc := mkDesc { vq_addr : vaddr; vq_len : Z; vq_flags : Z; vq_next : Z }.
Definition VRING_DESC_F_NEXT : Z := 1.
Definition VRING_DESC_F_WRITE : Z := 2.
Definition desc0 : virtq_desc := mkDesc VNull 0 0 0.

Definition VIRTIO_BLK_T_IN : Z := 0.
Definition VIRTIO_BLK_T_OUT : Z := 1.
(** struct virtio_blk_req; reserved is always 0 *)
Record virtio_blk_req := mkReq { rq_type : Z; rq_sector : Z }.
(** struct disk's info[]: the buffer and the status byte *)
Record info := mkInfo { in_b : option nat; in_status : Z }.

Record vdisk := mkVdisk {
  vd_desc : list virtq_desc;
  avail_idx : Z; avail_ring : list Z;
  dev_used_idx : Z; used_ring : list Z;   (* disk.used *)
  vd_free : list bool;
  used_idx : Z;
  vd_info : list info;
  vd_ops : list virtio_blk_req;
  regs : list (Z * Z);                    (* register writes, oldest first *)
}.
Definition set_vd_desc x d := mkVdisk x (avail_idx d) (avail_ring d) (dev_used_idx d) (used_ring d) (vd_free d) (used_idx d) (vd_info d) (vd_ops d) (regs d).
Definition set_avail_idx x d := mkVdisk (vd_desc d) x (avail_ring d) (dev_used_idx d) (used_ring d) (vd_free d) (used_idx d) (vd_info d) (vd_ops d) (regs d).
Definition set_avail_ring x d := mkVdisk (vd_desc d) (avail_idx d) x (dev_used_idx d) (used_ring d) (vd_free d) (used_idx d) (vd_info d) (vd_ops d) (regs d).
Definition set_dev_used_idx x d := mkVdisk (vd_desc d) (avail_idx d) (avail_ring d) x (used_ring d) (vd_free d) (used_idx d) (vd_info d) (vd_ops d) (regs d).
Definition set_used_ring x d := mkVdisk (vd_desc d) (avail_idx d) (avail_ring d) (dev_used_idx d) x (vd_free d) (used_idx d) (vd_info d) (vd_ops d) (regs d).
Definition set_vd_free x d := mkVdisk (vd_desc d) (avail_idx d) (avail_ring d) (dev_used_idx d) (used_ring d) x (used_idx d) (vd_info d) (vd_ops d) (regs d).
Definition set_used_idx x d := mkVdisk (vd_desc d) (avail_idx d) (avail_ring d) (dev_used_idx d) (used_ring d) (vd_free d) x (vd_info d) (vd_ops d) (regs d).
Definition set_vd_info x d := mkVdisk (vd_desc d) (avail_idx d) (avail_ring d) (dev_used_idx d) (used_ring d) (vd_free d) (used_idx d) x (vd_ops d) (regs d).
Definition set_vd_ops x d := mkVdisk (vd_desc d) (avail_idx d) (avail_ring d) (dev_used_idx d) (used_ring d) (vd_free d) (used_idx d) (vd_info d) x (regs d).
Definition set_regs x d := mkVdisk (vd_desc d) (avail_idx d) (avail_ring d) (dev_used_idx d) (used_ring d) (vd_free d) (used_idx d) (vd_info d) (vd_ops d) x.

(** the kernel with its disk *)
Record DK := mkDK { dk : K; dv : vdisk }.
Definition set_dk (k : K) (s : DK) : DK := mkDK k (dv s).
Definition set_dv (v : vdisk) (s : DK) : DK := mkDK (dk s) v.
Definition kdo {A} (m : M K A) : M DK A := lift dk set_dk m.
Definition upd_v (f : vdisk → vdisk) : M DK unit := modify (λ s, set_dv (f (dv s)) s).

Definition at_desc (i : Z) (v : vdisk) : virtq_desc := default desc0 (vd_desc v !! Z.to_nat i).
Definition put_desc (i : Z) (d : virtq_desc) (v : vdisk) : vdisk := set_vd_desc (<[Z.to_nat i := d]> (vd_desc v)) v.
Definition at_info (i : Z) (v : vdisk) : info := default (mkInfo None 0) (vd_info v !! Z.to_nat i).
Definition put_info (i : Z) (x : info) (v : vdisk) : vdisk := set_vd_info (<[Z.to_nat i := x]> (vd_info v)) v.
Definition is_free (i : Z) (v : vdisk) : bool := default false (vd_free v !! Z.to_nat i).
Definition put_free (i : Z) (b : bool) (v : vdisk) : vdisk := set_vd_free (<[Z.to_nat i := b]> (vd_free v)) v.

(** * Registers *)

Class VirtioMmio := { mmio_read : list (Z * Z) → Z → Z }.

Definition VIRTIO_MMIO_MAGIC_VALUE : Z := 0x000.
Definition VIRTIO_MMIO_VERSION : Z := 0x004.
Definition VIRTIO_MMIO_DEVICE_ID : Z := 0x008.
Definition VIRTIO_MMIO_VENDOR_ID : Z := 0x00c.
Definition VIRTIO_MMIO_DEVICE_FEATURES : Z := 0x010.
Definition VIRTIO_MMIO_DRIVER_FEATURES : Z := 0x020.
Definition VIRTIO_MMIO_QUEUE_SEL : Z := 0x030.
Definition VIRTIO_MMIO_QUEUE_NUM_MAX : Z := 0x034.
Definition VIRTIO_MMIO_QUEUE_NUM : Z := 0x038.
Definition VIRTIO_MMIO_QUEUE_READY : Z := 0x044.
Definition VIRTIO_MMIO_QUEUE_NOTIFY : Z := 0x050.
Definition VIRTIO_MMIO_INTERRUPT_STATUS : Z := 0x060.
Definition VIRTIO_MMIO_INTERRUPT_ACK : Z := 0x064.
Definition VIRTIO_MMIO_STATUS : Z := 0x070.
Definition VIRTIO_MMIO_QUEUE_DESC_LOW : Z := 0x080.
Definition VIRTIO_MMIO_QUEUE_DESC_HIGH : Z := 0x084.
Definition VIRTIO_MMIO_DRIVER_DESC_LOW : Z := 0x090.
Definition VIRTIO_MMIO_DRIVER_DESC_HIGH : Z := 0x094.
Definition VIRTIO_MMIO_DEVICE_DESC_LOW : Z := 0x0a0.
Definition VIRTIO_MMIO_DEVICE_DESC_HIGH : Z := 0x0a4.

Section Driver.
Context `{PageAlloc} `{VirtioMmio}.

Definition rd (r : Z) : M DK Z := gets (λ s, u32 (mmio_read (regs (dv s)) r)).
Definition wr (r x : Z) : M DK unit := upd_v (λ v, set_regs (regs v ++ [(r, u32 x)]) v).
(** features &= ~(1 << bit), an int mask extended to 64 bits *)
Definition clear_bit (bit f : Z) : Z := Z.land f (Z.lnot (Z.shiftl 1 bit)).

(** the identification registers *)
Definition disk_found : M DK bool :=
  let! a := rd VIRTIO_MMIO_MAGIC_VALUE in
  let! b := rd VIRTIO_MMIO_VERSION in
  let! c := rd VIRTIO_MMIO_DEVICE_ID in
  let! d := rd VIRTIO_MMIO_VENDOR_ID in
  ret ((a =? 0x74726976) && (b =? 2) && (c =? 2) && (d =? 0x554d4551)).

Definition virtio_disk_init : M DK unit :=
  let! ok := disk_found in
  if negb ok then panic "could not find virtio disk" else
  do! wr VIRTIO_MMIO_STATUS 0 in
  let status := 1 in
  do! wr VIRTIO_MMIO_STATUS status in
  let status := Z.lor status 2 in
  do! wr VIRTIO_MMIO_STATUS status in
  let! features := rd VIRTIO_MMIO_DEVICE_FEATURES in
  let features := clear_bit 28 (clear_bit 29 (clear_bit 27 (clear_bit 12 (clear_bit 11 (clear_bit 7 (clear_bit 5 features)))))) in
  do! wr VIRTIO_MMIO_DRIVER_FEATURES features in
  let status := Z.lor status 8 in
  do! wr VIRTIO_MMIO_STATUS status in
  let! status := rd VIRTIO_MMIO_STATUS in
  if negb (c_true (Z.land status 8)) then panic "virtio disk FEATURES_OK unset" else
  do! wr VIRTIO_MMIO_QUEUE_SEL 0 in
  let! ready := rd VIRTIO_MMIO_QUEUE_READY in
  if negb (ready =? 0) then panic "virtio disk should not be ready" else
  let! max := rd VIRTIO_MMIO_QUEUE_NUM_MAX in
  if max =? 0 then panic "virtio disk has no queue 0" else
  if max <? NUM then panic "virtio disk max queue too short" else
  let! desc := kdo (phy_do pg_alloc) in
  let! avail := kdo (phy_do pg_alloc) in
  let! used := kdo (phy_do pg_alloc) in
  if (desc =? 0) || (avail =? 0) || (used =? 0) then panic "virtio disk kalloc" else
  do! kdo (phy_do (mem_set desc 0 PGSIZE)) in
  do! kdo (phy_do (mem_set avail 0 PGSIZE)) in
  do! kdo (phy_do (mem_set used 0 PGSIZE)) in
  do! upd_v (λ v, set_vd_desc (replicate 8 desc0) (set_avail_idx 0 (set_avail_ring (replicate 8 0)
        (set_dev_used_idx 0 (set_used_ring (replicate 8 0) v))))) in
  do! wr VIRTIO_MMIO_QUEUE_NUM NUM in
  do! wr VIRTIO_MMIO_QUEUE_DESC_LOW desc in
  do! wr VIRTIO_MMIO_QUEUE_DESC_HIGH (Z.shiftr desc 32) in
  do! wr VIRTIO_MMIO_DRIVER_DESC_LOW avail in
  do! wr VIRTIO_MMIO_DRIVER_DESC_HIGH (Z.shiftr avail 32) in
  do! wr VIRTIO_MMIO_DEVICE_DESC_LOW used in
  do! wr VIRTIO_MMIO_DEVICE_DESC_HIGH (Z.shiftr used 32) in
  do! wr VIRTIO_MMIO_QUEUE_READY 1 in
  do! for_each (seqZ 0 NUM) (λ i, upd_v (put_free i true)) in
  wr VIRTIO_MMIO_STATUS (Z.lor status 4).

(** * Descriptors *)

Definition alloc_desc : M DK Z :=
  let! r := for_some (seqZ 0 NUM) (λ i,
    let! v := gets dv in
    if is_free i v then do! upd_v (put_free i false) in ret (Some i) else ret None) in
  ret (default (-1) r).

Definition free_desc (i : Z) : M DK unit :=
  if NUM <=? i then panic "free_desc 1" else
  let! v := gets dv in
  if is_free i v then panic "free_desc 2" else
  do! upd_v (put_desc i desc0) in
  do! upd_v (put_free i true) in
  kdo (wakeup ChDesc).

Definition free_chain (i : Z) : M DK unit :=
  loop (λ i,
    let! v := gets dv in
    let flag := vq_flags (at_desc i v) in
    let nxt := vq_next (at_desc i v) in
    do! free_desc i in
    if c_true (Z.land flag VRING_DESC_F_NEXT) then ret (inl nxt) else ret (inr tt)) i.

(** idx[0..2], or [None] with everything given back *)
Fixpoint alloc3_loop (k : nat) (idx : list Z) : M DK (option (list Z)) :=
  match k with
  | O => ret (Some idx)
  | S k' =>
      let! i := alloc_desc in
      if i <? 0 then do! for_each idx free_desc in ret None
      else alloc3_loop k' (idx ++ [i])
  end.
Definition alloc3_desc : M DK (option (list Z)) := alloc3_loop 3 [].

(** * Requests *)

(** the three descriptors of a request, the header and the status byte *)
Definition format_request (i0 i1 i2 : Z) (b : nat) (sector : Z) (write : bool) (v : vdisk) : vdisk :=
  let v := set_vd_ops (<[Z.to_nat i0 := mkReq (if write then VIRTIO_BLK_T_OUT else VIRTIO_BLK_T_IN) sector]> (vd_ops v)) v in
  let v := put_desc i0 (mkDesc (VOps i0) 16 VRING_DESC_F_NEXT i1) v in
  let v := put_desc i1 (mkDesc (VData b) BSIZE (Z.lor (if write then 0 else VRING_DESC_F_WRITE) VRING_DESC_F_NEXT) i2) v in
  let v := put_info i0 (mkInfo (in_b (at_info i0 v)) 255) v in
  put_desc i2 (mkDesc (VStatus i0) 1 VRING_DESC_F_WRITE 0) v.

Definition alloc_wait : M DK (list Z) :=
  loop (λ _ : unit,
    let! r := alloc3_desc in
    match r with
    | Some idx => ret (inr idx)
    | None => do! kdo (sleep ChDesc LkDisk) in ret (inl tt)
    end) tt.

Definition io_wait (b : nat) : M DK unit :=
  loop (λ _ : unit,
    let! s := get in
    if b_disk (buf_at b (dk s)) =? 1 then
      do! kdo (sleep (ChBufIo b) LkDisk) in ret (inl tt)
    else ret (inr tt)) tt.

Definition drv_disk_rw (b : nat) (write : bool) : M DK unit :=
  let! s := get in
  let sector := u32 (b_blockno (buf_at b (dk s)) * 2) in
  do! kdo (acquire LkDisk) in
  let! idx := alloc_wait in
  match idx with
  | [i0; i1; i2] =>
      do! upd_v (format_request i0 i1 i2 b sector write) in
      do! kdo (upd_buf b (set_b_disk 1)) in
      do! upd_v (λ v, put_info i0 (mkInfo (Some b) (in_status (at_info i0 v))) v) in
      do! upd_v (λ v, set_avail_ring (<[Z.to_nat (avail_idx v mod NUM) := i0]> (avail_ring v)) v) in
      do! upd_v (λ v, set_avail_idx (u16 (avail_idx v + 1)) v) in
      do! wr VIRTIO_MMIO_QUEUE_NOTIFY 0 in
      do! io_wait b in
      do! upd_v (λ v, put_info i0 (mkInfo None (in_status (at_info i0 v))) v) in
      do! free_chain i0 in
      kdo (release LkDisk)
  | _ => ub "idx"
  end.

Definition virtio_disk_intr : M DK unit :=
  do! kdo (acquire LkDisk) in
  let! st := rd VIRTIO_MMIO_INTERRUPT_STATUS in
  do! wr VIRTIO_MMIO_INTERRUPT_ACK (Z.land st 3) in
  do! loop (λ _ : unit,
    let! v := gets dv in
    if used_idx v =? dev_used_idx v then ret (inr tt) else
    let id := default 0 (used_ring v !! Z.to_nat (used_idx v mod NUM)) in
    if negb (in_status (at_info id v) =? 0) then panic "virtio_disk_intr status" else
    match in_b (at_info id v) with
    | None => ub "disk.info[id].b is null"
    | Some b =>
        do! kdo (upd_buf b (set_b_disk 0)) in
        do! kdo (wakeup (ChBufIo b)) in
        do! upd_v (λ v, set_used_idx (u16 (used_idx v + 1)) v) in
        ret (inl tt)
    end) tt in
  kdo (release LkDisk).

End Driver.
