(* ===== verification/VirtioSpec.v ===== *)
(** The disk driver against its contract: a request of virtio_disk_rw(), served by
    the device and completed by virtio_disk_intr(), has the effect the buffer
    cache relies on. *)

From S2P Require Import Prelude Mem Layout Kalloc Vm State Sched Bio Virtio.

(** * The queue *)

(** tables of NUM entries and 16-bit indices *)
Record vq_ok (v : vdisk) : Prop := {
  vq_desc_len : length (vd_desc v) = 8%nat;
  vq_avail_len : length (avail_ring v) = 8%nat;
  vq_used_len : length (used_ring v) = 8%nat;
  vq_free_len : length (vd_free v) = 8%nat;
  vq_info_len : length (vd_info v) = 8%nat;
  vq_ops_len : length (vd_ops v) = 8%nat;
  vq_avail : 0 ≤ avail_idx v < 2 ^ 16;
}.

(** nothing is waiting in either ring *)
Definition idle (v : vdisk) : Prop := vq_ok v ∧ used_idx v = avail_idx v ∧ dev_used_idx v = avail_idx v.

Definition slot (i : Z) : Prop := 0 ≤ i < 8.
Definition enough (k : nat) (v : vdisk) : Prop := ∃ l, NoDup l ∧ length l = k ∧ ∀ i, i ∈ l → slot i ∧ is_free i v = true.
Definition at_ops (i : Z) (v : vdisk) : virtio_blk_req := default (mkReq 0 0) (vd_ops v !! Z.to_nat i).

(** a read or write of a block's two sectors by the chain [i0], [i1], [i2], for buffer [b] *)
Record chain (i0 i1 i2 : Z) (b : nat) (sector : Z) (w : bool) (v : vdisk) : Prop := {
  rq_slots : slot i0 ∧ slot i1 ∧ slot i2 ∧ i0 ≠ i1 ∧ i0 ≠ i2 ∧ i1 ≠ i2;
  rq_head : at_desc i0 v = mkDesc (VOps i0) 16 VRING_DESC_F_NEXT i1;
  rq_data : at_desc i1 v = mkDesc (VData b) BSIZE (Z.lor (if w then 0 else VRING_DESC_F_WRITE) VRING_DESC_F_NEXT) i2;
  rq_stat : at_desc i2 v = mkDesc (VStatus i0) 1 VRING_DESC_F_WRITE 0;
  rq_op : at_ops i0 v = mkReq (if w then VIRTIO_BLK_T_OUT else VIRTIO_BLK_T_IN) sector;
  rq_busy : is_free i0 v = false ∧ is_free i1 v = false ∧ is_free i2 v = false;
}.
(** with the buffer noted for the interrupt handler *)
Definition request (i0 i1 i2 : Z) (b : nat) (sector : Z) (w : bool) (v : vdisk) : Prop :=
  chain i0 i1 i2 b sector w v ∧ in_b (at_info i0 v) = Some b.

(** the one entry of the available ring the device has not seen heads the request *)
Definition published (i0 : Z) (v : vdisk) : Prop :=
  u16 (dev_used_idx v + 1) = avail_idx v ∧ used_idx v = dev_used_idx v ∧ avail_ring v !! Z.to_nat (dev_used_idx v mod NUM) = Some i0.

(** * The device (virtio 1.1, 5.2.6 and 2.6.8)

    What serving the published request does to the memory and the disk: the
    transfer, the status byte, the entry in the used ring. *)
Definition transferred (b : nat) (sector : Z) (w : bool) (k : K) : K :=
  if w then set_dtrace (dtrace k ++ [(sector / 2, b_data (buf_at b k))]) (set_disk (<[sector / 2 := b_data (buf_at b k)]> (disk k)) k)
  else set_bufs (alter (set_b_data (blk k (sector / 2))) b (bufs k)) k.
Definition completed (i0 : Z) (v : vdisk) : vdisk :=
  set_dev_used_idx (u16 (dev_used_idx v + 1)) (set_used_ring (<[Z.to_nat (dev_used_idx v mod NUM) := i0]> (used_ring v))
    (put_info i0 (mkInfo (in_b (at_info i0 v)) 0) v)).

Class VirtioDevice := {
  serve : DK → DK;
  serve_request s i0 i1 i2 b sector w : vq_ok (dv s) → request i0 i1 i2 b sector w (dv s) → published i0 (dv s) → sector mod 2 = 0 →
    serve s = mkDK (transferred b sector w (dk s)) (completed i0 (dv s));
}.

(** * Tables *)

Lemma lookup_put {A} (d : A) i j x (l : list A) : slot i → slot j → length l = 8%nat →
  default d (<[Z.to_nat i := x]> l !! Z.to_nat j) = if decide (j = i) then x else default d (l !! Z.to_nat j).
Proof.
  unfold slot. intros Hi Hj Hl. case_decide as E.
  - subst j. by rewrite list_lookup_insert_eq by lia.
  - by rewrite list_lookup_insert_ne by lia.
Qed.

Lemma is_free_put i j x v : vq_ok v → slot i → slot j → is_free j (put_free i x v) = if decide (j = i) then x else is_free j v.
Proof. intros HV Hi Hj. apply lookup_put; [done|done|apply HV]. Qed.
Lemma at_desc_put i j x v : vq_ok v → slot i → slot j → at_desc j (put_desc i x v) = if decide (j = i) then x else at_desc j v.
Proof. intros HV Hi Hj. apply lookup_put; [done|done|apply HV]. Qed.
Lemma at_info_put i j x v : vq_ok v → slot i → slot j → at_info j (put_info i x v) = if decide (j = i) then x else at_info j v.
Proof. intros HV Hi Hj. apply lookup_put; [done|done|apply HV]. Qed.

Ltac vq_same := let HV := fresh in intros HV; destruct HV; split; cbn; rewrite ?length_insert; done.
Lemma vq_put_free i x v : vq_ok v → vq_ok (put_free i x v).
Proof. vq_same. Qed.
Lemma vq_put_desc i x v : vq_ok v → vq_ok (put_desc i x v).
Proof. vq_same. Qed.
Lemma vq_put_info i x v : vq_ok v → vq_ok (put_info i x v).
Proof. vq_same. Qed.

(** * Descriptors *)

Lemma enough_take k i v : vq_ok v → slot i → enough (S k) v → enough k (put_free i false v).
Proof.
  intros HV Hi (l & Hn & Hl & Hf).
  assert (∃ l', NoDup l' ∧ length l' = k ∧ (i ∉ l') ∧ l' ⊆ l) as (l' & Hn' & Hl' & Hi' & Hs).
  { destruct (decide (i ∈ l)) as [Hin|Hin].
    - apply list_elem_of_split in Hin as (l1 & l2 & ->). exists (l1 ++ l2). apply NoDup_app in Hn as (N1 & N2 & N3). apply NoDup_cons in N3 as [N3 N4].
      rewrite length_app in Hl |- *. cbn in Hl. split_and!; [apply NoDup_app; set_solver|lia|set_solver|set_solver].
    - destruct l as [|x l]; [done|]. apply NoDup_cons in Hn as [? ?]. exists l. cbn in Hl. split_and!; [done|lia|set_solver|set_solver]. }
  exists l'. split_and!; [done|done|]. intros j Hj. destruct (Hf j (Hs j Hj)) as [Hsj Hfj]. split; [done|].
  rewrite is_free_put, decide_False by first [done|by intros ->]. done.
Qed.

Section Driver.
Context `{PA : PageAlloc} `{VM : VirtioMmio}.

Lemma wp_alloc_desc (Q : Z → DK → Prop) E s : vq_ok (dv s) → enough 1 (dv s) →
  (∀ i, slot i → is_free i (dv s) = true → Q i (set_dv (put_free i false (dv s)) s)) → wp alloc_desc Q E s.
Proof.
  intros HV (l & _ & Hl & Hf) HQ. unfold alloc_desc. apply wp_bind.
  apply (wp_for_some (seqZ 0 NUM) [] (seqZ 0 NUM) _ (λ d s', s' = s ∧ ∀ i, i ∈ d → is_free i (dv s) = false)); [| |done|set_solver].
  - intros d i r s' Hd [-> Hno]. apply wp_bind, wp_gets. destruct (is_free i (dv s)) eqn:Ei.
    + unfold upd_v. apply wp_bind, wp_modify, wp_ret, wp_ret. cbn [default from_option id]. apply HQ; [|done].
      assert (i ∈ seqZ 0 NUM) as Hi by (rewrite Hd; set_solver). apply elem_of_seqZ in Hi. change NUM with 8 in Hi. unfold slot. lia.
    + apply wp_ret. split; [done|]. intros j [Hj|Hj]%elem_of_app; [by apply Hno|]. by apply list_elem_of_singleton in Hj as ->.
  - intros s' [-> Hno]. exfalso. destruct l as [|i [|]]; [done| |done]. destruct (Hf i ltac:(left)) as [Hs Hfi]. rewrite Hno in Hfi; [done|].
    apply elem_of_seqZ. change NUM with 8. unfold slot in Hs. lia.
Qed.

Lemma wp_alloc3 (Q : option (list Z) → DK → Prop) E s : vq_ok (dv s) → enough 3 (dv s) →
  (∀ i0 i1 i2, slot i0 → slot i1 → slot i2 → i0 ≠ i1 → i0 ≠ i2 → i1 ≠ i2 →
     is_free i0 (dv s) = true → is_free i1 (dv s) = true → is_free i2 (dv s) = true →
     Q (Some [i0; i1; i2]) (set_dv (put_free i2 false (put_free i1 false (put_free i0 false (dv s)))) s)) →
  wp alloc3_desc Q E s.
Proof.
  intros HV H3 HQ. unfold alloc3_desc. cbn [alloc3_loop app].
  assert (∀ k v, enough (S k) v → enough 1 v) as Hone.
  { intros k v (l & Hn & Hl & Hf). destruct l as [|x l]; [done|]. exists [x]. split_and!; [apply NoDup_singleton|done|]. intros j ->%list_elem_of_singleton. apply Hf. left. }
  apply wp_bind, wp_alloc_desc; [done|by eapply Hone|]. intros i0 S0 F0. rewrite (proj2 (Z.ltb_ge i0 0)) by (unfold slot in S0; lia).
  set (v1 := put_free i0 false (dv s)). assert (vq_ok v1) as HV1 by by apply vq_put_free. assert (enough 2 v1) as H2 by by apply enough_take.
  apply wp_bind, wp_alloc_desc; [done|by eapply Hone|]. cbn [dv set_dv]. intros i1 S1 F1. rewrite (proj2 (Z.ltb_ge i1 0)) by (unfold slot in S1; lia).
  unfold v1 in F1. rewrite is_free_put in F1 by done. destruct (decide (i1 = i0)) as [|N1]; [done|].
  set (v2 := put_free i1 false v1). assert (vq_ok v2) as HV2 by by apply vq_put_free. assert (enough 1 v2) as H1 by by apply enough_take.
  apply wp_bind, wp_alloc_desc; [done|done|]. cbn [dv set_dv]. intros i2 S2 F2. rewrite (proj2 (Z.ltb_ge i2 0)) by (unfold slot in S2; lia).
  unfold v2 in F2. rewrite is_free_put in F2 by done. destruct (decide (i2 = i1)) as [|N2]; [done|].
  unfold v1 in F2. rewrite is_free_put in F2 by done. destruct (decide (i2 = i0)) as [|N3]; [done|].
  apply wp_ret. apply HQ; try done; congruence.
Qed.

Lemma wp_free_desc i (Q : unit → DK → Prop) E s : slot i → is_free i (dv s) = false → proc_unlocked (dk s) →
  Q tt (mkDK (set_procs (wake ChDesc (cur (dk s)) 64 (procs (dk s))) (dk s)) (put_free i true (put_desc i desc0 (dv s)))) → wp (free_desc i) Q E s.
Proof.
  intros Hi Hf Hu HQ. unfold free_desc. rewrite (proj2 (Z.leb_gt NUM i)) by (unfold slot, NUM in *; lia). apply wp_bind, wp_gets. rewrite Hf.
  unfold upd_v. apply wp_bind, wp_modify, wp_bind, wp_modify, wp_lift, wp_wakeup; done.
Qed.

Definition freed (i : Z) (v : vdisk) : vdisk := put_free i true (put_desc i desc0 v).
Lemma vq_freed i v : vq_ok v → vq_ok (freed i v).
Proof. intros HV. by apply vq_put_free, vq_put_desc. Qed.
Lemma freed_desc i j v : vq_ok v → slot i → slot j → j ≠ i → at_desc j (freed i v) = at_desc j v ∧ is_free j (freed i v) = is_free j v.
Proof.
  intros HV Hi Hj Hne. unfold freed. rewrite is_free_put by (done || by apply vq_put_desc). rewrite decide_False by done. split; [|done].
  change (at_desc j (put_desc i desc0 v) = at_desc j v). by rewrite at_desc_put, decide_False.
Qed.

Lemma wp_free_chain i0 i1 i2 b sector w (Q : unit → DK → Prop) E s :
  vq_ok (dv s) → chain i0 i1 i2 b sector w (dv s) → proc_unlocked (dk s) →
  (∀ ps, length ps = length (procs (dk s)) → Q tt (mkDK (set_procs ps (dk s)) (freed i2 (freed i1 (freed i0 (dv s)))))) → wp (free_chain i0) Q E s.
Proof.
  intros HV [(S0 & S1 & S2 & N01 & N02 & N12) D0 D1 D2 _ (F0 & F1 & F2)] Hu HQ. unfold free_chain.
  set (v1 := freed i0 (dv s)). set (v2 := freed i1 v1). assert (vq_ok v1) as HV1 by by apply vq_freed. assert (vq_ok v2) as HV2 by by apply vq_freed.
  destruct (freed_desc i0 i1 (dv s) HV S0 S1 ltac:(done)) as [E1 G1]. destruct (freed_desc i0 i2 (dv s) HV S0 S2 ltac:(done)) as [E2 G2].
  destruct (freed_desc i1 i2 v1 HV1 S1 S2 ltac:(done)) as [E3 G3]. fold v1 in E1, G1, E2, G2. fold v2 in E3, G3.
  apply (wp_loop_n _ (λ n i t, ∃ ps, length ps = length (procs (dk s)) ∧ dk t = set_procs ps (dk s) ∧
    (n = 3 ∧ i = i0 ∧ dv t = dv s ∨ n = 2 ∧ i = i1 ∧ dv t = v1 ∨ n = 1 ∧ i = i2 ∧ dv t = v2)) _ _ 3).
  2: { exists (procs (dk s)). split_and!; [done|by destruct s as [[] ?]|by left]. }
  2: { lia. }
  intros n i [kt vt] (ps & Hps & Hk & H). cbn [dk dv] in *. subst kt. apply wp_bind, wp_gets. cbn [dv].
  assert (proc_unlocked (set_procs ps (dk s))) as Hu' by done. assert (∀ c, length (wake ChDesc c 64 ps) = length (procs (dk s))) as Hw by (intros c; unfold wake; by rewrite length_imap).
  destruct H as [(-> & -> & ->)|[(-> & -> & ->)|(-> & -> & ->)]]; apply wp_bind, wp_free_desc; cbn [dk dv]; try done; try congruence.
  - rewrite D0. cbn [vq_flags vq_next]. apply wp_ret. exists 2. split; [lia|]. eexists. split; [apply Hw|]. split; [done|]. right. left. done.
  - rewrite E1, D1. cbn [vq_flags vq_next]. replace (c_true _) with true by by destruct w. apply wp_ret. exists 1. split; [lia|].
    eexists. split; [apply Hw|]. split; [done|]. right. right. done.
  - rewrite E3, E2, D2. cbn [vq_flags vq_next]. apply wp_ret. cbn [dk dv]. apply (HQ _ (Hw _)).
Qed.

(** * virtio_disk_intr() *)

Definition interrupted (b : nat) (k : K) : K :=
  set_procs (wake (ChBufIo b) (cur k) 64 (procs k)) (set_bufs (alter (set_b_disk 0) b (bufs k)) k).

Lemma wp_disk_intr i0 b (Q : unit → DK → Prop) E s :
  held (dk s) = [] → 0 ≤ used_idx (dv s) < 2 ^ 16 → dev_used_idx (dv s) = u16 (used_idx (dv s) + 1) →
  used_ring (dv s) !! Z.to_nat (used_idx (dv s) mod NUM) = Some i0 → at_info i0 (dv s) = mkInfo (Some b) 0 →
  (∀ r, Q tt (mkDK (interrupted b (dk s)) (set_used_idx (dev_used_idx (dv s)) (set_regs r (dv s))))) →
  wp virtio_disk_intr Q E s.
Proof.
  intros Hh Hu Hdev Hring Hinfo HQ. destruct s as [k v]. cbn [dk dv] in *. unfold virtio_disk_intr.
  apply wp_bind, wp_lift, wp_acquire; [cbn; rewrite Hh; set_solver|]. cbn [dk set_dk]. rewrite Hh.
  apply wp_bind, wp_gets, wp_bind, wp_modify. cbn [dk dv set_dv set_dk]. set (r := regs v ++ _). apply wp_bind.
  assert (u16 (used_idx v + 1) ≠ used_idx v) as Hne.
  { unfold u16. destruct (decide (used_idx v + 1 = 2 ^ 16)) as [E1|E1]; [rewrite E1, Z.mod_same by done; lia|rewrite Z.mod_small by lia; lia]. }
  apply (wp_loop _ (λ _ t, t = mkDK (set_held [LkDisk] k) (set_regs r v) ∨
      t = mkDK (set_held [LkDisk] (interrupted b k)) (set_used_idx (dev_used_idx v) (set_regs r v)))
    (λ _ t, if decide (used_idx (dv t) = used_idx v) then 1 else 0)).
  2: { by left. }
  2: { cbn. rewrite decide_True by done. lia. }
  intros [] t [-> | ->]; apply wp_bind, wp_gets; cbn [dv dk used_idx dev_used_idx used_ring set_regs set_used_idx].
  - rewrite Hdev, (proj2 (Z.eqb_neq _ _)) by done. rewrite Hring. cbn [default from_option id].
    change (at_info i0 (set_regs r v)) with (at_info i0 v). rewrite Hinfo. cbn [in_status in_b Z.eqb negb].
    apply wp_bind, wp_lift, wp_modify, wp_bind, wp_lift, wp_wakeup; [cbn; unfold proc_unlocked; cbn; set_solver|].
    unfold upd_v. apply wp_bind, wp_modify, wp_ret. split; [right; reflexivity|]. cbn [dv set_dv used_idx set_used_idx set_regs]. rewrite decide_False by done. rewrite decide_True by done. lia.
  - rewrite Z.eqb_refl. apply wp_ret. apply wp_lift, wp_release; [cbn; set_solver|]. cbn. rewrite <- Hh.
    apply HQ.
Qed.

(** * virtio_disk_rw() *)

(** the queue with the request published *)
Definition publish (i0 : Z) (b : nat) (r : list (Z * Z)) (v : vdisk) : vdisk :=
  let v := put_info i0 (mkInfo (Some b) (in_status (at_info i0 v))) v in
  let v := set_avail_ring (<[Z.to_nat (avail_idx v mod NUM) := i0]> (avail_ring v)) v in
  set_regs r (set_avail_idx (u16 (avail_idx v + 1)) v).
Definition submit (i0 i1 i2 : Z) (b : nat) (sector : Z) (w : bool) (r : list (Z * Z)) (v : vdisk) : vdisk :=
  publish i0 b r (format_request i0 i1 i2 b sector w (put_free i2 false (put_free i1 false (put_free i0 false v)))).

Lemma at_ops_put i j x v : vq_ok v → slot i → slot j → at_ops j (set_vd_ops (<[Z.to_nat i := x]> (vd_ops v)) v) = if decide (j = i) then x else at_ops j v.
Proof. intros HV Hi Hj. apply lookup_put; [done|done|apply HV]. Qed.
Lemma vq_put_ops i x v : vq_ok v → vq_ok (set_vd_ops (<[i := x]> (vd_ops v)) v).
Proof. vq_same. Qed.

Lemma vq_put_ring i x v : vq_ok v → vq_ok (set_avail_ring (<[i := x]> (avail_ring v)) v).
Proof. vq_same. Qed.
Lemma vq_set_avail x r v : vq_ok v → vq_ok (set_regs r (set_avail_idx (u16 x) v)).
Proof. intros []. split; try done. apply u16_range. Qed.

Lemma format_chain i0 i1 i2 b sector w v :
  vq_ok v → slot i0 → slot i1 → slot i2 → i0 ≠ i1 → i0 ≠ i2 → i1 ≠ i2 →
  is_free i0 v = false → is_free i1 v = false → is_free i2 v = false →
  vq_ok (format_request i0 i1 i2 b sector w v) ∧ chain i0 i1 i2 b sector w (format_request i0 i1 i2 b sector w v).
Proof.
  intros HV S0 S1 S2 N01 N02 N12 F0 F1 F2. unfold format_request.
  set (v1 := set_vd_ops _ v). assert (vq_ok v1) as HV1 by by apply vq_put_ops. set (v2 := put_desc i0 _ v1). assert (vq_ok v2) as HV2 by by apply vq_put_desc.
  set (v3 := put_desc i1 _ v2). assert (vq_ok v3) as HV3 by by apply vq_put_desc. set (v4 := put_info i0 _ v3). assert (vq_ok v4) as HV4 by by apply vq_put_info.
  split; [by apply vq_put_desc|]. split; [done|..].
  - rewrite at_desc_put, decide_False by done. change (at_desc i0 v4) with (at_desc i0 v3). unfold v3. rewrite at_desc_put, decide_False by done.
    unfold v2. by rewrite at_desc_put, decide_True.
  - rewrite at_desc_put, decide_False by done. change (at_desc i1 v4) with (at_desc i1 v3). unfold v3. by rewrite at_desc_put, decide_True.
  - by rewrite at_desc_put, decide_True.
  - change (at_ops i0 v1 = mkReq (if w then VIRTIO_BLK_T_OUT else VIRTIO_BLK_T_IN) sector). unfold v1. by rewrite at_ops_put, decide_True.
  - done.
Qed.

Lemma publish_ok i0 i1 i2 b sector w r v : vq_ok v → chain i0 i1 i2 b sector w v → used_idx v = avail_idx v → dev_used_idx v = avail_idx v →
  vq_ok (publish i0 b r v) ∧ request i0 i1 i2 b sector w (publish i0 b r v) ∧ published i0 (publish i0 b r v) ∧
  ∀ i, is_free i (publish i0 b r v) = is_free i v.
Proof.
  intros HV HC Hu Hd. pose proof HC as [(S0 & _) _ _ _ _ _]. split_and!.
  - by apply vq_set_avail, vq_put_ring, vq_put_info.
  - split; [by destruct HC; split|]. change (in_b (at_info i0 (put_info i0 (mkInfo (Some b) (in_status (at_info i0 v))) v)) = Some b). by rewrite at_info_put, decide_True.
  - change (u16 (dev_used_idx v + 1) = u16 (avail_idx v + 1) ∧ used_idx v = dev_used_idx v ∧
      <[Z.to_nat (avail_idx v mod NUM) := i0]> (avail_ring v) !! Z.to_nat (dev_used_idx v mod NUM) = Some i0).
    rewrite Hd. split; [done|]. split; [done|]. apply list_lookup_insert_eq. rewrite (vq_avail_len _ HV). pose proof (Z.mod_pos_bound (avail_idx v) NUM ltac:(done)). change NUM with 8 in *. lia.
  - done.
Qed.

Lemma submit_ok i0 i1 i2 b sector w r v : idle v → slot i0 → slot i1 → slot i2 → i0 ≠ i1 → i0 ≠ i2 → i1 ≠ i2 →
  let v' := submit i0 i1 i2 b sector w r v in
  vq_ok v' ∧ request i0 i1 i2 b sector w v' ∧ published i0 v' ∧
  ∀ i, slot i → is_free i v' = if decide (i = i0 ∨ i = i1 ∨ i = i2) then false else is_free i v.
Proof.
  intros (HV & Hu & Hd) S0 S1 S2 N01 N02 N12 v'. set (va := put_free i2 false (put_free i1 false (put_free i0 false v))).
  assert (vq_ok (put_free i0 false v)) as H1 by by apply vq_put_free. assert (vq_ok (put_free i1 false (put_free i0 false v))) as H2 by by apply vq_put_free.
  assert (vq_ok va) as HVa by by apply vq_put_free.
  assert (∀ i, slot i → is_free i va = if decide (i = i0 ∨ i = i1 ∨ i = i2) then false else is_free i v) as Hfree.
  { intros i Hi. unfold va. rewrite !is_free_put by done. repeat case_decide; try done; naive_solver. }
  destruct (format_chain i0 i1 i2 b sector w va HVa S0 S1 S2 N01 N02 N12) as [HVf HCf]; [rewrite Hfree, decide_True by naive_solver; done..|].
  assert (used_idx va = avail_idx va ∧ dev_used_idx va = avail_idx va) as [Hu' Hd'] by done.
  unfold v', submit. fold va. set (vf := format_request i0 i1 i2 b sector w va) in *.
  assert (used_idx vf = avail_idx vf ∧ dev_used_idx vf = avail_idx vf ∧ ∀ i, is_free i vf = is_free i va) as (Hu2 & Hd2 & Hf2) by done.
  clearbody vf va. destruct (publish_ok i0 i1 i2 b sector w r vf HVf HCf Hu2 Hd2) as (P1 & P2 & P3 & P4). split_and!; [done|done|done|].
  intros i Hi. by rewrite P4, Hf2, Hfree.
Qed.

Lemma wp_alloc_wait (Q : list Z → DK → Prop) E s : vq_ok (dv s) → enough 3 (dv s) →
  (∀ i0 i1 i2, slot i0 → slot i1 → slot i2 → i0 ≠ i1 → i0 ≠ i2 → i1 ≠ i2 →
     is_free i0 (dv s) = true → is_free i1 (dv s) = true → is_free i2 (dv s) = true →
     Q [i0; i1; i2] (set_dv (put_free i2 false (put_free i1 false (put_free i0 false (dv s)))) s)) →
  wp alloc_wait Q E s.
Proof.
  intros HV H3 HQ. unfold alloc_wait. apply (wp_loop _ (λ _ t, t = s) (λ _ _, 0)); [|done|lia]. intros [] t ->.
  apply wp_bind, wp_alloc3; [done|done|]. intros i0 i1 i2 S0 S1 S2 N01 N02 N12 F0 F1 F2. apply wp_ret. by apply HQ.
Qed.

Lemma sat_kdo_sleep ch lk p s (Q : unit → DK → Prop) E G R :
  cur (dk s) = Some p → held (dk s) = [lk] → lk ≠ LkProc p → (p < length (procs (dk s)))%nat →
  G (set_dk (asleep p ch (dk s)) s) →
  (∀ t, R (set_dk (asleep p ch (dk s)) s) t → cur (dk t) = Some p ∧ held (dk t) = [LkProc p] ∧ Q tt (set_dk (awake p lk (intr (dk s)) (dk t)) t)) →
  sat Q E G R (kdo (sleep ch lk) s).
Proof.
  intros Hc Hh Hne Hp HG HR. destruct (sleep_form ch lk p (dk s) Hc Hh Hne Hp) as (k & E1 & Hk). unfold kdo, lift. rewrite E1. cbn [olift sat].
  split; [exact HG|]. intros t Ht. destruct (HR t Ht) as (Hc' & Hh' & HQ). rewrite (Hk (dk t) Hc' Hh'). exact HQ.
Qed.

(** ** What happens while the process sleeps *)

Context `{VD : VirtioDevice}.

(** the device serves the request and its interrupt is handled, by a hart that runs no process *)
Definition irq (s : DK) : outcome DK unit := virtio_disk_intr (serve (set_dk (set_cur None (set_held [] (dk s))) s)).
(** then the scheduler runs process [p] *)
Definition resumed (p : nat) (s : DK) : DK :=
  set_dk (set_procs (alter (set_p_state RUNNING) p (procs (dk s))) (set_cur (Some p) (set_held [LkProc p] (dk s)))) s.
Definition environment (p : nat) (s s' : DK) : Prop := ∃ s2, irq s = Ret tt s2 ∧ s' = resumed p s2.

(** at every point where the driver sleeps its request is published, and the
    interrupt that completes it makes the process runnable *)
Definition waiting (p b : nat) (sector : Z) (w : bool) (s : DK) : Prop :=
  (∃ i0 i1 i2, request i0 i1 i2 b sector w (dv s) ∧ published i0 (dv s)) ∧
  ∃ s2, irq s = Ret tt s2 ∧ p_state (proc_at p (dk s2)) = RUNNABLE.

(** the kernel state while the request is pending: only [b]'s disk flag differs *)
Definition pending_k (b : nat) (k : K) : K := set_bufs (alter (set_b_disk 1) b (bufs k)) (set_held [LkDisk] k).

Lemma irq_completes p b sector w i0 i1 i2 s k :
  dk s = asleep p (ChBufIo b) k → (p < 64)%nat → (p < length (procs k))%nat →
  vq_ok (dv s) → request i0 i1 i2 b sector w (dv s) → published i0 (dv s) → 0 ≤ dev_used_idx (dv s) < 2 ^ 16 → sector mod 2 = 0 →
  ∃ r, let ka := set_cur None (set_held [] (asleep p (ChBufIo b) k)) in
    irq s = Ret tt (mkDK (interrupted b (transferred b sector w ka)) (set_used_idx (u16 (dev_used_idx (dv s) + 1)) (set_regs r (completed i0 (dv s))))) ∧
    p_state (proc_at p (interrupted b (transferred b sector w ka))) = RUNNABLE.
Proof.
  intros Hk Hp64 Hp HV HR HP Hd Hs. unfold irq. set (ka := set_cur None (set_held [] (asleep p (ChBufIo b) k))).
  rewrite (serve_request _ i0 i1 i2 b sector w) by done. cbn [dk dv set_dk]. rewrite Hk. fold ka. pose proof HP as (Hav & Hu & Hring).
  pose proof HR as [[(S0 & _) _ _ _ _ _] Hb].
  assert (held (transferred b sector w ka) = [] ∧ cur (transferred b sector w ka) = None ∧ procs (transferred b sector w ka) = procs (asleep p (ChBufIo b) k)) as (Hh & Hc & Hps) by by destruct w.
  set (t := mkDK (transferred b sector w ka) (completed i0 (dv s))).
  assert (wp virtio_disk_intr (λ _ s', ∃ r, s' = mkDK (interrupted b (dk t)) (set_used_idx (dev_used_idx (dv t)) (set_regs r (dv t)))) nopanic t) as HW.
  { apply (wp_disk_intr i0 b); [exact Hh|cbn; by rewrite Hu|cbn; by rewrite Hu| | |intros r; by exists r].
    - cbn. rewrite Hu. apply list_lookup_insert_eq. rewrite (vq_used_len _ HV). pose proof (Z.mod_pos_bound (dev_used_idx (dv s)) NUM ltac:(done)). change NUM with 8 in *. lia.
    - change (at_info i0 (put_info i0 (mkInfo (in_b (at_info i0 (dv s))) 0) (dv s)) = mkInfo (Some b) 0). by rewrite at_info_put, decide_True, Hb. }
  destruct (proj1 (wp_returns _ _ _) HW) as ([] & s' & E1 & r & ->). exists r. split; [exact E1|].
  unfold proc_at, interrupted. cbn [procs set_procs]. rewrite Hc, Hps. unfold asleep. cbn [procs set_procs]. unfold wake. rewrite list_lookup_imap, list_lookup_alter_eq.
  destruct (lookup_lt_is_Some_2 _ _ Hp) as [x ->]. cbn [fmap option_fmap option_map default from_option id]. rewrite decide_True by done. unfold woken.
  rewrite decide_False by done. cbn [p_state p_chan set_p_state set_p_chan]. rewrite !bool_decide_true by done. done.
Qed.

(** the state process [p] goes on in *)
Lemma io_wait_served p b sector w i0 i1 i2 k v :
  cur k = Some p → held k = [LkDisk] → (p < 64)%nat → (p < length (procs k))%nat → (b < length (bufs k))%nat → b_disk (buf_at b k) = 1 →
  vq_ok v → request i0 i1 i2 b sector w v → published i0 v → 0 ≤ dev_used_idx v < 2 ^ 16 → sector mod 2 = 0 →
  sat (λ _ s', ∃ r, let kt := transferred b sector w k in
         bufs (dk s') = alter (set_b_disk 0) b (bufs kt) ∧ disk (dk s') = disk kt ∧ dtrace (dk s') = dtrace kt ∧
         held (dk s') = [LkDisk] ∧ cur (dk s') = Some p ∧
         dv s' = set_used_idx (u16 (dev_used_idx v + 1)) (set_regs r (completed i0 v)))
    nopanic (waiting p b sector w) (environment p) (io_wait b (mkDK k v)).
Proof.
  intros Hc Hh Hp64 Hp Hb Hd1 HV HR HP Hd Hs. unfold io_wait.
  set (post := λ s' : DK, ∃ r, let kt := transferred b sector w k in
         bufs (dk s') = alter (set_b_disk 0) b (bufs kt) ∧ disk (dk s') = disk kt ∧ dtrace (dk s') = dtrace kt ∧
         held (dk s') = [LkDisk] ∧ cur (dk s') = Some p ∧
         dv s' = set_used_idx (u16 (dev_used_idx v + 1)) (set_regs r (completed i0 v))).
  apply (sat_loop_n _ (λ n _ t, n = 1 ∧ t = mkDK k v ∨ n = 0 ∧ post t) _ _ _ _ 1); [|by left|lia].
  intros n [] t H. apply sat_wp_bind, wp_get. destruct H as [[-> ->]|[-> Hpost]].
  - cbn [dk]. rewrite Hd1. cbn [Z.eqb Pos.eqb]. apply sat_mbnd, (sat_kdo_sleep _ _ p); [done|done|done|done|..].
    + destruct (irq_completes p b sector w i0 i1 i2 (set_dk (asleep p (ChBufIo b) k) (mkDK k v)) k) as (r & E1 & Hrun); try done.
      split; [by exists i0, i1, i2|]. eexists. split; [exact E1|exact Hrun].
    + intros t' (s2 & E2 & ->). destruct (irq_completes p b sector w i0 i1 i2 (set_dk (asleep p (ChBufIo b) k) (mkDK k v)) k) as (r & E1 & _); try done.
      cbn [dk dv set_dk] in *. rewrite E1 in E2. injection E2 as <-. split; [done|]. split; [done|]. exists 0. split; [lia|]. right. split; [done|]. exists r. cbn [dk dv set_dk resumed].
      destruct w; done.
  - destruct Hpost as (r & Hb' & Hrest). cbn zeta in Hb'. assert (b_disk (buf_at b (dk t)) = 0) as ->.
    { unfold buf_at. rewrite Hb', list_lookup_alter_eq. assert (b < length (bufs (transferred b sector w k)))%nat as Hl by (destruct w; cbn; rewrite ?length_alter; done).
      destruct (lookup_lt_is_Some_2 _ _ Hl) as [x ->]. done. }
    cbn [Z.eqb]. exists r. split; [done|]. done.
Qed.

Lemma freed_free i j v : vq_ok v → slot i → slot j → is_free j (freed i v) = if decide (j = i) then true else is_free j v.
Proof. intros HV Hi Hj. unfold freed. by rewrite is_free_put by (done || by apply vq_put_desc). Qed.

Lemma vq_completed i0 x r v : vq_ok v → vq_ok (set_used_idx x (set_regs r (completed i0 v))).
Proof. intros []. split; cbn; rewrite ?length_insert; done. Qed.

(** the queue once the chain has been freed *)
Lemma drained i0 i1 i2 b sector w r v :
  vq_ok v → chain i0 i1 i2 b sector w v → published i0 v →
  let v2 := set_used_idx (u16 (dev_used_idx v + 1)) (set_regs r (completed i0 v)) in
  let v3 := put_info i0 (mkInfo None (in_status (at_info i0 v2))) v2 in
  vq_ok v3 ∧ chain i0 i1 i2 b sector w v3 ∧ idle (freed i2 (freed i1 (freed i0 v3))) ∧
  ∀ i, slot i → is_free i (freed i2 (freed i1 (freed i0 v3))) = if decide (i = i0 ∨ i = i1 ∨ i = i2) then true else is_free i v.
Proof.
  intros HV HC (Hav & Hu & _) v2 v3. pose proof HC as [(S0 & S1 & S2 & _) _ _ _ _ _].
  assert (vq_ok v3) as HV3 by by apply vq_put_info, vq_completed.
  assert (chain i0 i1 i2 b sector w v3) as HC3 by by destruct HC; split.
  assert (used_idx v3 = avail_idx v3 ∧ dev_used_idx v3 = avail_idx v3 ∧ ∀ i, is_free i v3 = is_free i v) as (Hu3 & Hd3 & Hf3) by done.
  clearbody v3. split; [done|]. split; [done|]. split.
  - split; [by apply vq_freed, vq_freed, vq_freed|]. done.
  - intros i Hi. rewrite !freed_free by (done || by repeat apply vq_freed). rewrite Hf3. repeat case_decide; subst; try done; naive_solver.
Qed.

Lemma sector_block n : 0 ≤ n < 2 ^ 31 → u32 (n * 2) / 2 = n ∧ u32 (n * 2) mod 2 = 0.
Proof. intros Hn. rewrite u32_small by lia. split; [by rewrite Z.div_mul|by rewrite Z.mod_mul]. Qed.

(** the contract of Bio.v, in terms of what the device and the handler do *)
Lemma contract b w k : (b < length (bufs k))%nat → 0 ≤ b_blockno (buf_at b k) < 2 ^ 31 →
  let kt := transferred b (u32 (b_blockno (buf_at b k) * 2)) w (pending_k b k) in
  ∃ k', virtio_disk_rw b w k = Ret tt k' ∧ bufs k' = alter (set_b_disk 0) b (bufs kt) ∧ disk k' = disk kt ∧ dtrace k' = dtrace kt.
Proof.
  intros Hb Hn. destruct (sector_block _ Hn) as [Hs _]. destruct (lookup_lt_is_Some_2 _ _ Hb) as [x Hx].
  assert (b_data (buf_at b (pending_k b k)) = b_data (buf_at b k)) as Hd.
  { unfold buf_at, pending_k. cbn [bufs set_bufs]. rewrite list_lookup_alter_eq. cbn. by rewrite Hx. }
  unfold transferred. rewrite Hs. destruct w; eexists; (split; [unfold virtio_disk_rw, mbnd, get, upd_buf, modify; cbn [obind]; reflexivity|]); split_and!; try done.
  - cbn [bufs set_bufs set_dtrace set_disk pending_k set_held]. by rewrite alter_compose.
  - cbn [disk set_bufs set_dtrace set_disk]. by rewrite Hd.
  - cbn [dtrace set_bufs set_dtrace set_disk]. by rewrite Hd.
  - cbn [bufs set_bufs pending_k set_held]. by rewrite !alter_compose.
Qed.

Lemma drv_refines p b w s :
  idle (dv s) → enough 3 (dv s) → cur (dk s) = Some p → held (dk s) = [] → (p < 64)%nat → (p < length (procs (dk s)))%nat →
  (b < length (bufs (dk s)))%nat → 0 ≤ b_blockno (buf_at b (dk s)) < 2 ^ 31 →
  sat (λ _ s', ∃ k', virtio_disk_rw b w (dk s) = Ret tt k' ∧ bufs (dk s') = bufs k' ∧ disk (dk s') = disk k' ∧ dtrace (dk s') = dtrace k' ∧
         held (dk s') = [] ∧ cur (dk s') = Some p ∧ idle (dv s') ∧ ∀ i, slot i → is_free i (dv s') = is_free i (dv s))
    nopanic (waiting p b (u32 (b_blockno (buf_at b (dk s)) * 2)) w) (environment p) (drv_disk_rw b w s).
Proof.
  intros HI H3 Hc Hh Hp64 Hp Hb Hn. destruct s as [k v]. cbn [dk dv] in *. pose proof HI as (HV & Hu & Hd).
  destruct (sector_block _ Hn) as [_ Hs]. destruct (contract b w k Hb Hn) as (k' & Ek & Bk & Dk & Tk). set (sector := u32 (b_blockno (buf_at b k) * 2)) in *.
  unfold drv_disk_rw. apply sat_wp_bind, wp_get. cbn [dk]. fold sector. apply sat_wp_bind, wp_lift, wp_acquire; [cbn; rewrite Hh; set_solver|].
  apply sat_wp_bind. cbn [dk set_dk]. rewrite Hh. apply wp_alloc_wait; [done|done|]. intros i0 i1 i2 S0 S1 S2 N01 N02 N12 F0 F1 F2. cbn [dv set_dv set_dk dk].
  unfold upd_v. apply sat_wp_bind, wp_modify, sat_wp_bind, wp_lift, wp_modify, sat_wp_bind, wp_modify, sat_wp_bind, wp_modify, sat_wp_bind, wp_modify.
  unfold wr. apply sat_wp_bind, wp_modify. cbn [dk dv set_dv set_dk].
  set (r0 := regs _ ++ _). match goal with |- sat _ _ _ _ (_ ?s) => change s with (mkDK (pending_k b k) (submit i0 i1 i2 b sector w r0 v)) end.
  destruct (submit_ok i0 i1 i2 b sector w r0 v HI S0 S1 S2 N01 N02 N12) as (HV1 & HR1 & HP1 & Hf1).
  assert (0 ≤ dev_used_idx (submit i0 i1 i2 b sector w r0 v) < 2 ^ 16) as Hdev by (change (0 ≤ dev_used_idx v < 2 ^ 16); rewrite Hd; apply HV).
  set (v1 := submit i0 i1 i2 b sector w r0 v) in *. clearbody v1.
  apply sat_mbnd. eapply sat_mono; [|intros ??; exact id|apply (io_wait_served p b sector w i0 i1 i2 (pending_k b k) v1);
    [exact Hc|reflexivity|exact Hp64|exact Hp|cbn; by rewrite length_alter| |exact HV1|exact HR1|exact HP1|exact Hdev|exact Hs]].
  - intros [] t (r & B & D & T & Hh2 & Hc2 & Hv2). destruct (drained i0 i1 i2 b sector w r _ HV1 (proj1 HR1) HP1) as (HV3 & HC3 & HI3 & Hf3).
    apply sat_wp_bind, wp_modify, sat_wp_bind. rewrite <- Hv2 in HV3, HC3, HI3, Hf3.
    apply (wp_free_chain i0 i1 i2 b sector w); [exact HV3|exact HC3|unfold proc_unlocked; cbn; rewrite Hh2; set_solver|]. intros ps _.
    apply sat_of_wp, wp_lift, wp_release; [cbn; rewrite Hh2; set_solver|]. cbn [dk dv set_dk set_dv held set_procs]. rewrite Hh2.
    exists k'. split_and!; [done|by rewrite Bk|by rewrite Dk|by rewrite Tk|done|done|exact HI3|].
    intros i Hi. etransitivity; [exact (Hf3 i Hi)|]. rewrite (Hf1 i Hi). case_decide as Ei; [|done]. destruct Ei as [->|[->| ->]]; done.
  - unfold buf_at, pending_k. cbn [bufs set_bufs]. rewrite list_lookup_alter_eq. cbn. destruct (lookup_lt_is_Some_2 _ _ Hb) as [x ->]. done.
Qed.
End Driver.

(** C7: the disk driver implements the buffer cache's view of the disk.  From an idle queue with three free
    descriptors virtio_disk_rw() publishes a chain that asks the device for exactly this transfer and sleeps;
    the interrupt of a device that serves the request wakes it; and when it returns, the buffers, the disk and
    the order of writes are those of the contract the cache is verified against, the lock is free, the queue is
    idle again and every descriptor is as free as it was. *)
Theorem virtio_disk_rw_refines `{PageAlloc} `{VirtioMmio} `{VirtioDevice} p b w s :
  idle (dv s) → enough 3 (dv s) → cur (dk s) = Some p → held (dk s) = [] → (p < 64)%nat → (p < length (procs (dk s)))%nat →
  (b < length (bufs (dk s)))%nat → 0 ≤ b_blockno (buf_at b (dk s)) < 2 ^ 31 →
  sat (λ _ s', ∃ k', virtio_disk_rw b w (dk s) = Ret tt k' ∧ bufs (dk s') = bufs k' ∧ disk (dk s') = disk k' ∧ dtrace (dk s') = dtrace k' ∧
         held (dk s') = [] ∧ cur (dk s') = Some p ∧ idle (dv s') ∧ ∀ i, slot i → is_free i (dv s') = is_free i (dv s))
    nopanic (waiting p b (u32 (b_blockno (buf_at b (dk s)) * 2)) w) (environment p) (drv_disk_rw b w s).
Proof. apply drv_refines. Qed.

(** * A concrete device *)

Module Device0.
Import Image0.

(** it follows the chain the ring names *)
Definition serve0 (s : DK) : DK :=
  let v := dv s in
  let i0 := default 0 (avail_ring v !! Z.to_nat (dev_used_idx v mod NUM)) in
  match vq_addr (at_desc (vq_next (at_desc i0 v)) v) with
  | VData b => mkDK (transferred b (rq_sector (at_ops i0 v)) (rq_type (at_ops i0 v) =? VIRTIO_BLK_T_OUT) (dk s)) (completed i0 v)
  | _ => s
  end.
#[local] Program Instance device0 : VirtioDevice := {| serve := serve0 |}.
Next Obligation.
  intros s i0 i1 i2 b sector w HV [[_ D0 D1 _ Hop _] _] (_ & _ & Hr) _. unfold serve0. rewrite Hr. cbn [default from_option id].
  rewrite D0. cbn [vq_next]. rewrite D1, Hop. cbn [vq_addr rq_sector rq_type]. by destruct w.
Qed.
#[local] Instance regs0 : VirtioMmio := {| mmio_read := λ _ _, 0 |}.

Definition queue0 : vdisk :=
  mkVdisk (replicate 8 desc0) 65535 (replicate 8 0) 65535 (replicate 8 0) (replicate 8 true) 65535 (replicate 8 (mkInfo None 0)) (replicate 8 (mkReq 0 0)) [].
Definition machine0 : DK := mkDK (set_cur (Some 3%nat) (k_boot {[ 0 := replicate 1024 6 ]})) queue0.

Lemma virtio_disk_rw_refines_witness :
  sat (λ _ s', ∃ k', virtio_disk_rw 0 false (dk machine0) = Ret tt k' ∧ bufs (dk s') = bufs k' ∧ disk (dk s') = disk k' ∧ dtrace (dk s') = dtrace k' ∧
         held (dk s') = [] ∧ cur (dk s') = Some 3%nat ∧ idle (dv s') ∧ ∀ i, slot i → is_free i (dv s') = is_free i (dv machine0))
    nopanic (waiting 3 0 (u32 (b_blockno (buf_at 0 (dk machine0)) * 2)) false) (environment 3) (drv_disk_rw 0 false machine0).
Proof.
  apply (virtio_disk_rw_refines 3 0 false machine0).
  - split; [split; try reflexivity; cbn; lia|]. split; reflexivity.
  - exists [0; 1; 2]. split; [apply (bool_decide_unpack _); vm_compute; exact I|]. split; [reflexivity|].
    intros i Hi. apply list_elem_of_In in Hi. cbn in Hi. unfold slot. destruct Hi as [<-|[<-|[<-|[]]]]; split; (lia || reflexivity).
  - reflexivity.
  - reflexivity.
  - lia.
  - vm_compute. lia.
  - vm_compute. lia.
  - vm_compute. intuition discriminate.
Defined.
End Device0.
