(* ===== verification/Trap.v ===== *)
(** kernel/sysproc.c, kernel/syscall.c (the dispatch), kernel/trap.c and
    kernel/plic.c: system calls, traps and interrupts.

    [Mach] is the kernel with its disk driver and the registers of the hart that
    runs: the control and status registers, the writes to memory-mapped devices
    in order, and what the next reads of the interrupt controller's claim
    register return. *)

From S2P Require Import Prelude Mem Layout Kalloc Vm State Sched Bio Console Fs Proc Exec Sysfile Virtio.

(** * sysproc.c *)

Section Sysproc.
Context `{PageAlloc} `{Symbols}.
(** what the stack of sys_ps() holds where ps() puts its result *)
Variable junk : list Z.

Definition sys_exit : M K Z :=
  let! n := argint 0 in
  do! exit n in
  ret 0.

Definition sys_getpid : M K Z :=
  let! p := myproc in
  let! pr := getproc p in
  ret (p_pid pr).

Definition sys_fork : M K Z := fork.

Definition sys_wait : M K Z :=
  let! p := argaddr 0 in
  wait p.

Definition sys_sbrk : M K Z :=
  let! n := argint 0 in
  let! p := myproc in
  let! pr := getproc p in
  let addr := p_sz pr in
  let! r := growproc n in
  if r <? 0 then ret (-1) else ret addr.

Definition sys_sleep : M K Z :=
  let! n := argint 0 in
  do! acquire LkTicks in
  let! ticks0 := gets ticks in
  loop (λ _ : unit,
    let! t := gets ticks in
    if u32 (t - ticks0) <? u32 n then
      let! p := myproc in
      let! k := killed p in
      if c_true k then
        do! release LkTicks in
        ret (inr (-1))
      else
        do! sleep ChTicks LkTicks in
        ret (inl tt)
    else
      do! release LkTicks in
      ret (inr 0)) tt.

Definition sys_kill : M K Z :=
  let! pid := argint 0 in
  kill pid.

Definition sys_uptime : M K Z :=
  do! acquire LkTicks in
  let! xticks := gets ticks in
  do! release LkTicks in
  ret xticks.

Definition sys_ps : M K Z :=
  let! start := argint 0 in
  let! count := argint 1 in
  ps junk (u8 start) (u8 count).

Definition sys_schedls : M K Z := do! schedls in ret 0.

Definition sys_schedset : M K Z :=
  let! id := argint 0 in
  do! schedset (s32 (id - 1)) in
  ret 0.

(** the search for the process: its index *)
Definition find_pid (pid : Z) : M K (option nat) :=
  for_some nprocs (λ p,
    do! acquire (LkProc p) in
    let! pr := getproc p in
    do! release (LkProc p) in
    if p_pid pr =? pid then ret (Some p) else ret None).

Definition sys_va2pa : M K Z :=
  let! pid := argint 0 in
  let! va := argaddr 1 in
  let! p := (if negb (pid =? 0) then find_pid pid
             else do! printf (bytes_of "No pid supplied pid" ++ [NL]) [] in
                  let! p := myproc in
                  ret (Some p)) in
  match p with
  | None => ret 0
  | Some p =>
      let! pr := getproc p in
      phy_do (walkaddr (p_pagetable pr) va)
  end.

Definition sys_pfreepages : M K Z :=
  let! s := get in
  do! printf (bytes_of "%d" ++ [NL]) [PInt (s32 (FREE_PAGES (phy s)))] in
  ret 0.

Definition sys_vatopa : M K Z := ret 1.

(** * The dispatch table of syscall.c *)

Definition syscalls (num : Z) : option (M K Z) :=
  match num with
  | 1 => Some sys_fork
  | 2 => Some sys_exit
  | 3 => Some sys_wait
  | 4 => Some sys_pipe
  | 5 => Some sys_read
  | 6 => Some sys_kill
  | 7 => Some sys_exec
  | 8 => Some sys_fstat
  | 9 => Some sys_chdir
  | 10 => Some sys_dup
  | 11 => Some sys_getpid
  | 12 => Some sys_sbrk
  | 13 => Some sys_sleep
  | 14 => Some sys_uptime
  | 15 => Some sys_open
  | 16 => Some sys_write
  | 17 => Some sys_mknod
  | 18 => Some sys_unlink
  | 19 => Some sys_link
  | 20 => Some sys_mkdir
  | 21 => Some sys_close
  | 22 => Some sys_ps
  | 23 => Some sys_schedls
  | 24 => Some sys_schedset
  | 25 => Some sys_pfreepages
  | 26 => Some sys_va2pa
  | 27 => Some sys_vatopa
  | _ => None
  end.

Definition syscall : M K unit :=
  let! p := myproc in
  let! a7 := tf_get p TF_a7 in
  let num := s32 a7 in
  match syscalls num with
  | Some f =>
      let! r := f in
      tf_set p TF_a0 (u64 r)
  | None =>
      let! pr := getproc p in
      do! printf (bytes_of "%d %s: unknown sys call %d" ++ [NL]) [PInt (p_pid pr); PStr (Some (cstr (p_name pr))); PInt num] in
      tf_set p TF_a0 (u64 (-1))
  end.

End Sysproc.

(** * The hart *)

Inductive csr :=
  | Sstatus | Sepc | Scause | Stval | Stvec | Satp | Sip | Sie | Tp
  | Mstatus | Mepc | Medeleg | Mideleg | Mie | Mtvec | Mscratch | Pmpaddr0 | Pmpcfg0 | Mhartid.
#[export] Instance csr_eq_dec : EqDecision csr.
Proof. solve_decision. Defined.

Record Mach := mkMach {
  md : DK;
  csrs : csr → Z;
  mmio : list (Z * Z);        (* writes to the PLIC, CLINT and UART, oldest first *)
  claims : list Z;            (* what the next reads of PLIC_SCLAIM return; 0 when empty *)
  kernel_pagetable : Z;
  timer_scratch : list Z;     (* timer_scratch[id] *)
}.
Definition set_md x s := mkMach x (csrs s) (mmio s) (claims s) (kernel_pagetable s) (timer_scratch s).
Definition set_csrs x s := mkMach (md s) x (mmio s) (claims s) (kernel_pagetable s) (timer_scratch s).
Definition set_mmio x s := mkMach (md s) (csrs s) x (claims s) (kernel_pagetable s) (timer_scratch s).
Definition set_claims x s := mkMach (md s) (csrs s) (mmio s) x (kernel_pagetable s) (timer_scratch s).
Definition set_kernel_pagetable x s := mkMach (md s) (csrs s) (mmio s) (claims s) x (timer_scratch s).
Definition set_timer_scratch x s := mkMach (md s) (csrs s) (mmio s) (claims s) (kernel_pagetable s) x.

Definition ddo {A} (m : M DK A) : M Mach A := lift md set_md m.
Definition mk (s : Mach) : K := dk (md s).
Definition set_mk (k : K) (s : Mach) : Mach := set_md (set_dk k (md s)) s.
Definition mdo {A} (m : M K A) : M Mach A := lift mk set_mk m.

Definition r_csr (c : csr) : M Mach Z := gets (λ s, csrs s c).
Definition w_csr (c : csr) (v : Z) : M Mach unit :=
  modify (λ s, set_csrs (λ c', if decide (c' = c) then u64 v else csrs s c') s).
Definition r_mhartid : M Mach Z := r_csr Mhartid.
Definition r_mie : M Mach Z := r_csr Mie.
Definition r_mstatus : M Mach Z := r_csr Mstatus.
Definition r_satp : M Mach Z := r_csr Satp.
Definition r_scause : M Mach Z := r_csr Scause.
Definition r_sepc : M Mach Z := r_csr Sepc.
Definition r_sie : M Mach Z := r_csr Sie.
Definition r_sip : M Mach Z := r_csr Sip.
Definition r_sstatus : M Mach Z := r_csr Sstatus.
Definition r_stval : M Mach Z := r_csr Stval.
Definition r_tp : M Mach Z := r_csr Tp.
Definition w_medeleg (x : Z) : M Mach unit := w_csr Medeleg x.
Definition w_mepc (x : Z) : M Mach unit := w_csr Mepc x.
Definition w_mideleg (x : Z) : M Mach unit := w_csr Mideleg x.
Definition w_mie (x : Z) : M Mach unit := w_csr Mie x.
Definition w_mscratch (x : Z) : M Mach unit := w_csr Mscratch x.
Definition w_mstatus (x : Z) : M Mach unit := w_csr Mstatus x.
Definition w_mtvec (x : Z) : M Mach unit := w_csr Mtvec x.
Definition w_pmpaddr0 (x : Z) : M Mach unit := w_csr Pmpaddr0 x.
Definition w_pmpcfg0 (x : Z) : M Mach unit := w_csr Pmpcfg0 x.
Definition w_satp (x : Z) : M Mach unit := w_csr Satp x.
Definition w_sepc (x : Z) : M Mach unit := w_csr Sepc x.
Definition w_sie (x : Z) : M Mach unit := w_csr Sie x.
Definition w_sip (x : Z) : M Mach unit := w_csr Sip x.
Definition w_sstatus (x : Z) : M Mach unit := w_csr Sstatus x.
Definition w_stvec (x : Z) : M Mach unit := w_csr Stvec x.
Definition w_tp (x : Z) : M Mach unit := w_csr Tp x.
Definition w_mmio (a v : Z) : M Mach unit := modify (λ s, set_mmio (mmio s ++ [(a, v)]) s).

Definition SSTATUS_SPP : Z := Z.shiftl 1 8.
Definition SSTATUS_SPIE : Z := Z.shiftl 1 5.
Definition SSTATUS_SIE : Z := Z.shiftl 1 1.
Definition intr_on : M Mach unit := let! x := r_sstatus in w_sstatus (Z.lor x SSTATUS_SIE).
Definition intr_off : M Mach unit := let! x := r_sstatus in w_sstatus (Z.land x (Z.lnot SSTATUS_SIE)).
Definition intr_get : M Mach bool := let! x := r_sstatus in ret (negb (Z.land x SSTATUS_SIE =? 0)).

Definition SATP_SV39 : Z := Z.shiftl 8 60.
Definition MAKE_SATP (pagetable : Z) : Z := Z.lor SATP_SV39 (Z.shiftr pagetable 12).

Definition cpuid : M Mach Z := let! t := r_tp in ret (s32 t).

(** * plic.c *)

Definition PLIC_SENABLE (hart : Z) : Z := PLIC + 0x2080 + hart * 0x100.
Definition PLIC_SPRIORITY (hart : Z) : Z := PLIC + 0x201000 + hart * 0x2000.
Definition PLIC_SCLAIM (hart : Z) : Z := PLIC + 0x201004 + hart * 0x2000.

Definition plicinit : M Mach unit :=
  do! w_mmio (PLIC + UART0_IRQ * 4) 1 in
  w_mmio (PLIC + VIRTIO0_IRQ * 4) 1.

Definition plicinithart : M Mach unit :=
  let! hart := cpuid in
  do! w_mmio (PLIC_SENABLE hart) (Z.lor (Z.shiftl 1 UART0_IRQ) (Z.shiftl 1 VIRTIO0_IRQ)) in
  w_mmio (PLIC_SPRIORITY hart) 0.

Definition plic_claim : M Mach Z :=
  let! s := get in
  do! modify (set_claims (tail (claims s))) in
  ret (s32 (default 0 (head (claims s)))).

Definition plic_complete (irq : Z) : M Mach unit :=
  let! hart := cpuid in
  w_mmio (PLIC_SCLAIM hart) (u32 irq).

(** * trap.c *)

Section Traps.
Context `{PageAlloc} `{Symbols} `{VirtioMmio}.
Variable junk : list Z.

Definition trapinithart : M Mach unit := w_stvec kernelvec_pc.

Definition clockintr : M K unit :=
  do! acquire LkTicks in
  do! modify (λ s, set_ticks (u32 (ticks s + 1)) s) in
  do! wakeup ChTicks in
  release LkTicks.

Definition devintr : M Mach Z :=
  let! scause := r_scause in
  if negb (Z.land scause (2 ^ 63) =? 0) && (Z.land scause 0xff =? 9) then
    let! irq := plic_claim in
    do! (if irq =? UART0_IRQ then mdo uartintr
         else if irq =? VIRTIO0_IRQ then ddo virtio_disk_intr
         else if c_true irq then mdo (printf (bytes_of "unexpected interrupt irq=%d" ++ [NL]) [PInt irq])
         else ret tt) in
    do! when (c_true irq) (plic_complete irq) in
    ret 1
  else if scause =? 2 ^ 63 + 1 then
    let! id := cpuid in
    do! when (id =? 0) (mdo clockintr) in
    let! x := r_sip in
    do! w_sip (Z.land x (Z.lnot 2)) in
    ret 2
  else ret 0.

(** the address userret() is entered at and its argument, the user's satp *)
Definition usertrapret : M Mach (Z * Z) :=
  let! p := mdo myproc in
  do! intr_off in
  do! w_stvec (TRAMPOLINE + uservec_off) in
  let! satp := r_satp in
  do! mdo (tf_set p TF_kernel_satp satp) in
  let! pr := mdo (getproc p) in
  do! mdo (tf_set p TF_kernel_sp (u64 (p_kstack pr + PGSIZE))) in
  do! mdo (tf_set p TF_kernel_trap usertrap_pc) in
  let! tp := r_tp in
  do! mdo (tf_set p TF_kernel_hartid tp) in
  let! x := r_sstatus in
  let x := Z.land x (Z.lnot SSTATUS_SPP) in
  let x := Z.lor x SSTATUS_SPIE in
  do! w_sstatus x in
  let! epc := mdo (tf_get p TF_epc) in
  do! w_sepc epc in
  ret (TRAMPOLINE + userret_off, MAKE_SATP (p_pagetable pr)).

(** exit(-1) does not return *)
Definition exit_if_killed (p : nat) : M Mach unit :=
  let! k := mdo (killed p) in
  when (c_true k) (mdo (exit (-1))).

Definition unexpected (p : nat) : M Mach unit :=
  let! cause := r_scause in
  let! pr := mdo (getproc p) in
  do! mdo (printf (bytes_of "usertrap(): unexpected scause %p pid=%d" ++ [NL]) [PPtr cause; PInt (p_pid pr)]) in
  let! pc := r_sepc in
  let! tval := r_stval in
  do! mdo (printf (bytes_of "            sepc=%p stval=%p" ++ [NL]) [PPtr pc; PPtr tval]) in
  mdo (setkilled p).

Definition usertrap : M Mach (Z * Z) :=
  let! st := r_sstatus in
  if negb (Z.land st SSTATUS_SPP =? 0) then panic "usertrap: not from user mode" else
  do! w_stvec kernelvec_pc in
  let! p := mdo myproc in
  let! pc := r_sepc in
  do! mdo (tf_set p TF_epc pc) in
  let! cause := r_scause in
  let! which_dev :=
    (if cause =? 8 then
       do! exit_if_killed p in
       let! epc := mdo (tf_get p TF_epc) in
       do! mdo (tf_set p TF_epc (u64 (epc + 4))) in
       do! intr_on in
       do! mdo (syscall junk) in
       ret 0
     else
       let! d := devintr in
       do! when (d =? 0) (unexpected p) in
       ret d) in
  do! exit_if_killed p in
  do! when (which_dev =? 2) (mdo yield) in
  usertrapret.

Definition kerneltrap : M Mach unit :=
  let! sepc := r_sepc in
  let! sstatus := r_sstatus in
  let! scause := r_scause in
  if Z.land sstatus SSTATUS_SPP =? 0 then panic "kerneltrap: not from supervisor mode" else
  let! on := intr_get in
  if on then panic "kerneltrap: interrupts enabled" else
  let! which_dev := devintr in
  if which_dev =? 0 then
    do! mdo (printf (bytes_of "scause %p" ++ [NL]) [PPtr scause]) in
    let! pc := r_sepc in
    let! tval := r_stval in
    do! mdo (printf (bytes_of "sepc=%p stval=%p" ++ [NL]) [PPtr pc; PPtr tval]) in
    panic "kerneltrap"
  else
    let! k := gets mk in
    do! when ((which_dev =? 2) && (match cur k with Some p => bool_decide (p_state (proc_at p k) = RUNNING) | None => false end))
          (mdo yield) in
    do! w_sepc sepc in
    w_sstatus sstatus.

(** proc.c: where a new process starts *)
Definition forkret : M Mach (Z * Z) :=
  let! p := mdo myproc in
  do! mdo (release (LkProc p)) in
  let! f := gets (λ s, first (mk s)) in
  do! when f (mdo (do! modify (set_first false) in fsinit ROOTDEV)) in
  usertrapret.

End Traps.
