(* ===== verification/TrapSpec.v ===== *)
(** trap.c and syscall.c: the way back to user space, and a system call from the
    trap to the return. *)

From S2P Require Import Prelude Mem Layout Kalloc Vm State Sched Bio Console Fs Proc Exec Sysfile Virtio Trap.

(** a field of the trapframe of process [p] *)
Definition tf_field (k : K) (p : nat) (off : Z) : Z := ld64 (mem (phy k)) (p_trapframe (proc_at p k) + off).
(** the kernel with a field stored *)
Definition with_field (p : nat) (off v : Z) (k : K) : K :=
  set_phy (set_mem (st64 (mem (phy k)) (p_trapframe (proc_at p k) + off) v) (phy k)) k.

Lemma wp_tf_set p off v (Q : unit → K → Prop) E k : Q tt (with_field p off v k) → wp (tf_set p off v) Q E k.
Proof. done. Qed.
Lemma wp_tf_get p off (Q : Z → K → Prop) E k : Q (tf_field k p off) k → wp (tf_get p off) Q E k.
Proof. done. Qed.

Lemma with_field_eq p off v k : 0 ≤ v < 2 ^ 64 → tf_field (with_field p off v k) p off = v.
Proof. intros Hv. unfold tf_field, with_field. cbn. by apply ld64_st64. Qed.
Lemma with_field_ne p off off' v k : off' + 8 ≤ off ∨ off + 8 ≤ off' → tf_field (with_field p off v k) p off' = tf_field k p off'.
Proof. intros H. unfold tf_field, with_field. cbn. apply ld64_st64_ne. lia. Qed.

(** The machine with kernel [k] and registers [c]. *)
Definition put (k : K) (c : csr → Z) (s : Mach) : Mach := set_csrs c (set_mk k s).
Definition upd (x : csr) (v : Z) (c : csr → Z) : csr → Z := λ y, if decide (y = x) then u64 v else c y.

Lemma put_id s : put (mk s) (csrs s) s = s.
Proof. by destruct s as [[]]. Qed.

Lemma wp_put_mdo {A} (m : M K A) k c (Q : A → Mach → Prop) E s :
  wp m (λ a k', Q a (put k' c s)) (λ msg k', E msg (put k' c s)) k → wp (mdo m) Q E (put k c s).
Proof. intros Hm. unfold mdo. apply wp_lift. exact Hm. Qed.
Lemma wp_put_r x k c (Q : Z → Mach → Prop) E s : Q (c x) (put k c s) → wp (r_csr x) Q E (put k c s).
Proof. done. Qed.
Lemma wp_put_w x v k c (Q : unit → Mach → Prop) E s : Q tt (put k (upd x v c) s) → wp (w_csr x v) Q E (put k c s).
Proof. done. Qed.

Ltac wp_m1 :=
  lazymatch goal with
  | |- wp (mdo _) _ _ _ => apply wp_put_mdo
  | |- wp (r_csr _) _ _ _ => apply wp_put_r
  | |- wp (w_csr _ _) _ _ _ => apply wp_put_w
  | |- wp (tf_set _ _ _) _ _ _ => apply wp_tf_set
  | |- wp (tf_get _ _) _ _ _ => apply wp_tf_get
  | |- wp (mbnd _ _) _ _ _ => apply wp_bind
  | |- wp (ret _) _ _ _ => apply wp_ret
  | |- wp (getproc _) _ _ _ => apply wp_gets
  | |- wp myproc _ _ _ => eapply wp_myproc; [eassumption|]
  end; cbn beta iota zeta.
Ltac wp_m := repeat wp_m1.

Section Traps.
Context `{PA : PageAlloc} `{Sy : Symbols} `{VM : VirtioMmio}.
Variable junk : list Z.

(** the registers usertrapret() leaves *)
Definition ret_sstatus (x : Z) : Z := u64 (Z.lor (Z.land (u64 (Z.land x (Z.lnot SSTATUS_SIE))) (Z.lnot SSTATUS_SPP)) SSTATUS_SPIE).
(** what the next trap from user space needs, in the trapframe *)
Definition ret_frame (p : nat) (satp tp : Z) (k : K) : K :=
  with_field p TF_kernel_hartid tp (with_field p TF_kernel_trap usertrap_pc
    (with_field p TF_kernel_sp (u64 (p_kstack (proc_at p k) + PGSIZE)) (with_field p TF_kernel_satp satp k))).

Definition ret_csrs (epc : Z) (c : csr → Z) : csr → Z :=
  upd Sepc epc (upd Sstatus (Z.lor (Z.land (u64 (Z.land (c Sstatus) (Z.lnot SSTATUS_SIE))) (Z.lnot SSTATUS_SPP)) SSTATUS_SPIE)
    (upd Stvec (TRAMPOLINE + uservec_off) (upd Sstatus (Z.land (c Sstatus) (Z.lnot SSTATUS_SIE)) c))).

Lemma usertrapret_ok p k c s (Q : Z * Z → Mach → Prop) E :
  cur k = Some p →
  Q (TRAMPOLINE + userret_off, MAKE_SATP (p_pagetable (proc_at p k)))
    (put (ret_frame p (c Satp) (c Tp) k) (ret_csrs (tf_field (ret_frame p (c Satp) (c Tp) k) p TF_epc) c) s) →
  wp usertrapret Q E (put k c s).
Proof.
  intros Hc HQ. unfold usertrapret, intr_off, r_sstatus, w_sstatus, w_stvec, r_satp, r_tp, w_sepc. wp_m. exact HQ.
Qed.

(** symbols of an image: addresses, and an offset in the trampoline's page *)
Definition symbols_ok : Prop := 0 ≤ usertrap_pc < 2 ^ 64 ∧ 0 ≤ uservec_off < PGSIZE.

Lemma upd_eq x v c : upd x v c x = u64 v.
Proof. unfold upd. by rewrite decide_True. Qed.
Lemma upd_ne x y v c : y ≠ x → upd x v c y = c y.
Proof. intros Hn. unfold upd. by rewrite decide_False. Qed.

Lemma u64_testbit v n : 0 ≤ n < 64 → Z.testbit (u64 v) n = Z.testbit v n.
Proof. intros Hn. apply Z.mod_pow2_bits_low. lia. Qed.

(** user mode, interrupts on after the sret and off until then *)
Definition user_status (x : Z) : Prop := Z.testbit x 8 = false ∧ Z.testbit x 5 = true ∧ Z.testbit x 1 = false.

Lemma ret_csrs_spec epc c :
  symbols_ok → 0 ≤ epc < 2 ^ 64 →
  let c' := ret_csrs epc c in
  c' Sepc = epc ∧ c' Stvec = TRAMPOLINE + uservec_off ∧ user_status (c' Sstatus) ∧
  ∀ x, x ≠ Sepc → x ≠ Stvec → x ≠ Sstatus → c' x = c x.
Proof.
  intros [_ Ho] He c'. unfold c', ret_csrs. split_and!.
  - rewrite upd_eq. by apply u64_small.
  - rewrite !upd_ne, upd_eq by done. apply u64_small. consts. lia.
  - rewrite upd_ne, upd_eq by done. unfold user_status. rewrite !u64_testbit by lia.
    rewrite !Z.lor_spec, !Z.land_spec, !u64_testbit, !Z.land_spec, !Z.lnot_spec by lia.
    change (Z.testbit SSTATUS_SPP 8) with true. change (Z.testbit SSTATUS_SPIE 8) with false.
    change (Z.testbit SSTATUS_SPIE 5) with true. change (Z.testbit SSTATUS_SIE 1) with true. change (Z.testbit SSTATUS_SPIE 1) with false.
    cbn [negb]. rewrite ?andb_false_r, ?orb_true_r. done.
  - intros x H1 H2 H3. by rewrite !upd_ne.
Qed.

(** the kernel's fields of the trapframe, for the next trap *)
Record ret_fields (p : nat) (satp tp : Z) (k k' : K) : Prop := {
  rf_satp : tf_field k' p TF_kernel_satp = satp;
  rf_sp : tf_field k' p TF_kernel_sp = u64 (p_kstack (proc_at p k) + PGSIZE);
  rf_trap : tf_field k' p TF_kernel_trap = usertrap_pc;
  rf_hart : tf_field k' p TF_kernel_hartid = tp;
  rf_other off : 24 ≤ off → off + 8 ≤ 32 ∨ 40 ≤ off → tf_field k' p off = tf_field k p off;
  rf_frame : k' = set_phy (set_mem (mem (phy k')) (phy k)) k;
}.

Lemma ret_frame_spec p satp tp k :
  symbols_ok → 0 ≤ satp < 2 ^ 64 → 0 ≤ tp < 2 ^ 64 → ret_fields p satp tp k (ret_frame p satp tp k).
Proof.
  intros [Ht _] Hs Hp. unfold ret_frame, TF_kernel_satp, TF_kernel_sp, TF_kernel_trap, TF_kernel_hartid.
  constructor; unfold TF_kernel_satp, TF_kernel_sp, TF_kernel_trap, TF_kernel_hartid.
  - rewrite !with_field_ne by lia. by apply with_field_eq.
  - rewrite !with_field_ne by lia. apply with_field_eq, u64_range.
  - rewrite with_field_ne by lia. by apply with_field_eq.
  - by apply with_field_eq.
  - intros off H1 H2. by rewrite !with_field_ne by lia.
  - reflexivity.
Qed.

(** the kernel when the handler of a system call starts: the saved pc is behind the ecall *)
Definition at_syscall (p : nat) (pc : Z) (k : K) : K := with_field p TF_epc (u64 (pc + 4)) (with_field p TF_epc pc k).

Lemma syscall_ok p f r k k2 (Q : unit → K → Prop) E :
  cur k = Some p → syscalls junk (s32 (tf_field k p TF_a7)) = Some f → f k = Ret r k2 →
  Q tt (with_field p TF_a0 (u64 r) k2) → wp (syscall junk) Q E k.
Proof.
  intros Hc Hf Hr HQ. unfold syscall. wp_m. rewrite Hf. apply wp_bind. eapply wp_eq; [exact Hr|]. wp_m. exact HQ.
Qed.

Lemma wp_not_killed p k c (Q : unit → Mach → Prop) E s :
  p_killed (proc_at p k) = 0 → (LkProc p ∉ held k) → Q tt (put k c s) → wp (exit_if_killed p) Q E (put k c s).
Proof.
  intros Hk Hl HQ. unfold exit_if_killed. apply wp_bind, wp_put_mdo, wp_killed; [done|]. rewrite Hk. by apply wp_when_f.
Qed.

Lemma usertrap_ok p f r k k2 c s (Q : Z * Z → Mach → Prop) E :
  cur k = Some p → p_killed (proc_at p k) = 0 → (LkProc p ∉ held k) →
  Z.land (c Sstatus) SSTATUS_SPP = 0 → c Scause = 8 → 0 ≤ c Sepc < 2 ^ 64 →
  syscalls junk (s32 (tf_field k p TF_a7)) = Some f → f (at_syscall p (c Sepc) k) = Ret r k2 →
  cur k2 = Some p → p_killed (proc_at p k2) = 0 → (LkProc p ∉ held k2) →
  let k3 := with_field p TF_a0 (u64 r) k2 in
  let c3 := upd Sstatus (Z.lor (c Sstatus) SSTATUS_SIE) (upd Stvec kernelvec_pc c) in
  Q (TRAMPOLINE + userret_off, MAKE_SATP (p_pagetable (proc_at p k2)))
    (put (ret_frame p (c Satp) (c Tp) k3) (ret_csrs (tf_field (ret_frame p (c Satp) (c Tp) k3) p TF_epc) c3) s) →
  wp (usertrap junk) Q E (put k c s).
Proof.
  intros Hc Hk Hl Hspp Hcause Hpc Hf Hr Hc2 Hk2 Hl2 k3 c3 HQ.
  unfold usertrap, r_sstatus, r_sepc, r_scause, w_stvec. wp_m. rewrite Hspp. cbn [Z.eqb negb]. wp_m.
  rewrite (upd_ne Stvec Sepc), (upd_ne Stvec Scause), Hcause by done. cbn [Z.eqb Pos.eqb].
  apply wp_bind, wp_not_killed; [done|done|].
  wp_m. rewrite with_field_eq by done. fold (at_syscall p (c Sepc) k). unfold intr_on, r_sstatus, w_sstatus. wp_m.
  rewrite (upd_ne Stvec Sstatus) by done.
  eapply syscall_ok; [exact Hc| |exact Hr|].
  { unfold at_syscall. by rewrite !with_field_ne by (unfold TF_epc, TF_a7; lia). }
  wp_m. apply wp_not_killed; [done|done|]. apply wp_bind, wp_when_f; [done|]. apply (usertrapret_ok p); [done|].
  rewrite !(upd_ne _ Satp), !(upd_ne _ Tp) by done. exact HQ.
Qed.

(** C13: A system call returns to the instruction behind its ecall, with its result in
    a0.  When an ecall traps from user mode for a process that is not killed,
    and the handler the number in a7 selects, started with the saved pc behind
    the ecall, returns [r], usertrap() returns to user space through the
    trampoline with the process's page table; the pc is the one the handler
    left in the trapframe, which it found 4 behind the ecall; a0 is [r], every
    other user register is as the handler left it; the hart goes back to user
    mode with interrupts enabled and the trap vector at uservec; the fields the
    next trap needs are stored, and nothing else in the kernel changed. *)
Theorem usertrap_syscall p f r k2 s :
  let k := mk s in let c := csrs s in
  symbols_ok → (∀ x, 0 ≤ c x < 2 ^ 64) →
  cur k = Some p → p_killed (proc_at p k) = 0 → (LkProc p ∉ held k) →
  Z.land (c Sstatus) SSTATUS_SPP = 0 → c Scause = 8 →
  syscalls junk (s32 (tf_field k p TF_a7)) = Some f → f (at_syscall p (c Sepc) k) = Ret r k2 →
  cur k2 = Some p → p_killed (proc_at p k2) = 0 → (LkProc p ∉ held k2) →
  tf_field (at_syscall p (c Sepc) k) p TF_epc = u64 (c Sepc + 4) ∧
  ∃ s', usertrap junk s = Ret (TRAMPOLINE + userret_off, MAKE_SATP (p_pagetable (proc_at p k2))) s' ∧
    csrs s' Sepc = tf_field k2 p TF_epc ∧ csrs s' Stvec = TRAMPOLINE + uservec_off ∧ user_status (csrs s' Sstatus) ∧
    tf_field (mk s') p TF_a0 = u64 r ∧
    (∀ off, 40 ≤ off → off + 8 ≤ TF_a0 ∨ TF_a0 + 8 ≤ off → tf_field (mk s') p off = tf_field k2 p off) ∧
    ret_fields p (c Satp) (c Tp) (with_field p TF_a0 (u64 r) k2) (mk s').
Proof.
  intros k c Hsym Hreg Hc Hk Hl Hspp Hcause Hf Hr Hc2 Hk2 Hl2. split; [apply with_field_eq, u64_range|].
  set (Post (v : Z * Z) (s' : Mach) := v = (TRAMPOLINE + userret_off, MAKE_SATP (p_pagetable (proc_at p k2))) ∧
    csrs s' Sepc = tf_field k2 p TF_epc ∧ csrs s' Stvec = TRAMPOLINE + uservec_off ∧ user_status (csrs s' Sstatus) ∧
    ret_fields p (c Satp) (c Tp) (with_field p TF_a0 (u64 r) k2) (mk s')).
  assert (wp (usertrap junk) Post nopanic (put k c s)) as Hwp.
  { apply (usertrap_ok p f r k k2 c s _ _ Hc Hk Hl Hspp Hcause (Hreg _) Hf Hr Hc2 Hk2 Hl2). set (k3 := with_field p TF_a0 (u64 r) k2).
    pose proof (ret_frame_spec p (c Satp) (c Tp) k3 Hsym (Hreg _) (Hreg _)) as HR. set (k4 := ret_frame _ _ _ _) in *.
    destruct (ret_csrs_spec (tf_field k4 p TF_epc) (upd Sstatus (Z.lor (c Sstatus) SSTATUS_SIE) (upd Stvec kernelvec_pc c)) Hsym (ld64_range _ _))
      as (E1 & E2 & E3 & _).
    split; [done|]. split; [|split; [exact E2|split; [exact E3|exact HR]]]. etransitivity; [exact E1|].
    rewrite (rf_other _ _ _ _ _ HR) by (unfold TF_epc; lia). unfold k3. apply with_field_ne. unfold TF_a0, TF_epc. lia. }
  unfold k, c in Hwp. rewrite put_id in Hwp. apply wp_returns in Hwp as (v & s' & E & -> & H1 & H2 & H3 & HR).
  exists s'. split_and!; try done.
  - rewrite (rf_other _ _ _ _ _ HR) by (unfold TF_a0; lia). apply with_field_eq, u64_range.
  - intros off H4 H5. rewrite (rf_other _ _ _ _ _ HR) by lia. apply with_field_ne. unfold TF_a0 in *. lia.
Qed.
End Traps.

(** * Witness *)

(** Process 0 calls getpid(). *)
Module Trap0.
Import Image0.
#[local] Instance symbols0 : Symbols := {|
  trampoline := KERNBASE + 0x7000; etext := KERNBASE + 0x8000; forkret_pc := KERNBASE + 0x1a00; usertrap_pc := KERNBASE + 0x2600;
  uservec_off := 0; userret_off := 156; kernelvec_pc := KERNBASE + 0x5a00 |}.
#[local] Instance regs0 : VirtioMmio := {| mmio_read := λ _ _, 0 |}.

Definition caller : proc := set_p_pid 5 (set_p_pagetable page0 (set_p_trapframe page1 (set_p_state RUNNING proc0))).
Definition k0 : K :=
  with_field 0 TF_a7 11 (set_cur (Some 0%nat) (set_procs (caller :: replicate 63 proc0) (k_boot ∅))).
Definition regs (x : csr) : Z := match x with Scause => 8 | Sepc => 1000 | _ => 0 end.
Definition ecall : Mach := mkMach (mkDK k0 (mkVdisk [] 0 [] 0 [] [] 0 [] [] [])) regs [] [] 0 [].

Lemma getpid_returns p k : cur k = Some p → sys_getpid k = Ret (p_pid (proc_at p k)) k.
Proof. intros Hc. unfold sys_getpid, myproc, getproc, mbnd, gets. cbn. rewrite Hc. done. Qed.

Lemma a7_is_11 : tf_field k0 0 TF_a7 = 11.
Proof. apply with_field_eq. lia. Qed.

Lemma usertrap_syscall_witness :
  ∃ s', usertrap [] ecall = Ret (TRAMPOLINE + userret_off, MAKE_SATP page0) s' ∧ csrs s' Sepc = 1004 ∧ tf_field (mk s') 0 TF_a0 = 5.
Proof.
  destruct (usertrap_syscall [] 0 sys_getpid 5 (at_syscall 0 1000 k0) ecall) as (E1 & s' & E & E2 & _ & _ & E3 & _).
  - split; cbn; consts; lia.
  - intros []; cbn; lia.
  - reflexivity.
  - reflexivity.
  - apply not_elem_of_nil.
  - reflexivity.
  - reflexivity.
  - change (tf_field (mk ecall) 0 TF_a7) with (tf_field k0 0 TF_a7). by rewrite a7_is_11.
  - apply (getpid_returns 0 (at_syscall 0 1000 k0)). reflexivity.
  - reflexivity.
  - reflexivity.
  - apply not_elem_of_nil.
  - exists s'. split; [exact E|]. split; [|exact E3]. rewrite E2. exact E1.
Defined.
End Trap0.
