(* ===== verification/Asm.v ===== *)
(** The assembly of the kernel: kernel/swtch.S, trampoline.S, kernelvec.S and entry.S.

    A hart is its integer registers, the control and status registers this code
    uses and memory; the code is the list of its instructions.  Addresses go
    through [tr], the translation the memory management unit makes of a virtual
    address under a value of satp (machine mode translates nothing). *)

From S2P Require Import Prelude Mem Layout.

(** * The hart *)

Definition zero : nat := 0.
Definition ra : nat := 1.
Definition sp : nat := 2.
Definition gp : nat := 3.
Definition tp : nat := 4.
Definition t0 : nat := 5.
Definition t1 : nat := 6.
Definition t2 : nat := 7.
Definition s0 : nat := 8.
Definition s1 : nat := 9.
Definition a0 : nat := 10.
Definition a1 : nat := 11.
Definition a2 : nat := 12.
Definition a3 : nat := 13.
Definition a4 : nat := 14.
Definition a5 : nat := 15.
Definition a6 : nat := 16.
Definition a7 : nat := 17.
Definition s2 : nat := 18.
Definition s3 : nat := 19.
Definition s4 : nat := 20.
Definition s5 : nat := 21.
Definition s6 : nat := 22.
Definition s7 : nat := 23.
Definition s8 : nat := 24.
Definition s9 : nat := 25.
Definition s10 : nat := 26.
Definition s11 : nat := 27.
Definition t3 : nat := 28.
Definition t4 : nat := 29.
Definition t5 : nat := 30.
Definition t6 : nat := 31.

Inductive csr := sscratch | satp | mscratch | sip | mhartid.
#[export] Instance csr_eq_dec : EqDecision csr.
Proof. solve_decision. Defined.

Record hart := mkHart { x : list Z; csrs : csr → Z; mm : gmap Z Z }.
Definition get (r : nat) (h : hart) : Z := if decide (r = zero) then 0 else default 0 (x h !! r).
Definition set (r : nat) (v : Z) (h : hart) : hart := mkHart (<[r := u64 v]> (x h)) (csrs h) (mm h).
Definition set_csr (c : csr) (v : Z) (h : hart) : hart := mkHart (x h) (λ c', if decide (c' = c) then v else csrs h c') (mm h).
Definition set_mm (m : gmap Z Z) (h : hart) : hart := mkHart (x h) (csrs h) m.

(** * Instructions *)

Inductive instr :=
| sd (rs : nat) (off : Z) (base : nat)
| ld (rd : nat) (off : Z) (base : nat)
| addi (rd rs : nat) (imm : Z)
| add (rd rs1 rs2 : nat)
| mul (rd rs1 rs2 : nat)
| li (rd : nat) (imm : Z)
| csrr (rd : nat) (c : csr)
| csrw (c : csr) (rs : nat)
| csrrw (rd : nat) (c : csr) (rs : nat)
| sfence_vma.

Definition exec1 (tr : Z → Z → Z) (h : hart) (i : instr) : hart :=
  match i with
  | sd rs off base => set_mm (st64 (mm h) (tr (csrs h satp) (u64 (get base h + off))) (get rs h)) h
  | ld rd off base => set rd (ld64 (mm h) (tr (csrs h satp) (u64 (get base h + off)))) h
  | addi rd rs imm => set rd (get rs h + imm) h
  | add rd rs1 rs2 => set rd (get rs1 h + get rs2 h) h
  | mul rd rs1 rs2 => set rd (get rs1 h * get rs2 h) h
  | li rd imm => set rd imm h
  | csrr rd c => set rd (csrs h c) h
  | csrw c rs => set_csr c (get rs h) h
  | csrrw rd c rs => set rd (csrs h c) (set_csr c (get rs h) h)
  | sfence_vma => h
  end.
Definition run (tr : Z → Z → Z) (l : list instr) (h : hart) : hart := foldl (exec1 tr) h l.

(** * swtch.S *)

(** swtch(old: a0, new: a1), up to its ret *)
Definition swtch : list instr := [
  sd ra 0 a0; sd sp 8 a0; sd s0 16 a0; sd s1 24 a0; sd s2 32 a0; sd s3 40 a0; sd s4 48 a0; sd s5 56 a0; sd s6 64 a0;
  sd s7 72 a0; sd s8 80 a0; sd s9 88 a0; sd s10 96 a0; sd s11 104 a0;
  ld ra 0 a1; ld sp 8 a1; ld s0 16 a1; ld s1 24 a1; ld s2 32 a1; ld s3 40 a1; ld s4 48 a1; ld s5 56 a1; ld s6 64 a1;
  ld s7 72 a1; ld s8 80 a1; ld s9 88 a1; ld s10 96 a1; ld s11 104 a1].

(** * trampoline.S *)

(** the entry from user space, up to its jr t0 *)
Definition uservec : list instr := [
  csrw sscratch a0; li a0 TRAPFRAME;
  sd ra 40 a0; sd sp 48 a0; sd gp 56 a0; sd tp 64 a0; sd t0 72 a0; sd t1 80 a0; sd t2 88 a0; sd s0 96 a0; sd s1 104 a0;
  sd a1 120 a0; sd a2 128 a0; sd a3 136 a0; sd a4 144 a0; sd a5 152 a0; sd a6 160 a0; sd a7 168 a0;
  sd s2 176 a0; sd s3 184 a0; sd s4 192 a0; sd s5 200 a0; sd s6 208 a0; sd s7 216 a0; sd s8 224 a0; sd s9 232 a0;
  sd s10 240 a0; sd s11 248 a0; sd t3 256 a0; sd t4 264 a0; sd t5 272 a0; sd t6 280 a0;
  csrr t0 sscratch; sd t0 112 a0;
  ld sp 8 a0; ld tp 32 a0; ld t0 16 a0; ld t1 0 a0;
  sfence_vma; csrw satp t1; sfence_vma].

(** userret(pagetable: a0), up to its sret *)
Definition userret : list instr := [
  sfence_vma; csrw satp a0; sfence_vma; li a0 TRAPFRAME;
  ld ra 40 a0; ld sp 48 a0; ld gp 56 a0; ld tp 64 a0; ld t0 72 a0; ld t1 80 a0; ld t2 88 a0; ld s0 96 a0; ld s1 104 a0;
  ld a1 120 a0; ld a2 128 a0; ld a3 136 a0; ld a4 144 a0; ld a5 152 a0; ld a6 160 a0; ld a7 168 a0;
  ld s2 176 a0; ld s3 184 a0; ld s4 192 a0; ld s5 200 a0; ld s6 208 a0; ld s7 216 a0; ld s8 224 a0; ld s9 232 a0;
  ld s10 240 a0; ld s11 248 a0; ld t3 256 a0; ld t4 264 a0; ld t5 272 a0; ld t6 280 a0;
  ld a0 112 a0].

(** * kernelvec.S *)

Definition kernelvec_save : list instr := [
  addi sp sp (-256);
  sd ra 0 sp; sd sp 8 sp; sd gp 16 sp; sd tp 24 sp; sd t0 32 sp; sd t1 40 sp; sd t2 48 sp; sd s0 56 sp; sd s1 64 sp;
  sd a0 72 sp; sd a1 80 sp; sd a2 88 sp; sd a3 96 sp; sd a4 104 sp; sd a5 112 sp; sd a6 120 sp; sd a7 128 sp;
  sd s2 136 sp; sd s3 144 sp; sd s4 152 sp; sd s5 160 sp; sd s6 168 sp; sd s7 176 sp; sd s8 184 sp; sd s9 192 sp;
  sd s10 200 sp; sd s11 208 sp; sd t3 216 sp; sd t4 224 sp; sd t5 232 sp; sd t6 240 sp].
Definition kernelvec_restore : list instr := [
  ld ra 0 sp; ld sp 8 sp; ld gp 16 sp; ld t0 32 sp; ld t1 40 sp; ld t2 48 sp; ld s0 56 sp; ld s1 64 sp;
  ld a0 72 sp; ld a1 80 sp; ld a2 88 sp; ld a3 96 sp; ld a4 104 sp; ld a5 112 sp; ld a6 120 sp; ld a7 128 sp;
  ld s2 136 sp; ld s3 144 sp; ld s4 152 sp; ld s5 160 sp; ld s6 168 sp; ld s7 176 sp; ld s8 184 sp; ld s9 192 sp;
  ld s10 200 sp; ld s11 208 sp; ld t3 216 sp; ld t4 224 sp; ld t5 232 sp; ld t6 240 sp;
  addi sp sp 256].
(** [kerneltrap] is the effect of the C function on the hart; up to the sret *)
Definition kernelvec (tr : Z → Z → Z) (kerneltrap : hart → hart) (h : hart) : hart :=
  run tr kernelvec_restore (kerneltrap (run tr kernelvec_save h)).

(** the machine-mode timer interrupt, up to its mret *)
Definition timervec : list instr := [
  csrrw a0 mscratch a0;
  sd a1 0 a0; sd a2 8 a0; sd a3 16 a0;
  ld a1 24 a0; ld a2 32 a0; ld a3 0 a1; add a3 a3 a2; sd a3 0 a1;
  li a1 2; csrw sip a1;
  ld a3 16 a0; ld a2 8 a0; ld a1 0 a0;
  csrrw a0 mscratch a0].

(** * entry.S *)

(** up to the call of start() *)
Definition _entry (stack0 : Z) : list instr := [
  li sp stack0; li a0 (1024 * 4); csrr a1 mhartid; addi a1 a1 1; mul a0 a0 a1; add sp sp a0].
