(* ===== verification/AsmSpec.v ===== *)
(** Register save and restore: what the kernel's assembly promises its C code. *)

From Stdlib Require Import Sorting.Sorted.
From S2P Require Import Prelude Mem Layout Asm.

(** * Registers *)

(** 32 registers of 64 bits *)
Definition hart_ok (h : hart) : Prop := length (x h) = 32%nat ∧ Forall (λ v, 0 ≤ v < 2 ^ 64) (x h).

Lemma get_range r h : hart_ok h → 0 ≤ get r h < 2 ^ 64.
Proof.
  intros [_ Hf]. unfold get. case_decide; [lia|]. destruct (x h !! r) eqn:E; cbn; [|lia]. rewrite Forall_lookup in Hf. by apply (Hf r).
Qed.
Lemma u64_get r h : hart_ok h → u64 (get r h) = get r h.
Proof. intros H. by apply u64_small, get_range. Qed.
Lemma get_set_eq r v h : length (x h) = 32%nat → (0 < r < 32)%nat → get r (set r v h) = u64 v.
Proof. intros Hl Hr. unfold get, set. cbn [x]. rewrite decide_False by (unfold zero; lia). by rewrite list_lookup_insert_eq by lia. Qed.
Lemma get_set_ne r r' v h : r ≠ r' → get r' (set r v h) = get r' h.
Proof. intros Hr. unfold get, set. cbn [x]. by rewrite list_lookup_insert_ne. Qed.
Lemma length_set r v h : length (x (set r v h)) = length (x h).
Proof. apply length_insert. Qed.
Lemma ok_set r v h : hart_ok h → hart_ok (set r v h).
Proof.
  intros [Hl Hf]. split; [by rewrite length_set|]. cbn [set x]. apply Forall_insert; [done|]. apply u64_range.
Qed.
Lemma ok_mm m h : hart_ok h → hart_ok (set_mm m h).
Proof. done. Qed.
Lemma ok_csr c v h : hart_ok h → hart_ok (set_csr c v h).
Proof. done. Qed.

Lemma get_csr r c v h : get r (set_csr c v h) = get r h.
Proof. done. Qed.

Lemma mm_set r v h : mm (set r v h) = mm h.
Proof. done. Qed.
Lemma mm_csr c v h : mm (set_csr c v h) = mm h.
Proof. done. Qed.
Lemma csrs_set r v h : csrs (set r v h) = csrs h.
Proof. done. Qed.

(** * Blocks of stores and loads *)

Abbreviation slots := (list (nat * Z)).
(** slots that do not overlap *)
Definition spaced : slots → Prop := StronglySorted (λ p q, p.2 + 8 ≤ q.2).

Section Blocks.
Context (tr : Z → Z → Z).

Lemma run_app l l' h : run tr (l ++ l') h = run tr l' (run tr l h).
Proof. apply foldl_app. Qed.
Lemma run_ok l h : hart_ok h → hart_ok (run tr l h).
Proof.
  revert h. induction l as [|i l IH]; intros h Hh; [done|]. cbn. apply IH. destruct i; cbn [exec1]; auto using ok_set, ok_mm, ok_csr.
Qed.

(** the slots [l] of base register [b] lie at the physical address [pa] *)
Definition placed (b : nat) (pa : Z) (l : slots) (h : hart) : Prop := Forall (λ p, tr (csrs h satp) (u64 (get b h + p.2)) = pa + p.2) l.

Definition saves (b : nat) (l : slots) : list instr := (λ p, sd p.1 p.2 b) <$> l.
Definition saved (pa : Z) (l : slots) (h : hart) (m : gmap Z Z) : gmap Z Z := foldl (λ m p, st64 m (pa + p.2) (get p.1 h)) m l.

Lemma saved_cons pa p l h m : saved pa (p :: l) h m = saved pa l h (st64 m (pa + p.2) (get p.1 h)).
Proof. done. Qed.
Lemma run_saves b pa l h : placed b pa l h → run tr (saves b l) h = set_mm (saved pa l h (mm h)) h.
Proof.
  revert h. induction l as [|p l IH]; intros h Hp; cbn; [by destruct h|]. apply Forall_cons in Hp as [Hp Hl]. unfold run in *. rewrite IH by done.
  cbn. rewrite Hp. done.
Qed.

Lemma saved_other pa l h m a : Forall (λ p, a + 8 ≤ pa + p.2 ∨ pa + p.2 + 8 ≤ a) l → ld64 (saved pa l h m) a = ld64 m a.
Proof.
  revert m. induction l as [|p l IH]; intros m H; [done|]. rewrite saved_cons. apply Forall_cons in H as [Hp Hl]. rewrite IH by done. by apply ld64_st64_ne.
Qed.
Lemma saved_bytes pa l h m a : Forall (λ p, a < pa + p.2 ∨ pa + p.2 + 8 ≤ a) l → ld8 (saved pa l h m) a = ld8 m a.
Proof.
  revert m. induction l as [|p l IH]; intros m H; [done|]. rewrite saved_cons. apply Forall_cons in H as [Hp Hl]. rewrite IH by done. apply ld8_st64. lia.
Qed.
Lemma saved_slot pa l h m p : hart_ok h → spaced l → p ∈ l → ld64 (saved pa l h m) (pa + p.2) = get p.1 h.
Proof.
  intros Hh. revert m. induction l as [|p' l IH]; intros m Hs Hp; [by apply elem_of_nil in Hp|]. rewrite saved_cons. inversion Hs as [|? ? Hs' Hf]; subst.
  apply elem_of_cons in Hp as [->|Hp]; [|by apply IH]. rewrite saved_other.
  - apply ld64_st64. by apply get_range.
  - apply (Forall_impl _ _ _ Hf). intros q Hq. lia.
Qed.

Definition loads (b : nat) (l : slots) : list instr := (λ p, ld p.1 p.2 b) <$> l.

(** the loads of registers other than the base *)
Lemma run_loads b pa l h : hart_ok h → placed b pa l h → b ∉ l.*1 → NoDup l.*1 → Forall (λ p, (0 < p.1 < 32)%nat) l →
  let h' := run tr (loads b l) h in
  mm h' = mm h ∧ csrs h' = csrs h ∧ (∀ p, p ∈ l → get p.1 h' = ld64 (mm h) (pa + p.2)) ∧ ∀ r, r ∉ l.*1 → get r h' = get r h.
Proof.
  revert h. induction l as [|p l IH]; intros h Hh Hp Hb Hn Hr; cbn.
  { split_and!; [done|done| |done]. by intros p ?%elem_of_nil. }
  apply Forall_cons in Hp as [Hp Hl]. rewrite fmap_cons in Hb, Hn. apply NoDup_cons in Hn as [Hpn Hn]. apply Forall_cons in Hr as [Hpr Hr]. apply not_elem_of_cons in Hb as [Hbp Hb].
  rewrite Hp. set (h1 := set p.1 _ h). destruct (IH h1) as (Hm & Hc & Hv & Ho); [by apply ok_set| |done|done|done|].
  { apply (Forall_impl _ _ _ Hl). intros q Hq. unfold h1. cbn [csrs set]. by rewrite get_set_ne. }
  fold (loads b l). fold (run tr (loads b l) h1). split_and!; [done|done| |].
  - intros q [->|Hq]%elem_of_cons; [|by apply Hv]. rewrite Ho by done. unfold h1. rewrite get_set_eq by (done || apply Hh). pose proof (ld64_range (mm h) (pa + p.2)). by rewrite u64_small.
  - intros r Hr'. rewrite Ho by set_solver. unfold h1. apply get_set_ne. set_solver.
Qed.
End Blocks.

(** * swtch.S *)

Definition ctx_slots : slots := [(ra, 0); (sp, 8); (s0, 16); (s1, 24); (s2, 32); (s3, 40); (s4, 48); (s5, 56); (s6, 64); (s7, 72); (s8, 80); (s9, 88); (s10, 96); (s11, 104)].

(** the slots from [pa] on, addressed by register [b] *)
Lemma placed_at tr b pa l h va n : get b h = va → 0 ≤ va → va + n ≤ 2 ^ 64 → (∀ o, 0 ≤ o < n → tr (csrs h satp) (va + o) = pa + o) →
  Forall (λ p : nat * Z, 0 ≤ p.2 < n) l → placed tr b pa l h.
Proof. intros Hb Hva Hn Htr Hl. apply (Forall_impl _ _ _ Hl). intros p Hp. rewrite Hb, u64_small by lia. by apply Htr. Qed.

Ltac slots_ok := repeat (apply Forall_cons; split; [cbn [fst snd]; first [lia | vm_compute; lia]|]); apply Forall_nil; exact I.
Ltac solve_spaced := unfold spaced; repeat (apply SSorted_cons; [|slots_ok]); apply SSorted_nil.
Ltac solve_nodup := apply (bool_decide_unpack _); vm_compute; reflexivity.

Lemma swtch_code : swtch = saves a0 ctx_slots ++ loads a1 ctx_slots.
Proof. reflexivity. Qed.

(** swtch(old, new) with contexts that do not overlap *)
Lemma swtch_spec tr h old new : hart_ok h → get a0 h = old → get a1 h = new →
  (∀ o, 0 ≤ o < 112 → tr (csrs h satp) (old + o) = old + o) → (∀ o, 0 ≤ o < 112 → tr (csrs h satp) (new + o) = new + o) →
  0 ≤ old → old + 112 ≤ 2 ^ 64 → 0 ≤ new → new + 112 ≤ 2 ^ 64 → old + 112 ≤ new ∨ new + 112 ≤ old →
  let h' := run tr swtch h in
  (∀ p, p ∈ ctx_slots → get p.1 h' = ld64 (mm h) (new + p.2)) ∧ (∀ p, p ∈ ctx_slots → ld64 (mm h') (old + p.2) = get p.1 h) ∧
  (∀ r, r ∉ ctx_slots.*1 → get r h' = get r h) ∧ csrs h' = csrs h ∧ ∀ a, (a < old ∨ old + 112 ≤ a) → ld8 (mm h') a = ld8 (mm h) a.
Proof.
  intros Hh Ha0 Ha1 Htr0 Htr1 H1 H2 H3 H4 Hdis h'. unfold h'. rewrite swtch_code, run_app.
  assert (Forall (λ p : nat * Z, 0 ≤ p.2 < 112 ∧ p.2 + 8 ≤ 112) ctx_slots) as Hoff by slots_ok.
  assert (Forall (λ p : nat * Z, 0 ≤ p.2 < 112) ctx_slots) as Hoff' by (apply (Forall_impl _ _ _ Hoff); tauto).
  rewrite (run_saves tr a0 old) by by eapply placed_at. set (m := saved old ctx_slots h (mm h)).
  destruct (run_loads tr a1 new ctx_slots (set_mm m h)) as (Hm & Hc & Hv & Ho); [done|by eapply placed_at|solve_nodup|solve_nodup|slots_ok|].
  split_and!; [|rewrite Hm|done|done|rewrite Hm].
  - intros p Hp. rewrite Hv by done. cbn [mm set_mm]. unfold m. apply saved_other. rewrite Forall_forall in Hoff. pose proof (Hoff p Hp). rewrite Forall_forall. intros q Hq. pose proof (Hoff q Hq). lia.
  - intros p Hp. cbn [mm set_mm]. unfold m. apply saved_slot; [done|solve_spaced|done].
  - intros a Ha. cbn [mm set_mm]. unfold m. apply saved_bytes. apply (Forall_impl _ _ _ Hoff). intros q Hq. lia.
Qed.

(** * trampoline.S *)

Definition tf_slots1 : slots :=
  [(ra, 40); (sp, 48); (gp, 56); (tp, 64); (t0, 72); (t1, 80); (t2, 88); (s0, 96); (s1, 104); (a1, 120); (a2, 128); (a3, 136); (a4, 144); (a5, 152); (a6, 160); (a7, 168);
   (s2, 176); (s3, 184); (s4, 192); (s5, 200); (s6, 208); (s7, 216); (s8, 224); (s9, 232); (s10, 240); (s11, 248); (t3, 256); (t4, 264); (t5, 272); (t6, 280)].
(** the register fields of struct trapframe *)
Definition tf_slots : slots := (a0, 112) :: tf_slots1.
Definition trapframe_holds (m : gmap Z Z) (tf : Z) (f : nat → Z) : Prop := ∀ p, p ∈ tf_slots → ld64 m (tf + p.2) = f p.1.

Section Trampoline.
(** the page table [us] maps TRAPFRAME to the page [tf] *)
Context (tr : Z → Z → Z) (us tf : Z) (Htf : ∀ o, 0 ≤ o < PGSIZE → tr us (TRAPFRAME + o) = tf + o).

Lemma tf_offsets : Forall (λ p : nat * Z, 0 ≤ p.2 < PGSIZE ∧ 40 ≤ p.2 ∧ p.2 + 8 ≤ 288 ∧ (p.2 + 8 ≤ 112 ∨ 120 ≤ p.2)) tf_slots1.
Proof. unfold PGSIZE. slots_ok. Qed.
Lemma tf_placed l h : get a0 h = TRAPFRAME → csrs h satp = us → Forall (λ p : nat * Z, 0 ≤ p.2 < PGSIZE) l → placed tr a0 tf l h.
Proof. intros Ha Hs Hl. apply (placed_at tr a0 tf l h TRAPFRAME PGSIZE); [done|by vm_compute|by vm_compute|by rewrite Hs|done]. Qed.

Lemma uservec_code : uservec = [csrw sscratch a0; li a0 TRAPFRAME] ++ saves a0 tf_slots1 ++ [csrr t0 sscratch; sd t0 112 a0] ++
  loads a0 [(sp, 8); (tp, 32); (t0, 16); (t1, 0)] ++ [sfence_vma; csrw satp t1; sfence_vma].
Proof. reflexivity. Qed.

Lemma uservec_spec h : hart_ok h → csrs h satp = us →
  let h' := run tr uservec h in
  trapframe_holds (mm h') tf (λ r, get r h) ∧ get sp h' = ld64 (mm h) (tf + 8) ∧ get tp h' = ld64 (mm h) (tf + 32) ∧ get t0 h' = ld64 (mm h) (tf + 16) ∧
  csrs h' satp = ld64 (mm h) tf ∧ ∀ a, (a < tf + 40 ∨ tf + 288 ≤ a) → ld8 (mm h') a = ld8 (mm h) a.
Proof.
  intros Hh Hs h'. pose proof tf_offsets as Hoff. assert (Forall (λ p : nat * Z, 0 ≤ p.2 < PGSIZE) tf_slots1) as Hoff' by (apply (Forall_impl _ _ _ Hoff); tauto).
  set (h1 := set a0 TRAPFRAME (set_csr sscratch (get a0 h) h)). assert (hart_ok h1) as Hh1 by by apply ok_set, ok_csr.
  assert (get a0 h1 = TRAPFRAME) as Ha1 by (unfold h1; rewrite get_set_eq by (apply Hh || vm_compute; lia); vm_compute; reflexivity).
  assert (∀ r, r ≠ a0 → get r h1 = get r h) as Hr1 by (intros r Hr; unfold h1; by rewrite get_set_ne).
  set (m2 := saved tf tf_slots1 h1 (mm h)). set (m3 := st64 m2 (tf + 112) (get a0 h)). set (h3 := set_mm m3 (set t0 (get a0 h) (set_mm m2 h1))).
  assert (hart_ok h3) as Hh3 by by apply ok_mm, ok_set, ok_mm.
  assert (run tr ([csrw sscratch a0; li a0 TRAPFRAME] ++ saves a0 tf_slots1 ++ [csrr t0 sscratch; sd t0 112 a0]) h = h3) as E3.
  { rewrite !run_app. change (run tr [csrw sscratch a0; li a0 TRAPFRAME] h) with h1. rewrite (run_saves tr a0 tf) by by apply tf_placed. fold m2.
    cbn [run foldl exec1]. rewrite get_set_ne by done. change (get a0 (set_mm _ h1)) with (get a0 h1). change (csrs _ satp) with (csrs h satp). rewrite Ha1, Hs.
    rewrite u64_small by (split; by vm_compute). rewrite Htf by (split; by vm_compute). rewrite get_set_eq by (apply Hh1 || vm_compute; lia). cbn [csrs set_mm h1 set set_csr]. rewrite decide_True by done. by rewrite u64_get. }
  destruct (run_loads tr a0 tf [(sp, 8); (tp, 32); (t0, 16); (t1, 0)] h3 Hh3) as (Hm & Hc & Hv & _); [|solve_nodup|solve_nodup|slots_ok|].
  { apply tf_placed; [change (get a0 (set t0 (get a0 h) (set_mm m2 h1)) = TRAPFRAME); by rewrite get_set_ne|done|unfold PGSIZE; slots_ok]. }
  set (h4 := run tr (loads a0 [(sp, 8); (tp, 32); (t0, 16); (t1, 0)]) h3) in *.
  assert (get sp h4 = ld64 m3 (tf + 8)) as Hsp by (apply (Hv (sp, 8)); by left).
  assert (get tp h4 = ld64 m3 (tf + 32)) as Htp by (apply (Hv (tp, 32)); by right; left).
  assert (get t0 h4 = ld64 m3 (tf + 16)) as Ht0 by (apply (Hv (t0, 16)); by right; right; left).
  assert (get t1 h4 = ld64 m3 (tf + 0)) as Ht1 by (apply (Hv (t1, 0)); by right; right; right; left).
  assert (h' = set_csr satp (get t1 h4) h4) as E'.
  { unfold h'. rewrite uservec_code. rewrite !app_assoc, (run_app tr _ [sfence_vma; _; _]), (run_app tr _ (loads a0 _)), <- !app_assoc, E3. reflexivity. }
  clearbody h4 h'. subst h'. cbn [mm csrs set_csr]. rewrite decide_True by done. rewrite Hm.
  assert (∀ o, 0 ≤ o < 40 → o + 8 ≤ 40 → ld64 m3 (tf + o) = ld64 (mm h) (tf + o)) as Hlow.
  { intros o Ho Ho'. unfold m3. rewrite ld64_st64_ne by lia. apply saved_other. apply (Forall_impl _ _ _ Hoff). intros q Hq. lia. }
  split_and!.
  - intros p [->|Hp]%elem_of_cons; cbn [h3 set_mm mm fst snd]; unfold m3; [by apply ld64_st64, get_range|].
    rewrite Forall_forall in Hoff. pose proof (Hoff p Hp). rewrite ld64_st64_ne by lia. unfold m2. rewrite saved_slot; [|done|solve_spaced|done].
    apply Hr1. intros E. assert (a0 ∉ tf_slots1.*1) as Hn by solve_nodup. apply Hn. rewrite <- E. by apply list_elem_of_fmap_2.
  - change (get sp h4 = ld64 (mm h) (tf + 8)). rewrite Hsp. apply Hlow; lia.
  - change (get tp h4 = ld64 (mm h) (tf + 32)). rewrite Htp. apply Hlow; lia.
  - change (get t0 h4 = ld64 (mm h) (tf + 16)). rewrite Ht0. apply Hlow; lia.
  - rewrite Ht1, Hlow by lia. by rewrite Z.add_0_r.
  - intros a Ha. cbn [h3 set_mm mm]. unfold m3. rewrite ld8_st64 by lia. apply saved_bytes. apply (Forall_impl _ _ _ Hoff). intros q Hq. lia.
Qed.

Lemma userret_code : userret = [sfence_vma; csrw satp a0; sfence_vma; li a0 TRAPFRAME] ++ loads a0 tf_slots1 ++ [ld a0 112 a0].
Proof. reflexivity. Qed.

Lemma userret_spec h f : hart_ok h → get a0 h = us → trapframe_holds (mm h) tf f →
  let h' := run tr userret h in
  (∀ p, p ∈ tf_slots → get p.1 h' = f p.1) ∧ csrs h' = (λ c, if decide (c = satp) then us else csrs h c) ∧ mm h' = mm h.
Proof.
  intros Hh Ha Hf h'. assert (Forall (λ p : nat * Z, 0 ≤ p.2 < PGSIZE) tf_slots1) as Hoff by (apply (Forall_impl _ _ _ tf_offsets); tauto).
  set (h1 := set a0 TRAPFRAME (set_csr satp us h)). assert (hart_ok h1) as Hh1 by by apply ok_set, ok_csr.
  assert (get a0 h1 = TRAPFRAME) as Ha1 by (unfold h1; rewrite get_set_eq by (apply Hh || vm_compute; lia); vm_compute; reflexivity).
  destruct (run_loads tr a0 tf tf_slots1 h1 Hh1) as (Hm & Hc & Hv & Ho); [by apply tf_placed|solve_nodup|solve_nodup|slots_ok|].
  set (h2 := run tr (loads a0 tf_slots1) h1) in *. assert (hart_ok h2) as Hh2 by by apply run_ok.
  assert (get a0 h2 = TRAPFRAME) as Ha2 by (rewrite Ho; [done|solve_nodup]).
  assert (h' = set a0 (ld64 (mm h2) (tf + 112)) h2) as ->.
  { unfold h'. rewrite userret_code, !run_app. assert (run tr [sfence_vma; csrw satp a0; sfence_vma; li a0 TRAPFRAME] h = h1) as -> by (unfold h1; rewrite <- Ha; reflexivity).
    fold h2. cbn [run foldl exec1]. rewrite Ha2, Hc. change (csrs h1 satp) with us. rewrite u64_small by (split; by vm_compute). by rewrite Htf by (split; by vm_compute). }
  split_and!; [|by cbn [csrs set]; rewrite Hc|by cbn [mm set]; rewrite Hm].
  intros p [->|Hp]%elem_of_cons.
  - cbn [fst]. rewrite get_set_eq by (apply Hh2 || vm_compute; lia). rewrite u64_small by apply ld64_range. rewrite Hm. apply (Hf (a0, 112)). by left.
  - rewrite get_set_ne.
    + rewrite Hv by done. change (mm h1) with (mm h). apply Hf. by right.
    + intros E. assert (a0 ∉ tf_slots1.*1) as Hn by solve_nodup. apply Hn. rewrite E. by apply list_elem_of_fmap_2.
Qed.

(** every register but x0 has a slot *)
Lemma tf_all r : (0 < r < 32)%nat → ∃ o, (r, o) ∈ tf_slots.
Proof.
  intros Hr. assert (r ∈ tf_slots.*1) as (p & -> & Hp)%list_elem_of_fmap; [|exists p.2; by destruct p].
  assert (seq 1 31 ⊆ tf_slots.*1) as Hs by solve_nodup. apply Hs. apply elem_of_seq. lia.
Qed.
End Trampoline.

(** C12: the trampoline loses no user register.  uservec on entry from user space puts every register of
    the process into its trapframe, and enters usertrap() on the kernel's stack and page table; after
    any kernel code that leaves the register fields of the trapframe as they are, userret with the
    process's page table puts every register back as it was and touches no memory. *)
Theorem trampoline_roundtrip tr us tf h h2 : (∀ o, 0 ≤ o < PGSIZE → tr us (TRAPFRAME + o) = tf + o) → hart_ok h → csrs h satp = us →
  hart_ok h2 → get a0 h2 = us → (∀ p, p ∈ tf_slots → ld64 (mm h2) (tf + p.2) = ld64 (mm (run tr uservec h)) (tf + p.2)) →
  let h1 := run tr uservec h in let h3 := run tr userret h2 in
  (get sp h1 = ld64 (mm h) (tf + 8) ∧ get tp h1 = ld64 (mm h) (tf + 32) ∧ get t0 h1 = ld64 (mm h) (tf + 16) ∧ csrs h1 satp = ld64 (mm h) tf ∧
   ∀ a, (a < tf + 40 ∨ tf + 288 ≤ a) → ld8 (mm h1) a = ld8 (mm h) a) ∧
  (∀ r, (0 < r < 32)%nat → get r h3 = get r h) ∧ csrs h3 satp = us ∧ mm h3 = mm h2.
Proof.
  intros Htf Hh Hs Hh2 Ha0 Hkeep h1 h3. destruct (uservec_spec tr us tf Htf h Hh Hs) as (Hhold & Hrest).
  destruct (userret_spec tr us tf Htf h2 (λ r, get r h) Hh2 Ha0) as (Hv & Hc & Hm); [intros p Hp; rewrite Hkeep by done; by apply Hhold|].
  split; [exact Hrest|]. split_and!; [|unfold h3; by rewrite Hc|done]. intros r Hr. destruct (tf_all r Hr) as (o & Ho). by apply (Hv (r, o)).
Qed.

(** C26: swtch() is a coroutine switch.  The caller of swtch(old, new) comes back - when any later
    swtch(cur, old) runs, on whatever hart, with the context [old] as it was left - with the stack
    pointer, the return address and all callee-saved registers it had; in between the code of [new]
    runs, with the registers its own context holds. *)
Theorem swtch_resumes tr h old new h2 cur : hart_ok h → get a0 h = old → get a1 h = new → hart_ok h2 → get a0 h2 = cur → get a1 h2 = old →
  Forall (λ c, 0 ≤ c ∧ c + 112 ≤ 2 ^ 64 ∧ ∀ o, 0 ≤ o < 112 → tr (csrs h satp) (c + o) = c + o ∧ tr (csrs h2 satp) (c + o) = c + o) [old; new; cur] →
  old + 112 ≤ new ∨ new + 112 ≤ old → old + 112 ≤ cur ∨ cur + 112 ≤ old →
  (∀ p, p ∈ ctx_slots → ld64 (mm h2) (old + p.2) = ld64 (mm (run tr swtch h)) (old + p.2)) →
  (∀ p, p ∈ ctx_slots → get p.1 (run tr swtch h) = ld64 (mm h) (new + p.2)) ∧ (∀ p, p ∈ ctx_slots → get p.1 (run tr swtch h2) = get p.1 h).
Proof.
  intros Hh Ha0 Ha1 Hh2 Hb0 Hb1 Hc Hd1 Hd2 Hkeep. rewrite !Forall_cons in Hc. destruct Hc as ((Ho1 & Ho2 & Ho) & (Hn1 & Hn2 & Hn) & (Hc1 & Hc2 & Hc) & _).
  destruct (swtch_spec tr h old new Hh Ha0 Ha1) as (Hv & Hs & _); [intros; by apply Ho|intros; by apply Hn|done..|].
  destruct (swtch_spec tr h2 cur old Hh2 Hb0 Hb1) as (Hv2 & _ & _); [intros; by apply Hc|intros; by apply Ho|done..|lia|].
  split; [done|]. intros p Hp. by rewrite Hv2, Hkeep, Hs.
Qed.

(** * kernelvec.S *)

Definition kv_slots : slots :=
  [(gp, 16); (t0, 32); (t1, 40); (t2, 48); (s0, 56); (s1, 64); (a0, 72); (a1, 80); (a2, 88); (a3, 96); (a4, 104); (a5, 112); (a6, 120); (a7, 128); (s2, 136); (s3, 144);
   (s4, 152); (s5, 160); (s6, 168); (s7, 176); (s8, 184); (s9, 192); (s10, 200); (s11, 208); (t3, 216); (t4, 224); (t5, 232); (t6, 240)].
Definition kv_all : slots :=
  [(ra, 0); (sp, 8); (gp, 16); (tp, 24); (t0, 32); (t1, 40); (t2, 48); (s0, 56); (s1, 64); (a0, 72); (a1, 80); (a2, 88); (a3, 96); (a4, 104); (a5, 112); (a6, 120); (a7, 128);
   (s2, 136); (s3, 144); (s4, 152); (s5, 160); (s6, 168); (s7, 176); (s8, 184); (s9, 192); (s10, 200); (s11, 208); (t3, 216); (t4, 224); (t5, 232); (t6, 240)].
Lemma kernelvec_save_code : kernelvec_save = [addi sp sp (-256)] ++ saves sp kv_all.
Proof. reflexivity. Qed.
Lemma kernelvec_restore_code : kernelvec_restore = [ld ra 0 sp; ld sp 8 sp] ++ loads sp kv_slots ++ [addi sp sp 256].
Proof. reflexivity. Qed.

Section Kernelvec.
(** the 256 bytes below the interrupted stack pointer lie at the physical address [pa] *)
Context (tr : Z → Z → Z) (h : hart) (pa : Z) (Hh : hart_ok h) (Hsp : 256 ≤ get sp h).
Context (Htr : ∀ o, 0 ≤ o < 256 → tr (csrs h satp) (get sp h - 256 + o) = pa + o).

Lemma kv_save : let h1 := run tr kernelvec_save h in
  hart_ok h1 ∧ get sp h1 = get sp h - 256 ∧ csrs h1 = csrs h ∧
  (∀ p, p ∈ kv_all → ld64 (mm h1) (pa + p.2) = if decide (p.1 = sp) then get sp h - 256 else get p.1 h) ∧
  ∀ a, (a < pa ∨ pa + 256 ≤ a) → ld8 (mm h1) a = ld8 (mm h) a.
Proof.
  intros h1. pose proof (get_range sp h Hh) as Hr. set (h0 := set sp (get sp h + -256) h). assert (hart_ok h0) as Hh0 by by apply ok_set.
  assert (get sp h0 = get sp h - 256) as Hsp0 by (unfold h0; rewrite get_set_eq by (apply Hh || vm_compute; lia); rewrite u64_small; lia).
  assert (Forall (λ p : nat * Z, 0 ≤ p.2 < 256 ∧ p.2 + 8 ≤ 256) kv_all) as Hoff by slots_ok.
  assert (h1 = set_mm (saved pa kv_all h0 (mm h)) h0) as ->.
  { unfold h1. rewrite kernelvec_save_code, run_app. change (run tr [addi sp sp (-256)] h) with h0. rewrite (run_saves tr sp pa); [reflexivity|].
    apply (placed_at tr sp pa kv_all h0 (get sp h - 256) 256); [done|lia|lia|done|]. apply (Forall_impl _ _ _ Hoff); tauto. }
  split_and!; [done|done|done| |].
  - intros p Hp. cbn [mm set_mm]. rewrite saved_slot; [|done|solve_spaced|done]. case_decide as E; [by rewrite E|]. unfold h0. rewrite get_set_ne; [done|]. congruence.
  - intros a Ha. cbn [mm set_mm]. apply saved_bytes. apply (Forall_impl _ _ _ Hoff). intros q Hq. lia.
Qed.

Lemma kv_restore hk f : hart_ok hk → get sp hk = get sp h - 256 → csrs hk satp = csrs h satp →
  (∀ p, p ∈ kv_all → ld64 (mm hk) (pa + p.2) = if decide (p.1 = sp) then get sp h - 256 else f p.1) →
  let h' := run tr kernelvec_restore hk in
  mm h' = mm hk ∧ get sp h' = get sp h ∧ get tp h' = get tp hk ∧ ∀ r, (0 < r < 32)%nat → r ≠ tp → r ≠ sp → get r h' = f r.
Proof.
  intros Hk Hs Hc Hm h'. pose proof (get_range sp h Hh) as Hr. pose proof (Hm (ra, 0) ltac:(by left)) as Hra. pose proof (Hm (sp, 8) ltac:(by right; left)) as Hsp8. cbn [fst snd] in Hra, Hsp8.
  rewrite decide_False in Hra by done. rewrite decide_True in Hsp8 by done.
  set (h1 := set sp (get sp h - 256) (set ra (f ra) hk)).
  assert (run tr [ld ra 0 sp; ld sp 8 sp] hk = h1) as E1.
  { cbn [run foldl exec1]. rewrite get_set_ne by done. cbn [csrs set mm]. rewrite Hs, Hc, !u64_small, !Htr by lia. rewrite Hra, Hsp8. done. }
  assert (hart_ok h1) as Hh1 by by apply ok_set, ok_set.
  assert (get sp h1 = get sp h - 256) as Hsp1 by (unfold h1; rewrite get_set_eq by (apply (ok_set _ _ _ Hk) || vm_compute; lia); rewrite u64_small; lia).
  destruct (run_loads tr sp pa kv_slots h1 Hh1) as (Hm2 & Hc2 & Hv & Ho); [|solve_nodup|solve_nodup|slots_ok|].
  { apply (placed_at tr sp pa kv_slots h1 (get sp h - 256) 256); [done|lia|lia|cbn [csrs h1 set]; by rewrite Hc|slots_ok]. }
  set (h2 := run tr (loads sp kv_slots) h1) in *. assert (hart_ok h2) as Hh2 by by apply run_ok.
  assert (h' = set sp (get sp h) h2) as ->.
  { unfold h'. rewrite kernelvec_restore_code, !run_app, E1. fold h2. cbn [run foldl exec1]. rewrite (Ho sp), Hsp1 by solve_nodup. f_equal. lia. }
  split_and!; [done| | |].
  - rewrite get_set_eq by (apply Hh2 || vm_compute; lia). rewrite u64_small; lia.
  - rewrite get_set_ne, (Ho tp) by (done || solve_nodup). unfold h1. by rewrite !get_set_ne.
  - intros r Hr' Htp Hnsp. rewrite get_set_ne by congruence. destruct (decide (r = ra)) as [->|Hra'].
    + rewrite (Ho ra) by solve_nodup. unfold h1. rewrite get_set_ne by done. rewrite get_set_eq by (apply Hk || vm_compute; lia). rewrite <- Hra. apply u64_small, ld64_range.
    + assert (r ∈ kv_slots.*1) as (p & -> & Hp)%list_elem_of_fmap.
      { assert (seq 1 31 ⊆ kv_slots.*1 ++ [ra; sp; tp]) as Hall by solve_nodup. specialize (Hall r ltac:(apply elem_of_seq; lia)).
        apply elem_of_app in Hall as [|Hin]; [done|]. exfalso. repeat (apply elem_of_cons in Hin as [->|Hin]; [done|]). by apply elem_of_nil in Hin. }
      rewrite Hv by done. change (mm h1) with (mm hk). assert (kv_slots ⊆ kv_all) as Hsub by solve_nodup. rewrite Hm by by apply Hsub. by rewrite decide_False.
Qed.
End Kernelvec.

(** C36: kernelvec saves and restores the registers of the kernel code an interrupt stopped.  What it
    relies on of kerneltrap(), which may yield the hart, are hypotheses: it returns with its stack pointer,
    on the kernel's page table, and without touching the 256 bytes kernelvec pushed.  Then the interrupted
    code goes on with every register as it was except tp, which is that of the hart it now runs on, and
    with memory as kerneltrap() left it; before the call, kernelvec wrote no memory but those 256 bytes. *)
Theorem kernelvec_transparent tr kerneltrap h pa : hart_ok h → 256 ≤ get sp h →
  (∀ o, 0 ≤ o < 256 → tr (csrs h satp) (get sp h - 256 + o) = pa + o) →
  let h1 := run tr kernelvec_save h in let hk := kerneltrap h1 in
  hart_ok hk → get sp hk = get sp h1 → csrs hk satp = csrs h1 satp → (∀ a, pa ≤ a < pa + 256 → ld8 (mm hk) a = ld8 (mm h1) a) →
  let h' := kernelvec tr kerneltrap h in
  (∀ r, (0 < r < 32)%nat → r ≠ tp → get r h' = get r h) ∧ get tp h' = get tp hk ∧ mm h' = mm hk ∧
  ∀ a, (a < pa ∨ pa + 256 ≤ a) → ld8 (mm h1) a = ld8 (mm h) a.
Proof.
  intros Hh Hsp Htr h1 hk Hk Hspk Hck Hmk h'. destruct (kv_save tr h pa Hh Hsp Htr) as (_ & Hs1 & Hc1 & Hslot & Hout). fold h1 in Hs1, Hc1, Hslot, Hout.
  destruct (kv_restore tr h pa Hh Hsp Htr hk (λ r, get r h) Hk) as (Hm & Hs & Htp & Hv).
  - by rewrite Hspk.
  - by rewrite Hck, Hc1.
  - intros p Hp. rewrite <- Hslot by done. assert (Forall (λ p : nat * Z, 0 ≤ p.2 ∧ p.2 + 8 ≤ 256) kv_all) as Hoff by slots_ok.
    rewrite Forall_forall in Hoff. specialize (Hoff p Hp). apply ld64_ext. intros i Hi. apply Hmk. lia.
  - split_and!; [|done|done|done]. intros r Hr Hntp. destruct (decide (r = sp)) as [->|Hn]; [done|]. by apply Hv.
Qed.

(** * The timer interrupt *)

Definition bare : Z → Z → Z := λ _ va, va.

Lemma timervec_code : timervec = [csrrw a0 mscratch a0] ++ saves a0 [(a1, 0); (a2, 8); (a3, 16)] ++ loads a0 [(a1, 24); (a2, 32)] ++
  [ld a3 0 a1; add a3 a3 a2; sd a3 0 a1; li a1 2; csrw sip a1] ++ loads a0 [(a3, 16); (a2, 8); (a1, 0)] ++ [csrrw a0 mscratch a0].
Proof. reflexivity. Qed.

(** the comparator and the pending interrupt *)
Lemma timer_update h cmp iv : hart_ok h → 0 ≤ cmp → cmp + 8 ≤ 2 ^ 64 → get a1 h = cmp → get a2 h = iv →
  run bare [ld a3 0 a1; add a3 a3 a2; sd a3 0 a1; li a1 2; csrw sip a1] h =
  set_csr sip 2 (set a1 2 (set_mm (st64 (mm h) cmp (u64 (ld64 (mm h) cmp + iv))) (set a3 (ld64 (mm h) cmp + iv) (set a3 (ld64 (mm h) cmp) h)))).
Proof.
  intros Hh H1 H2 Ha Hb. cbn [run foldl exec1]. unfold bare. rewrite Ha, Z.add_0_r, u64_small by lia.
  rewrite (get_set_eq a3 (ld64 (mm h) cmp)) by (apply Hh || vm_compute; lia). rewrite (u64_small (ld64 (mm h) cmp)) by apply ld64_range. rewrite (get_set_ne a3 a2), Hb by done.
  rewrite !(get_set_ne a3 a1), Ha, Z.add_0_r, u64_small by (done || lia). rewrite (get_set_eq a3) by (apply (ok_set _ _ _ Hh) || vm_compute; lia).
  rewrite (get_set_eq a1); [reflexivity|apply (ok_set a3 _ _ (ok_set a3 _ _ Hh))|vm_compute; lia].
Qed.

(** the machine-mode timer interrupt is invisible to what it interrupts: every register and the
    scratch pointer are as before; the comparator has moved on by the interval (modulo 2^64), a
    supervisor software interrupt is pending, and besides the comparator only the three words of the
    scratch area were written. *)
Theorem timervec_transparent h sc cmp iv : hart_ok h → csrs h mscratch = sc → 0 ≤ sc → sc + 40 ≤ 2 ^ 64 → 0 ≤ cmp → cmp + 8 ≤ 2 ^ 64 →
  ld64 (mm h) (sc + 24) = cmp → ld64 (mm h) (sc + 32) = iv → cmp + 8 ≤ sc ∨ sc + 40 ≤ cmp →
  let h' := run bare timervec h in
  (∀ r, (0 < r < 32)%nat → get r h' = get r h) ∧ csrs h' mscratch = sc ∧ csrs h' sip = 2 ∧ ld64 (mm h') cmp = u64 (ld64 (mm h) cmp + iv) ∧
  ∀ a, (a < sc ∨ sc + 24 ≤ a) → (a < cmp ∨ cmp + 8 ≤ a) → ld8 (mm h') a = ld8 (mm h) a.
Proof.
  intros Hh Hsc H1 H2 H3 H4 Hcmp Hiv Hdis h'. set (h1 := set a0 sc (set_csr mscratch (get a0 h) h)). assert (hart_ok h1) as Hh1 by by apply ok_set, ok_csr.
  assert (get a0 h1 = sc) as Ha1 by (unfold h1; rewrite get_set_eq by (apply Hh || vm_compute; lia); apply u64_small; lia).
  assert (∀ r, r ≠ a0 → get r h1 = get r h) as Hr1 by (intros r Hr; unfold h1; by rewrite get_set_ne).
  set (l1 := [(a1, 0); (a2, 8); (a3, 16)]). set (m2 := saved sc l1 h1 (mm h)). set (h2 := set_mm m2 h1).
  assert (∀ l h, get a0 h = sc → Forall (λ p : nat * Z, 0 ≤ p.2 < 40) l → placed bare a0 sc l h) as Hpl.
  { intros l h0 E Hl. apply (placed_at bare a0 sc l h0 sc 40); [done|lia|lia|done|done]. }
  destruct (run_loads bare a0 sc [(a1, 24); (a2, 32)] h2 Hh1) as (Hm3 & Hc3 & Hv3 & Ho3); [apply Hpl; [done|slots_ok]|solve_nodup|solve_nodup|slots_ok|].
  set (h3 := run bare (loads a0 [(a1, 24); (a2, 32)]) h2) in *. assert (hart_ok h3) as Hh3 by by apply run_ok.
  assert (∀ o, 24 ≤ o → o + 8 ≤ 40 → ld64 m2 (sc + o) = ld64 (mm h) (sc + o)) as Hhi by (intros o Ho1 Ho2; apply saved_other; slots_ok).
  assert (get a1 h3 = cmp) as H3a by (etransitivity; [apply (Hv3 (a1, 24)); by left|]; cbn [snd h2 set_mm mm]; rewrite Hhi; lia).
  assert (get a2 h3 = iv) as H3b by (etransitivity; [apply (Hv3 (a2, 32)); by right; left|]; cbn [snd h2 set_mm mm]; rewrite Hhi; lia).
  assert (ld64 m2 cmp = ld64 (mm h) cmp) as Hcmp2 by (apply saved_other; slots_ok).
  set (v := u64 (ld64 (mm h) cmp + iv)). assert (0 ≤ v < 2 ^ 64) as Hv by apply u64_range. set (m4 := st64 m2 cmp v).
  set (h4 := set_csr sip 2 (set a1 2 (set_mm m4 (set a3 (ld64 (mm h) cmp + iv) (set a3 (ld64 (mm h) cmp) h3))))). assert (hart_ok h4) as Hh4 by by apply ok_csr, ok_set, ok_mm, ok_set, ok_set.
  assert (run bare [ld a3 0 a1; add a3 a3 a2; sd a3 0 a1; li a1 2; csrw sip a1] h3 = h4) as E4.
  { rewrite (timer_update h3 cmp iv) by (done || lia). rewrite Hm3. change (mm h2) with m2. by rewrite Hcmp2. }
  assert (∀ r, r ∉ [a0; a1; a2; a3] → get r h4 = get r h) as Hr4.
  { intros r Hr. rewrite !not_elem_of_cons in Hr. destruct Hr as (Ha & Hb & Hc & Hd & _). unfold h4.
    change (get r (set_csr _ _ ?z)) with (get r z). rewrite get_set_ne by congruence. change (get r (set_mm _ ?z)) with (get r z). rewrite !get_set_ne by congruence.
    rewrite Ho3; [by apply Hr1|]. change (r ∉ [a1; a2]). rewrite !not_elem_of_cons. split_and!; [done|done|apply not_elem_of_nil]. }
  assert (get a0 h4 = sc) as Ha4.
  { unfold h4. change (get a0 (set_csr _ _ ?z)) with (get a0 z). rewrite get_set_ne by done. change (get a0 (set_mm _ ?z)) with (get a0 z). rewrite !get_set_ne by done. by rewrite Ho3 by solve_nodup. }
  destruct (run_loads bare a0 sc [(a3, 16); (a2, 8); (a1, 0)] h4 Hh4) as (Hm5 & Hc5 & Hv5 & Ho5); [apply Hpl; [done|slots_ok]|solve_nodup|solve_nodup|slots_ok|].
  set (h5 := run bare (loads a0 [(a3, 16); (a2, 8); (a1, 0)]) h4) in *. assert (hart_ok h5) as Hh5 by by apply run_ok.
  assert (h' = set a0 (get a0 h) (set_csr mscratch sc h5)) as ->.
  { unfold h'. rewrite timervec_code, !run_app. assert (run bare [csrrw a0 mscratch a0] h = h1) as -> by (unfold h1; rewrite <- Hsc; reflexivity).
    rewrite (run_saves bare a0 sc) by (apply Hpl; [done|slots_ok]). change (run bare (loads a0 [(a1, 24); (a2, 32)]) (set_mm _ h1)) with h3. rewrite E4. fold h5. cbn [run foldl exec1]. rewrite (Ho5 a0), Ha4 by solve_nodup.
    rewrite Hc5. cbn [h4 csrs set_csr set set_mm]. rewrite Hc3. reflexivity. }
  assert (∀ p, p ∈ l1 → ld64 m4 (sc + p.2) = get p.1 h) as Hback.
  { intros p Hp. unfold m4. assert (Forall (λ p : nat * Z, 0 ≤ p.2 ∧ p.2 + 8 ≤ 40 ∧ p.1 ≠ a0) l1) as Hoff by (unfold l1, a0, a1, a2, a3; slots_ok). rewrite Forall_forall in Hoff. specialize (Hoff p Hp).
    rewrite ld64_st64_ne by lia. unfold m2. rewrite saved_slot; [apply Hr1; tauto|done|unfold l1; solve_spaced|done]. }
  split_and!.
  - intros r Hr. destruct (decide (r = a0)) as [->|Hra]; [rewrite get_set_eq by (apply Hh5 || vm_compute; lia); by apply u64_get|].
    rewrite get_set_ne by congruence. change (get r (set_csr _ _ h5)) with (get r h5). destruct (decide (r ∈ [a1; a2; a3])) as [Hin|Hnin].
    + repeat (apply elem_of_cons in Hin as [->|Hin]; [|]); [| | |by apply elem_of_nil in Hin].
      * etransitivity; [apply (Hv5 (a1, 0)); by right; right; left|]. apply (Hback (a1, 0)). by left.
      * etransitivity; [apply (Hv5 (a2, 8)); by right; left|]. apply (Hback (a2, 8)). by right; left.
      * etransitivity; [apply (Hv5 (a3, 16)); by left|]. apply (Hback (a3, 16)). by right; right; left.
    + rewrite !not_elem_of_cons in Hnin. destruct Hnin as (Hb & Hc & Hd & _). rewrite Ho5.
      * apply Hr4. rewrite !not_elem_of_cons. split_and!; [done..|apply not_elem_of_nil].
      * change (r ∉ [a3; a2; a1]). rewrite !not_elem_of_cons. split_and!; [done..|apply not_elem_of_nil].
  - done.
  - cbn [csrs set set_csr]. rewrite decide_False by done. by rewrite Hc5.
  - cbn [mm set set_csr]. rewrite Hm5. cbn [h4 mm set set_csr set_mm]. by apply ld64_st64.
  - intros a Ha Hb. cbn [mm set set_csr]. rewrite Hm5. cbn [h4 mm set set_csr set_mm]. unfold m4. rewrite ld8_st64 by lia. apply saved_bytes. slots_ok.
Qed.

(** * entry.S *)

(** each hart starts C on the top of its own 4096 bytes of stack0 *)
Lemma entry_stack stack0 h i : hart_ok h → csrs h mhartid = i → 0 ≤ i < 8 → 0 ≤ stack0 → stack0 + 4096 * 8 < 2 ^ 64 →
  get sp (run bare (_entry stack0) h) = stack0 + 4096 * (i + 1).
Proof.
  intros Hh Hi Hr H1 H2. unfold _entry. cbn [run foldl exec1]. set (h1 := set a0 _ (set sp stack0 h)). assert (hart_ok h1) as Hh1 by by apply ok_set, ok_set.
  change (csrs h1 mhartid) with (csrs h mhartid). rewrite Hi. set (h2 := set a1 i h1). assert (hart_ok h2) as Hh2 by by apply ok_set.
  assert (get a1 h2 = i) as E1 by (unfold h2; rewrite get_set_eq by (apply Hh1 || vm_compute; lia); apply u64_small; lia). rewrite E1.
  set (h3 := set a1 (i + 1) h2). assert (hart_ok h3) as Hh3 by by apply ok_set.
  assert (get a1 h3 = i + 1) as E2 by (unfold h3; rewrite get_set_eq by (apply Hh2 || vm_compute; lia); apply u64_small; lia).
  assert (get a0 h3 = 4096) as E3 by (unfold h3, h2, h1; rewrite !(get_set_ne a1 a0) by done; rewrite get_set_eq by (apply (ok_set sp stack0 h Hh) || vm_compute; lia); done).
  assert (get sp h3 = stack0) as E4 by (unfold h3, h2, h1; rewrite !(get_set_ne a1 sp), (get_set_ne a0 sp) by done; rewrite get_set_eq by (apply Hh || vm_compute; lia); apply u64_small; lia).
  rewrite E2, E3. set (h4 := set a0 _ h3). assert (hart_ok h4) as Hh4 by by apply ok_set.
  rewrite get_set_eq by (apply Hh4 || vm_compute; lia). unfold h4 at 1. rewrite (get_set_ne a0 sp), E4 by done. unfold h4. rewrite get_set_eq by (apply Hh3 || vm_compute; lia).
  rewrite (u64_small (4096 * (i + 1))) by lia. apply u64_small. lia.
Qed.

(** * Examples *)

Module Asm0.
(** a hart whose register n holds 1000 + n; the page table 5 maps TRAPFRAME to the page at 0x80100000 *)
Definition xs : list Z := 0 :: ((λ n, 1000 + Z.of_nat n) <$> seq 1 31).
Definition tr : Z → Z → Z := λ s va, if (s =? 5) && (TRAPFRAME <=? va) && (va <? TRAPFRAME + PGSIZE) then va - TRAPFRAME + 0x80100000 else va.
Definition user : hart := mkHart xs (λ c, match c with satp => 5 | _ => 0 end) ∅.
Definition back : hart := set_csr satp 7 (set a0 5 (run tr uservec user)).

Lemma xs_ok : hart_ok user.
Proof. split; [done|]. apply Forall_forall. intros v Hv. assert (Forall (λ v, (0 <=? v) && (v <? 2 ^ 64) = true) xs) as Hx by (repeat constructor). rewrite Forall_forall in Hx. specialize (Hx v Hv). lia. Qed.

Lemma trampoline_roundtrip_witness : get s5 (run tr userret back) = 1021 ∧ get a0 (run tr userret back) = 1010.
Proof.
  assert (∀ o, 0 ≤ o < PGSIZE → tr 5 (TRAPFRAME + o) = 0x80100000 + o) as Htr.
  { intros o Ho. unfold tr. rewrite (proj2 (Z.leb_le _ _)), (proj2 (Z.ltb_lt _ _)) by lia. cbn [andb Z.eqb Pos.eqb]. lia. }
  pose proof xs_ok as Hok. destruct (trampoline_roundtrip tr 5 0x80100000 user back Htr Hok eq_refl) as (_ & Hr & _).
  - by apply ok_csr, ok_set, run_ok.
  - etransitivity; [apply get_csr|]. etransitivity; [apply get_set_eq; [apply (run_ok tr uservec user Hok)|unfold a0; lia]|]. reflexivity.
  - intros p _. unfold back. by rewrite mm_csr, mm_set.
  - split; (etransitivity; [apply Hr; unfold s5, a0; lia|]; vm_compute; reflexivity).
Defined.

(** a kernel in which code with the stack pointer 2^31 is interrupted, and kerneltrap() changes a7 and tp *)
Definition kern : hart := set sp (2 ^ 31) user.
Definition ktrap (h : hart) : hart := set tp 3 (set a7 77 h).
Lemma kernelvec_transparent_witness : get a7 (kernelvec bare ktrap kern) = 1017 ∧ get tp (kernelvec bare ktrap kern) = 3.
Proof.
  assert (hart_ok kern) as Hok by apply ok_set, xs_ok. assert (get sp kern = 2 ^ 31) as Hsp by (vm_compute; reflexivity).
  destruct (kernelvec_transparent bare ktrap kern (2 ^ 31 - 256) Hok) as (Hr & Htp & _).
  - rewrite Hsp. lia.
  - intros o Ho. unfold bare. rewrite Hsp. done.
  - by apply ok_set, ok_set, run_ok.
  - etransitivity; [apply get_set_ne; unfold sp, tp; lia|]. apply get_set_ne. unfold sp, a7. lia.
  - unfold ktrap. by rewrite !csrs_set.
  - intros a _. unfold ktrap. by rewrite !mm_set.
  - split.
    + etransitivity; [apply Hr; unfold a7, tp; lia|]. vm_compute. reflexivity.
    + etransitivity; [apply Htp|]. etransitivity; [apply get_set_eq; [apply (ok_set a7 77), run_ok, Hok|unfold tp; lia]|]. reflexivity.
Defined.

(** swtch() from the context at 4096 to that at 8192, and back *)
Definition ka : hart := set a0 4096 (set a1 8192 user).
Definition kb : hart := set a0 8192 (set a1 4096 (run bare swtch ka)).
Lemma swtch_resumes_witness : get s3 (run bare swtch kb) = 1019 ∧ get ra (run bare swtch kb) = 1001.
Proof.
  assert (hart_ok ka) as Hok by apply ok_set, ok_set, xs_ok. assert (hart_ok (run bare swtch ka)) as Hok1 by by apply run_ok.
  destruct (swtch_resumes bare ka 4096 8192 kb 8192 Hok) as (_ & Hr).
  - vm_compute; reflexivity.
  - vm_compute; reflexivity.
  - by apply ok_set, ok_set.
  - etransitivity; [apply get_set_eq; [apply (ok_set a1 4096 _ Hok1)|unfold a0; lia]|]. reflexivity.
  - etransitivity; [apply get_set_ne; unfold a0, a1; lia|]. etransitivity; [apply get_set_eq; [apply Hok1|unfold a1; lia]|]. reflexivity.
  - repeat (apply Forall_cons; split; [split; [lia|split; [lia|done]]|]). by apply Forall_nil.
  - lia.
  - lia.
  - intros p _. unfold kb. by rewrite !mm_set.
  - split; [etransitivity; [apply (Hr (s3, 40)); unfold ctx_slots; by repeat (left || right)|]|etransitivity; [apply (Hr (ra, 0)); by left|]]; vm_compute; reflexivity.
Defined.

(** the scratch area of hart 0 at 4096: comparator 0x2004000, interval 1000000 *)
Definition th : hart := mkHart xs (λ c, match c with mscratch => 4096 | _ => 0 end) (st64 (st64 ∅ (4096 + 24) 0x2004000) (4096 + 32) 1000000).
Lemma timervec_transparent_witness : get a2 (run bare timervec th) = 1012 ∧ ld64 (mm (run bare timervec th)) 0x2004000 = 1000000.
Proof.
  assert (hart_ok th) as Hok by exact xs_ok.
  destruct (timervec_transparent th 4096 0x2004000 1000000 Hok eq_refl) as (Hr & _ & _ & Hc & _); try lia; try (vm_compute; reflexivity).
  split; [etransitivity; [apply Hr; unfold a2; lia|]|etransitivity; [apply Hc|]]; vm_compute; reflexivity.
Defined.
End Asm0.
