(* ===== verification/Boot.v ===== *)
(** kernel/start.c, kernel/main.c and the kernel's page table (kernel/vm.c): from
    machine mode to the scheduler.  Register writes of uartinit(), plicinit() and
    timerinit() are recorded in [mmio]; initlock() leaves a lock free, which is
    how the locks of [K] start.  [mtime] stands for the clock register. *)

From S2P Require Import Prelude Mem Layout Kalloc Vm State Sched Bio Console Fs Proc Exec Sysfile Virtio Trap.

(** * The kernel's page table *)

Section Kvm.
Context `{PageAlloc} `{Symbols}.

Definition kvmmake : M phys Z :=
  let! kpgtbl := pg_alloc in
  do! mem_set kpgtbl 0 PGSIZE in
  do! kvmmap kpgtbl UART0 UART0 PGSIZE (Z.lor PTE_R PTE_W) in
  do! kvmmap kpgtbl VIRTIO0 VIRTIO0 PGSIZE (Z.lor PTE_R PTE_W) in
  do! kvmmap kpgtbl PLIC PLIC 0x400000 (Z.lor PTE_R PTE_W) in
  do! kvmmap kpgtbl KERNBASE KERNBASE (etext - KERNBASE) (Z.lor PTE_R PTE_X) in
  do! kvmmap kpgtbl etext etext (PHYSTOP - etext) (Z.lor PTE_R PTE_W) in
  do! kvmmap kpgtbl TRAMPOLINE trampoline PGSIZE (Z.lor PTE_R PTE_X) in
  do! proc_mapstacks kpgtbl in
  ret kpgtbl.

Definition kvminit : M Mach unit :=
  let! t := mdo (phy_do kvmmake) in
  modify (set_kernel_pagetable t).

Definition kvminithart : M Mach unit :=
  let! t := gets kernel_pagetable in
  w_satp (MAKE_SATP t).

End Kvm.

(** * start.c *)

Class BootSymbols := { main_pc : Z; timervec_pc : Z; timer_scratch_pa : Z; mtime : Z }.

Definition MSTATUS_MPP_MASK : Z := Z.shiftl 3 11.
Definition MSTATUS_MPP_S : Z := Z.shiftl 1 11.
Definition MSTATUS_MIE : Z := Z.shiftl 1 3.
Definition SIE_SEIE : Z := Z.shiftl 1 9.
Definition SIE_STIE : Z := Z.shiftl 1 5.
Definition SIE_SSIE : Z := Z.shiftl 1 1.
Definition MIE_MTIE : Z := Z.shiftl 1 7.
Definition CLINT_MTIMECMP (hartid : Z) : Z := CLINT + 0x4000 + 8 * hartid.

Section Start.
Context `{BootSymbols}.

Definition timerinit : M Mach unit :=
  let! h := r_mhartid in
  let id := s32 h in
  let interval := 1000000 in
  do! w_mmio (CLINT_MTIMECMP id) (u64 (mtime + interval)) in
  do! modify (λ s, set_timer_scratch (<[4%nat := interval]> (<[3%nat := CLINT_MTIMECMP id]> (timer_scratch s))) s) in
  do! w_mscratch (timer_scratch_pa + 40 * id) in
  do! w_mtvec timervec_pc in
  let! x := r_mstatus in
  do! w_mstatus (Z.lor x MSTATUS_MIE) in
  let! x := r_mie in
  w_mie (Z.lor x MIE_MTIE).

(** up to mret *)
Definition start : M Mach unit :=
  let! x := r_mstatus in
  let x := Z.land x (Z.lnot MSTATUS_MPP_MASK) in
  let x := Z.lor x MSTATUS_MPP_S in
  do! w_mstatus x in
  do! w_mepc main_pc in
  do! w_satp 0 in
  do! w_medeleg 0xffff in
  do! w_mideleg 0xffff in
  let! x := r_sie in
  do! w_sie (Z.lor (Z.lor (Z.lor x SIE_SEIE) SIE_STIE) SIE_SSIE) in
  do! w_pmpaddr0 0x3fffffffffffff in
  do! w_pmpcfg0 0xf in
  do! timerinit in
  let! h := r_mhartid in
  w_tp (s32 h).

End Start.

(** * main.c *)

(** the writes of uartinit(): baud rate, word length, FIFOs, interrupts *)
Definition uartinit : M Mach unit :=
  for_each [(1, 0); (3, 0x80); (0, 3); (1, 0); (3, 3); (2, Z.lor 1 6); (1, Z.lor 2 1)] (λ w, w_mmio (UART0 + w.1) w.2).

(** devsw[CONSOLE] is part of the file model *)
Definition consoleinit : M Mach unit := uartinit.

Section Main.
Context `{KernelImage, !KernelImageOk} `{Symbols} `{VirtioMmio}.

Definition main_boot : M Mach unit :=
  do! consoleinit in
  do! mdo (printf [NL] []) in
  do! mdo (printf (bytes_of "xv6 kernel is booting" ++ [NL]) []) in
  do! mdo (printf [NL] []) in
  do! mdo (phy_do kinit) in
  do! kvminit in
  do! kvminithart in
  do! mdo procinit in
  do! trapinithart in
  do! plicinit in
  do! plicinithart in
  do! mdo binit in
  do! mdo iinit in
  do! ddo virtio_disk_init in
  mdo userinit.

(** a hart other than 0, once started is set *)
Definition main_other : M Mach unit :=
  let! id := cpuid in
  do! mdo (printf (bytes_of "hart %d starting" ++ [NL]) [PInt id]) in
  do! kvminithart in
  do! trapinithart in
  plicinithart.

Definition main : M Mach unit :=
  let! id := cpuid in
  do! (if id =? 0 then main_boot else main_other) in
  mdo scheduler.

End Main.
