(* ===== verification/BootSpec.v ===== *)
(** What booting this kernel comes to. *)

From S2P Require Import Prelude Mem Layout Kalloc Vm State Sched Console ConsoleSpec Proc Virtio Trap Boot.

(** memory and the kernel's data as they are loaded, the console's transmitter ready *)
Record booting (m : gmap Z Z) (s : Mach) : Prop := {
  bo_mem : phy (mk s) = phys_boot m;
  bo_held : held (mk s) = [];
  bo_tx : tx_ready (mk s);
}.

(** a format without conversions is sent as it is *)
Definition plain (fmt : list Z) : bool := forallb (λ c, (0 <? c) && (c <? 256) && negb (c =? PERCENT)) fmt.

Lemma wp_printf_plain fmt (Q : unit → K → Prop) E s : plain fmt = true → tx_ready s → (LkPr ∉ held s) → (∀ s', emits fmt s s' → Q tt s') → wp (printf fmt []) Q E s.
Proof.
  intros Hf Hr Hl HQ. unfold printf. apply wp_bind, wp_acquire; [done|]. apply wp_bind.
  assert (∀ fmt t (R : unit → K → Prop), plain fmt = true → tx_ready t → (∀ t', emits fmt t t' → R tt t') → wp (printf_loop fmt []) R E t) as Hloop.
  { clear. intros fmt. induction fmt as [|c fmt IH]; intros t R Hf Hr HR; cbn [printf_loop]; [apply wp_ret, HR, emits_nil|].
    cbn in Hf. apply andb_prop in Hf as [Hc Hf]. rewrite !andb_true_iff in Hc. destruct Hc as [[H0 H1] Hp]. apply Z.ltb_lt in H0, H1.
    rewrite (proj2 (Z.eqb_neq c 0)), Hp by lia. apply wp_bind, wp_consputc; [done|]. intros t1 He.
    assert (echo c = [c]) as Ec by (unfold echo, BACKSPACE, u8; rewrite (proj2 (Z.eqb_neq c 256)), Z.mod_small by lia; done). rewrite Ec in He.
    apply IH; [done|by eapply emits_ready|]. intros t2 H2. apply HR, (emits_app [c] fmt _ _ _ He H2). }
  apply Hloop; [done|done|]. intros s' (l & -> & Hle). cbn in Hle.
  eapply wp_release_head; [reflexivity|]. apply HQ. exists l. split; [|done]. kst. by destruct s.
Qed.

(** what has been done to the machine so far: bytes sent, device registers written; nothing else *)
Definition set_up (out : list Z) (ws : list (Z * Z)) (s s' : Mach) : Prop :=
  ∃ k, emits out (mk s) k ∧ s' = set_mk k (set_mmio (mmio s ++ ws) s).

Lemma set_up_emits out ws s s1 o k : set_up out ws s s1 → emits o (mk s1) k → set_up (out ++ o) ws s (set_mk k s1).
Proof. intros (k1 & H1 & ->) H2. exists k. split; [by eapply emits_app|done]. Qed.
Lemma set_up_keep out ws s s1 m : set_up out ws s s1 → booting m s → booting m s1.
Proof. intros (k & (l & -> & Hl) & ->) [H1 H2 H3]. split; [exact H1|exact H2|]. unfold tx_ready in *. cbn in *. lia. Qed.

Lemma wp_boot_printf m out ws s fmt (Q : unit → Mach → Prop) E s1 : plain fmt = true → booting m s → set_up out ws s s1 →
  (∀ s', set_up (out ++ fmt) ws s s' → Q tt s') → wp (mdo (printf fmt [])) Q E s1.
Proof.
  intros Hf HB HU HQ. pose proof (set_up_keep _ _ _ _ m HU HB) as HB1. apply wp_lift, wp_printf_plain; [done|apply HB1|rewrite (bo_held _ _ HB1); apply not_elem_of_nil|].
  intros k He. by apply HQ, set_up_emits.
Qed.

(** the registers uartinit() writes *)
Definition uart_setup : list (Z * Z) := [(UART0 + 1, 0); (UART0 + 3, 0x80); (UART0 + 0, 3); (UART0 + 1, 0); (UART0 + 3, 3); (UART0 + 2, 7); (UART0 + 1, 3)].

Lemma wp_uartinit (Q : unit → Mach → Prop) E s : (∀ s', set_up [] uart_setup s s' → Q tt s') → wp uartinit Q E s.
Proof.
  intros HQ. unfold uartinit. cbn [for_each]. unfold w_mmio. repeat apply wp_bind, wp_modify. apply wp_ret, HQ.
  exists (mk s). split; [apply emits_nil|]. destruct s as [[] ? w ? ? ?]. unfold set_mk, set_md, set_mmio, uart_setup. cbn. by rewrite <- !(assoc_L (++)).
Qed.

Definition banner : list Z := [NL] ++ bytes_of "xv6 kernel is booting" ++ [NL; NL].

Section Boot.
Context `{KernelImage, !KernelImageOk} `{Symbols} `{VirtioMmio}.

(** kinit() leaves no page for the kernel's page table *)
Lemma wp_no_page m {A} (k : unit → M Mach A) Q (E : string → Mach → Prop) s : booting m s →
  (∀ ph, kinit (phys_boot m) = Ret tt ph → freelist ph = 0 → kalloc ph = Panic "assert failed" ph → E "assert failed" (set_mk (set_phy ph (mk s)) s)) →
  wp (do! mdo (phy_do kinit) in mbnd kvminit k) Q E s.
Proof.
  intros HB HE. apply wp_bind, wp_lift, wp_lift. rewrite (bo_mem _ _ HB). destruct (proj1 (wp_returns _ _ _) (kinit_boot m)) as ([] & ph & Ek & HI).
  assert (kalloc ph = Panic "assert failed" ph) as Ea by (unfold kalloc, mbnd, get; cbn [obind]; by rewrite (bi_free _ _ HI)).
  unfold wp at 1. rewrite Ek. apply wp_bind. unfold kvminit. apply wp_bind, wp_lift, wp_lift.
  unfold kvmmake. apply wp_bind. cbn. unfold wp. rewrite Ea. apply (HE ph Ek (bi_list _ _ HI) Ea).
Qed.

(** C39: this kernel does not boot.  Hart 0 initialises the UART, prints its banner and calls kinit(), which leaves
    the free list empty; then the first page kvminit() asks for fails kalloc()'s assertion and main() panics.  Besides
    the UART's registers, the bytes of the banner and what kinit() wrote, the machine is at that point as it was when main()
    was entered: no register (satp, stvec, sie, sstatus, ...) has been written, so paging and interrupts are not set up,
    there is no kernel page table and no process, and the scheduler has not been entered. *)
Theorem boot_panics m s : booting m s → csrs s Tp = 0 →
  ∃ ph s', main s = Panic "assert failed" s' ∧
    kinit (phys_boot m) = Ret tt ph ∧ phy (mk s') = ph ∧ freelist ph = 0 ∧ kalloc ph = Panic "assert failed" ph ∧
    tx_out (uart0 (mk s')) = tx_out (uart0 (mk s)) ++ banner ∧ mmio s' = mmio s ++ uart_setup ∧
    csrs s' = csrs s ∧ kernel_pagetable s' = kernel_pagetable s ∧ dv (md s') = dv (md s) ∧
    procs (mk s') = procs (mk s) ∧ cur (mk s') = cur (mk s) ∧ intr (mk s') = intr (mk s) ∧ held (mk s') = [].
Proof.
  intros HB Htp.
  pose (E := λ (msg : string) (s' : Mach), ∃ ph s1, msg = "assert failed" ∧ kinit (phys_boot m) = Ret tt ph ∧ freelist ph = 0 ∧ kalloc ph = Panic "assert failed" ph ∧
    set_up banner uart_setup s s1 ∧ s' = set_mk (set_phy ph (mk s1)) s1).
  assert (wp main (λ _ _, False) E s) as HW.
  { unfold main, cpuid. apply wp_bind, wp_bind, wp_gets, wp_ret. rewrite Htp. cbn [s32 swrap Z.eqb]. apply wp_bind. unfold main_boot, consoleinit.
    apply wp_bind, wp_uartinit. intros s1 HU. do 3 (eapply wp_bind, wp_boot_printf; [reflexivity|exact HB|exact HU|]; clear HU s1; intros s1 HU).
    apply (wp_no_page m); [by eapply set_up_keep|]. intros ph Ek Hf Ha. by exists ph, s1. }
  unfold wp in HW. destruct (main s) as [|msg s'| | | |]; try done. destruct HW as (ph & s1 & -> & Ek & Hf & Ha & (k & (l & -> & _) & ->) & ->).
  exists ph. eexists. repeat (split; [done|]). apply HB.
Qed.
End Boot.

Module Boot0.
Import Image0.
#[local] Instance symbols0 : Symbols := {| trampoline := 0x80006000; etext := 0x80007000; forkret_pc := 0; usertrap_pc := 0; uservec_off := 0; userret_off := 0; kernelvec_pc := 0 |}.
#[local] Instance regs0 : VirtioMmio := {| mmio_read := λ _ _, 0 |}.
Definition queue : vdisk := mkVdisk [] 0 [] 0 [] [] 0 [] [] [].
Definition reset : Mach := mkMach (mkDK (k_boot ∅) queue) (λ _, 0) [] [] 0 [].

Lemma boot_panics_witness : ∃ s', main reset = Panic "assert failed" s' ∧ tx_out (uart0 (mk s')) = banner ∧ csrs s' Satp = 0.
Proof.
  destruct (boot_panics ∅ reset) as (ph & s' & E & _ & _ & _ & _ & Ht & _ & Hc & _); [split; [reflexivity|reflexivity|unfold tx_ready; cbn; lia]|reflexivity|].
  exists s'. split; [exact E|]. split; [exact Ht|]. by rewrite Hc.
Defined.
End Boot0.
