(* ===== verification/Grep.v ===== *)
(** user/grep.c: the matcher of patterns with ^ . * $, and the loop that prints
    the matching lines of a file.

    C strings are lists of bytes without the final zero.  [lang] says what a
    pattern means; [match_] is the code. *)

From S2P Require Import Prelude.

Definition CARET : Z := 94.
Definition DOT : Z := 46.
Definition STAR : Z := 42.
Definition DOLLAR : Z := 36.
Definition NEWLINE : Z := 10.

(** * The matcher *)

(** matchstar(c, re, text), with matchhere(re, _) as [here] *)
Fixpoint matchstar (c : Z) (here : list Z → bool) (text : list Z) : bool :=
  if here text then true else
  match text with
  | [] => false
  | x :: t => if (x =? c) || (c =? DOT) then matchstar c here t else false
  end.

Fixpoint matchhere (re text : list Z) {struct re} : bool :=
  match re with
  | [] => true
  | c :: re1 =>
      let literal :=
        if (c =? DOLLAR) && (match re1 with [] => true | _ => false end)
        then match text with [] => true | _ => false end
        else match text with
             | [] => false
             | x :: t => if (c =? DOT) || (c =? x) then matchhere re1 t else false
             end in
      match re1 with
      | d :: re2 => if d =? STAR then matchstar c (matchhere re2) text else literal
      | [] => literal
      end
  end.

Fixpoint match_any (re text : list Z) {struct text} : bool :=
  if matchhere re text then true else
  match text with
  | [] => false
  | _ :: t => match_any re t
  end.
Definition match_ (re text : list Z) : bool :=
  match re with
  | c :: re1 => if c =? CARET then matchhere re1 text else match_any re text
  | [] => match_any re text
  end.

(** * grep() *)

(** what read(fd, buf, n) returns of the data still to come, one list per
    arrival; 0 bytes at the end of the file *)
Definition read_ (n : nat) (arrivals : list (list Z)) : list Z * list (list Z) :=
  match arrivals with
  | [] => ([], [])
  | a :: l => (take n a, match drop n a with [] => l | r => r :: l end)
  end.

(** the inner loop over the lines complete in the buffer: what is written, and
    what is left, where [cur] is the current line read so far; strchr() stops at
    a zero byte *)
Fixpoint grep_lines (pattern : list Z) (cur buf : list Z) : list Z * list Z :=
  match buf with
  | [] => ([], cur)
  | c :: b =>
      if c =? 0 then ([], cur ++ buf) else
      if c =? NEWLINE then
        let r := grep_lines pattern [] b in
        ((if match_ pattern cur then cur ++ [NEWLINE] else []) ++ r.1, r.2)
      else grep_lines pattern (cur ++ [c]) b
  end.

Definition BUFSIZE : nat := 1024.
(** the outer loop: [buf] holds the m bytes kept from before *)
Fixpoint grep_loop (fuel : nat) (pattern buf : list Z) (arrivals : list (list Z)) : option (list Z) :=
  match fuel with
  | O => None
  | S k =>
      let (got, rest) := read_ (BUFSIZE - length buf - 1) arrivals in
      if (length got <=? 0)%nat then Some [] else
      let r := grep_lines pattern [] (buf ++ got) in
      out ← grep_loop k pattern r.2 rest; Some (r.1 ++ out)
  end.
Definition grep (fuel : nat) (pattern : list Z) (arrivals : list (list Z)) : option (list Z) := grep_loop fuel pattern [] arrivals.

(** * What patterns mean *)

Inductive item := One (c : Z) | Star (c : Z).
(** the items of a pattern after ^, and whether it ends with $ *)
Fixpoint items (re : list Z) : list item * bool :=
  match re with
  | [] => ([], false)
  | c :: re1 =>
      match re1 with
      | [] => if c =? DOLLAR then ([], true) else ([One c], false)
      | d :: re2 => if d =? STAR then (Star c :: (items re2).1, (items re2).2) else (One c :: (items re1).1, (items re1).2)
      end
  end.

Definition ok (c x : Z) : Prop := c = DOT ∨ c = x.
Fixpoint lang (l : list item) (w : list Z) : Prop :=
  match l with
  | [] => w = []
  | One c :: l' => ∃ x w', w = x :: w' ∧ ok c x ∧ lang l' w'
  | Star c :: l' => ∃ u v, w = u ++ v ∧ Forall (ok c) u ∧ lang l' v
  end.

(** [text] has a match of [re] at its beginning *)
Definition here (re text : list Z) : Prop :=
  ∃ w post, text = w ++ post ∧ lang (items re).1 w ∧ ((items re).2 = true → post = []).

Lemma matchstar_spec c (f : list Z → bool) (P : list Z → Prop) text :
  (∀ t, f t = true ↔ P t) →
  matchstar c f text = true ↔ ∃ u v, text = u ++ v ∧ Forall (ok c) u ∧ P v.
Proof.
  intros Hf. induction text as [|x t IH]; simpl.
  - destruct (f []) eqn:E.
    + split; [|done]. intros _. exists [], []. split; [done|]. split; [constructor|by apply Hf].
    + split; [done|]. intros (u & v & Huv & _ & HP). symmetry in Huv. apply app_eq_nil in Huv as [-> ->]. apply Hf in HP. congruence.
  - destruct (f (x :: t)) eqn:E.
    + split; [|done]. intros _. exists [], (x :: t). split; [done|]. split; [constructor|by apply Hf].
    + destruct ((x =? c) || (c =? DOT)) eqn:Ec.
      * rewrite IH. split.
        -- intros (u & v & -> & Hu & HP). exists (x :: u), v. split; [done|]. split; [|done]. constructor; [|done].
           apply orb_true_iff in Ec as [?%Z.eqb_eq|?%Z.eqb_eq]; [by right|by left].
        -- intros ([|y u] & v & Huv & Hu & HP).
           ++ simpl in Huv. subst v. apply Hf in HP. congruence.
           ++ simpl in Huv. injection Huv as <- ->. exists u, v. split; [done|]. split; [by inversion Hu|done].
      * split; [done|]. intros ([|y u] & v & Huv & Hu & HP).
        -- simpl in Huv. subst v. apply Hf in HP. congruence.
        -- simpl in Huv. injection Huv as <- ->. inversion Hu as [|? ? Hy _]; subst. apply orb_false_iff in Ec as [?%Z.eqb_neq ?%Z.eqb_neq].
           destruct Hy; congruence.
Qed.

Lemma ok_eqb c x : (c =? DOT) || (c =? x) = true ↔ ok c x.
Proof. rewrite orb_true_iff, !Z.eqb_eq. done. Qed.

(** the step of a literal character that is not a final $ *)
Lemma here_one c l e text :
  (∃ w post, text = w ++ post ∧ lang (One c :: l) w ∧ (e = true → post = [])) ↔
  ∃ x t, text = x :: t ∧ ok c x ∧ ∃ w post, t = w ++ post ∧ lang l w ∧ (e = true → post = []).
Proof.
  split.
  - intros (w & post & -> & (x & w' & -> & Hx & Hl) & He). exists x, (w' ++ post). eauto 10.
  - intros (x & t & -> & Hx & w & post & -> & Hl & He). exists (x :: w), post. simpl. eauto 10.
Qed.

Lemma here_star c l e text :
  (∃ w post, text = w ++ post ∧ lang (Star c :: l) w ∧ (e = true → post = [])) ↔
  ∃ u v, text = u ++ v ∧ Forall (ok c) u ∧ ∃ w post, v = w ++ post ∧ lang l w ∧ (e = true → post = []).
Proof.
  split.
  - intros (w & post & -> & (u & v & -> & Hu & Hl) & He). exists u, (v ++ post). rewrite <- (assoc (++)). eauto 10.
  - intros (u & v & -> & Hu & w & post & -> & Hl & He). exists (u ++ w), post. rewrite <- (assoc (++)). simpl. eauto 10.
Qed.

Lemma matchhere_spec n re : (length re ≤ n)%nat → ∀ text, matchhere re text = true ↔ here re text.
Proof.
  revert re. induction n as [|n IH]; intros [|c re1] Hn text; simpl in Hn; try lia.
  1,2: split; [intros _; exists [], text; done|done].
  unfold here. cbn [matchhere items]. destruct re1 as [|d re2].
  - rewrite andb_true_r. destruct (Z.eqb_spec c DOLLAR) as [->|Hd]; cbn [fst snd].
    + destruct text as [|x t]; [split; [intros _; by exists [], []|done]|]. split; [done|].
      intros (w & post & E & Hw & He). simpl in Hw. subst w. rewrite (He eq_refl) in E. done.
    + rewrite here_one. destruct text as [|x t]; [naive_solver|]. destruct ((c =? DOT) || (c =? x)) eqn:Eo.
      * apply ok_eqb in Eo. split; [intros _|done]. exists x, t. split; [done|]. split; [done|]. by exists [], t.
      * split; [done|]. intros (x' & t' & [= <- <-] & Hx & _). apply ok_eqb in Hx. congruence.
  - simpl in Hn. destruct (Z.eqb_spec d STAR) as [->|Hd]; cbn [fst snd].
    + rewrite here_star. apply matchstar_spec. intros t. apply IH. lia.
    + rewrite here_one, andb_false_r. destruct text as [|x t]; [naive_solver|]. destruct ((c =? DOT) || (c =? x)) eqn:Eo.
      * apply ok_eqb in Eo. rewrite (IH (d :: re2)) by (simpl; lia). split.
        -- intros (w & post & H). exists x, t. split; [done|]. split; [done|]. by exists w, post.
        -- intros (x' & t' & [= <- <-] & _ & H). done.
      * split; [done|]. intros (x' & t' & [= <- <-] & Hx & _). apply ok_eqb in Hx. congruence.
Qed.

Lemma match_any_spec re text : match_any re text = true ↔ ∃ pre t, text = pre ++ t ∧ here re t.
Proof.
  induction text as [|x t IH]; cbn [match_any]; destruct (matchhere re _) eqn:E; pose proof (matchhere_spec (length re) re ltac:(lia)) as Hm.
  - split; [|done]. intros _. exists [], []. split; [done|]. by apply Hm.
  - split; [done|]. intros (pre & t & Ht & Hh). symmetry in Ht. apply app_eq_nil in Ht as [-> ->]. apply Hm in Hh. congruence.
  - split; [|done]. intros _. exists [], (x :: t). split; [done|]. by apply Hm.
  - rewrite IH. split.
    + intros (pre & t' & -> & Hh). by exists (x :: pre), t'.
    + intros ([|y pre] & t' & Ht & Hh); simpl in Ht; [subst t'; apply Hm in Hh; congruence|]. injection Ht as <- ->. by exists pre, t'.
Qed.

(** C31: grep's matcher recognises the language of its patterns.  For every
    pattern and line, match() answers 1 exactly when some stretch of the line
    is in the language of the pattern's items (a byte, any byte, or a byte
    repeated), starting at the beginning of the line after ^ and reaching its
    end before a final $. *)
Theorem match_language re text :
  match_ re text = true ↔
  let anchored := match re with c :: _ => c =? CARET | [] => false end in
  let body := if anchored then tail re else re in
  ∃ pre w post, text = pre ++ w ++ post ∧ lang (items body).1 w ∧
    (anchored = true → pre = []) ∧ ((items body).2 = true → post = []).
Proof.
  assert (match_any re text = true ↔ ∃ pre w post, text = pre ++ w ++ post ∧ lang (items re).1 w ∧ (false = true → pre = []) ∧ ((items re).2 = true → post = [])) as Hany.
  { rewrite match_any_spec. unfold here. split.
    - intros (pre & t & -> & w & post & -> & Hl & He). exists pre, w, post. done.
    - intros (pre & w & post & -> & Hl & _ & He). exists pre, (w ++ post). split; [done|]. by exists w, post. }
  destruct re as [|c re1]; [exact Hany|]. cbn [match_ tail]. destruct (c =? CARET); [|exact Hany].
  rewrite (matchhere_spec (length re1)) by lia. unfold here. split.
  - intros (w & post & -> & Hl & He). exists [], w, post. done.
  - intros (pre & w & post & -> & Hl & Hp & He). rewrite (Hp eq_refl). exists w, post. done.
Qed.

(** * The lines printed *)

(** the lines of an input, and what follows the last newline *)
Fixpoint lines (cur inp : list Z) : list (list Z) * list Z :=
  match inp with
  | [] => ([], cur)
  | c :: l => if c =? NEWLINE then (cur :: (lines [] l).1, (lines [] l).2) else lines (cur ++ [c]) l
  end.

Definition printed (pattern : list Z) (ls : list (list Z)) : list Z :=
  concat ((λ l, l ++ [NEWLINE]) <$> filter (λ l, match_ pattern l = true) ls).

Lemma grep_lines_spec pattern inp cur :
  0 ∉ inp → grep_lines pattern cur inp = (printed pattern (lines cur inp).1, (lines cur inp).2).
Proof.
  revert cur. induction inp as [|c l IH]; intros cur H0; simpl; [done|].
  destruct (Z.eqb_spec c 0) as [->|]; [set_solver|]. destruct (c =? NEWLINE); [|apply IH; set_solver].
  rewrite IH by set_solver. cbn [fst snd]. f_equal. unfold printed. rewrite filter_cons. destruct (match_ pattern cur) eqn:E.
  - by rewrite decide_True by done.
  - by rewrite decide_False by done.
Qed.

Lemma lines_app cur a b : lines cur (a ++ b) = ((lines cur a).1 ++ (lines (lines cur a).2 b).1, (lines (lines cur a).2 b).2).
Proof.
  revert cur. induction a as [|c l IH]; intros cur; simpl; [by destruct (lines cur b)|].
  destruct (c =? NEWLINE); rewrite IH; done.
Qed.

Lemma lines_plain cur a : NEWLINE ∉ a → lines cur a = ([], cur ++ a).
Proof.
  revert cur. induction a as [|c l IH]; intros cur Hn; simpl; [by rewrite app_nil_r|].
  destruct (Z.eqb_spec c NEWLINE) as [->|]; [set_solver|]. rewrite IH by set_solver. by rewrite <- (assoc (++)).
Qed.

Lemma lines_rest cur a : NEWLINE ∉ cur → NEWLINE ∉ (lines cur a).2.
Proof.
  revert cur. induction a as [|c l IH]; intros cur Hn; simpl; [done|].
  destruct (Z.eqb_spec c NEWLINE); simpl; apply IH; set_solver.
Qed.

(** every line, and the unfinished one, fits the buffer *)
Definition short (ls : list (list Z) * list Z) : Prop := Forall (λ l, (length l ≤ 1022)%nat) ls.1 ∧ (length ls.2 ≤ 1022)%nat.

Lemma short_cur cur a : short (lines cur a) → (length cur ≤ 1022)%nat.
Proof.
  revert cur. induction a as [|c l IH]; intros cur [H1 H2]; simpl in *; [done|].
  destruct (c =? NEWLINE); [by inversion H1|]. specialize (IH (cur ++ [c]) (conj H1 H2)). rewrite length_app in IH. simpl in IH. lia.
Qed.

Lemma read_split n arrivals :
  (1 ≤ n)%nat → Forall (λ a, a ≠ []) arrivals → arrivals ≠ [] →
  let r := read_ n arrivals in r.1 ≠ [] ∧ concat arrivals = r.1 ++ concat r.2 ∧ Forall (λ a, a ≠ []) r.2.
Proof.
  intros Hn HF Hne. destruct arrivals as [|a l]; [done|]. inversion HF as [|? ? Ha Hl]; subst. cbn [read_ fst snd].
  split; [destruct a, n; (done || lia)|]. destruct (drop n a) as [|d r] eqn:Ed; simpl.
  - split; [|done]. f_equal. rewrite <- (take_drop n a) at 1. by rewrite Ed, app_nil_r.
  - split; [|by constructor]. rewrite <- (take_drop n a) at 1. rewrite Ed, <- (assoc (++)). done.
Qed.

Lemma grep_loop_spec fuel pattern : ∀ buf arrivals,
  Forall (λ a, a ≠ []) arrivals → 0 ∉ concat arrivals → NEWLINE ∉ buf → 0 ∉ buf → short (lines buf (concat arrivals)) →
  (length (concat arrivals) < fuel)%nat →
  grep_loop fuel pattern buf arrivals = Some (printed pattern (lines buf (concat arrivals)).1).
Proof.
  induction fuel as [|k IH]; intros buf arrivals HF H0 HNL Hb0 Hs Hfuel; [lia|]. cbn [grep_loop].
  destruct (decide (arrivals = [])) as [->|Hne]; [done|].
  pose proof (short_cur _ _ Hs) as Hlen.
  destruct (read_split (BUFSIZE - length buf - 1) arrivals) as (Hgot & Hc & HF'); [unfold BUFSIZE; lia|done|done|].
  destruct (read_ (BUFSIZE - length buf - 1) arrivals) as [got rest]. cbn [fst snd] in *.
  destruct (Nat.leb_spec (length got) 0); [destruct got; [done|simpl in *; lia]|].
  rewrite Hc in H0, Hs, Hfuel |- *. rewrite length_app in Hfuel. rewrite lines_app in Hs |- *.
  rewrite grep_lines_spec by set_solver. rewrite lines_app, (lines_plain [] buf) by done. cbn [fst snd app].
  rewrite IH; [|done|set_solver|by apply lines_rest| | |lia].
  - simpl. f_equal. unfold printed. by rewrite filter_app, fmap_app, concat_app.
  - clear -H0 Hb0. revert buf Hb0. assert (0 ∉ got) as Hg by set_solver. clear H0. induction got as [|c l IHl]; intros buf Hb; simpl; [done|].
    destruct (c =? NEWLINE); simpl; apply IHl; set_solver.
  - destruct Hs as [Hs1 Hs2]. cbn [fst snd] in *. apply Forall_app in Hs1 as [_ Hs1]. done.
Qed.

(** However read() cuts the file into pieces, if it has no zero bytes and no line of
    more than 1022 bytes then grep() terminates and writes, in order, each complete
    line the pattern matches. *)
Theorem grep_prints pattern arrivals :
  Forall (λ a, a ≠ []) arrivals → 0 ∉ concat arrivals → short (lines [] (concat arrivals)) →
  grep (S (length (concat arrivals))) pattern arrivals = Some (printed pattern (lines [] (concat arrivals)).1).
Proof. intros H1 H2 H3. apply grep_loop_spec; [done|done|set_solver|set_solver|done|lia]. Qed.

(** A line of 1023 bytes ends the run: the buffer is full, read() is asked for 0
    bytes and its 0 is taken for the end of the file. *)
Lemma grep_stops_at_long_line pattern a rest :
  length a = 1023%nat → 0 ∉ a → NEWLINE ∉ a → grep 2 pattern (a :: rest) = Some [].
Proof.
  intros Hl H0 HNL. unfold grep. cbn [grep_loop]. unfold read_ at 1. change (BUFSIZE - length [] - 1)%nat with 1023%nat.
  rewrite (take_ge a) by lia. rewrite (drop_ge a) by lia. rewrite (proj2 (Nat.leb_gt _ _)) by lia.
  cbn [app]. rewrite grep_lines_spec, (lines_plain [] a) by done. cbn [fst snd app]. unfold read_. rewrite Hl.
  change (BUFSIZE - 1023 - 1)%nat with 0%nat. destruct rest; done.
Qed.
