(* ===== verification/ULib.v ===== *)
(** user/ulib.c and user/printf.c: the C library of user programs, over the
    program's byte memory, and what printf() writes as the list of bytes given to
    write(). *)

From S2P Require Import Prelude Mem Layout Kalloc State Sched Console.

(** * ulib.c *)

Definition u_strcpy (m : gmap Z Z) (s t : Z) : option (gmap Z Z) :=
  iter (λ '(m, s, t), let c := ld8 m t in let m' := st8 m s c in
          if c =? 0 then inr m' else inl (m', s + 1, t + 1)) (m, s, t).

Definition u_strcmp (m : gmap Z Z) (p q : Z) : option Z :=
  iter (λ '(p, q), if c_true (ld8 m p) && (ld8 m p =? ld8 m q) then inl (p + 1, q + 1) else inr (ld8 m p - ld8 m q)) (p, q).

Definition u_strlen (m : gmap Z Z) (s : Z) : option Z :=
  iter (λ n, if ld8 m (s + n) =? 0 then inr n else inl (n + 1)) 0.

Definition u_memset (m : gmap Z Z) (dst c n : Z) : gmap Z Z := fill_up (Z.to_nat n) m dst c.

(** the address, or 0 *)
Definition u_strchr (m : gmap Z Z) (s c : Z) : option Z :=
  iter (λ s, if ld8 m s =? 0 then inr 0 else if ld8 m s =? u8 c then inr s else inl (s + 1)) s.

(** gets(buf, max) on the bytes the console delivers: what it leaves in buf, and
    the bytes not read *)
Fixpoint u_gets (k : nat) (inp : list Z) : list Z * list Z :=
  match k with
  | O => ([], inp)
  | S k' =>
      match inp with
      | [] => ([], [])
      | c :: l => if (c =? 10) || (c =? 13) then ([c], l) else let r := u_gets k' l in (c :: r.1, r.2)
      end
  end.
Definition gets_buf (max : Z) (inp : list Z) : list Z * list Z := u_gets (Z.to_nat (max - 1)) inp.

(** the digits at the front; int arithmetic, which the callers keep in range *)
Fixpoint atoi_loop (n : Z) (s : list Z) : Z :=
  match s with
  | [] => n
  | c :: l => if (48 <=? c) && (c <=? 57) then atoi_loop (s32 (n * 10 + c - 48)) l else n
  end.
Definition atoi (s : list Z) : Z := atoi_loop 0 s.

Definition u_memmove (m : gmap Z Z) (dst src n : Z) : gmap Z Z :=
  if dst <? src then copy_up (Z.to_nat n) m dst src else copy_down (Z.to_nat n) m (dst + n) (src + n).
Definition u_memcmp (m : gmap Z Z) (s1 s2 n : Z) : Z := memcmp_loop (Z.to_nat n) m s1 s2.
Definition u_memcpy (m : gmap Z Z) (dst src n : Z) : gmap Z Z := u_memmove m dst src n.

(** * printf.c *)

Definition u_digits : list Z := bytes_of "0123456789ABCDEF".
Definition u_digit (d : Z) : Z := default 0 (u_digits !! Z.to_nat d).
Fixpoint u_digit_loop (fuel : nat) (x base : Z) : list Z :=
  match fuel with
  | O => []
  | S k => u_digit (x mod base) :: (if x / base =? 0 then [] else u_digit_loop k (x / base) base)
  end.
(** a 32-bit number has at most 32 digits *)
Definition u_printint (xx base : Z) (sgn : bool) : list Z :=
  let neg := sgn && (xx <? 0) in
  let x := if neg then u32 (- xx) else u32 xx in
  reverse (u_digit_loop 32 x base ++ (if neg then [45] else [])).
Definition u_printptr (x : Z) : list Z :=
  [48; 120] ++ ((λ i, u_digit (Z.shiftr (u64 (Z.shiftl x (4 * i))) 60)) <$> seqZ 0 16).

(** an argument; [None] is a null string *)
Inductive uarg := UInt (z : Z) | UStr (s : option (list Z)).
(** [None]: an argument is missing or of the wrong kind *)
Fixpoint u_vprintf (state : bool) (fmt : list Z) (ap : list uarg) : option (list Z) :=
  match fmt with
  | [] => Some []
  | c :: fmt' =>
      if negb state then
        if c =? 37 then u_vprintf true fmt' ap else app [c] <$> u_vprintf false fmt' ap
      else if c =? 100 then match ap with UInt z :: ap' => app (u_printint (s32 z) 10 true) <$> u_vprintf false fmt' ap' | _ => None end
      else if c =? 108 then match ap with UInt z :: ap' => app (u_printint (s32 z) 10 false) <$> u_vprintf false fmt' ap' | _ => None end
      else if c =? 120 then match ap with UInt z :: ap' => app (u_printint (s32 z) 16 false) <$> u_vprintf false fmt' ap' | _ => None end
      else if c =? 112 then match ap with UInt z :: ap' => app (u_printptr z) <$> u_vprintf false fmt' ap' | _ => None end
      else if c =? 115 then
        match ap with UStr t :: ap' => app (default (bytes_of "(null)") t) <$> u_vprintf false fmt' ap' | _ => None end
      else if c =? 99 then match ap with UInt z :: ap' => app [u8 z] <$> u_vprintf false fmt' ap' | _ => None end
      else if c =? 37 then app [c] <$> u_vprintf false fmt' ap
      else app [37; c] <$> u_vprintf false fmt' ap
  end.
Definition fprintf (fmt : list Z) (ap : list uarg) : option (list Z) := u_vprintf false fmt ap.

(** * Numbers *)

Lemma u_digit_dec d : 0 ≤ d < 10 → u_digit d = 48 + d.
Proof. intros Hd. assert (d = 0 ∨ d = 1 ∨ d = 2 ∨ d = 3 ∨ d = 4 ∨ d = 5 ∨ d = 6 ∨ d = 7 ∨ d = 8 ∨ d = 9) as H by lia. naive_solver. Qed.

Lemma atoi_loop_app n a b : Forall (λ c, 48 ≤ c ≤ 57) a → atoi_loop n (a ++ b) = atoi_loop (atoi_loop n a) b.
Proof.
  intros Ha. revert n. induction Ha as [|c l Hc _ IH]; intros n; [done|]. cbn [app atoi_loop].
  rewrite (proj2 (andb_true_iff _ _)) by lia. apply IH.
Qed.

Lemma digit_loop_dec fuel x :
  0 ≤ x < 10 ^ Z.of_nat fuel → x < 2 ^ 31 →
  Forall (λ c, 48 ≤ c ≤ 57) (reverse (u_digit_loop fuel x 10)) ∧ (fuel ≠ 0%nat → atoi (reverse (u_digit_loop fuel x 10)) = x).
Proof.
  revert x. induction fuel as [|k IH]; intros x Hx Hmax; [split; [constructor|done]|]. cbn [u_digit_loop].
  rewrite Nat2Z.inj_succ, Z.pow_succ_r in Hx by lia.
  pose proof (Z.mod_pos_bound x 10 ltac:(lia)) as Hm. pose proof (Z.div_mod x 10 ltac:(lia)) as Hdm. rewrite u_digit_dec by lia.
  rewrite reverse_cons. destruct (Z.eqb_spec (x / 10) 0) as [E|E].
  - split; [repeat constructor; lia|]. intros _. cbn. rewrite (proj2 (andb_true_iff _ _)) by lia. rewrite s32_small by lia. lia.
  - assert (0 < x / 10) by (pose proof (Z.div_pos x 10); lia). destruct (IH (x / 10)) as [Hd Ha]; [nia|lia|].
    assert (k ≠ 0%nat) as Hk by (intros ->; simpl in Hx; lia).
    split; [apply Forall_app; split; [done|repeat constructor; lia]|]. intros _. unfold atoi in *.
    rewrite atoi_loop_app by done. rewrite Ha by done. cbn. rewrite (proj2 (andb_true_iff _ _)) by lia. rewrite s32_small by lia. lia.
Qed.

(** Numbers survive printing.  For every int of the non-negative range, the
    bytes printf("%d") writes are decimal digits and atoi() reads the same
    number back from them; a negative one is printed as a minus sign in front of
    its absolute value. *)
Theorem printf_atoi_roundtrip x :
  0 ≤ x < 2 ^ 31 →
  fprintf [37; 100] [UInt x] = Some (u_printint x 10 true) ∧ Forall (λ c, 48 ≤ c ≤ 57) (u_printint x 10 true) ∧
  atoi (u_printint x 10 true) = x ∧ u_printint (- x - 1) 10 true = 45 :: reverse (u_digit_loop 32 (x + 1) 10).
Proof.
  intros Hx. assert (x < 10 ^ Z.of_nat 32) as Hp by (change (10 ^ Z.of_nat 32) with 100000000000000000000000000000000; lia).
  destruct (digit_loop_dec 32 x ltac:(lia) ltac:(lia)) as [Hd Ha].
  assert (u_printint x 10 true = reverse (u_digit_loop 32 x 10)) as E.
  { unfold u_printint. destruct (Z.ltb_spec x 0); [lia|]. cbn [andb]. rewrite app_nil_r. do 2 f_equal. apply Z.mod_small. lia. }
  rewrite E. split; [|split; [done|split; [by apply Ha|]]].
  - unfold fprintf. cbn [u_vprintf negb Z.eqb Pos.eqb]. rewrite s32_small, E by lia.
    cbn [fmap option_fmap option_map]. by rewrite app_nil_r.
  - unfold u_printint. destruct (Z.ltb_spec (- x - 1) 0); [|lia]. cbn [andb]. rewrite reverse_app.
    replace (- (- x - 1)) with (x + 1) by lia. assert (u32 (x + 1) = x + 1) as -> by (apply Z.mod_small; lia). done.
Qed.

Lemma printf_atoi_roundtrip_witness : atoi (u_printint 2147483647 10 true) = 2147483647.
Proof. apply (printf_atoi_roundtrip 2147483647); lia. Defined.

(** * Copies *)

(** ulib's memmove() and the kernel's agree: in spite of their different
    choices of direction both leave exactly the source's old bytes in the
    destination, overlapping or not, and every other byte alone. *)
Theorem u_memmove_memmove m dst src n x :
  0 ≤ n →
  ld8 (u_memmove m dst src n) x = ld8 (memmove m dst src n) x ∧
  ld8 (u_memmove m dst src n) x = if (dst <=? x) && (x <? dst + n) then ld8 m (src + (x - dst)) else ld8 m x.
Proof.
  intros Hn. rewrite ld8_memmove by done.
  assert (ld8 (u_memmove m dst src n) x = if (dst <=? x) && (x <? dst + n) then ld8 m (src + (x - dst)) else ld8 m x) as ->; [|done].
  unfold u_memmove. destruct (Z.ltb_spec dst src).
  - rewrite ld8_copy_up by lia. by rewrite Z2Nat.id.
  - rewrite ld8_copy_down by lia. rewrite Z2Nat.id by done. replace (dst + n - n) with dst by lia.
    destruct (_ && _); [|done]. f_equal. lia.
Qed.

Lemma u_memmove_memmove_witness :
  ld8 (u_memmove {[ 10 := 1; 11 := 2; 12 := 3 ]} 11 10 2) 12 = ld8 (memmove {[ 10 := 1; 11 := 2; 12 := 3 ]} 11 10 2) 12.
Proof. apply (u_memmove_memmove {[ 10 := 1; 11 := 2; 12 := 3 ]} 11 10 2 12). lia. Defined.
