(* ===== verification/Malloc.v ===== *)
(** user/umalloc.c: the allocator of user programs.

    The headers in the heap are the two maps of their fields, by address; reading
    a field no header has written is undefined.  [base] is the address of the static
    header, and [grow] says up to which sizes the kernel can grow the process. *)

From S2P Require Import Prelude.

Record heap := mkHeap {
  h_ptr : gmap Z Z;   (* s.ptr *)
  h_size : gmap Z Z;  (* s.size, in units of a header *)
  freep : Z;
  brk : Z;            (* the size of the process *)
}.
Definition set_hptr (v : gmap Z Z) (s : heap) : heap := mkHeap v (h_size s) (freep s) (brk s).
Definition set_hsize (v : gmap Z Z) (s : heap) : heap := mkHeap (h_ptr s) v (freep s) (brk s).
Definition set_freep (v : Z) (s : heap) : heap := mkHeap (h_ptr s) (h_size s) v (brk s).
Definition set_brk (v : Z) (s : heap) : heap := mkHeap (h_ptr s) (h_size s) (freep s) v.

(** sizeof(Header) *)
Definition HDR : Z := 16.

Definition ptr_of (p : Z) : M heap Z := λ s, match h_ptr s !! p with Some v => Ret v s | None => UB "p->s.ptr" end.
Definition size_of (p : Z) : M heap Z := λ s, match h_size s !! p with Some v => Ret v s | None => UB "p->s.size" end.
Definition put_ptr (p v : Z) : M heap unit := modify (λ s, set_hptr (<[p := v]> (h_ptr s)) s).
Definition put_size (p v : Z) : M heap unit := modify (λ s, set_hsize (<[p := u32 v]> (h_size s)) s).

Section Umalloc.
Variable base : Z.
Variable grow : Z → bool.

(** the free block after which [bp] belongs *)
Definition find (bp : Z) : M heap Z :=
  let! fp := gets freep in
  loop (λ p,
    let! n := ptr_of p in
    if (p <? bp) && (bp <? n) then ret (inr p) else
    if (n <=? p) && ((p <? bp) || (bp <? n)) then ret (inr p) else
    ret (inl n)) fp.

Definition free (ap : Z) : M heap unit :=
  let bp := ap - HDR in
  let! p := find bp in
  let! bs := size_of bp in
  let! n := ptr_of p in
  do! (if bp + HDR * bs =? n then
         let! ns := size_of n in
         do! put_size bp (bs + ns) in
         let! nn := ptr_of n in
         put_ptr bp nn
       else put_ptr bp n) in
  let! ps := size_of p in
  do! (if p + HDR * ps =? bp then
         let! bs := size_of bp in
         do! put_size p (ps + bs) in
         let! bn := ptr_of bp in
         put_ptr p bn
       else put_ptr p bp) in
  modify (set_freep p).

(** the system call; its argument is an int *)
Definition sbrk (n : Z) : M heap Z :=
  let! old := gets brk in
  if n <=? 0 then do! modify (set_brk (old + n)) in ret old
  else if grow (old + n) then do! modify (set_brk (old + n)) in ret old
  else ret (-1).

Definition morecore (nu : Z) : M heap Z :=
  let nu := if nu <? 4096 then 4096 else nu in
  let! p := sbrk (s32 (nu * HDR)) in
  if p =? -1 then ret 0 else
  do! put_size p nu in
  do! free (p + HDR) in
  gets freep.

Definition units (nbytes : Z) : Z := u32 ((nbytes + HDR - 1) / HDR + 1).

Definition malloc (nbytes : Z) : M heap Z :=
  let nunits := units nbytes in
  let! fp := gets freep in
  do! when (fp =? 0) (do! put_ptr base base in do! modify (set_freep base) in put_size base 0) in
  let! prevp := gets freep in
  let! p := ptr_of prevp in
  loop (λ '(prevp, p),
    let! sz := size_of p in
    if nunits <=? sz then
      let! p := (if sz =? nunits then
                   let! n := ptr_of p in
                   do! put_ptr prevp n in
                   ret p
                 else
                   do! put_size p (sz - nunits) in
                   let p := p + HDR * (sz - nunits) in
                   do! put_size p nunits in
                   ret p) in
      do! modify (set_freep prevp) in
      ret (inr (p + HDR))
    else
      let! fp := gets freep in
      if p =? fp then
        let! p := morecore nunits in
        if p =? 0 then ret (inr 0) else
        let! n := ptr_of p in
        ret (inl (p, n))
      else
        let! n := ptr_of p in
        ret (inl (p, n))) (prevp, p).
End Umalloc.
