(* ===== verification/MallocSpec.v ===== *)
(** The free list of user/umalloc.c is the sorted, coalesced list of the free part of
    the heap, and malloc() and free() move blocks between it and the program. *)

From Stdlib Require Import Sorting.Sorted.
From S2P Require Import Prelude Malloc.

(** * Chains of headers *)

(** each element of [l] points to the next one, the last one to [e] *)
Fixpoint chain (m : gmap Z Z) (l : list Z) (e : Z) : Prop :=
  match l with
  | [] => True
  | x :: l' => m !! x = Some (hd e l') ∧ chain m l' e
  end.

Lemma chain_app m l1 l2 e : chain m (l1 ++ l2) e ↔ chain m l1 (hd e l2) ∧ chain m l2 e.
Proof.
  induction l1 as [|x l1 IH]; cbn [app chain]; [tauto|]. rewrite IH. destruct l1 as [|y l1]; cbn; tauto.
Qed.
Lemma chain_insert m x v l e : x ∉ l → chain (<[x := v]> m) l e ↔ chain m l e.
Proof.
  induction l as [|y l IH]; [done|]. intros [Hx Hl]%not_elem_of_cons. cbn [chain]. rewrite IH by done. by rewrite lookup_insert_ne.
Qed.
Lemma chain_at m l1 x l2 e : chain m (l1 ++ x :: l2) e → m !! x = Some (hd e l2).
Proof. rewrite chain_app. cbn. tauto. Qed.
Lemma hd_app {A} (e : A) l1 l2 : hd e (l1 ++ l2) = hd (hd e l2) l1.
Proof. by destruct l1. Qed.

(** * The heap *)

(** a block: its address and its size in units; blocks in order with a gap between them *)
Abbreviation block := (Z * Z)%type.
Definition ends_at (b : block) : Z := b.1 + HDR * b.2.
Definition gaps : list block → Prop := StronglySorted (λ b c, ends_at b < c.1).
Definition inside (b : block) (x : Z) : Prop := b.1 ≤ x < ends_at b.
Definition covered (F : list block) (x : Z) : Prop := Exists (λ b, inside b x) F.
Definition apart (b c : block) : Prop := ends_at b ≤ c.1 ∨ ends_at c ≤ b.1.

Section Heap.
(** the static header lies below the heap, which starts at [lo] *)
Context (base lo : Z) (Hbase : 0 < base) (Hlo : base + HDR ≤ lo).

(** the free blocks [F] and the blocks [A] of the program *)
Record heap_ok (s : heap) (F : list block) (A : gmap Z Z) : Prop := {
  k_ring : chain (h_ptr s) (base :: F.*1) base;
  k_base : h_size s !! base = Some 0;
  k_fsize : Forall (λ b, h_size s !! b.1 = Some b.2) F;
  k_asize : map_Forall (λ a n, h_size s !! a = Some n) A;
  k_gaps : gaps F;
  k_fin : Forall (λ b, lo ≤ b.1 ∧ 0 < b.2 ∧ ends_at b ≤ brk s) F;
  k_ain : map_Forall (λ a n, lo ≤ a ∧ 0 < n ∧ ends_at (a, n) ≤ brk s) A;
  k_fa : Forall (λ b, map_Forall (λ a n, apart b (a, n)) A) F;
  k_aa : ∀ a n a' n', A !! a = Some n → A !! a' = Some n' → a ≠ a' → apart (a, n) (a', n');
  k_freep : freep s ∈ base :: F.*1;
  k_brk : lo ≤ brk s ≤ 2 ^ 36;
}.

Lemma gaps_app F1 F2 : gaps (F1 ++ F2) ↔ gaps F1 ∧ gaps F2 ∧ Forall (λ b, Forall (λ c, ends_at b < c.1) F2) F1.
Proof.
  unfold gaps. induction F1 as [|b F1 IH]; cbn [app].
  - split; [intros H; split_and!; [constructor|done|constructor]|tauto].
  - split.
    + inversion 1 as [|? ? H1 H2]; subst. apply IH in H1 as (H3 & H4 & H5). apply Forall_app in H2 as [H6 H7]. split_and!; [by constructor|done|by constructor].
    + intros (H1 & H2 & H3). inversion H1; subst. apply Forall_cons in H3 as [H3 H3']. constructor; [by apply IH|by apply Forall_app].
Qed.

(** a block that is apart from all free blocks splits them *)
Lemma split_at F bp n : gaps F → Forall (λ b, 0 < b.2 ∧ apart b (bp, n)) F → 0 < n →
  ∃ F1 F2, F = F1 ++ F2 ∧ Forall (λ b, ends_at b ≤ bp) F1 ∧ Forall (λ b, bp + HDR * n ≤ b.1) F2.
Proof.
  intros Hg HF Hn. induction F as [|b F IH]; [by exists [], []|]. inversion Hg as [|? ? Hg' Hb]; subst. apply Forall_cons in HF as [[Hb0 Hap] HF].
  destruct Hap as [H|H]; unfold ends_at in *; cbn [fst snd] in *.
  - destruct (IH Hg' HF) as (F1 & F2 & -> & H1 & H2). exists (b :: F1), F2. split_and!; [done|by constructor|done].
  - exists [], (b :: F). split_and!; [done|constructor|]. constructor; [done|]. apply (Forall_impl _ _ _ Hb). intros c Hc. cbn in Hc. unfold HDR in *. lia.
Qed.

Lemma sorted_hd (l : list Z) p : hd base l = base → StronglySorted Z.lt l → p ∈ l → p = base ∨ base < p.
Proof.
  intros Hh Hs Hp. destruct l as [|x l]; [by apply elem_of_nil in Hp|]. cbn in Hh. subst x. inversion Hs as [|? ? _ Hf]; subst.
  apply elem_of_cons in Hp as [->|Hp]; [by left|]. right. rewrite Forall_forall in Hf. by apply Hf.
Qed.

Lemma last_cases (F1 : list block) : ∃ l p, base :: F1.*1 = l ++ [p] ∧ ((F1 = [] ∧ l = [] ∧ p = base) ∨ ∃ F1' m, F1 = F1' ++ [(p, m)] ∧ l = base :: F1'.*1).
Proof.
  destruct F1 as [|[p m] F1' _] using rev_ind; [exists [], base; by split; [|left]|]. exists (base :: F1'.*1), p. split; [by rewrite fmap_app|]. right. by exists F1', m.
Qed.

Lemma gaps_length F b : gaps F → Forall (λ c, b ≤ c.1 ∧ 0 < c.2) F → ∀ e, Forall (λ c, ends_at c ≤ e) F → b ≤ e → HDR * Z.of_nat (length F) ≤ e - b.
Proof.
  revert b. induction F as [|c F IH]; intros b Hg HF e He Hbe; [cbn; lia|]. inversion Hg as [|? ? Hg' Hc]; subst. apply Forall_cons in HF as [Hc0 HF], He as [Hce He].
  assert (HDR * Z.of_nat (length F) ≤ e - ends_at c).
  { apply IH; [done| |done|done]. apply Forall_forall. intros d Hd. rewrite Forall_forall in Hc, HF. specialize (Hc d Hd). specialize (HF d Hd). cbn in Hc. lia. }
  unfold ends_at, HDR in *. cbn [length]. lia.
Qed.
Lemma ring_length s F A : heap_ok s F A → Z.of_nat (length F) < 2 ^ 33.
Proof.
  intros H. pose proof (k_brk _ _ _ H) as Hb. pose proof (k_fin _ _ _ H) as Hf.
  assert (HDR * Z.of_nat (length F) ≤ brk s - lo); [|unfold HDR in *; lia].
  apply (gaps_length F lo); [apply (k_gaps _ _ _ H)|apply (Forall_impl _ _ _ Hf); tauto|apply (Forall_impl _ _ _ Hf); tauto|lia].
Qed.
Lemma gaps_sorted F : gaps F → Forall (λ b, lo ≤ b.1 ∧ 0 < b.2) F → StronglySorted Z.lt (base :: F.*1).
Proof.
  intros Hg HF. constructor.
  - induction Hg as [|b F Hg IH Hb]; [constructor|]. apply Forall_cons in HF as [Hb0 HF]. rewrite fmap_cons. constructor; [by apply IH|].
    apply Forall_fmap. apply (Forall_impl _ _ _ Hb). intros c Hc. cbn in *. unfold ends_at, HDR in Hc. lia.
  - apply Forall_fmap. apply (Forall_impl _ _ _ HF). intros b Hb. cbn. unfold HDR in Hlo. lia.
Qed.

Lemma wp_ptr_of s p v (Q : Z → heap → Prop) E : h_ptr s !! p = Some v → Q v s → wp (ptr_of p) Q E s.
Proof. intros H HQ. unfold wp, ptr_of. by rewrite H. Qed.
Lemma wp_size_of s p v (Q : Z → heap → Prop) E : h_size s !! p = Some v → Q v s → wp (size_of p) Q E s.
Proof. intros H HQ. unfold wp, size_of. by rewrite H. Qed.

(** the loop of free() finds the place of [bp] from wherever it starts *)
Lemma wp_find s l p R2 bp : chain (h_ptr s) ((l ++ [p]) ++ R2) base → StronglySorted Z.lt ((l ++ [p]) ++ R2) → hd base (l ++ [p]) = base → base < bp →
  Forall (λ x, x < bp) (l ++ [p]) → Forall (λ x, bp < x) R2 → freep s ∈ (l ++ [p]) ++ R2 → Z.of_nat (length l + length R2) < 2 ^ 40 →
  wp (find bp) (λ r s', r = p ∧ s' = s) nopanic s.
Proof.
  intros Hc Hs Hhd Hb H1 H2 Hfp Hlen. set (R1 := l ++ [p]) in *. unfold find. apply wp_bind, wp_gets.
  assert (∀ a x b y, R1 ++ R2 = a ++ x :: y :: b → x < y) as Hasc.
  { intros a x b y E. rewrite E in Hs. clear -Hs. induction a as [|z a IH]; inversion Hs as [|? ? Hs' Hf]; subst; [by apply Forall_cons in Hf as [? _]|by apply IH]. }
  set (I := λ (n : Z) (x : Z) (s' : heap), s' = s ∧ ((∃ a b, R1 = a ++ x :: b ∧ n = Z.of_nat (length b)) ∨ (∃ a b, R2 = a ++ x :: b ∧ n = Z.of_nat (length b + 1 + length R1)))).
  assert (∃ n, I n (freep s) s ∧ 0 ≤ n < 2 ^ 64) as (n & HI & Hn).
  { assert (length R1 = S (length l)) as HR1 by (unfold R1; rewrite length_app; cbn; lia). apply elem_of_app in Hfp as [(a & b & E)%list_elem_of_split|(a & b & E)%list_elem_of_split].
    - exists (Z.of_nat (length b)). split; [split; [done|]; left; by exists a, b|]. apply (f_equal length) in E. rewrite length_app in E. cbn in E. lia.
    - exists (Z.of_nat (length b + 1 + length R1)). split; [split; [done|]; right; by exists a, b|]. apply (f_equal length) in E. rewrite length_app in E. cbn in E. lia. }
  apply (wp_loop_n _ I _ _ n); [|done|done]. clear n HI Hn. intros n x s' [-> [(a & b & E & ->)|(a & b & E & ->)]].
  - assert (x < bp) as Hx by (rewrite Forall_forall in H1; apply H1; rewrite E; apply elem_of_app; right; by left).
    assert (h_ptr s !! x = Some (hd base (b ++ R2))) as Hp by (apply (chain_at _ a x (b ++ R2)); rewrite E in Hc; by rewrite <- app_assoc in Hc).
    eapply wp_bind, wp_ptr_of; [exact Hp|]. destruct b as [|y b].
    + assert (x = p) as ->. { unfold R1 in E. apply app_inj_tail in E as [_ ?]. done. }
      cbn [app]. destruct R2 as [|z R2]; cbn [hd].
      * apply wp_if_f; [lia|]. apply wp_if_t; [|by apply wp_ret]. assert (p = base ∨ base < p) as Hp' by (apply (sorted_hd R1 p Hhd); [by rewrite app_nil_r in Hs|rewrite E; apply elem_of_app; right; by left]). lia.
      * apply Forall_cons in H2 as [Hz _]. apply wp_if_t; [lia|]. by apply wp_ret.
    + cbn [app hd]. assert (y < bp) as Hy by (rewrite Forall_forall in H1; apply H1; rewrite E; apply elem_of_app; right; right; by left).
      assert (x < y) as Hxy by (apply (Hasc a x (b ++ R2) y); rewrite E, <- app_assoc; done).
      apply wp_if_f; [lia|]. apply wp_if_f; [lia|]. apply wp_ret. exists (Z.of_nat (length b)). split; [cbn [length]; lia|]. split; [done|]. left. exists (a ++ [x]), b. by rewrite <- app_assoc.
  - assert (bp < x) as Hx by (rewrite Forall_forall in H2; apply H2; rewrite E; apply elem_of_app; right; by left).
    assert (h_ptr s !! x = Some (hd base b)) as Hp by (apply (chain_at _ (R1 ++ a) x b); rewrite E, app_assoc in Hc; done).
    eapply wp_bind, wp_ptr_of; [exact Hp|]. destruct b as [|y b]; cbn [hd].
    + apply wp_if_f; [lia|]. apply wp_if_f; [lia|]. apply wp_ret. assert (∃ R', R1 = base :: R') as [R' ER].
      { destruct R1 as [|z R'] eqn:ER; [|exists R'; by cbn in Hhd; subst z]. unfold R1 in ER. by destruct l. }
      exists (Z.of_nat (length R')). split; [rewrite ER; cbn [length]; lia|]. split; [done|]. left. by exists [], R'.
    + assert (x < y) as Hxy by (apply (Hasc (R1 ++ a) x b y); rewrite E, <- app_assoc; done).
      apply wp_if_f; [lia|]. apply wp_if_f; [lia|]. apply wp_ret. exists (Z.of_nat (length b + 1 + length R1)). split; [cbn [length]; lia|]. split; [done|]. right. exists (a ++ [x]), b. by rewrite <- app_assoc.
Qed.

(** * free() *)

Lemma gaps_mid G1 b G2 : gaps (G1 ++ b :: G2) ↔ gaps (G1 ++ G2) ∧ Forall (λ c, ends_at c < b.1) G1 ∧ Forall (λ c, ends_at b < c.1) G2.
Proof.
  rewrite !gaps_app. unfold gaps. split.
  - intros (H1 & H2 & H3). inversion H2 as [|? ? H4 H5]; subst. split_and!; [done|done| | |done]; apply (Forall_impl _ _ _ H3); intros c [? ?]%Forall_cons; done.
  - intros ((H1 & H2 & H3) & H4 & H5). split_and!; [done|by constructor|]. apply Forall_forall. intros c Hc. rewrite Forall_forall in H3, H4. constructor; auto.
Qed.

(** the block [b] takes the place of [bp] and of free blocks around it *)
Lemma rebuild s s' F A bp n G1 b G2 : heap_ok s F A → A !! bp = Some n → G1 ++ G2 ⊆ F → gaps (G1 ++ b :: G2) →
  chain (h_ptr s') (base :: (G1 ++ b :: G2).*1) base → h_size s' !! b.1 = Some b.2 → (∀ x, x ≠ b.1 → x ≠ bp → h_size s' !! x = h_size s !! x) →
  lo ≤ b.1 ∧ 0 < b.2 ∧ ends_at b ≤ brk s → (∀ a n', A !! a = Some n' → a ≠ bp → apart b (a, n')) → brk s' = brk s → freep s' ∈ base :: (G1 ++ b :: G2).*1 →
  heap_ok s' (G1 ++ b :: G2) (delete bp A).
Proof.
  intros H Hbp Hsub Hg Hc Hsz Hkeep Hb Hap Hbrk Hfp. pose proof (k_ain _ _ _ H bp n Hbp) as Hbpin. cbn in Hbpin.
  pose proof (k_fin _ _ _ H) as Hfin. pose proof (k_fa _ _ _ H) as Hfa. pose proof (k_fsize _ _ _ H) as Hfs. rewrite Forall_forall in Hfin, Hfa, Hfs.
  assert (∀ (P : block → Prop), (∀ c, c ∈ G1 ++ G2 → P c) → P b → Forall P (G1 ++ b :: G2)) as Hall.
  { intros P HG HPb. apply Forall_app. split; [|constructor; [done|]]; apply Forall_forall; intros c Hcc; apply HG; set_solver. }
  pose proof (proj1 (gaps_mid _ _ _) Hg) as (_ & Hg1 & Hg2). rewrite Forall_forall in Hg1, Hg2. split.
  - done.
  - rewrite Hkeep; [apply (k_base _ _ _ H)|unfold HDR in *; lia..].
  - apply Hall; [|done]. intros c Hcc. pose proof (Hfin c (Hsub c Hcc)). pose proof (Hfa c (Hsub c Hcc) bp n Hbp) as Hcb. cbn in Hcb.
    rewrite Hkeep; [by apply Hfs, Hsub| |unfold apart, ends_at, HDR in *; cbn in *; lia].
    apply elem_of_app in Hcc as [Hcc|Hcc]; [specialize (Hg1 c Hcc)|specialize (Hg2 c Hcc)]; cbn in *; unfold ends_at, HDR in *; lia.
  - intros a n' [Hne Ha]%lookup_delete_Some. pose proof (k_ain _ _ _ H a n' Ha) as Hain. cbn in Hain. specialize (Hap a n' Ha ltac:(congruence)).
    rewrite Hkeep; [by apply (k_asize _ _ _ H)| |congruence]. unfold apart, ends_at, HDR in *. cbn in *. lia.
  - done.
  - rewrite Hbrk. apply Hall; [|done]. intros c Hcc. by apply Hfin, Hsub.
  - rewrite Hbrk. intros a n' [Hne Ha]%lookup_delete_Some. by apply (k_ain _ _ _ H).
  - apply Hall; [intros c Hcc a n' [Hne Ha]%lookup_delete_Some; by apply (Hfa c (Hsub c Hcc))|]. intros a n' [Hne Ha]%lookup_delete_Some. apply Hap; [done|congruence].
  - intros a n1 a' n2 [_ H1]%lookup_delete_Some [_ H2]%lookup_delete_Some. by apply (k_aa _ _ _ H).
  - done.
  - rewrite Hbrk. apply (k_brk _ _ _ H).
Qed.

(** the first half of the linking: the block takes in the free block behind it *)
Lemma wp_join_next s F2 bp n (Q : unit → heap → Prop) : chain (h_ptr s) F2.*1 base → Forall (λ b, h_size s !! b.1 = Some b.2) F2 → gaps F2 →
  Forall (λ b, bp + HDR * n ≤ b.1 ∧ 0 < b.2 ∧ ends_at b ≤ 2 ^ 36) F2 → h_size s !! bp = Some n → lo ≤ bp → 0 < n →
  (∀ s1 n1 G2, s1 = mkHeap (<[bp := hd base G2.*1]> (h_ptr s)) (h_size s1) (freep s) (brk s) → G2 ⊆ F2 → gaps G2 → Forall (λ c, ends_at (bp, n1) < c.1) G2 →
    chain (h_ptr s) G2.*1 base → h_size s1 !! bp = Some n1 → (∀ x, x ≠ bp → h_size s1 !! x = h_size s !! x) →
    (n1 = n ∧ G2 = F2 ∨ ∃ m, F2 = (bp + HDR * n, m) :: G2 ∧ n1 = n + m) → Q tt s1) →
  wp (if bp + HDR * n =? hd base F2.*1 then
        let! ns := size_of (hd base F2.*1) in do! put_size bp (n + ns) in let! nn := ptr_of (hd base F2.*1) in put_ptr bp nn
      else put_ptr bp (hd base F2.*1)) Q nopanic s.
Proof.
  intros Hc Hsz Hg HF Hbs Hlb Hn HQ. destruct (Z.eqb_spec (bp + HDR * n) (hd base F2.*1)) as [E|E].
  - destruct F2 as [|[a m] F2]; [cbn in E; unfold HDR in *; lia|]. cbn [fmap list_fmap fst hd] in *. subst a. apply Forall_cons in Hsz as [Hm Hsz], HF as [Ha HF]. inversion Hg as [|? ? Hg' Hga]; subst. destruct Hc as [Hp Hc].
    cbn [fst snd] in *. eapply wp_bind, wp_size_of; [done|]. unfold put_size, put_ptr. eapply wp_bind, wp_modify. eapply wp_bind, wp_ptr_of; [done|]. apply wp_modify.
    assert (u32 (n + m) = n + m) as Hu by (apply u32_small; unfold ends_at, HDR in *; cbn in *; lia).
    apply (HQ _ (n + m) F2); cbn; [done|set_solver|done| |done|by rewrite lookup_insert_eq, Hu|intros x Hx; by rewrite lookup_insert_ne|right; by exists m].
    apply (Forall_impl _ _ _ Hga). intros c Hcc. unfold ends_at, HDR in *. cbn in *. lia.
  - unfold put_ptr. apply wp_modify. apply (HQ _ n F2); cbn; [done|done|done| |done|done|done|by left].
    destruct F2 as [|c F2]; [constructor|]. cbn in E. apply Forall_cons in HF as [Hcc HF]. inversion Hg as [|? ? Hg' Hga]; subst. constructor; [unfold ends_at; cbn in *; lia|].
    apply (Forall_impl _ _ _ Hga). intros d Hd. unfold ends_at, HDR in *. cbn in *. lia.
Qed.

Lemma sorted_before l p : StronglySorted Z.lt (l ++ [p]) → Forall (λ x, x < p) l.
Proof.
  induction l as [|x l IH]; intros H; [constructor|]. cbn in H. inversion H as [|? ? H1 H2]; subst. constructor; [|by apply IH].
  rewrite Forall_forall in H2. apply H2. apply elem_of_app. right. by left.
Qed.
Lemma sorted_app_l (l l' : list Z) : StronglySorted Z.lt (l ++ l') → StronglySorted Z.lt l.
Proof.
  induction l as [|x l IH]; intros H; [constructor|]. cbn in H. inversion H as [|? ? H1 H2]; subst. apply Forall_app in H2 as [H2 _]. constructor; auto.
Qed.

(** the new links: [p] points to the block [b], which points to the blocks behind it *)
Lemma chain_link m l p bp v R2 e : chain m (l ++ [p]) e → Forall (λ x, x < p) l → p < bp → Forall (λ x, bp < x) R2 → chain m R2 base → v = hd base R2 →
  chain (<[p := bp]> (<[bp := v]> m)) ((l ++ [p]) ++ bp :: R2) base ∧ chain (<[p := v]> (<[bp := v]> m)) ((l ++ [p]) ++ R2) base.
Proof.
  intros Hl Hlt Hpb HR2 Hc2 ->. rewrite chain_app in Hl. destruct Hl as [Hl _]. cbn in Hl.
  assert (p ∉ l) as Hpl by (intros Hin; rewrite Forall_forall in Hlt; specialize (Hlt p Hin); cbn in Hlt; lia).
  assert (bp ∉ l) as Hbl by (intros Hin; rewrite Forall_forall in Hlt; specialize (Hlt bp Hin); cbn in Hlt; lia).
  assert (p ∉ R2) as Hp2 by (intros Hin; rewrite Forall_forall in HR2; specialize (HR2 p Hin); cbn in HR2; lia).
  assert (bp ∉ R2) as Hb2 by (intros Hin; rewrite Forall_forall in HR2; specialize (HR2 bp Hin); cbn in HR2; lia).
  split; rewrite <- app_assoc; cbn [app]; rewrite chain_app; cbn [chain hd].
  - rewrite !chain_insert by done. rewrite lookup_insert_eq, lookup_insert_ne, lookup_insert_eq by lia. done.
  - rewrite !chain_insert by done. by rewrite lookup_insert_eq.
Qed.

Definition freed (F F' : list block) (bp n : Z) : Prop :=
  (∀ x, covered F' x ↔ covered F x ∨ inside (bp, n) x) ∧ ∃ b, b ∈ F' ∧ b.1 ≤ bp ∧ ends_at (bp, n) ≤ ends_at b.

Lemma covered_app F G x : covered (F ++ G) x ↔ covered F x ∨ covered G x.
Proof. apply Exists_app. Qed.
Lemma covered_cons b F x : covered (b :: F) x ↔ inside b x ∨ covered F x.
Proof. apply Exists_cons. Qed.

(** the second half: the block is taken in by the free block before it, or linked behind it *)
Lemma wp_join_prev s s1 F1 F2 A bp n n1 G2 l p : heap_ok s (F1 ++ F2) A → A !! bp = Some n → Forall (λ b, ends_at b ≤ bp) F1 → Forall (λ b, bp + HDR * n ≤ b.1) F2 →
  base :: F1.*1 = l ++ [p] → s1 = mkHeap (<[bp := hd base G2.*1]> (h_ptr s)) (h_size s1) (freep s) (brk s) → G2 ⊆ F2 → gaps G2 → Forall (λ c, ends_at (bp, n1) < c.1) G2 →
  chain (h_ptr s) G2.*1 base → h_size s1 !! bp = Some n1 → (∀ x, x ≠ bp → h_size s1 !! x = h_size s !! x) → (n1 = n ∧ G2 = F2 ∨ ∃ m, F2 = (bp + HDR * n, m) :: G2 ∧ n1 = n + m) →
  wp (let! ps := size_of p in
      do! (if p + HDR * ps =? bp then
         let! bs := size_of bp in do! put_size p (ps + bs) in let! bn := ptr_of bp in put_ptr p bn
       else put_ptr p bp) in
      modify (set_freep p))
    (λ _ s', ∃ F', heap_ok s' F' (delete bp A) ∧ brk s' = brk s ∧ freed (F1 ++ F2) F' bp n ∧ freep s' ∈ base :: (F1 ++ F2).*1) nopanic s1.
Proof.
  intros H Hbp HF1 HF2 El Es1 HG2 Hg2 Hgap Hc2 Hs1 Hkeep Hn1. pose proof (k_ain _ _ _ H bp n Hbp) as Hbin. cbn in Hbin. destruct Hbin as (Hb1 & Hn & Hb2).
  pose proof (k_fin _ _ _ H) as Hfin. pose proof (k_brk _ _ _ H) as Hbk. pose proof (k_gaps _ _ _ H) as Hg. pose proof (k_ring _ _ _ H) as Hring. pose proof (k_fa _ _ _ H) as Hfa. pose proof (k_fsize _ _ _ H) as Hfs.
  assert (StronglySorted Z.lt (base :: (F1 ++ F2).*1)) as Hsort by (apply gaps_sorted; [done|apply (Forall_impl _ _ _ Hfin); tauto]).
  rewrite fmap_app, app_comm_cons, El in Hsort, Hring. apply sorted_app_l, sorted_before in Hsort. rewrite chain_app in Hring. destruct Hring as [Hring _].
  apply gaps_app in Hg as (Hg1 & _ & Hg12). apply Forall_app in Hfin as [Hfin1 Hfin2], Hfa as [Hfa1 Hfa2], Hfs as [Hfs1 _].
  assert (ends_at (bp, n1) ≤ brk s ∧ 0 < n1) as [He1 Hn1p].
  { destruct Hn1 as [[-> _]|(m & -> & ->)]; [done|]. apply Forall_cons in Hfin2 as [Hm _]. unfold ends_at, HDR in *. cbn in *. lia. }
  assert (∀ a n', A !! a = Some n' → a ≠ bp → apart (bp, n1) (a, n')) as Hap.
  { intros a n' Ha Hne. pose proof (k_aa _ _ _ H bp n a n' Hbp Ha ltac:(congruence)) as Hx. pose proof (k_ain _ _ _ H a n' Ha) as Hain. destruct Hn1 as [[-> _]|(m & -> & ->)]; [done|].
    apply Forall_cons in Hfa2 as [Hm _]. specialize (Hm a n' Ha). cbn in Hm, Hain. unfold apart, ends_at, HDR in *. cbn in *. lia. }
  assert (∀ x, inside (bp, n1) x ∨ covered G2 x ↔ inside (bp, n) x ∨ covered F2 x) as Hcov.
  { intros x. destruct Hn1 as [[-> ->]|(m & -> & ->)]; [done|]. apply Forall_cons in Hfin2 as [Hm _]. rewrite covered_cons. unfold inside, ends_at, HDR in *. cbn in *.
    assert (bp ≤ x < bp + 16 * (n + m) ↔ bp ≤ x < bp + 16 * n ∨ bp + 16 * n ≤ x < bp + 16 * n + 16 * m) as -> by lia. tauto. }
  assert (∀ G1, G1 ⊆ F1 → Forall (λ b, Forall (λ c, ends_at b < c.1) G2) G1) as Hcross.
  { intros G1 HG1. apply Forall_forall. intros b Hb. rewrite Forall_forall in Hg12. specialize (Hg12 b (HG1 b Hb)). apply Forall_forall. intros c Hcc. rewrite Forall_forall in Hg12. by apply Hg12, HG2. }
  assert (Forall (λ x, bp < x) G2.*1) as HR2 by (apply Forall_fmap; apply (Forall_impl _ _ _ Hgap); intros c Hcc; cbn; unfold ends_at, HDR in *; cbn in *; lia).
  assert (p ∈ base :: (F1 ++ F2).*1) as Hpin by (rewrite fmap_app, app_comm_cons, El; apply elem_of_app; left; apply elem_of_app; right; by left).
  assert (∀ G1, G1 ⊆ F1 → gaps G1 → gaps (G1 ++ G2)) as Hg12' by (intros G1 HG1 HgG1; apply gaps_app; auto).
  assert (h_ptr s1 = <[bp := hd base G2.*1]> (h_ptr s)) as Ep by by rewrite Es1. assert (brk s1 = brk s) as Eb by by rewrite Es1.
  assert (p < bp → Forall (λ c, ends_at c < bp) F1 → let s' := set_freep p (set_hptr (<[p := bp]> (h_ptr s1)) s1) in
    ∃ F', heap_ok s' F' (delete bp A) ∧ brk s' = brk s ∧ freed (F1 ++ F2) F' bp n ∧ freep s' ∈ base :: (F1 ++ F2).*1) as Hlink.
  { intros Hpb Hlt s'. destruct (chain_link (h_ptr s) l p bp (hd base G2.*1) G2.*1 _ Hring Hsort Hpb HR2 Hc2 eq_refl) as [Hch _]. rewrite <- El in Hch.
    exists (F1 ++ (bp, n1) :: G2). split_and!; [|done| |done].
    - apply (rebuild s s' (F1 ++ F2) A bp n F1 (bp, n1) G2 H Hbp); [set_solver|by apply gaps_mid; auto|rewrite fmap_app, fmap_cons; cbn; by rewrite Ep|done|intros x _ Hx; by apply Hkeep|done|done|done|].
      cbn. rewrite fmap_app, app_comm_cons, El. apply elem_of_app. left. apply elem_of_app. right. by left.
    - split; [intros x; rewrite !covered_app, covered_cons, (Hcov x); tauto|]. exists (bp, n1). split_and!; [set_solver|done|]. destruct Hn1 as [[-> _]|(m & -> & ->)]; [done|].
      apply Forall_cons in Hfin2 as [Hm _]. unfold ends_at, HDR in *. cbn in *. lia. }
  unfold put_ptr, put_size. destruct F1 as [|[p' m] F1' _] using rev_ind.
  - destruct l as [|? l]; cbn in El; [|by destruct l]. injection El as <-. eapply wp_bind, wp_size_of; [rewrite Hkeep; [apply (k_base _ _ _ H)|unfold HDR in *; lia]|].
    apply wp_bind, wp_if_f; [unfold HDR in *; lia|]. apply wp_modify, wp_modify. apply Hlink; [unfold HDR in *; lia|constructor].
  - rewrite fmap_app, app_comm_cons in El. apply app_inj_tail in El as [<- E]. cbn in E. subst p'.
    apply Forall_app in HF1 as [_ HF1], Hfin1 as [_ Hfin1], Hfs1 as [_ Hfs1], Hfa1 as [_ Hfa1]. apply Forall_cons in HF1 as [HF1 _], Hfin1 as [Hfin1 _], Hfs1 as [Hfs1 _], Hfa1 as [Hfa1 _]. cbn in Hfs1. apply gaps_app in Hg1 as (Hg1' & _ & Hgp).
    assert (Forall (λ c, ends_at c < p) F1') as Hgp' by (apply (Forall_impl _ _ _ Hgp); intros c Hcc; by apply Forall_cons in Hcc as [? _]).
    eapply wp_bind, wp_size_of; [rewrite Hkeep; [exact Hfs1|unfold ends_at, HDR in *; cbn in *; lia]|]. apply wp_bind.
    destruct (Z.eqb_spec (p + HDR * m) bp) as [Eq|Ne].
    + eapply wp_bind, wp_size_of; [done|]. eapply wp_bind, wp_modify. eapply wp_bind, wp_ptr_of; [cbn; rewrite Ep; by rewrite lookup_insert_eq|]. apply wp_modify, wp_modify.
      assert (p < bp) as Hpb by (unfold ends_at, HDR in *; cbn in *; lia).
      destruct (chain_link (h_ptr s) (base :: F1'.*1) p bp (hd base G2.*1) G2.*1 _ Hring Hsort Hpb HR2 Hc2 eq_refl) as [_ Hch].
      assert (u32 (m + n1) = m + n1) as Hu by (apply u32_small; unfold ends_at, HDR in *; cbn in *; lia).
      exists (F1' ++ (p, m + n1) :: G2). split_and!; [|cbn; by rewrite Eb| |done].
      * eapply (rebuild s _ _ A bp n F1' (p, m + n1) G2 H Hbp); [set_solver| | | | | | |cbn; by rewrite Eb|].
        { apply gaps_mid. split_and!; [apply Hg12'; [set_solver|done]|done|]. apply (Forall_impl _ _ _ Hgap). intros c Hcc. unfold ends_at, HDR in *. cbn in *. lia. }
        { rewrite fmap_app, fmap_cons. cbn. rewrite Ep, <- app_assoc in *. exact Hch. }
        { cbn. by rewrite lookup_insert_eq, Hu. }
        { intros x Hx Hx'. cbn. rewrite lookup_insert_ne by (cbn in Hx; congruence). by apply Hkeep. }
        { unfold ends_at, HDR in *. cbn in *. lia. }
        { intros a n' Ha Hne. specialize (Hap a n' Ha Hne). specialize (Hfa1 a n' Ha). pose proof (k_ain _ _ _ H a n' Ha) as Hain. cbn in Hfa1, Hain. unfold apart, ends_at, HDR in *. cbn in *. lia. }
        { cbn. rewrite fmap_app, fmap_cons. right. apply elem_of_app. right. by left. }
      * split; [|exists (p, m + n1); split_and!; [set_solver|cbn; lia|]].
        -- intros x. rewrite !covered_app, !covered_cons. specialize (Hcov x). assert (inside (p, m + n1) x ↔ inside (p, m) x ∨ inside (bp, n1) x) as -> by (unfold inside, ends_at, HDR in *; cbn in *; lia).
           assert (¬ covered [] x) by by intros ?%Exists_nil. tauto.
        -- destruct Hn1 as [[-> _]|(m' & -> & ->)]; [unfold ends_at, HDR in *; cbn in *; lia|]. apply Forall_cons in Hfin2 as [Hm _]. unfold ends_at, HDR in *. cbn in *. lia.
    + apply wp_modify, wp_modify. apply Hlink; [unfold ends_at, HDR in *; cbn in *; lia|]. apply Forall_app. split; [|constructor; [unfold ends_at in *; cbn in *; lia|constructor]].
      apply (Forall_impl _ _ _ Hgp'). intros c Hcc. unfold ends_at, HDR in *. cbn in *. lia.
Qed.

Lemma wp_free s F A bp n : heap_ok s F A → A !! bp = Some n →
  wp (free (bp + HDR)) (λ _ s', ∃ F', heap_ok s' F' (delete bp A) ∧ brk s' = brk s ∧ freed F F' bp n ∧ freep s' ∈ base :: F.*1) nopanic s.
Proof.
  intros H Hbp. pose proof (k_ain _ _ _ H bp n Hbp) as Hbin. cbn in Hbin. destruct Hbin as (Hb1 & Hn & Hb2). pose proof (k_fin _ _ _ H) as Hfin. pose proof (k_brk _ _ _ H) as Hbk.
  destruct (split_at F bp n (k_gaps _ _ _ H)) as (F1 & F2 & EF & HF1 & HF2); [|done|].
  { apply Forall_forall. intros b Hb. rewrite Forall_forall in Hfin. split; [by apply Hfin|]. pose proof (k_fa _ _ _ H) as Hfa. rewrite Forall_forall in Hfa. by apply (Hfa b Hb bp n). }
  pose proof (k_ring _ _ _ H) as Hring. pose proof (k_gaps _ _ _ H) as Hg. pose proof (k_fsize _ _ _ H) as Hfs. pose proof (k_freep _ _ _ H) as Hfp. pose proof (ring_length s F A H) as Hlen.
  assert (StronglySorted Z.lt (base :: F.*1)) as Hsort by (apply gaps_sorted; [done|apply (Forall_impl _ _ _ Hfin); tauto]).
  rewrite EF in Hfin, Hg, Hfs. apply Forall_app in Hfin as [Hfin1 Hfin2], Hfs as [Hfs1 Hfs2]. apply gaps_app in Hg as (Hg1 & Hg2 & Hg12).
  destruct (last_cases F1) as (l & p & El & Hcase). rewrite EF, fmap_app, app_comm_cons, El in Hring, Hsort, Hfp.
  assert (base < bp) as Hbb by (unfold HDR in *; lia).
  assert (Forall (λ x, x < bp) (l ++ [p])) as HR1.
  { rewrite <- El. constructor; [done|]. apply Forall_fmap. apply Forall_forall. intros b Hb. rewrite Forall_forall in HF1, Hfin1. specialize (HF1 b Hb). specialize (Hfin1 b Hb). cbn in *. unfold ends_at, HDR in *. lia. }
  assert (Forall (λ x, bp < x) F2.*1) as HR2 by (apply Forall_fmap; apply (Forall_impl _ _ _ HF2); intros b Hb; cbn; unfold HDR in *; lia).
  unfold free. replace (bp + HDR - HDR) with bp by lia. eapply wp_bind, wp_post; [apply (wp_find s l p F2.*1 bp); try done|].
  { by rewrite <- El. }
  { rewrite EF, length_app in Hlen. apply (f_equal length) in El. cbn in El. rewrite length_fmap, length_app in El. cbn in El. rewrite length_fmap. lia. }
  intros ? s' [-> ->]. eapply wp_bind, wp_size_of; [by apply (k_asize _ _ _ H)|]. eapply wp_bind, wp_ptr_of; [rewrite <- app_assoc in Hring; exact (chain_at _ l p _ _ Hring)|].
  rewrite chain_app in Hring. destruct Hring as [Hring1 Hring2]. apply wp_bind. apply (wp_join_next s F2 bp n); try done; [|by apply (k_asize _ _ _ H)|].
  { apply Forall_forall. intros b Hb. rewrite Forall_forall in HF2, Hfin2. specialize (HF2 b Hb). specialize (Hfin2 b Hb). lia. }
  intros s1 n1 G2 Es1 HG2 Hg2' Hgap Hc2 Hs1 Hkeep1 Hn1. subst F. by apply (wp_join_prev s s1 F1 F2 A bp n n1 G2 l p).
Qed.

(** * malloc() *)

Lemma ring_pos s F A : heap_ok s F A → Forall (λ x, 0 < x) (base :: F.*1).
Proof.
  intros H. constructor; [done|]. apply Forall_fmap. apply (Forall_impl _ _ _ (k_fin _ _ _ H)). intros b Hb. cbn. unfold HDR in *. lia.
Qed.

(** the block sbrk() delivers, as one of the program's *)
Lemma heap_ok_grow s F A n : heap_ok s F A → 0 < n → brk s + HDR * n ≤ 2 ^ 36 →
  heap_ok (mkHeap (h_ptr s) (<[brk s := n]> (h_size s)) (freep s) (brk s + HDR * n)) F (<[brk s := n]> A) ∧ A !! brk s = None.
Proof.
  intros H Hn Hb. pose proof (k_brk _ _ _ H) as Hbk. pose proof (k_fin _ _ _ H) as Hfin. pose proof (k_fsize _ _ _ H) as Hfs. pose proof (k_fa _ _ _ H) as Hfa. rewrite Forall_forall in Hfin, Hfs, Hfa.
  assert (A !! brk s = None) as HA by (destruct (A !! brk s) as [m|] eqn:E; [|done]; pose proof (k_ain _ _ _ H _ _ E) as Hx; unfold ends_at, HDR in *; cbn in Hx; lia).
  split; [|done]. split; cbn.
  - apply (k_ring _ _ _ H).
  - rewrite lookup_insert_ne by (unfold HDR in *; lia). apply (k_base _ _ _ H).
  - apply Forall_forall. intros b Hbb. rewrite lookup_insert_ne; [by apply Hfs|]. pose proof (Hfin b Hbb). unfold ends_at, HDR in *. lia.
  - apply map_Forall_insert_2; [by rewrite lookup_insert_eq|]. intros a m Ha. rewrite lookup_insert_ne by congruence. by apply (k_asize _ _ _ H).
  - apply (k_gaps _ _ _ H).
  - apply Forall_forall. intros b Hbb. pose proof (Hfin b Hbb). unfold HDR in *. lia.
  - apply map_Forall_insert_2; [unfold ends_at; cbn; lia|]. intros a m Ha. pose proof (k_ain _ _ _ H a m Ha) as Hx. cbn in Hx. unfold HDR in *. lia.
  - apply Forall_forall. intros b Hbb. apply map_Forall_insert_2; [left; pose proof (Hfin b Hbb); cbn; lia|by apply Hfa].
  - intros a m a' m' Ha Ha' Hne. apply lookup_insert_Some in Ha as [[<- <-]|[Hn1 Ha]]; apply lookup_insert_Some in Ha' as [[<- <-]|[Hn2 Ha']]; [done| | |by apply (k_aa _ _ _ H)].
    + right. pose proof (k_ain _ _ _ H a' m' Ha') as Hx. cbn in Hx |- *. lia.
    + left. pose proof (k_ain _ _ _ H a m Ha) as Hx. cbn in Hx |- *. lia.
  - apply (k_freep _ _ _ H).
  - unfold HDR in *. lia.
Qed.

Context (grow : Z → bool) (Hgrow : ∀ z, grow z = true → z ≤ 2 ^ 36).

(** the units sbrk() is asked for *)
Definition core (nu : Z) : Z := if nu <? 4096 then 4096 else nu.

Lemma wp_morecore s F A nu : heap_ok s F A → 0 < nu < 2 ^ 27 →
  wp (morecore grow nu) (λ r s',
    (r = 0 ∧ s' = s ∧ grow (brk s + HDR * core nu) = false) ∨
    (∃ F', heap_ok s' F' A ∧ r = freep s' ∧ r ≠ 0 ∧ brk s' = brk s + HDR * core nu ∧ freed F F' (brk s) (core nu))) nopanic s.
Proof.
  intros H Hnu. unfold morecore, sbrk. fold (core nu). assert (nu ≤ core nu ∧ 0 < core nu < 2 ^ 27) as [Hle Hc] by (unfold core; case_bool; lia).
  rewrite s32_small by (unfold HDR; lia). pose proof (k_brk _ _ _ H) as Hbk. apply wp_bind, wp_bind, wp_gets. apply wp_if_f; [unfold HDR; lia|].
  replace (core nu * HDR) with (HDR * core nu) by lia. destruct (grow (brk s + HDR * core nu)) eqn:Eg.
  - apply wp_bind, wp_modify, wp_ret, wp_if_f; [unfold HDR in *; lia|]. unfold put_size. apply wp_bind, wp_modify. apply Hgrow in Eg.
    destruct (heap_ok_grow s F A (core nu) H) as [H' HA]; [lia|done|]. apply wp_bind. cbn [set_hsize set_brk h_size h_ptr]. rewrite u32_small by lia.
    eapply wp_post; [eapply (wp_free _ F (<[brk s := core nu]> A) (brk s) (core nu) H'); by rewrite lookup_insert_eq|].
    intros [] s' (F' & HF' & Hb & Hfr & Hfp). cbn in Hb. apply wp_gets. right. exists F'. rewrite delete_insert_id in HF' by done. split_and!; [done|done| |done|done].
    pose proof (ring_pos _ _ _ HF') as Hp. rewrite Forall_forall in Hp. pose proof (Hp _ (k_freep _ _ _ HF')). cbn in *. lia.
  - apply wp_ret, wp_if_t; [done|]. apply wp_ret. by left.
Qed.

Lemma sorted_nodup (l : list Z) : StronglySorted Z.lt l → NoDup l.
Proof.
  induction 1 as [|x l _ IH Hf]; constructor; [|done]. intros Hin. rewrite Forall_forall in Hf. specialize (Hf x Hin). cbn in Hf. lia.
Qed.

(** the block [p] of [n] units leaves the free list, which becomes [F'] *)
Definition taken (F F' : list block) (A : gmap Z Z) (p n : Z) : Prop :=
  A !! p = None ∧ ∀ x, covered F x ↔ covered F' x ∨ inside (p, n) x.

(** a block carved out of the free block [b]: what is left of it are the blocks [l] *)
Lemma carve s s' F1 b F2 A l p n : heap_ok s (F1 ++ b :: F2) A → Forall (λ c, 0 < c.2 ∧ b.1 = c.1 ∧ ends_at c ≤ p) l → (length l ≤ 1)%nat →
  b.1 ≤ p → 0 < n → ends_at (p, n) = ends_at b → (∀ x, inside b x ↔ covered l x ∨ inside (p, n) x) →
  chain (h_ptr s') (base :: (F1 ++ l ++ F2).*1) base → h_size s' !! p = Some n → Forall (λ c, h_size s' !! c.1 = Some c.2) l →
  (∀ x, x ≠ p → x ≠ b.1 → h_size s' !! x = h_size s !! x) → brk s' = brk s → freep s' ∈ base :: (F1 ++ l ++ F2).*1 →
  heap_ok s' (F1 ++ l ++ F2) (<[p := n]> A) ∧ taken (F1 ++ b :: F2) (F1 ++ l ++ F2) A p n.
Proof.
  intros H Hl Hl1 Hbp Hn He Hcov Hc Hsp Hsl Hkeep Hbrk Hfp. pose proof (k_gaps _ _ _ H) as Hg. apply gaps_mid in Hg as (Hg12 & Hg1 & Hg2).
  pose proof (k_fin _ _ _ H) as Hfin. pose proof (k_fa _ _ _ H) as Hfa. pose proof (k_fsize _ _ _ H) as Hfs.
  rewrite !Forall_app, !Forall_cons in Hfin, Hfa, Hfs. destruct Hfin as (Hfin1 & Hfb & Hfin2), Hfa as (Hfa1 & Hab & Hfa2), Hfs as (Hfs1 & Hfsb & Hfs2).
  assert (∀ c, c ∈ F1 ++ F2 → (ends_at c < b.1 ∨ ends_at b < c.1) ∧ 0 < c.2) as Haway.
  { intros c [Hcc|Hcc]%elem_of_app; rewrite Forall_forall in Hg1, Hg2, Hfin1, Hfin2; [specialize (Hg1 c Hcc); specialize (Hfin1 c Hcc)|specialize (Hg2 c Hcc); specialize (Hfin2 c Hcc)]; cbn in *; tauto. }
  assert (∀ a m, A !! a = Some m → apart b (a, m) ∧ 0 < m) as HabA by (intros a m Ha; split; [by apply Hab|apply (k_ain _ _ _ H a m Ha)]).
  assert (A !! p = None) as HAp.
  { destruct (A !! p) as [m|] eqn:E; [|done]. destruct (HabA p m E) as [Hx ?]. unfold apart, ends_at, HDR in *. cbn in *. lia. }
  assert (∀ P : block → Prop, Forall P F1 → Forall P l → Forall P F2 → Forall P (F1 ++ l ++ F2)) as Hall by (intros P ? ? ?; rewrite !Forall_app; done).
  split; [split|split; [done|]].
  - done.
  - rewrite Hkeep; [apply (k_base _ _ _ H)|unfold ends_at, HDR in *; lia..].
  - apply Hall; [|done|]; apply Forall_forall; intros c Hcc; (rewrite Hkeep; [rewrite Forall_forall in Hfs1, Hfs2; auto| |]; destruct (Haway c ltac:(set_solver)) as [Hx ?]; unfold ends_at, HDR in *; cbn in *; lia).
  - apply map_Forall_insert_2; [done|]. intros a m Ha. destruct (HabA a m Ha) as [Hx ?]. rewrite Hkeep; [by apply (k_asize _ _ _ H)| |]; unfold apart, ends_at, HDR in *; cbn in *; lia.
  - destruct l as [|c [|]]; [done| |cbn in Hl1; lia]. apply Forall_cons in Hl as [(Hc0 & Hc1 & Hc2) _]. apply gaps_mid. split_and!; [done|by rewrite <- Hc1|].
    apply (Forall_impl _ _ _ Hg2). intros d Hd. unfold ends_at, HDR in *. cbn in *. lia.
  - rewrite Hbrk. apply Hall; [done| |done]. apply (Forall_impl _ _ _ Hl). intros c Hcc. unfold ends_at, HDR in *. cbn in *. lia.
  - rewrite Hbrk. apply map_Forall_insert_2; [unfold ends_at, HDR in *; cbn in *; lia|apply (k_ain _ _ _ H)].
  - apply Hall; apply Forall_forall; intros c Hcc.
    + rewrite Forall_forall in Hfa1. apply map_Forall_insert_2; [|by apply Hfa1]. destruct (Haway c ltac:(set_solver)) as [Hx ?]. unfold apart, ends_at, HDR in *. cbn in *. lia.
    + rewrite Forall_forall in Hl. destruct (Hl c Hcc) as (Hc0 & Hc1 & Hc2). apply map_Forall_insert_2; [by left|]. intros a m Ha. destruct (HabA a m Ha) as [Hx ?]. unfold apart, ends_at, HDR in *. cbn in *. lia.
    + rewrite Forall_forall in Hfa2. apply map_Forall_insert_2; [|by apply Hfa2]. destruct (Haway c ltac:(set_solver)) as [Hx ?]. unfold apart, ends_at, HDR in *. cbn in *. lia.
  - intros a m a' m' Ha Ha' Hne. apply lookup_insert_Some in Ha as [[<- <-]|[Hn1 Ha]]; apply lookup_insert_Some in Ha' as [[<- <-]|[Hn2 Ha']]; [done| | |by apply (k_aa _ _ _ H)].
    + destruct (HabA a' m' Ha') as [Hx ?]. unfold apart, ends_at, HDR in *. cbn in *. lia.
    + destruct (HabA a m Ha) as [Hx ?]. unfold apart, ends_at, HDR in *. cbn in *. lia.
  - done.
  - rewrite Hbrk. apply (k_brk _ _ _ H).
  - intros x. rewrite !covered_app, covered_cons, (Hcov x). tauto.
Qed.

(** the body of malloc() when the block [p] is large enough *)
Definition carve_code (nunits prevp p sz : Z) : M heap Z :=
  let! p := (if sz =? nunits then
               let! n := ptr_of p in
               do! put_ptr prevp n in
               ret p
             else
               do! put_size p (sz - nunits) in
               let p := p + HDR * (sz - nunits) in
               do! put_size p nunits in
               ret p) in
  do! modify (set_freep prevp) in
  ret (p + HDR).

Lemma wp_carve s F A nunits prevp p sz : heap_ok s F A → prevp ∈ base :: F.*1 → h_ptr s !! prevp = Some p → h_size s !! p = Some sz → p ∈ base :: F.*1 → 0 < nunits ≤ sz →
  wp (carve_code nunits prevp p sz) (λ r s', ∃ q F', r = q + HDR ∧ heap_ok s' F' (<[q := nunits]> A) ∧ taken F F' A q nunits ∧ brk s' = brk s) nopanic s.
Proof.
  intros H Hprev Hnext Hsz Hp Hn. apply elem_of_cons in Hp as [->|Hp]; [rewrite (k_base _ _ _ H) in Hsz; simplify_eq; lia|].
  pose proof (ring_pos _ _ _ H) as Hpos. pose proof (k_fin _ _ _ H) as Hfin. pose proof (k_ring _ _ _ H) as Hring. pose proof (k_brk _ _ _ H) as Hbk.
  assert (p ≠ base) as Hpb by (apply list_elem_of_fmap in Hp as (b & -> & Hb); rewrite Forall_forall in Hfin; pose proof (Hfin b Hb); unfold HDR in *; lia).
  apply list_elem_of_split in Hprev as (l1 & l2 & ER). rewrite ER in Hring. pose proof (chain_at _ _ _ _ _ Hring) as E1. rewrite Hnext in E1. injection E1 as E1.
  destruct l2 as [|p' l2]; [by cbn in E1|]. cbn in E1. subst p'. change (prevp :: p :: l2) with ([prevp] ++ p :: l2) in ER. rewrite app_assoc in ER.
  assert (∃ F1 sz' F2, F = F1 ++ (p, sz') :: F2 ∧ base :: F1.*1 = l1 ++ [prevp] ∧ F2.*1 = l2) as (F1 & sz' & F2 & -> & El & <-).
  { clear -ER. destruct l1 as [|x l1]; cbn in ER; injection ER as <- ER.
    - destruct F as [|[q m] F]; [done|]. cbn in ER. injection ER as -> <-. by exists [], m, F.
    - rewrite <- app_assoc in ER. cbn in ER. apply fmap_app_inv in ER as (F1 & F2 & E1 & E2 & ->). destruct F2 as [|prev F2]; [done|]. destruct F2 as [|[q m] F2]; [done|]. cbn in E2. injection E2 as Ea Eb Ec. subst q.
      exists (F1 ++ [prev]), m, F2. split_and!; [by rewrite <- app_assoc|rewrite fmap_app; cbn; congruence|done]. }
  assert (sz' = sz) as -> by (pose proof (k_fsize _ _ _ H) as Hfs; rewrite Forall_app, Forall_cons in Hfs; destruct Hfs as (_ & Hx & _); cbn in Hx; rewrite Hsz in Hx; by injection Hx).
  rewrite Forall_app, Forall_cons in Hfin. destruct Hfin as (_ & Hfp & _). cbn in Hfp. unfold carve_code, put_ptr, put_size. apply wp_bind.
  rewrite chain_app in Hring. destruct Hring as [Hring1 Hring2]. cbn in Hring2.
  assert (StronglySorted Z.lt (base :: (F1 ++ (p, sz) :: F2).*1)) as Hsort by (apply gaps_sorted; [apply (k_gaps _ _ _ H)|apply (Forall_impl _ _ _ (k_fin _ _ _ H)); tauto]).
  apply sorted_nodup in Hsort. rewrite ER in Hsort. apply NoDup_app in Hsort as (Hnd1 & Hnd & _). apply NoDup_app in Hnd1 as (_ & Hnd1 & _).
  assert (prevp ∉ l1) as Hp1 by (intros Hin; apply (Hnd1 prevp Hin); by left).
  assert (prevp ∉ F2.*1) as Hp2 by (intros Hin; apply (Hnd prevp); [apply elem_of_app; right; by left|by right]).
  assert (sz ≤ 2 ^ 32 - 1) as Hsz32 by (unfold ends_at, HDR in *; cbn in *; lia).
  destruct (Z.eqb_spec sz nunits) as [->|Hne].
  - eapply wp_bind, wp_ptr_of; [exact (proj1 (proj2 Hring2))|]. apply wp_bind, wp_modify, wp_ret, wp_bind, wp_modify, wp_ret. exists p, (F1 ++ [] ++ F2). split; [done|].
    apply and_assoc. split; [|done]. apply (carve s _ F1 (p, nunits) F2 A [] p nunits H); try done; try (cbn; lia).
    + intros x. assert (¬ covered [] x) by by intros ?%Exists_nil. tauto.
    + cbn [app h_ptr set_hptr set_freep]. rewrite fmap_app, app_comm_cons, El, <- app_assoc, !chain_app. cbn [chain app hd]. rewrite !chain_insert by done. rewrite lookup_insert_eq. tauto.
    + cbn [app freep set_freep]. rewrite fmap_app, app_comm_cons, El. apply elem_of_app. left. apply elem_of_app. right. by left.
  - apply wp_bind, wp_modify, wp_bind, wp_modify, wp_ret, wp_bind, wp_modify, wp_ret. set (p' := p + HDR * (sz - nunits)).
    exists p', (F1 ++ [(p, sz - nunits)] ++ F2). split; [done|]. apply and_assoc. split; [|done].
    assert (base :: (F1 ++ [(p, sz - nunits)] ++ F2).*1 = base :: (F1 ++ (p, sz) :: F2).*1) as ER' by by rewrite !fmap_app.
    apply (carve s _ F1 (p, sz) F2 A [(p, sz - nunits)] p' nunits H); cbn [h_ptr h_size brk freep set_freep set_hsize]; try rewrite ER'.
    + constructor; [|constructor]. unfold p', ends_at, HDR. cbn. lia.
    + done.
    + unfold p', HDR. cbn. lia.
    + lia.
    + unfold p', ends_at, HDR. cbn. lia.
    + intros x. rewrite covered_cons. assert (¬ covered [] x) by by intros ?%Exists_nil.
      assert (inside (p, sz) x ↔ inside (p, sz - nunits) x ∨ inside (p', nunits) x) as -> by (unfold inside, p', ends_at, HDR; cbn; lia). tauto.
    + apply (k_ring _ _ _ H).
    + rewrite lookup_insert_eq, u32_small; [done|lia].
    + constructor; [|constructor]. cbn. rewrite lookup_insert_ne by (unfold p', HDR; lia). rewrite lookup_insert_eq, u32_small; [done|lia].
    + intros x Hx Hx'. by rewrite !lookup_insert_ne by (cbn in *; congruence).
    + done.
    + rewrite ER, <- app_assoc. apply elem_of_app. right. by left.
Qed.

(** the ring in the order of the search, which ends at freep *)
Lemma ring_round s F A : heap_ok s F A → ∃ p rem e, h_ptr s !! freep s = Some p ∧ chain (h_ptr s) (p :: rem) e ∧ last (p :: rem) = Some (freep s) ∧ p :: rem ≡ₚ base :: F.*1.
Proof.
  intros H. pose proof (k_ring _ _ _ H) as Hring. destruct (list_elem_of_split _ _ (k_freep _ _ _ H)) as (l1 & l2 & ER). rewrite ER in Hring. pose proof (chain_at _ _ _ _ _ Hring) as Hp.
  assert (hd base (l1 ++ [freep s]) = base) as Hhd by (destruct l1; cbn in *; congruence).
  change (freep s :: l2) with ([freep s] ++ l2) in Hring. rewrite app_assoc, chain_app in Hring. destruct Hring as [H1 H2].
  assert (chain (h_ptr s) (l2 ++ l1 ++ [freep s]) (hd base l2)) as Hc.
  { rewrite chain_app. split; [|done]. destruct l1; cbn in *; by rewrite Hhd. }
  destruct (l2 ++ l1 ++ [freep s]) as [|p rem] eqn:E; [by destruct l2, l1|]. exists p, rem, (hd base l2). split_and!.
  - rewrite Hp. f_equal. destruct l2 as [|y l2]; cbn in *; [destruct l1; cbn in *; congruence|congruence].
  - done.
  - rewrite <- E, app_assoc. by rewrite last_snoc.
  - rewrite <- E, ER. rewrite (Permutation_app_comm l2), <- app_assoc. done.
Qed.

Definition malloc_done (s : heap) (F : list block) (A : gmap Z Z) (nunits r : Z) (s' : heap) : Prop :=
  (r = 0 ∧ heap_ok s' F A ∧ brk s' = brk s ∧ grow (brk s + HDR * core nunits) = false) ∨
  ∃ q F', r = q + HDR ∧ heap_ok s' F' (<[q := nunits]> A) ∧ A !! q = None ∧ ∀ x, covered F' x ∨ inside (q, nunits) x ↔ covered F x ∨ brk s ≤ x < brk s'.

(** what the search knows: the links it follows, and before or after morecore() *)
Definition search (s : heap) (F : list block) (A : gmap Z Z) (nunits : Z) (n : Z) (pp : Z * Z) (s' : heap) : Prop :=
  ∃ F' rem e, heap_ok s' F' A ∧ pp.1 ∈ base :: F'.*1 ∧ h_ptr s' !! pp.1 = Some pp.2 ∧ chain (h_ptr s') (pp.2 :: rem) e ∧
    last (pp.2 :: rem) = Some (freep s') ∧ NoDup (pp.2 :: rem) ∧ pp.2 :: rem ⊆ base :: F'.*1 ∧
    ((s' = s ∧ F' = F ∧ n = Z.of_nat (length rem) + 2 ^ 40) ∨
     (n = Z.of_nat (length rem) ∧ (∃ x sz, x ∈ pp.2 :: rem ∧ h_size s' !! x = Some sz ∧ nunits ≤ sz) ∧ brk s' = brk s + HDR * core nunits ∧ freed F F' (brk s) (core nunits))).

Lemma ring_size s F A x : heap_ok s F A → x ∈ base :: F.*1 → ∃ sz, h_size s !! x = Some sz ∧ (x = base ∨ (x, sz) ∈ F).
Proof.
  intros H [->|(b & -> & Hb)%list_elem_of_fmap]%elem_of_cons; [exists 0; split; [apply (k_base _ _ _ H)|by left]|].
  exists b.2. pose proof (k_fsize _ _ _ H) as Hfs. rewrite Forall_forall in Hfs. split; [by apply Hfs|]. right. by destruct b.
Qed.

(** the start of a search *)
Lemma search_start s F A : heap_ok s F A → ∃ p rem e, h_ptr s !! freep s = Some p ∧ chain (h_ptr s) (p :: rem) e ∧ last (p :: rem) = Some (freep s) ∧
  NoDup (p :: rem) ∧ (∀ x, x ∈ p :: rem ↔ x ∈ base :: F.*1) ∧ Z.of_nat (length rem) < 2 ^ 34.
Proof.
  intros H. destruct (ring_round s F A H) as (p & rem & e & Hp & Hc & Hl & Hperm). exists p, rem, e. split_and!; [done|done|done| |intros x; by rewrite Hperm|].
  - rewrite Hperm. apply sorted_nodup, gaps_sorted; [apply (k_gaps _ _ _ H)|]. apply (Forall_impl _ _ _ (k_fin _ _ _ H)). tauto.
  - apply Permutation_length in Hperm. cbn in Hperm. rewrite length_fmap in Hperm. pose proof (ring_length s F A H). lia.
Qed.

(** the covered part of a heap that has grown by one freed block *)
Lemma freed_taken s s' F F1 F' A q nunits : lo ≤ brk s → (brk s' = brk s ∧ F1 = F ∨ brk s' = brk s + HDR * core nunits ∧ freed F F1 (brk s) (core nunits)) → taken F1 F' A q nunits →
  ∀ x, covered F' x ∨ inside (q, nunits) x ↔ covered F x ∨ brk s ≤ x < brk s'.
Proof.
  intros Hb Hs [_ Ht] x. rewrite <- (Ht x). destruct Hs as [[-> ->]|[-> [Hf _]]]; [assert (¬ (brk s ≤ x < brk s)) by lia; tauto|]. rewrite (Hf x). unfold inside, ends_at. cbn. tauto.
Qed.

Lemma malloc_step s F A nunits n prevp p s' : 0 < nunits < 2 ^ 27 → lo ≤ brk s → search s F A nunits n (prevp, p) s' →
  wp (let! sz := size_of p in
      if nunits <=? sz then let! r := carve_code nunits prevp p sz in ret (inr r)
      else
        let! fp := gets freep in
        if p =? fp then
          let! p := morecore grow nunits in
          if p =? 0 then ret (inr 0) else let! n := ptr_of p in ret (inl (p, n))
        else let! n := ptr_of p in ret (inl (p, n)))
    (λ r s'', match r with inl pp => ∃ n', 0 ≤ n' < n ∧ search s F A nunits n' pp s'' | inr b => malloc_done s F A nunits b s'' end) nopanic s'.
Proof.
  intros Hnu Hlb (F' & rem & e & H & Hprev & Hnext & Hc & Hlast & Hnd & Hsub & Hst). cbn [fst snd] in *.
  assert (p ∈ base :: F'.*1) as Hp by (apply Hsub; by left). destruct (ring_size s' F' A p H Hp) as (sz & Hsz & _). eapply wp_bind, wp_size_of; [done|].
  destruct (Z.leb_spec nunits sz) as [Hle|Hlt].
  { eapply wp_bind, wp_post; [apply (wp_carve s' F' A nunits prevp p sz); [done..|lia]|]. intros r s'' (q & F'' & -> & H'' & Ht & Hb). apply wp_ret. right. exists q, F''. split_and!; [done|done|apply Ht|].
    rewrite Hb. apply (freed_taken s s' F F' F'' A q nunits Hlb); [|done]. destruct Hst as [(-> & -> & _)|(_ & _ & Hb' & Hf)]; [by left|by right]. }
  apply wp_bind, wp_gets. destruct (Z.eqb_spec p (freep s')) as [Ep|Ep].
  - assert (rem = []) as ->.
    { destruct rem as [|y rem]; [done|]. exfalso. apply NoDup_cons in Hnd as [Hn _]. apply Hn. rewrite Ep. cbn [last] in Hlast. by apply last_Some_elem_of. }
    destruct Hst as [(-> & -> & ->)|(_ & (x & sz' & Hx & Hsx & Hge) & _)]; [|apply elem_of_cons in Hx as [->|Hx%elem_of_nil]; [|done]; rewrite Hsz in Hsx; simplify_eq; lia].
    eapply wp_bind, wp_post; [by apply (wp_morecore s F A nunits)|]. intros r s'' [(-> & -> & Hg)|(F'' & H'' & -> & Hr0 & Hb & Hf)].
    + apply wp_if_t; [done|]. apply wp_ret. left. by split_and!.
    + apply wp_if_f; [lia|]. destruct (search_start s'' F'' A H'') as (p2 & rem2 & e2 & Hp2 & Hc2 & Hl2 & Hn2 & Hin2 & Hlen2). eapply wp_bind, wp_ptr_of; [exact Hp2|]. apply wp_ret.
      exists (Z.of_nat (length rem2)). split; [cbn [length]; lia|]. exists F'', rem2, e2. cbn [fst snd]. split_and!; [done|apply (k_freep _ _ _ H'')|done|done|done|done|intros x Hx; by apply Hin2|].
      right. split_and!; [done| |done|done]. destruct Hf as (_ & b & Hbin & Hb1 & Hb2). destruct (ring_size s'' F'' A b.1 H'') as (sz2 & Hsz2 & _); [right; by apply list_elem_of_fmap_2|].
      exists b.1, b.2. split_and!; [apply Hin2; right; by apply list_elem_of_fmap_2| |].
      * pose proof (k_fsize _ _ _ H'') as Hfs. rewrite Forall_forall in Hfs. by apply Hfs.
      * assert (nunits ≤ core nunits) by (unfold core; case_bool; lia). unfold ends_at, HDR in *. cbn in *. lia.
  - destruct rem as [|y rem]; [cbn in Hlast; congruence|]. destruct Hc as [Hpy Hc]. cbn [hd] in Hpy. eapply wp_bind, wp_ptr_of; [done|]. apply wp_ret.
    apply NoDup_cons in Hnd as [Hn Hnd]. exists (n - 1). assert (0 ≤ n - 1) as Hn1 by (cbn [length] in Hst; destruct Hst as [(_ & _ & ->)|(-> & _)]; lia). split; [lia|].
    exists F', rem, e. cbn [fst snd]. split_and!; [done|done|done|done|done|done|set_solver|]. destruct Hst as [(-> & -> & ->)|(-> & (x & sz' & Hx & Hsx & Hge) & Hb & Hf)]; [left; split_and!; [done|done|cbn [length]; lia]|].
    right. split_and!; [cbn [length]; lia| |done|done]. exists x, sz'. split_and!; [|done|done]. apply elem_of_cons in Hx as [->|Hx]; [|done]. rewrite Hsz in Hsx. simplify_eq. lia.
Qed.

(** before the first call the list is not there yet *)
Definition heap_state (s : heap) (F : list block) (A : gmap Z Z) : Prop :=
  heap_ok s F A ∨ freep s = 0 ∧ F = [] ∧ A = ∅ ∧ lo ≤ brk s ≤ 2 ^ 36.

Lemma heap_init s : freep s = 0 → lo ≤ brk s ≤ 2 ^ 36 →
  heap_ok (mkHeap (<[base := base]> (h_ptr s)) (<[base := 0]> (h_size s)) base (brk s)) [] ∅.
Proof.
  intros _ Hb. split; cbn; rewrite ?lookup_insert_eq; try done; try apply SSorted_nil; try apply Forall_nil_2; try by left.
Qed.

Lemma wp_malloc s F A nbytes : heap_state s F A → 0 < units nbytes < 2 ^ 27 → wp (malloc base grow nbytes) (malloc_done s F A (units nbytes)) nopanic s.
Proof.
  intros Hs Hnu. unfold malloc. set (nunits := units nbytes) in *. apply wp_bind, wp_gets, wp_bind.
  apply (wp_post _ (λ _ s', heap_ok s' F A ∧ brk s' = brk s)).
  - destruct Hs as [H|(Hf & -> & -> & Hb)].
    + apply wp_when_f; [|done]. pose proof (ring_pos _ _ _ H) as Hp. rewrite Forall_forall in Hp. specialize (Hp _ (k_freep _ _ _ H)). cbn in Hp. lia.
    + apply wp_when_t; [lia|]. unfold put_ptr, put_size. apply wp_bind, wp_modify, wp_bind, wp_modify, wp_modify. split; [exact (heap_init s Hf Hb)|done].
  - intros [] s0 [H Hb0]. assert (malloc_done s0 F A nunits = malloc_done s F A nunits) as <- by (unfold malloc_done; by rewrite Hb0). clear Hs Hb0 s.
    apply wp_bind, wp_gets. destruct (search_start s0 F A H) as (p & rem & e & Hp & Hc & Hl & Hn & Hin & Hlen). eapply wp_bind, wp_ptr_of; [done|].
    apply (wp_loop_n _ (search s0 F A nunits) _ _ (Z.of_nat (length rem) + 2 ^ 40)); [|exists F, rem, e; cbn [fst snd]; split_and!; [done|apply (k_freep _ _ _ H)|done|done|done|done|intros x Hx; by apply Hin|by left]|lia].
    intros n [prevp q] s' HI. pose proof (malloc_step s0 F A nunits n prevp q s' Hnu ltac:(apply (k_brk _ _ _ H)) HI) as Hstep.
    apply wp_bind_iff in Hstep. apply wp_bind. eapply wp_post; [exact Hstep|]. intros sz s1. cbn beta. destruct (nunits <=? sz); [|done]. unfold carve_code. rewrite !wp_bind_iff. intros Hw.
    eapply wp_post; [exact Hw|]. intros q' s2 Hw2. cbn beta in Hw2. apply wp_bind_iff in Hw2. apply wp_bind_iff in Hw2. exact Hw2.
Qed.
End Heap.

Lemma units_spec nbytes : 0 ≤ nbytes < 2 ^ 31 - 32 → 0 < units nbytes < 2 ^ 27 ∧ nbytes + HDR ≤ HDR * units nbytes < nbytes + 2 * HDR.
Proof.
  intros Hn. unfold units, HDR. assert (0 ≤ (nbytes + 16 - 1) / 16 < 2 ^ 27 - 1) by (split; [apply Z.div_pos; lia|apply Z.div_lt_upper_bound; lia]).
  rewrite u32_small by lia. pose proof (Z.div_mod (nbytes + 16 - 1) 16). pose proof (Z.mod_pos_bound (nbytes + 16 - 1) 16). lia.
Qed.

(** C18: malloc() of less than 2^31 - 32 bytes ends, whatever the free list looks like.  Either the kernel
    refuses to grow the process by what morecore() asks for, the result is 0 and the heap is as it was; or the result points behind
    the header of a new block that is large enough, apart from every live block and from what is
    still free (the invariant [heap_ok] of the new heap), and was free before or has just been added
    to the heap: no unit of the heap is lost or handed out twice. *)
Theorem malloc_allocates base lo grow s F A nbytes : 0 < base → base + HDR ≤ lo → (∀ z, grow z = true → z ≤ 2 ^ 36) → heap_state base lo s F A → 0 ≤ nbytes < 2 ^ 31 - 32 →
  ∃ r s', malloc base grow nbytes s = Ret r s' ∧
  ((r = 0 ∧ grow (brk s + HDR * core (units nbytes)) = false ∧ heap_ok base lo s' F A ∧ brk s' = brk s) ∨
   ∃ q F' n, r = q + HDR ∧ n = units nbytes ∧ nbytes + HDR ≤ HDR * n < nbytes + 2 * HDR ∧ A !! q = None ∧ heap_ok base lo s' F' (<[q := n]> A) ∧
     ∀ x, covered F' x ∨ inside (q, n) x ↔ covered F x ∨ brk s ≤ x < brk s').
Proof.
  intros Hb Hl Hg Hs Hn. destruct (units_spec nbytes Hn) as [Hu Hsz]. destruct (proj1 (wp_returns _ _ _) (wp_malloc base lo Hb Hl grow Hg s F A nbytes Hs Hu)) as (r & s' & E & Hd).
  exists r, s'. split; [done|]. destruct Hd as [(-> & H & Hbk & Hr)|(q & F' & -> & H & HA & Hc)]; [by left|]. right. by exists q, F', (units nbytes).
Qed.

(** C27: free() of a live block ends and gives back exactly that block: the free list is again the sorted
    list of the maximal free stretches (the block has been joined to its neighbours), it covers what
    it covered and the block, and the other live blocks are as they were. *)
Theorem free_gives_back base lo s F A bp n : 0 < base → base + HDR ≤ lo → heap_ok base lo s F A → A !! bp = Some n →
  ∃ s' F', free (bp + HDR) s = Ret tt s' ∧ heap_ok base lo s' F' (delete bp A) ∧ brk s' = brk s ∧ ∀ x, covered F' x ↔ covered F x ∨ inside (bp, n) x.
Proof.
  intros Hb Hl H HA. destruct (proj1 (wp_returns _ _ _) (wp_free base lo Hb Hl s F A bp n H HA)) as ([] & s' & E & F' & HF' & Hbk & [Hc _] & _). by exists s', F'.
Qed.

(** The size goes through an int on its way to sbrk(): for 2^32 - 16 bytes it is 0, and malloc() hands
    out a block of 2^28 units although the process has not grown. *)
Lemma malloc_size_wraps : ∃ r s', malloc 4096 (λ z, z <=? 2 ^ 27) (2 ^ 32 - 16) (mkHeap ∅ ∅ 0 8192) = Ret r s' ∧ r = 8192 + HDR ∧ brk s' = 8192.
Proof. do 2 eexists. split; [vm_compute; reflexivity|]. by split. Qed.

Module Heap0.
Definition s0 : heap := mkHeap ∅ ∅ 0 8192.
Definition grow (z : Z) : bool := z <=? 2 ^ 27.
(** the heap after malloc(100) *)
Definition s1 : heap := match malloc 4096 grow 100 s0 with Ret _ s => s | _ => s0 end.

Lemma malloc_allocates_witness : ∃ r s', malloc 4096 grow 100 s0 = Ret r s' ∧ r = 8192 + HDR * 4088 + HDR ∧ brk s' = 8192 + 65536.
Proof.
  destruct (malloc_allocates 4096 8192 grow s0 [] ∅ 100) as (r & s' & E & _); [lia|unfold HDR; lia|unfold grow; lia|right; by vm_compute|lia|].
  exists r, s'. split; [exact E|]. vm_compute in E. injection E as <- <-. by vm_compute.
Defined.

Lemma s1_ok : heap_ok 4096 8192 s1 [(8192, 4088)] {[ 8192 + HDR * 4088 := 8 ]}.
Proof.
  split.
  - by vm_compute.
  - by vm_compute.
  - constructor; [by vm_compute|constructor].
  - apply map_Forall_singleton. by vm_compute.
  - constructor; [constructor|constructor].
  - constructor; [by vm_compute|constructor].
  - apply map_Forall_singleton. by vm_compute.
  - constructor; [|constructor]. apply map_Forall_singleton. left. by vm_compute.
  - intros a n a' n' [<- <-]%lookup_singleton_Some [<- <-]%lookup_singleton_Some. done.
  - left.
  - by vm_compute.
Qed.

Lemma free_gives_back_witness : ∃ s', free (8192 + HDR * 4088 + HDR) s1 = Ret tt s' ∧ h_size s' !! 8192 = Some 4096.
Proof.
  destruct (free_gives_back 4096 8192 s1 [(8192, 4088)] {[ 8192 + HDR * 4088 := 8 ]} (8192 + HDR * 4088) 8) as (s' & F' & E & _); [lia|unfold HDR; lia|apply s1_ok|by rewrite lookup_singleton_eq|].
  exists s'. split; [exact E|]. vm_compute in E. injection E as <-. by vm_compute.
Defined.
End Heap0.
