(* ===== verification/UProg.v ===== *)
(** User programs as trees of system calls, and the processes that run them.

    A program is the tree of the system calls it can make, each followed by what the
    program does with the result.  [step] is the semantics of a pool of processes: any
    process may move, file descriptors are the lowest free ones (fdalloc() of
    kernel/sysfile.c), a call that can fail may fail, wait() takes a child that has
    exited.  [may] is the compositional reading of a single program - what it and its
    descendants can exec, with which descriptors and after the end of which processes -
    and [pool_sound], [pool_complete] relate the two. *)

From S2P Require Import Prelude.

Inductive call :=
| Chdir (path : list Z) | Mkdir (path : list Z) | Unlink (path : list Z) | Link (old new : list Z)
| Mknod (path : list Z) (major minor : Z) | Kill (pid : Z) | Sleep (n : Z)
| Uptime | Schedls | Schedset (id : Z) | Va2pa (a b : Z).

Inductive prog :=
| Exit (status : Z)
| Close (fd : Z) (k : prog)
| Open (path : list Z) (mode : Z) (k : Z → prog)
| Dup (fd : Z) (k : Z → prog)
| Pipe (k : option (Z * Z) → prog)
| Fork (k : Z → prog)
| Wait (k : Z → prog)
| Exec (path : list Z) (argv : list (list Z)) (k : prog)
| Read (fd n : Z) (k : option (list Z) → prog)
| Write (fd : Z) (l : list Z) (k : Z → prog)
| Call (c : call) (k : Z → prog)
| Fstat (fd : Z) (k : option (Z * Z * Z) → prog)  (* the type, the inode and the size *)
| Wild
| Stuck.

(** * Descriptor tables *)

(** a process is named by the forks that lead to it, a pipe by the process that made it *)
Abbreviation pos := (list nat).
Inductive file := FFile (path : list Z) (mode : Z) | FPipe (q : pos) (n : nat) (writer : bool) | FDev (n : nat).
Abbreviation fdt := (list (option file)).
Definition event : Type := pos * list Z * list (list Z) * fdt * list pos.

Fixpoint first_free (T : fdt) : option nat :=
  match T with
  | [] => None
  | None :: _ => Some O
  | Some _ :: T => S <$> first_free T
  end.
Definition fget (T : fdt) (fd : Z) : option file := if fd <? 0 then None else mjoin (T !! Z.to_nat fd).
Definition fclose (T : fdt) (fd : Z) : fdt := if fd <? 0 then T else <[Z.to_nat fd := None]> T.

(** the calls that concern one process; the counter counts its forks and pipes *)
Abbreviation local := (nat * fdt * prog)%type.
Inductive lstep (q : pos) : local → local → Prop :=
| l_close n T fd k : lstep q (n, T, Close fd k) (n, fclose T fd, k)
| l_open n T p m k i : first_free T = Some i → lstep q (n, T, Open p m k) (n, <[i := Some (FFile p m)]> T, k (Z.of_nat i))
| l_open_fail n T p m k : lstep q (n, T, Open p m k) (n, T, k (-1))
| l_dup n T fd k f i : fget T fd = Some f → first_free T = Some i → lstep q (n, T, Dup fd k) (n, <[i := Some f]> T, k (Z.of_nat i))
| l_dup_fail n T fd k : fget T fd = None ∨ first_free T = None → lstep q (n, T, Dup fd k) (n, T, k (-1))
| l_pipe n T k i j T1 : first_free T = Some i → T1 = <[i := Some (FPipe q n false)]> T → first_free T1 = Some j →
    lstep q (n, T, Pipe k) (S n, <[j := Some (FPipe q n true)]> T1, k (Some (Z.of_nat i, Z.of_nat j)))
| l_pipe_fail n T k : lstep q (n, T, Pipe k) (n, T, k None)
| l_nofork n T k : lstep q (n, T, Fork k) (n, T, k (-1))
| l_noexec n T p a k : lstep q (n, T, Exec p a k) (n, T, k)
| l_read n T fd c k l : Z.of_nat (length l) ≤ c → lstep q (n, T, Read fd c k) (n, T, k (Some l))
| l_read_fail n T fd c k : lstep q (n, T, Read fd c k) (n, T, k None)
| l_write n T fd l k r : lstep q (n, T, Write fd l k) (n, T, k r)
| l_call n T c k r : lstep q (n, T, Call c k) (n, T, k r)
| l_fstat n T fd k r : lstep q (n, T, Fstat fd k) (n, T, k r).

(** * Processes *)

(** [kids]: the children not yet waited for *)
Inductive pstate := Run (kids : list nat) (s : local) | Image (path : list Z) (argv : list (list Z)) (T : fdt) | Zombie.
Abbreviation pool := (gmap pos pstate).

Inductive step (P : pool) : pool → Prop :=
| s_local q kids s s' : P !! q = Some (Run kids s) → lstep q s s' → step P (<[q := Run kids s']> P)
| s_fork q kids n T k pid : P !! q = Some (Run kids (n, T, Fork k)) → 0 < pid →
    step P (<[q ++ [n] := Run [] (O, T, k 0)]> (<[q := Run (n :: kids) (S n, T, k pid)]> P))
| s_wait q l1 i l2 n T k pid : P !! q = Some (Run (l1 ++ i :: l2) (n, T, Wait k)) → P !! (q ++ [i]) = Some Zombie → 0 < pid →
    step P (<[q := Run (l1 ++ l2) (n, T, k pid)]> P)
| s_nowait q n T k : P !! q = Some (Run [] (n, T, Wait k)) → step P (<[q := Run [] (n, T, k (-1))]> P)
| s_exec q kids n T p a k : P !! q = Some (Run kids (n, T, Exec p a k)) → step P (<[q := Image p a T]> P)
| s_end q p a T : P !! q = Some (Image p a T) → step P (<[q := Zombie]> P)
| s_exit q kids n T st : P !! q = Some (Run kids (n, T, Exit st)) → step P (<[q := Zombie]> P).

Definition init_pool (T : fdt) (p : prog) : pool := {[ [] := Run [] (O, T, p) ]}.
Definition reachable (T : fdt) (p : prog) (P : pool) : Prop := rtc step (init_pool T p) P.

(** what the program of process [q] can come to exec, in [q] or in a descendant *)
Inductive may (e : event) : pos → list nat → list pos → local → Prop :=
| may_exec q kids after n T p a k : e = (q, p, a, T, after) → may e q kids after (n, T, Exec p a k)
| may_local q kids after s s' : lstep q s s' → may e q kids after s' → may e q kids after s
| may_child q kids after n T k : may e (q ++ [n]) [] after (O, T, k 0) → may e q kids after (n, T, Fork k)
| may_parent q kids after n T k pid : 0 < pid → may e q (n :: kids) after (S n, T, k pid) → may e q kids after (n, T, Fork k)
| may_wait q l1 i l2 after n T k pid : 0 < pid → may e q (l1 ++ l2) ((q ++ [i]) :: after) (n, T, k pid) → may e q (l1 ++ i :: l2) after (n, T, Wait k)
| may_nowait q after n T k : may e q [] after (n, T, k (-1)) → may e q [] after (n, T, Wait k).

(** * The pool does what [may] says *)

Section Pool.
Context (T0 : fdt) (p0 : prog).

Definition finished (P : pool) (q : pos) : Prop := P !! q = Some Zombie.
(** a process's possible events are possible events of the program, after processes that have ended *)
Definition sound_proc (P : pool) (q : pos) (x : pstate) : Prop :=
  match x with
  | Run kids s => ∃ after, Forall (finished P) after ∧ (∀ e, may e q kids after s → may e [] [] [] (O, T0, p0)) ∧ ∀ m, (s.1.1 ≤ m)%nat → P !! (q ++ [m]) = None
  | Image p a T => ∃ after, Forall (finished P) after ∧ may (q, p, a, T, after) [] [] [] (O, T0, p0)
  | Zombie => True
  end.
Definition sound_pool (P : pool) : Prop := map_Forall (sound_proc P) P ∧ ∀ q m, P !! q = None → P !! (q ++ [m]) = None.

Lemma pos_snoc_ne (q : pos) n : q ++ [n] ≠ q.
Proof. intros H%(f_equal length). rewrite length_app in H. cbn in H. lia. Qed.
Lemma finished_insert P q x y r : P !! q = Some y → y ≠ Zombie → finished P r → finished (<[q := x]> P) r.
Proof. intros Hq Hy Hr. unfold finished in *. rewrite lookup_insert_ne; [done|congruence]. Qed.
Lemma finished_mono P P' l : (∀ r, finished P r → finished P' r) → Forall (finished P) l → Forall (finished P') l.
Proof. intros H Hl. by apply (Forall_impl _ _ _ Hl). Qed.

(** the rest of the pool is not touched by a move of [q] to [x] *)
Lemma sound_others P q x y : sound_pool P → P !! q = Some y → y ≠ Zombie → sound_proc (<[q := x]> P) q x → sound_pool (<[q := x]> P).
Proof.
  intros [HF HC] Hq Hy Hx. split.
  - intros r z Hr. destruct (decide (r = q)) as [->|Hne]; [rewrite lookup_insert_eq in Hr; by injection Hr as <-|].
    rewrite lookup_insert_ne in Hr by done. specialize (HF r z Hr). destruct z as [kids s|p a T|]; [| |done].
    + destruct HF as (after & Ha & Hm & Hf). exists after. split_and!; [by eapply finished_mono; [intros ?; by eapply finished_insert|]|done|].
      intros m Hm'. specialize (Hf m Hm'). rewrite lookup_insert_ne; [done|]. intros ->. congruence.
    + destruct HF as (after & Ha & Hm). exists after. split; [by eapply finished_mono; [intros ?; by eapply finished_insert|]|done].
  - intros r m Hr. assert (r ≠ q) as Hne by (intros ->; by rewrite lookup_insert_eq in Hr). rewrite lookup_insert_ne in Hr by done.
    pose proof (HC r m Hr) as Hrm. rewrite lookup_insert_ne; [done|]. intros ->. congruence.
Qed.

Lemma lstep_count q s s' : lstep q s s' → (s.1.1 ≤ s'.1.1)%nat.
Proof. destruct 1; cbn; lia. Qed.

Lemma sound_fork P q kids n T k pid : sound_pool P → P !! q = Some (Run kids (n, T, Fork k)) → 0 < pid →
  sound_pool (<[q ++ [n] := Run [] (O, T, k 0)]> (<[q := Run (n :: kids) (S n, T, k pid)]> P)).
Proof.
  intros HP Hq Hp. destruct HP as [HF HC]. destruct (HF q _ Hq) as (after & Ha & Hm & Hn). cbn in Hn.
  pose proof (Hn n (le_n _)) as Hfresh. pose proof (pos_snoc_ne q n) as Hne. set (P' := <[q ++ [n] := _]> _).
  assert (∀ r, finished P r → finished P' r) as Hfin.
  { intros r Hr. unfold finished, P' in *. rewrite !lookup_insert_ne by congruence. done. }
  assert (∀ r m, r ≠ q → P !! (r ++ [m]) = None → r ++ [m] ≠ q → P' !! (r ++ [m]) = None) as Hnone.
  { intros r m Hr Hrm Hq'. unfold P'. rewrite !lookup_insert_ne; [done|done|]. intros [? _]%app_inj_tail. done. }
  split.
  - intros r z Hr. destruct (decide (r = q ++ [n])) as [->|Hr1].
    { unfold P' in Hr. rewrite lookup_insert_eq in Hr. injection Hr as <-. exists after. split_and!; [by eapply finished_mono|intros e He; by apply Hm, may_child|].
      intros m _. apply Hnone; [done|by apply HC|]. intros E%(f_equal length). rewrite !length_app in E. cbn in E. lia. }
    unfold P' in Hr. rewrite lookup_insert_ne in Hr by done. destruct (decide (r = q)) as [->|Hr2].
    { rewrite lookup_insert_eq in Hr. injection Hr as <-. exists after. split_and!; [by eapply finished_mono|intros e He; by eapply Hm, may_parent|].
      intros m Hmm. cbn in Hmm. unfold P'. rewrite lookup_insert_ne by (intros [_ E]%app_inj_tail; lia). rewrite lookup_insert_ne by (intros E; by destruct (pos_snoc_ne q m)). apply Hn. lia. }
    rewrite lookup_insert_ne in Hr by done. specialize (HF r z Hr). destruct z as [kids' s|p a T'|]; [| |done].
    + destruct HF as (after' & Ha' & Hm' & Hf'). exists after'. split_and!; [by eapply finished_mono|done|]. intros m Hmm. apply Hnone; [done|by apply Hf'|]. intros E. rewrite <- E, Hf' in Hq by done. done.
    + destruct HF as (after' & Ha' & Hm'). exists after'. split; [by eapply finished_mono|done].
  - intros r m Hr. unfold P' in Hr. assert (r ≠ q ++ [n]) as Hr1 by (intros ->; by rewrite lookup_insert_eq in Hr). rewrite lookup_insert_ne in Hr by done.
    assert (r ≠ q) as Hr2 by (intros ->; by rewrite lookup_insert_eq in Hr). rewrite lookup_insert_ne in Hr by done. apply Hnone; [done|by apply HC|]. intros E. pose proof (HC r m Hr). congruence.
Qed.

(** a move of one process that forks nothing *)
Lemma sound_move P q kids s kids' s' : sound_pool P → P !! q = Some (Run kids s) → (s.1.1 ≤ s'.1.1)%nat →
  (∀ after, Forall (finished P) after → ∃ after', Forall (finished P) after' ∧ ∀ e, may e q kids' after' s' → may e q kids after s) →
  sound_pool (<[q := Run kids' s']> P).
Proof.
  intros HP Hq Hc Hm. eapply sound_others; [done|done|done|]. destruct HP as [HF _]. destruct (HF q _ Hq) as (after & Ha & Hall & Hn).
  destruct (Hm after Ha) as (after' & Ha' & He). exists after'. split_and!.
  - eapply finished_mono; [|done]. intros r. by eapply finished_insert.
  - intros e Hev. by apply Hall, He.
  - intros m Hmm. rewrite lookup_insert_ne by (intros E; by destruct (pos_snoc_ne q m)). apply Hn. lia.
Qed.

Lemma sound_step P P' : sound_pool P → step P P' → sound_pool P'.
Proof.
  intros HP. destruct 1 as [q kids s s' Hq Hs|q kids n T k pid Hq Hp|q l1 i l2 n T k pid Hq Hz Hp|q n T k Hq|q kids n T p a k Hq|q p a T Hq|q kids n T st Hq].
  - eapply sound_move; [done|done|by eapply lstep_count|]. intros after Ha. exists after. split; [done|]. intros e He. by eapply may_local.
  - by apply sound_fork.
  - eapply sound_move; [done|done|done|]. intros after Ha. exists ((q ++ [i]) :: after). split; [by constructor|]. intros e He. by eapply may_wait.
  - eapply sound_move; [done|done|done|]. intros after Ha. exists after. split; [done|]. intros e He. by apply may_nowait.
  - eapply sound_others; [done|done|done|]. destruct HP as [HF _]. destruct (HF q _ Hq) as (after & Ha & Hall & _). exists after.
    split; [eapply finished_mono; [|done]; intros r; by eapply finished_insert|]. apply Hall. by apply may_exec.
  - by eapply sound_others.
  - by eapply sound_others.
Qed.

(** whatever a process execs is a possible event of the program, after processes that have ended *)
Lemma pool_sound P q p a T : reachable T0 p0 P → P !! q = Some (Image p a T) →
  ∃ after, may (q, p, a, T, after) [] [] [] (O, T0, p0) ∧ Forall (finished P) after.
Proof.
  intros Hr Hq. assert (sound_pool P) as [HF _].
  { assert (sound_pool (init_pool T0 p0)) as H0.
    { split.
      - intros r x Hx. unfold init_pool in Hx. apply lookup_singleton_Some in Hx as [<- <-]. exists []. split_and!; [done|done|]. intros m _. unfold init_pool. by rewrite lookup_singleton_ne.
      - intros r m _. unfold init_pool. rewrite lookup_singleton_ne; [done|]. by destruct r. }
    revert H0. unfold reachable in Hr. induction Hr as [|P P' P'' Hs _ IH]; [done|]. intros HP. apply IH; [done|]. by eapply sound_step. }
  destruct (HF q _ Hq) as (after & Ha & Hm). by exists after.
Qed.
End Pool.

(** * Every possible event happens *)

(** the program reads no memory outside its arrays, whatever its calls return *)
Fixpoint safe (p : prog) : Prop :=
  match p with
  | Exit _ => True
  | Close _ k => safe k
  | Open _ _ k => ∀ r, safe (k r)
  | Dup _ k => ∀ r, safe (k r)
  | Pipe k => ∀ r, safe (k r)
  | Fork k => ∀ r, safe (k r)
  | Wait k => ∀ r, safe (k r)
  | Exec _ _ k => safe k
  | Read _ _ k => ∀ r, safe (k r)
  | Write _ _ k => ∀ r, safe (k r)
  | Call _ k => ∀ r, safe (k r)
  | Fstat _ k => ∀ r, safe (k r)
  | Wild | Stuck => False
  end.

Lemma safe_lstep q n T p n' T' p' : lstep q (n, T, p) (n', T', p') → safe p → safe p'.
Proof. inversion 1; subst; cbn; auto. Qed.

(** a process without children can be brought to its end *)
Lemma finish p : ∀ P q n T, safe p → P !! q = Some (Run [] (n, T, p)) → rtc step P (<[q := Zombie]> P).
Proof.
  assert (∀ P q n T T' p p', (∀ P n T, safe p' → P !! q = Some (Run [] (n, T, p')) → rtc step P (<[q := Zombie]> P)) → safe p' →
    P !! q = Some (Run [] (n, T, p)) → lstep q (n, T, p) (n, T', p') → rtc step P (<[q := Zombie]> P)) as Hgo.
  { intros P q n T T' p0 p' IH Hs Hq Hl. eapply rtc_l; [by eapply s_local|]. rewrite <- (insert_insert_eq P q Zombie (Run [] (n, T', p'))).
    apply (IH _ n T'); [done|by rewrite lookup_insert_eq]. }
  induction p as [st|fd k IH|pa m k IH|fd k IH|k IH|k IH|k IH|pa a k IH|fd c k IH|fd l k IH|c k IH|fd k IH| |]; intros P q n T Hs Hq; cbn [safe] in Hs; [..|done|done].
  - apply rtc_once. by eapply s_exit.
  - eapply Hgo; [by intros; eapply IH|done|done|constructor].
  - eapply Hgo; [by intros; eapply IH|done|done|by apply l_open_fail].
  - destruct (fget T fd) as [f|] eqn:Ef; [destruct (first_free T) as [i|] eqn:Ei|].
    + eapply Hgo; [by intros; eapply IH|done|done|by eapply l_dup].
    + eapply Hgo; [by intros; eapply IH|done|done|apply l_dup_fail; by right].
    + eapply Hgo; [by intros; eapply IH|done|done|apply l_dup_fail; by left].
  - eapply Hgo; [by intros; eapply IH|done|done|by apply l_pipe_fail].
  - eapply Hgo; [by intros; eapply IH|done|done|by apply l_nofork].
  - eapply rtc_l; [by eapply s_nowait|]. rewrite <- (insert_insert_eq P q Zombie (Run [] (n, T, k (-1)))).
    apply (IH (-1) _ _ n T); [done|by rewrite lookup_insert_eq].
  - eapply rtc_l; [by eapply s_exec|]. rewrite <- (insert_insert_eq P q Zombie (Image pa a T)). apply rtc_once. eapply s_end. by rewrite lookup_insert_eq.
  - eapply Hgo; [by intros; eapply IH|done|done|by apply l_read_fail].
  - eapply Hgo; [by intros; eapply (IH 0)|done|done|by apply l_write].
  - eapply Hgo; [by intros; eapply (IH (-1))|done|done|by apply l_call].
  - eapply Hgo; [by intros; eapply (IH None)|done|done|by apply l_fstat].
Qed.

Lemma may_happens e q kids after s : may e q kids after s → safe s.2 → ∀ P, P !! q = Some (Run kids s) → Forall (λ i, P !! (q ++ [i]) = Some Zombie) kids →
  ∃ P', rtc step P P' ∧ P' !! e.1.1.1.1 = Some (Image e.1.1.1.2 e.1.1.2 e.1.2).
Proof.
  assert (∀ (P : pool) (q : pos) x kids, Forall (λ i, P !! (q ++ [i]) = Some Zombie) kids → Forall (λ i, <[q := x]> P !! (q ++ [i]) = Some Zombie) kids) as Hkeep.
  { intros P q' x kids' H. apply (Forall_impl _ _ _ H). intros i Hi. rewrite lookup_insert_ne by (intros E; by destruct (pos_snoc_ne q' i)). done. }
  induction 1 as [q kids after n T p a k ->|q kids after s s' Hl _ IH|q kids after n T k _ IH|q kids after n T k pid Hp _ IH|q l1 i l2 after n T k pid Hp _ IH|q after n T k _ IH];
    intros Hs P Hq Hk; cbn [snd safe] in Hs.
  - eexists. split; [apply rtc_once; by eapply s_exec|]. cbn. by rewrite lookup_insert_eq.
  - destruct s as [[n T] p], s' as [[n' T'] p']. destruct (IH (safe_lstep _ _ _ _ _ _ _ Hl Hs) (<[q := Run kids (n', T', p')]> P)) as (P' & HP & He); [by rewrite lookup_insert_eq|by apply Hkeep|].
    exists P'. split; [|done]. eapply rtc_l; [by eapply s_local|done].
  - edestruct (IH (Hs 0)) as (P' & HP & He); [| |exists P'; split; [eapply rtc_l; [by apply (s_fork P q kids n T k 1)|exact HP]|done]]; [by rewrite lookup_insert_eq|done].
  - set (P1 := <[q ++ [n] := Run [] (O, T, k 0)]> (<[q := Run (n :: kids) (S n, T, k pid)]> P)).
    assert (rtc step P1 (<[q ++ [n] := Zombie]> P1)) as Hf by (apply (finish (k 0) _ _ O T); [done|unfold P1; by rewrite lookup_insert_eq]).
    destruct (IH (Hs pid) (<[q ++ [n] := Zombie]> P1)) as (P' & HP & He).
    + rewrite lookup_insert_ne by apply pos_snoc_ne. unfold P1. rewrite lookup_insert_ne by apply pos_snoc_ne. by rewrite lookup_insert_eq.
    + constructor; [by rewrite lookup_insert_eq|]. apply (Forall_impl _ _ _ Hk). intros i Hi. destruct (decide (i = n)) as [->|Hin]; [by rewrite lookup_insert_eq|].
      unfold P1. rewrite !lookup_insert_ne; [done|intros E; by destruct (pos_snoc_ne q i)|intros [_ E]%app_inj_tail; congruence|intros [_ E]%app_inj_tail; congruence].
    + exists P'. split; [|done]. eapply rtc_l; [by apply s_fork|]. by etransitivity.
  - apply Forall_app in Hk as [Hk1 Hk2]. apply Forall_cons in Hk2 as [Hi Hk2].
    destruct (IH (Hs pid) (<[q := Run (l1 ++ l2) (n, T, k pid)]> P)) as (P' & HP & He); [by rewrite lookup_insert_eq|apply Hkeep; by apply Forall_app|].
    exists P'. split; [|done]. eapply rtc_l; [by eapply s_wait|done].
  - destruct (IH (Hs (-1)) (<[q := Run [] (n, T, k (-1))]> P)) as (P' & HP & He); [by rewrite lookup_insert_eq|done|].
    exists P'. split; [|done]. eapply rtc_l; [by eapply s_nowait|done].
Qed.

Lemma pool_complete T0 p0 q p a T after : safe p0 → may (q, p, a, T, after) [] [] [] (O, T0, p0) → ∃ P, reachable T0 p0 P ∧ P !! q = Some (Image p a T).
Proof. intros Hs Hm. apply (may_happens _ _ _ _ _ Hm Hs (init_pool T0 p0)); [unfold init_pool; by rewrite lookup_singleton_eq|done]. Qed.

(** * What the programs may do, call by call *)

Section Calls.
Context (e : event) (q : pos) (kids : list nat) (after : list pos) (n : nat) (T : fdt).
Abbreviation go n T p := (may e q kids after (n, T, p)).

Ltac may_inv := let H := fresh in intros H; inversion H as [| ? ? ? ? ? Hl ? | | | |]; subst; try (inversion Hl; subst).

Lemma may_Close fd k : go n T (Close fd k) ↔ go n (fclose T fd) k.
Proof. split; [by may_inv|]. intros H. eapply may_local; [constructor|done]. Qed.
Lemma may_Open p m k : go n T (Open p m k) ↔ go n T (k (-1)) ∨ ∃ i, first_free T = Some i ∧ go n (<[i := Some (FFile p m)]> T) (k (Z.of_nat i)).
Proof. split; [may_inv; eauto|]. intros [H|(i & Hi & H)]; (eapply may_local; [|exact H]); by constructor. Qed.
Lemma may_Dup fd k : go n T (Dup fd k) ↔
  match fget T fd, first_free T with Some f, Some i => go n (<[i := Some f]> T) (k (Z.of_nat i)) | _, _ => go n T (k (-1)) end.
Proof.
  split.
  - may_inv; [by rewrite H6, H7|]. destruct H6 as [-> | ->]; [done|]. by destruct (fget T fd).
  - destruct (fget T fd) as [f|] eqn:Ef; [destruct (first_free T) as [i|] eqn:Ei|]; intros H; (eapply may_local; [|exact H]).
    + by constructor.
    + constructor. by right.
    + constructor. by left.
Qed.
Lemma may_Pipe k : go n T (Pipe k) ↔ go n T (k None) ∨ ∃ i j, first_free T = Some i ∧ first_free (<[i := Some (FPipe q n false)]> T) = Some j ∧
  go (S n) (<[j := Some (FPipe q n true)]> (<[i := Some (FPipe q n false)]> T)) (k (Some (Z.of_nat i, Z.of_nat j))).
Proof. split; [may_inv; eauto 10|]. intros [H|(i & j & Hi & Hj & H)]; (eapply may_local; [|exact H]); by econstructor. Qed.
Lemma may_Fork k : go n T (Fork k) ↔ go n T (k (-1)) ∨ may e (q ++ [n]) [] after (O, T, k 0) ∨ ∃ pid, 0 < pid ∧ may e q (n :: kids) after (S n, T, k pid).
Proof.
  split; [may_inv; eauto 10|]. intros [H|[H|(pid & Hp & H)]]; [eapply may_local; [|exact H]; by constructor|by apply may_child|by eapply may_parent].
Qed.
Lemma may_Exec p a k : go n T (Exec p a k) ↔ e = (q, p, a, T, after) ∨ go n T k.
Proof. split; [may_inv; eauto|]. intros [->|H]; [by constructor|]. eapply may_local; [|exact H]. constructor. Qed.
End Calls.

Lemma may_Wait1 e q i after n T k : may e q [i] after (n, T, Wait k) ↔ ∃ pid, 0 < pid ∧ may e q [] ((q ++ [i]) :: after) (n, T, k pid).
Proof.
  split.
  - intros H. inversion H as [| ? ? ? ? ? Hl ? | | |q' l1 i' l2 after' n' T' k' pid Hp Hm|]; subst; [inversion Hl|].
    destruct l1 as [|x l1]; [|destruct l1; discriminate]. destruct l2 as [|y l2]; [|discriminate]. cbn in *. simplify_eq. eauto.
  - intros (pid & Hp & H). by apply (may_wait e q [] i [] after n T k pid).
Qed.

(** a program that never calls exec() *)
Fixpoint no_exec (p : prog) : Prop :=
  match p with
  | Exit _ | Wild | Stuck => True
  | Exec _ _ _ => False
  | Close _ k => no_exec k
  | Open _ _ k => ∀ r, no_exec (k r)
  | Dup _ k => ∀ r, no_exec (k r)
  | Pipe k => ∀ r, no_exec (k r)
  | Fork k => ∀ r, no_exec (k r)
  | Wait k => ∀ r, no_exec (k r)
  | Read _ _ k => ∀ r, no_exec (k r)
  | Write _ _ k => ∀ r, no_exec (k r)
  | Call _ k => ∀ r, no_exec (k r)
  | Fstat _ k => ∀ r, no_exec (k r)
  end.
Lemma no_exec_may e q kids after s : no_exec s.2 → may e q kids after s → False.
Proof.
  intros Hn H. induction H as [| ? ? ? ? ? Hl ? IH|? ? ? ? ? ? ? IH|? ? ? ? ? ? ? ? ? IH|? ? ? ? ? ? ? ? ? ? ? IH|? ? ? ? ? ? IH]; cbn in Hn; [done| |by apply IH; cbn..].
  apply IH. inversion Hl; subst; cbn in *; auto; done.
Qed.

(** * Tables *)

Lemma first_free_Some T i : first_free T = Some i ↔ T !! i = Some None ∧ ∀ j, (j < i)%nat → ∃ f, T !! j = Some (Some f).
Proof.
  revert i. induction T as [|[f|] T IH]; intros i; cbn [first_free].
  - split; [done|]. intros [? _]. done.
  - rewrite fmap_Some. split.
    + intros (i' & Hi & ->). apply IH in Hi as [H1 H2]. split; [done|]. intros [|j] Hj; [by eauto|]. apply H2. lia.
    + intros [H1 H2]. destruct i as [|i]; [done|]. exists i. split; [|done]. apply IH. split; [done|]. intros j Hj. apply (H2 (S j)). lia.
  - split.
    + intros [= <-]. split; [done|]. intros j Hj. lia.
    + intros [H1 H2]. destruct i as [|i]; [done|]. destruct (H2 0%nat ltac:(lia)) as [f Hf]. done.
Qed.
Lemma first_free_exists T i : T !! i = Some None → ∃ j, first_free T = Some j ∧ (j ≤ i)%nat.
Proof.
  revert i. induction T as [|[f|] T IH]; intros i; cbn [first_free]; [done| |intros _; exists O; split; [done|lia]].
  destruct i as [|i]; [done|]. intros (j & -> & Hj)%IH. exists (S j). split; [done|lia].
Qed.
