(* ===== verification/Sh.v ===== *)
(** user/sh.c: the shell.

    A command line is the list of its bytes before the NUL; a pointer into it is
    an offset, and a string of a command tree is the pair of offsets (q, eq) the
    parser records until nulterminate() cuts the line up.  The constructors
    execcmd() ... backcmd() are those of [cmd]; malloc() is assumed to succeed. *)

From S2P Require Import Prelude Console ULib UProg.

(** * Command trees *)

Definition word : Type := nat * nat.
Record redir := mkRedir { r_file : word; r_mode : Z; r_fd : Z }.
Inductive cmd :=
| EXEC (argv : list word)
| REDIR (c : cmd) (r : redir)
| PIPE (left right : cmd)
| LIST (left right : cmd)
| BACK (c : cmd).

Definition MAXARGS : Z := 10.
Definition O_RDONLY : Z := 0x000.
Definition O_WRONLY : Z := 0x001.
Definition O_RDWR : Z := 0x002.
Definition O_CREATE : Z := 0x200.
Definition O_TRUNC : Z := 0x400.

(** * Tokens *)

Definition whitespace : list Z := [32; 9; 13; 10; 11].
Definition symbols : list Z := bytes_of "<|>&;()".
(** strchr(l, c) finds [c] *)
Definition strchr (l : list Z) (c : Z) : bool := bool_decide (c ∈ l).
Definition at_ (b : list Z) (s : nat) : Z := default 0 (b !! s).
Definition PLUS : Z := 43.
Definition WORD : Z := 97.

Fixpoint span_len (p : Z → bool) (l : list Z) : nat :=
  match l with
  | c :: l' => if p c then S (span_len p l') else O
  | [] => O
  end.
(** while(s < es && p(s)) s++; *)
Definition skip (p : Z → bool) (b : list Z) (s : nat) : nat := (s + span_len p (drop s b))%nat.
Definition skip_ws : list Z → nat → nat := skip (strchr whitespace).
Definition in_word (c : Z) : bool := negb (strchr whitespace c) && negb (strchr symbols c).

(** the token, q, eq and the next position *)
Definition gettoken (b : list Z) (s : nat) : Z * nat * nat * nat :=
  let q := skip_ws b s in
  let c := at_ b q in
  let '(ret, eq) :=
    if c =? 0 then (0, q) else
    if strchr (bytes_of "|();&<") c then (c, S q) else
    if c =? 62 then (if at_ b (S q) =? 62 then (PLUS, S (S q)) else (62, S q)) else
    (WORD, skip in_word b q) in
  (ret, q, eq, skip_ws b eq).

Definition peek (b : list Z) (s : nat) (toks : list Z) : nat * bool :=
  let s := skip_ws b s in
  (s, negb (at_ b s =? 0) && strchr toks (at_ b s)).

(** * The parser *)

(** [Err m]: the process prints [m] on its standard error and exits with status 1, as
    panic() does; [Fuel] is the end of the model's fuel. *)
Inductive pres (A : Type) := Ok (a : A) | Err (m : list Z) | Fuel.
Arguments Ok {A} a.
Arguments Err {A} m.
Arguments Fuel {A}.
Abbreviation perror m := (Err (bytes_of m ++ [10])).
Definition pbind {A B} (m : pres A) (k : A → pres B) : pres B :=
  match m with Ok a => k a | Err m => Err m | Fuel => Fuel end.
Notation "'let*' ' p ':=' m 'in' k" := (pbind m (λ x, match x with p => k end))
  (at level 10, p pattern, m at level 100, k at level 200) : cmonad_scope.

(** a command wrapped in redirections, the first one innermost *)
Definition wrap (c : cmd) (rs : list redir) : cmd := foldl REDIR c rs.

(** the redirections found are appended to [rs] *)
Fixpoint parseredirs (fuel : nat) (b : list Z) (rs : list redir) (s : nat) : pres (list redir * nat) :=
  match fuel with
  | O => Fuel
  | S fuel =>
      let '(s, more) := peek b s (bytes_of "<>") in
      if more : bool then
        let '(tok, _, _, s) := gettoken b s in
        let '(t, q, eq, s) := gettoken b s in
        if negb (t =? WORD) then perror "missing file for redirection" else
        let rs :=
          if tok =? 60 then rs ++ [mkRedir (q, eq) O_RDONLY 0] else
          if tok =? 62 then rs ++ [mkRedir (q, eq) (Z.lor (Z.lor O_WRONLY O_CREATE) O_TRUNC) 1] else
          if tok =? PLUS then rs ++ [mkRedir (q, eq) (Z.lor O_WRONLY O_CREATE) 1] else rs in
        parseredirs fuel b rs s
      else Ok (rs, s)
  end.

(** the loop of parseexec(); the execcmd it fills in is already inside the
    redirections found so far *)
Fixpoint parseargs (fuel : nat) (b : list Z) (argv : list word) (rs : list redir) (s : nat) : pres (cmd * nat) :=
  match fuel with
  | O => Fuel
  | S fuel =>
      let '(s, stop) := peek b s (bytes_of "|)&;") in
      if stop : bool then Ok (wrap (EXEC argv) rs, s) else
      let '(tok, q, eq, s) := gettoken b s in
      if tok =? 0 then Ok (wrap (EXEC argv) rs, s) else
      if negb (tok =? WORD) then perror "syntax" else
      let argv := argv ++ [(q, eq)] in
      if MAXARGS <=? Z.of_nat (length argv) then perror "too many args" else
      let* '(rs, s) := parseredirs fuel b rs s in
      parseargs fuel b argv rs s
  end.

(** while(peek(ps, es, "&")) *)
Fixpoint parseback (fuel : nat) (b : list Z) (c : cmd) (s : nat) : pres (cmd * nat) :=
  match fuel with
  | O => Fuel
  | S fuel =>
      let '(s, more) := peek b s (bytes_of "&") in
      if more : bool then
        let '(_, _, _, s) := gettoken b s in
        parseback fuel b (BACK c) s
      else Ok (c, s)
  end.

Fixpoint parseline (fuel : nat) (b : list Z) (s : nat) {struct fuel} : pres (cmd * nat) :=
  match fuel with
  | O => Fuel
  | S fuel =>
      let* '(c, s) := parsepipe fuel b s in
      let* '(c, s) := parseback fuel b c s in
      let '(s, more) := peek b s (bytes_of ";") in
      if more : bool then
        let '(_, _, _, s) := gettoken b s in
        let* '(c', s) := parseline fuel b s in
        Ok (LIST c c', s)
      else Ok (c, s)
  end
with parsepipe (fuel : nat) (b : list Z) (s : nat) {struct fuel} : pres (cmd * nat) :=
  match fuel with
  | O => Fuel
  | S fuel =>
      let* '(c, s) := parseexec fuel b s in
      let '(s, more) := peek b s (bytes_of "|") in
      if more : bool then
        let '(_, _, _, s) := gettoken b s in
        let* '(c', s) := parsepipe fuel b s in
        Ok (PIPE c c', s)
      else Ok (c, s)
  end
with parseexec (fuel : nat) (b : list Z) (s : nat) {struct fuel} : pres (cmd * nat) :=
  match fuel with
  | O => Fuel
  | S fuel =>
      let '(s, block) := peek b s (bytes_of "(") in
      if block : bool then parseblock fuel b s else
      let* '(rs, s) := parseredirs fuel b [] s in
      parseargs fuel b [] rs s
  end
with parseblock (fuel : nat) (b : list Z) (s : nat) {struct fuel} : pres (cmd * nat) :=
  match fuel with
  | O => Fuel
  | S fuel =>
      let '(s, open) := peek b s (bytes_of "(") in
      if negb open then perror "parseblock" else
      let '(_, _, _, s) := gettoken b s in
      let* '(c, s) := parseline fuel b s in
      let '(s, close) := peek b s (bytes_of ")") in
      if negb close then perror "syntax - missing )" else
      let '(_, _, _, s) := gettoken b s in
      let* '(rs, s) := parseredirs fuel b [] s in
      Ok (wrap c rs, s)
  end.

(** NUL-terminate all the counted strings. *)
Fixpoint nulterminate (c : cmd) (a : list Z) : list Z :=
  match c with
  | EXEC argv => foldl (λ a w, <[w.2 := 0]> a) a argv
  | REDIR c r => <[(r_file r).2 := 0]> (nulterminate c a)
  | PIPE l r => nulterminate r (nulterminate l a)
  | LIST l r => nulterminate r (nulterminate l a)
  | BACK c => nulterminate c a
  end.

Definition parse_fuel (b : list Z) : nat := 4 * (length b + 2).

(** the tree, and the buffer with its strings ended; the buffer of the line [b] is [b] and its NUL *)
Definition parsecmd (b : list Z) : pres (cmd * list Z) :=
  let* '(c, s) := parseline (parse_fuel b) b 0 in
  let '(s, _) := peek b s [] in
  if negb (s =? length b)%nat then Err (bytes_of "leftovers: " ++ drop s b ++ [10] ++ bytes_of "syntax" ++ [10]) else Ok (c, nulterminate c (b ++ [0])).

(** * Running *)

(** a message, written byte by byte *)
Definition uputs (fd : Z) (l : list Z) (k : prog) : prog := foldr (λ c k, Write fd [c] (λ _, k)) k l.
Definition eprintf (fmt : list Z) (ap : list uarg) (k : prog) : prog :=
  match fprintf fmt ap with Some l => uputs 2 l k | None => Wild end.
Definition panic (s : list Z) : prog := eprintf (bytes_of "%s" ++ [10]) [UStr (Some s)] (Exit 1).
Definition fork1 (k : Z → prog) : prog := Fork (λ pid, if pid =? -1 then panic (bytes_of "fork") else k pid).

Definition str (a : list Z) (w : word) : list Z := cstr (drop w.1 a).

(** Execute cmd.  Never returns.  [a] is the buffer the strings of the tree point into. *)
Fixpoint runcmd (a : list Z) (c : cmd) : prog :=
  match c with
  | EXEC [] => Exit 1
  | EXEC (w :: ws) => Exec (str a w) (map (str a) (w :: ws)) (eprintf (bytes_of "exec %s failed" ++ [10]) [UStr (Some (str a w))] (Exit 0))
  | REDIR c r =>
      Close (r_fd r)
      (Open (str a (r_file r)) (r_mode r) (λ fd,
        if fd <? 0 then eprintf (bytes_of "open %s failed" ++ [10]) [UStr (Some (str a (r_file r)))] (Exit 1) else runcmd a c))
  | LIST l r => fork1 (λ pid, if pid =? 0 then runcmd a l else Wait (λ _, runcmd a r))
  | PIPE l r =>
      Pipe (λ p, match p with
      | None => panic (bytes_of "pipe")
      | Some (p0, p1) =>
          fork1 (λ pid, if pid =? 0 then Close 1 (Dup p1 (λ _, Close p0 (Close p1 (runcmd a l)))) else
          fork1 (λ pid, if pid =? 0 then Close 0 (Dup p0 (λ _, Close p0 (Close p1 (runcmd a r)))) else
          Close p0 (Close p1 (Wait (λ _, Wait (λ _, Exit 0))))))
      end)
  | BACK c => fork1 (λ pid, if pid =? 0 then runcmd a c else Exit 0)
  end.

(** * The shell *)

Definition BUFLEN : nat := 120.

(** gets(): bytes up to the end of a line, of the file or of the buffer *)
Fixpoint gets (room : nat) (l : list Z) (k : list Z → prog) : prog :=
  match room with
  | O => k l
  | S room =>
      Read 0 1 (λ r, match r with
      | Some (c :: _) => if (c =? 10) || (c =? 13) then k (l ++ [c]) else gets room (l ++ [c]) k
      | _ => k l
      end)
  end.
(** the line in the zeroed buffer, or the end of the input *)
Definition getcmd (k : option (list Z) → prog) : prog :=
  Write 2 (bytes_of "$ ") (λ _, gets (BUFLEN - 1) [] (λ l,
    let buf := l ++ replicate (BUFLEN - length l) 0 in
    k (if at_ buf 0 =? 0 then None else Some buf))).

(** the buffer afterwards goes to [k]; a buffer without a NUL is read past its end *)
Definition parse_buffer (buf : list Z) (k : list Z → prog) : prog :=
  if (at_ buf 0 =? 99) && (at_ buf 1 =? 100) && (at_ buf 2 =? 32) then
    if bool_decide (0 ∈ buf) then
      let buf := <[Nat.pred (length (cstr buf)) := 0]> buf in
      let dir := cstr (drop 3 buf) in
      Call (Chdir dir) (λ r, if r <? 0 then eprintf (bytes_of "cannot cd %s" ++ [10]) [UStr (Some dir)] (k buf) else k buf)
    else Wild
  else if (at_ buf 0 =? 101) && (at_ buf 1 =? 120) && (at_ buf 2 =? 105) && (at_ buf 3 =? 116) then Exit 0
  else fork1 (λ pid,
    if pid =? 0 then
      if bool_decide (0 ∈ buf) then
        match parsecmd (cstr buf) with
        | Ok (c, a) => runcmd a c
        | Err m => uputs 2 m (Exit 1)
        | Fuel => Stuck
        end
      else Wild
    else Wait (λ _, k buf)).

(** while((fd = open("console", O_RDWR)) >= 0){ if(fd >= 3){ close(fd); break; } } *)
Fixpoint open_console (fuel : nat) (k : prog) : prog :=
  match fuel with
  | O => Stuck
  | S fuel => Open (bytes_of "console") O_RDWR (λ fd, if fd <? 0 then k else if 3 <=? fd then Close fd k else open_console fuel k)
  end.

(** a read() of up to the whole buffer overwrites its start *)
Definition read_buf (fd : Z) (buf : list Z) (k : Z → list Z → prog) : prog :=
  Read fd (Z.of_nat BUFLEN) (λ r, match r with Some l => k (Z.of_nat (length l)) (l ++ drop (length l) buf) | None => k (-1) buf end).

(** do parse_buffer(buf); while(read(shfd, buf, sizeof(buf)) == sizeof(buf)); *)
Fixpoint script_loop (fuel : nat) (shfd : Z) (buf : list Z) : prog :=
  match fuel with
  | O => Stuck
  | S fuel => parse_buffer buf (λ buf, read_buf shfd buf (λ n buf, if n =? Z.of_nat BUFLEN then script_loop fuel shfd buf else Exit 0))
  end.

(** while(getcmd(buf, sizeof(buf)) >= 0) parse_buffer(buf); *)
Fixpoint command_loop (fuel : nat) : prog :=
  match fuel with
  | O => Stuck
  | S fuel => getcmd (λ r, match r with Some buf => parse_buffer buf (λ _, command_loop fuel) | None => Exit 0 end)
  end.

(** [fuel] bounds the commands read *)
Definition main (fuel : nat) (argv : list (list Z)) : prog :=
  open_console 4 (
    match argv with
    | [_; script] =>
        Open script O_RDWR (λ shfd,
          if shfd <? 0 then
            match fprintf (bytes_of "Failed to open %s" ++ [10]) [UStr (Some script)] with Some l => uputs 1 l (Exit 1) | None => Wild end
          else read_buf shfd (replicate BUFLEN 0) (λ _ buf, script_loop fuel shfd buf))
    | _ => command_loop fuel
    end).
