(* ===== verification/ShSpec.v ===== *)
(** The shell's parser accepts exactly the grammar of command lines. *)

From S2P Require Import Prelude Console ULib Sh.

(** * Tokens *)

Inductive tok := Tword (w : word) | Tsym (c : Z).
#[export] Instance tok_eq_dec : EqDecision tok.
Proof. solve_decision. Defined.

Fixpoint toks_from (fuel : nat) (b : list Z) (s : nat) : list tok :=
  match fuel with
  | O => []
  | S fuel =>
      let '(t, q, eq, s') := gettoken b s in
      if t =? 0 then [] else (if t =? WORD then Tword (q, eq) else Tsym t) :: toks_from fuel b s'
  end.
(** the tokens of the line from position [s] on *)
Definition toks (b : list Z) (s : nat) : list tok := toks_from (S (length b - s)) b s.

(** * The grammar *)

Inductive g_redirs : list tok → list redir → Prop :=
| g_none : g_redirs [] []
| g_in w ts rs : g_redirs ts rs → g_redirs (Tsym 60 :: Tword w :: ts) (mkRedir w O_RDONLY 0 :: rs)
| g_out w ts rs : g_redirs ts rs → g_redirs (Tsym 62 :: Tword w :: ts) (mkRedir w (Z.lor (Z.lor O_WRONLY O_CREATE) O_TRUNC) 1 :: rs)
| g_append w ts rs : g_redirs ts rs → g_redirs (Tsym PLUS :: Tword w :: ts) (mkRedir w (Z.lor O_WRONLY O_CREATE) 1 :: rs).

Inductive g_args : list tok → list word → list redir → Prop :=
| g_noargs : g_args [] [] []
| g_arg w t1 rs ts ws rs' : g_redirs t1 rs → g_args ts ws rs' → g_args (Tword w :: t1 ++ ts) (w :: ws) (rs ++ rs').

(** line ::= pipe "&"* (";" line)?   pipe ::= exec ("|" pipe)?
    exec ::= "(" line ")" redir*  |  redir* (word redir* )*  with fewer than MAXARGS words *)
Inductive g_line : list tok → cmd → Prop :=
| g_last t c n : g_pipe t c → g_line (t ++ replicate n (Tsym 38)) (Nat.iter n BACK c)
| g_seq t c n t' c' : g_pipe t c → g_line t' c' → g_line (t ++ replicate n (Tsym 38) ++ Tsym 59 :: t') (LIST (Nat.iter n BACK c) c')
with g_pipe : list tok → cmd → Prop :=
| g_one t c : g_exec t c → g_pipe t c
| g_more t c t' c' : g_exec t c → g_pipe t' c' → g_pipe (t ++ Tsym 124 :: t') (PIPE c c')
with g_exec : list tok → cmd → Prop :=
| g_block t c t' rs : g_line t c → g_redirs t' rs → g_exec (Tsym 40 :: t ++ Tsym 41 :: t') (wrap c rs)
| g_simple t rs t' ws rs' : g_redirs t rs → g_args t' ws rs' → Z.of_nat (length ws) < MAXARGS →
    g_exec (t ++ t') (wrap (EXEC ws) (rs ++ rs')).

(** * The lexer *)

Section Skip.
Context (p : Z → bool) (b : list Z).

Lemma span_le l : (span_len p l ≤ length l)%nat.
Proof. induction l as [|c l IH]; cbn; [lia|]. destruct (p c); lia. Qed.
Lemma skip_le s : (s ≤ length b)%nat → (s ≤ skip p b s ≤ length b)%nat.
Proof. intros Hs. unfold skip. pose proof (span_le (drop s b)) as H. rewrite length_drop in H. lia. Qed.

Lemma span_in l i : (i < span_len p l)%nat → p (default 0 (l !! i)) = true.
Proof. revert i. induction l as [|c l IH]; intros i Hi; cbn in *; [lia|]. destruct (p c) eqn:E; [|lia]. destruct i as [|i]; [done|]. apply IH. lia. Qed.
Lemma span_stop l : (span_len p l < length l)%nat → p (default 0 (l !! span_len p l)) = false.
Proof. induction l as [|c l IH]; cbn; [lia|]. destruct (p c) eqn:E; [|done]. intros H. apply IH. lia. Qed.

Lemma skip_in s i : (s ≤ i < skip p b s)%nat → p (at_ b i) = true.
Proof.
  unfold skip, at_. intros Hi. pose proof (span_in (drop s b) (i - s)) as H. rewrite lookup_drop in H. replace (s + (i - s))%nat with i in H by lia. apply H. lia.
Qed.
Lemma skip_stop s : (s ≤ length b)%nat → (skip p b s < length b)%nat → p (at_ b (skip p b s)) = false.
Proof.
  unfold skip, at_. intros Hs Hi. pose proof (span_stop (drop s b)) as H. rewrite lookup_drop, length_drop in H. apply H. lia.
Qed.
Lemma skip_none s : (s < length b)%nat → p (at_ b s) = false → skip p b s = s.
Proof.
  intros Hs Hp. unfold skip. unfold at_ in Hp. destruct (b !! s) as [c|] eqn:E; [|apply lookup_ge_None in E; lia]. rewrite (drop_S _ _ _ E). cbn in *. rewrite Hp. lia.
Qed.
Lemma skip_end s : (length b ≤ s)%nat → skip p b s = s.
Proof. intros Hs. unfold skip. rewrite drop_ge by done. cbn. lia. Qed.
Lemma skip_idem s : (s ≤ length b)%nat → skip p b (skip p b s) = skip p b s.
Proof.
  intros Hs. destruct (decide (skip p b s < length b)%nat) as [H|H]; [apply skip_none; [done|by apply skip_stop]|apply skip_end; lia].
Qed.
Lemma skip_more s : (s < length b)%nat → p (at_ b s) = true → (s < skip p b s)%nat.
Proof.
  intros Hs Hp. unfold skip. unfold at_ in Hp. destruct (b !! s) as [c|] eqn:E; [|apply lookup_ge_None in E; lia]. rewrite (drop_S _ _ _ E). cbn in *. rewrite Hp. lia.
Qed.
End Skip.

Section Lex.
Context (b : list Z) (Hb : Forall (λ c, c ≠ 0) b).

Lemma at_zero s : at_ b s = 0 ↔ (length b ≤ s)%nat.
Proof.
  unfold at_. destruct (b !! s) as [c|] eqn:E; cbn.
  - split; [|intros H; apply lookup_lt_Some in E; lia]. intros ->. by destruct (proj1 (Forall_lookup _ _) Hb s 0 E).
  - split; [|done]. intros _. by apply lookup_ge_None.
Qed.

Definition token (t : Z) : Prop := t = WORD ∨ t ∈ [124; 40; 41; 59; 38; 60; 62; PLUS].

Lemma gettoken_cases s : (s ≤ length b)%nat →
  ∃ t q eq s', gettoken b s = (t, q, eq, s') ∧ q = skip_ws b s ∧ s' = skip_ws b eq ∧
    (t = 0 ∧ q = length b ∧ eq = q ∨
     token t ∧ (s ≤ q < eq)%nat ∧ (eq ≤ s' ≤ length b)%nat ∧ strchr whitespace (at_ b q) = false ∧
     (t = WORD ∧ in_word (at_ b q) = true ∧ eq = skip in_word b q ∨ t ≠ WORD ∧ t ≠ 0 ∧ at_ b q = (if t =? PLUS then 62 else t))).
Proof.
  intros Hs. set (q := skip_ws b s). pose proof (skip_le (strchr whitespace) b s Hs) as Hq. fold (skip_ws b s) in Hq. fold q in Hq.
  assert (∀ t eq, token t → (q < eq ≤ length b)%nat → strchr whitespace (at_ b q) = false →
    (t = WORD ∧ in_word (at_ b q) = true ∧ eq = skip in_word b q ∨ t ≠ WORD ∧ t ≠ 0 ∧ at_ b q = (if t =? PLUS then 62 else t)) →
    ∃ t' q' eq' s', (t, q, eq, skip_ws b eq) = (t', q', eq', s') ∧ q' = q ∧ s' = skip_ws b eq' ∧
    (t' = 0 ∧ q' = length b ∧ eq' = q' ∨
     token t' ∧ (s ≤ q' < eq')%nat ∧ (eq' ≤ s' ≤ length b)%nat ∧ strchr whitespace (at_ b q') = false ∧
     (t' = WORD ∧ in_word (at_ b q') = true ∧ eq' = skip in_word b q' ∨ t' ≠ WORD ∧ t' ≠ 0 ∧ at_ b q' = (if t' =? PLUS then 62 else t')))) as Hgo.
  { intros t eq Ht Heq Hw Hc. exists t, q, eq, (skip_ws b eq). split_and!; try done. right. split_and!; try done; try lia; apply skip_le; lia. }
  unfold gettoken. fold q. destruct (Z.eqb_spec (at_ b q) 0) as [E0|E0].
  { exists 0, q, q, (skip_ws b q). split_and!; try done. left. apply at_zero in E0. split_and!; [done|lia|done]. }
  assert (q < length b)%nat as Hlt by (rewrite at_zero in E0; lia).
  assert (strchr whitespace (at_ b q) = false) as Hnw by by apply skip_stop.
  destruct (strchr (bytes_of "|();&<") (at_ b q)) eqn:Es.
  { apply Hgo; [|lia|done|].
    - right. unfold strchr in Es. apply bool_decide_eq_true in Es. vm_compute in Es. set_solver.
    - right. unfold strchr in Es. apply bool_decide_eq_true in Es. repeat (apply elem_of_cons in Es as [->|Es]; [done|]). by apply elem_of_nil in Es. }
  destruct (Z.eqb_spec (at_ b q) 62) as [Eg|Eg].
  { destruct (Z.eqb_spec (at_ b (S q)) 62) as [E1|E1].
    - apply Hgo; [right; set_solver| |done|right; by rewrite Eg]. split; [lia|]. destruct (decide (S q < length b)%nat); [lia|].
      assert (at_ b (S q) = 0) as E2 by (apply at_zero; lia). rewrite E2 in E1. done.
    - apply Hgo; [right; set_solver|lia|done|right; by rewrite Eg]. }
  assert (in_word (at_ b q) = true) as Hin.
  { unfold in_word. rewrite Hnw. cbn [negb andb]. unfold strchr in *. apply bool_decide_eq_false in Es. rewrite bool_decide_false; [done|].
    intros Hi. apply Es. clear Es. vm_compute in Hi |- *. set_solver. }
  apply Hgo; [by left| |done|by left]. pose proof (skip_more in_word b q Hlt Hin). pose proof (skip_le in_word b q ltac:(lia)). lia.
Qed.

Lemma toks_fuel f s : (s ≤ length b)%nat → (length b - s < f)%nat → toks_from f b s = toks b s.
Proof.
  assert (∀ f f' s, (s ≤ length b)%nat → (length b - s < f)%nat → (length b - s < f')%nat → toks_from f b s = toks_from f' b s) as H.
  { clear f s. induction f as [|f IH]; intros [|f'] s Hs H1 H2; try lia. cbn [toks_from].
    destruct (gettoken_cases s Hs) as (t & q & eq & s' & -> & _ & _ & [(-> & _)|(Ht & Hq & Hs' & _)]); [done|].
    destruct (t =? 0); [done|]. f_equal. apply IH; lia. }
  intros Hs Hf. apply H; [done|done|lia].
Qed.

Lemma toks_eq s : (s ≤ length b)%nat →
  toks b s = let '(t, q, eq, s') := gettoken b s in if t =? 0 then [] else (if t =? WORD then Tword (q, eq) else Tsym t) :: toks b s'.
Proof.
  intros Hs. unfold toks at 1. cbn [toks_from].
  destruct (gettoken_cases s Hs) as (t & q & eq & s' & -> & _ & _ & [(-> & _)|(Ht & Hq & Hs' & _)]); [done|].
  destruct (t =? 0); [done|]. f_equal. apply toks_fuel; lia.
Qed.

Lemma toks_ws s : (s ≤ length b)%nat → toks b (skip_ws b s) = toks b s.
Proof.
  intros Hs. pose proof (skip_le (strchr whitespace) b s Hs). rewrite (toks_eq s), toks_eq by (done || unfold skip_ws; lia).
  unfold gettoken, skip_ws. by rewrite skip_idem.
Qed.

(** the next token is one of the symbols [l] *)
Definition starts (l : list Z) (ts : list tok) : bool :=
  match ts with Tsym c :: _ => strchr l (if c =? PLUS then 62 else c) | _ => false end.

Lemma peek_toks s l : (s ≤ length b)%nat → l ⊆ symbols →
  ∃ s', peek b s l = (s', starts l (toks b s)) ∧ (s' ≤ length b)%nat ∧ toks b s' = toks b s.
Proof.
  intros Hs Hl. exists (skip_ws b s). pose proof (skip_le (strchr whitespace) b s Hs) as Hle.
  split; [|split; [unfold skip_ws; lia|by apply toks_ws]]. unfold peek. f_equal. rewrite toks_eq by done.
  destruct (gettoken_cases s Hs) as (t & q & eq & s' & -> & Hq & _ & [(-> & Hq' & _)|(Ht & Hlt & Hlt2 & _ & Hc)]); rewrite <- Hq.
  - rewrite (proj2 (at_zero q)) by lia. done.
  - assert (at_ b q ≠ 0) as Hne by (rewrite at_zero; lia). rewrite (proj2 (Z.eqb_neq _ _) Hne). cbn [negb andb].
    destruct Hc as [(-> & Hw & _)|(Hnw & Hn0 & ->)].
    + cbn. unfold in_word in Hw. apply andb_true_iff in Hw as [_ Hw]. apply negb_true_iff, bool_decide_eq_false in Hw. apply bool_decide_eq_false. set_solver.
    + rewrite (proj2 (Z.eqb_neq _ _) Hn0), (proj2 (Z.eqb_neq _ _) Hnw). done.
Qed.

Lemma toks_end : toks b (length b) = [].
Proof.
  rewrite toks_eq by lia. destruct (gettoken_cases (length b) (le_n _)) as (t & q & eq & s' & -> & _ & _ & [(-> & _)|(_ & Hq & Hs & _)]); [done|lia].
Qed.

Lemma gettoken_toks s : (s ≤ length b)%nat →
  match toks b s with
  | [] => ∃ q eq s', gettoken b s = (0, q, eq, s') ∧ toks b s' = [] ∧ (s' ≤ length b)%nat
  | Tword w :: r => ∃ s', gettoken b s = (WORD, w.1, w.2, s') ∧ toks b s' = r ∧ (s' ≤ length b)%nat
  | Tsym c :: r => ∃ q eq s', gettoken b s = (c, q, eq, s') ∧ toks b s' = r ∧ (s' ≤ length b)%nat ∧ c ≠ 0 ∧ c ≠ WORD
  end.
Proof.
  intros Hs. rewrite toks_eq by done.
  destruct (gettoken_cases s Hs) as (t & q & eq & s' & -> & Hq & Hs' & [(-> & Hq' & ->)|(Ht & Hlt & Hle & _ & Hc)]).
  - rewrite Z.eqb_refl. exists q, q, s'. split_and!; [done| |].
    + rewrite Hs', toks_ws, Hq' by lia. apply toks_end.
    + rewrite Hs'. unfold skip_ws. rewrite skip_end; lia.
  - destruct Hc as [(-> & _)|(Hnw & Hn0 & _)].
    + cbn [Z.eqb WORD Pos.eqb]. exists s'. split_and!; [done|done|lia].
    + rewrite (proj2 (Z.eqb_neq _ _) Hn0), (proj2 (Z.eqb_neq _ _) Hnw). exists q, eq, s'. split_and!; [done|done|lia|done|done].
Qed.
End Lex.

(** * What the parser accepts is in the grammar *)

Section Sound.
Context (b : list Z) (Hb : Forall (λ c, c ≠ 0) b).
Abbreviation N s := (length (toks b s)).

(** the parser ends, and what it returns derives from the tokens it consumed *)
Definition good (G : list tok → cmd → Prop) (s : nat) (o : pres (cmd * nat)) : Prop :=
  match o with
  | Ok (c, s') => (s' ≤ length b)%nat ∧ ∃ t, toks b s = t ++ toks b s' ∧ G t c
  | Err _ => True
  | Fuel => False
  end.

Ltac do_peek s1 Hs1 E1 :=
  match goal with
  | |- context [peek b ?s ?l] =>
      destruct (peek_toks b Hb s l ltac:(done) ltac:(vm_compute; set_solver)) as (s1 & -> & Hs1 & E1)
  end.

Lemma sound_redirs f rs s : (s ≤ length b)%nat → (N s < f)%nat →
  match parseredirs f b rs s with
  | Ok (rs', s') => (s' ≤ length b)%nat ∧ ∃ t new, toks b s = t ++ toks b s' ∧ g_redirs t new ∧ rs' = rs ++ new
  | Err _ => True
  | Fuel => False
  end.
Proof.
  revert rs s. induction f as [|f IH]; intros rs s Hs Hf; [lia|]. cbn [parseredirs]. do_peek s1 Hs1 E1.
  destruct (starts (bytes_of "<>") (toks b s)) eqn:Est.
  2: { split; [done|]. exists [], []. rewrite app_nil_r, E1. split_and!; [done|constructor|done]. }
  rewrite <- E1 in Hf, Est. rewrite <- E1. pose proof (gettoken_toks b Hb s1 Hs1) as H1. destruct (toks b s1) as [|[w|c] r1] eqn:T1; [done|done|].
  destruct H1 as (q & eq & s2 & -> & T2 & Hs2 & _). pose proof (gettoken_toks b Hb s2 Hs2) as H2. rewrite T2 in H2. destruct r1 as [|[w|c'] r2].
  - destruct H2 as (? & ? & ? & -> & _). done.
  - destruct H2 as (s3 & -> & T3 & Hs3). cbn [negb Z.eqb WORD Pos.eqb]. cbn [length] in Hf.
    assert (c = 60 ∨ c = 62 ∨ c = PLUS) as Hc.
    { cbn in Est. unfold strchr in Est. apply bool_decide_eq_true in Est. destruct (Z.eqb_spec c PLUS) as [->|]; [auto|]. vm_compute in Est. set_solver. }
    set (rs1 := if c =? 60 then _ else _). specialize (IH rs1 s3 Hs3). rewrite T3 in IH. specialize (IH ltac:(lia)).
    destruct (parseredirs f b rs1 s3) as [[rs' s']| |]; [|done|done]. destruct IH as (Hs' & t & new & -> & Hg & ->). split; [done|].
    destruct Hc as [-> |[-> | ->]]; cbn in rs1; unfold rs1; (eexists (_ :: _ :: t), (_ :: new); split; [reflexivity|]; split; [constructor; exact Hg|]; by rewrite <- app_assoc; destruct w).
  - destruct H2 as (? & ? & ? & -> & _ & _ & _ & Hw). rewrite (proj2 (Z.eqb_neq _ _) Hw). done.
Qed.

Lemma sound_back f c s : (s ≤ length b)%nat → (N s < f)%nat →
  match parseback f b c s with
  | Ok (c', s') => (s' ≤ length b)%nat ∧ ∃ n, toks b s = replicate n (Tsym 38) ++ toks b s' ∧ c' = Nat.iter n BACK c
  | Err _ => True
  | Fuel => False
  end.
Proof.
  revert c s. induction f as [|f IH]; intros c s Hs Hf; [lia|]. cbn [parseback]. do_peek s1 Hs1 E1.
  destruct (starts (bytes_of "&") (toks b s)) eqn:Est.
  2: { split; [done|]. exists 0%nat. by rewrite E1. }
  rewrite <- E1 in Hf, Est. rewrite <- E1. pose proof (gettoken_toks b Hb s1 Hs1) as H1. destruct (toks b s1) as [|[w|c1] r1] eqn:T1; [done|done|].
  destruct H1 as (q & eq & s2 & -> & T2 & Hs2 & _). cbn [length] in Hf. specialize (IH (BACK c) s2 Hs2). rewrite T2 in IH. specialize (IH ltac:(lia)).
  assert (c1 = 38) as ->. { cbn in Est. unfold strchr in Est. apply bool_decide_eq_true in Est. destruct (Z.eqb_spec c1 PLUS) as [->|]; vm_compute in Est; set_solver. }
  destruct (parseback f b (BACK c) s2) as [[c' s']| |]; [|done|done]. destruct IH as (Hs' & n & -> & ->). split; [done|]. exists (S n). split; [done|].
  by rewrite Nat.iter_succ_r.
Qed.

Lemma sound_args f argv rs s : (s ≤ length b)%nat → (N s < f)%nat → Z.of_nat (length argv) < MAXARGS →
  match parseargs f b argv rs s with
  | Ok (c, s') => (s' ≤ length b)%nat ∧ ∃ t ws rs', toks b s = t ++ toks b s' ∧ g_args t ws rs' ∧ c = wrap (EXEC (argv ++ ws)) (rs ++ rs') ∧
                    Z.of_nat (length (argv ++ ws)) < MAXARGS
  | Err _ => True
  | Fuel => False
  end.
Proof.
  revert argv rs s. induction f as [|f IH]; intros argv rs s Hs Hf Hl; [lia|]. cbn [parseargs]. do_peek s1 Hs1 E1.
  assert (∀ s', (s' ≤ length b)%nat → toks b s' = toks b s → (s' ≤ length b)%nat ∧ ∃ t ws rs', toks b s = t ++ toks b s' ∧ g_args t ws rs' ∧
    wrap (EXEC argv) rs = wrap (EXEC (argv ++ ws)) (rs ++ rs') ∧ Z.of_nat (length (argv ++ ws)) < MAXARGS) as Hstop.
  { intros s' Hs' E'. split; [done|]. exists [], [], []. rewrite !app_nil_r, E'. split_and!; [done|constructor|done|done]. }
  destruct (starts (bytes_of "|)&;") (toks b s)) eqn:Est; [by apply Hstop|].
  pose proof (gettoken_toks b Hb s1 Hs1) as H1. rewrite <- E1 in Hf |- *. destruct (toks b s1) as [|[w|c] r1] eqn:T1.
  - destruct H1 as (q & eq & s2 & -> & T2 & Hs2). cbn [Z.eqb]. rewrite E1. apply Hstop; [done|by rewrite T2].
  - destruct H1 as (s2 & -> & T2 & Hs2). cbn [negb Z.eqb WORD Pos.eqb]. destruct (Z.leb_spec MAXARGS (Z.of_nat (length (argv ++ [(w.1, w.2)])))) as [|Hm]; [done|].
    cbn [length] in Hf. pose proof (sound_redirs f rs s2 Hs2) as HR. rewrite T2 in HR. specialize (HR ltac:(lia)).
    destruct (parseredirs f b rs s2) as [[rs' s3]| |]; [|done|done]. destruct HR as (Hs3 & t1 & new & -> & Hg & ->). cbn [pbind]. rewrite length_app in Hf.
    specialize (IH (argv ++ [(w.1, w.2)]) (rs ++ new) s3 Hs3 ltac:(lia) Hm). destruct (parseargs f b _ _ s3) as [[c s']| |]; [|done|done].
    destruct IH as (Hs' & t & ws & rs2 & -> & Hg2 & -> & Hm2). split; [done|]. exists (Tword w :: t1 ++ t), (w :: ws), (new ++ rs2). destruct w as [q eq]. cbn [fst snd] in *.
    rewrite <- app_assoc in Hm2. rewrite <- !app_assoc. split_and!; [cbn; by rewrite <- app_assoc|by constructor|done|done].
  - destruct H1 as (? & ? & ? & -> & _ & _ & H0 & Hw). rewrite (proj2 (Z.eqb_neq _ _) H0), (proj2 (Z.eqb_neq _ _) Hw). done.
Qed.

Ltac do_sym E Est s2 T2 Hs2 :=
  let H := fresh in
  match goal with
  | |- context [gettoken b ?s] =>
      pose proof (gettoken_toks b Hb s ltac:(done)) as H; rewrite E in H; destruct H as (? & ? & s2 & -> & T2 & Hs2 & _)
  end.

(** the symbol a successful peek() has seen *)
Lemma starts_sym l c ts : c ≠ PLUS → l = [c] → c ≠ 62 → starts l ts = true → ∃ r, ts = Tsym c :: r.
Proof.
  intros Hc -> Hg. destruct ts as [|[w|c'] r]; [done|done|]. cbn. unfold strchr. rewrite bool_decide_eq_true. rewrite list_elem_of_singleton.
  destruct (Z.eqb_spec c' PLUS); [intros <-; done|]. intros ->. by exists r.
Qed.

Definition sound_at (f : nat) : Prop := ∀ s, (s ≤ length b)%nat →
  ((4 * N s + 4 ≤ f)%nat → good g_line s (parseline f b s)) ∧ ((4 * N s + 3 ≤ f)%nat → good g_pipe s (parsepipe f b s)) ∧
  ((4 * N s + 2 ≤ f)%nat → good g_exec s (parseexec f b s)) ∧ ((4 * N s + 1 ≤ f)%nat → good g_exec s (parseblock f b s)).

Lemma sound_line_step f s : sound_at f → (s ≤ length b)%nat → (4 * N s + 3 ≤ f)%nat → good g_line s (parseline (S f) b s).
Proof.
  intros IH Hs Hf. cbn [parseline]. destruct (IH s Hs) as (_ & HP & _). specialize (HP ltac:(lia)). destruct (parsepipe f b s) as [[c s1]| |]; [|done|done].
  destruct HP as (Hs1 & t & Et & Hg). cbn [pbind]. assert (N s = length t + N s1)%nat as HN by by rewrite Et, length_app.
  pose proof (sound_back f c s1 Hs1 ltac:(lia)) as HB. destruct (parseback f b c s1) as [[c' s2]| |]; [|done|done]. destruct HB as (Hs2 & n & En & ->). cbn [pbind].
  assert (N s1 = n + N s2)%nat as HN2 by by rewrite En, length_app, length_replicate.
  do_peek s3 Hs3 E3. destruct (starts (bytes_of ";") (toks b s2)) eqn:Est.
  - apply (starts_sym _ 59) in Est as [r Er]; [|done|done|done]. rewrite <- E3 in Er. do_sym Er Est s4 T4 Hs4.
    rewrite <- E3, Er in HN2. cbn [length] in HN2. destruct (IH s4 Hs4) as (HL & _). rewrite T4 in HL. specialize (HL ltac:(lia)). destruct (parseline f b s4) as [[c2 s5]| |]; [|done|done].
    destruct HL as (Hs5 & t' & Et' & Hg'). split; [done|]. exists (t ++ replicate n (Tsym 38) ++ Tsym 59 :: t'). split; [|by constructor].
    rewrite Et, En, <- E3, Er, <- T4, Et'. by rewrite <- !app_assoc.
  - split; [done|]. exists (t ++ replicate n (Tsym 38)). split; [|by constructor]. by rewrite Et, En, E3, <- app_assoc.
Qed.

Lemma sound_pipe_step f s : sound_at f → (s ≤ length b)%nat → (4 * N s + 2 ≤ f)%nat → good g_pipe s (parsepipe (S f) b s).
Proof.
  intros IH Hs Hf. cbn [parsepipe]. destruct (IH s Hs) as (_ & _ & HP & _). specialize (HP ltac:(lia)). destruct (parseexec f b s) as [[c s1]| |]; [|done|done].
  destruct HP as (Hs1 & t & Et & Hg). cbn [pbind]. assert (N s = length t + N s1)%nat as HN by by rewrite Et, length_app.
  do_peek s3 Hs3 E3. destruct (starts (bytes_of "|") (toks b s1)) eqn:Est.
  - apply (starts_sym _ 124) in Est as [r Er]; [|done|done|done]. rewrite <- E3 in Er. do_sym Er Est s4 T4 Hs4.
    rewrite <- E3, Er in HN. cbn [length] in HN. destruct (IH s4 Hs4) as (_ & HL & _). rewrite T4 in HL. specialize (HL ltac:(lia)). destruct (parsepipe f b s4) as [[c2 s5]| |]; [|done|done].
    destruct HL as (Hs5 & t' & Et' & Hg'). split; [done|]. exists (t ++ Tsym 124 :: t'). split; [|by constructor].
    rewrite Et, <- E3, Er, <- T4, Et'. by rewrite <- !app_assoc.
  - split; [done|]. exists t. split; [|by constructor]. by rewrite Et, E3.
Qed.

Lemma sound_exec_step f s : sound_at f → (s ≤ length b)%nat → (4 * N s + 1 ≤ f)%nat → good g_exec s (parseexec (S f) b s).
Proof.
  intros IH Hs Hf. cbn [parseexec]. do_peek s1 Hs1 E1. rewrite <- E1 in Hf. destruct (starts (bytes_of "(") (toks b s)).
  - destruct (IH s1 Hs1) as (_ & _ & _ & HB). specialize (HB ltac:(lia)). unfold good in *. by rewrite <- E1.
  - pose proof (sound_redirs f [] s1 Hs1 ltac:(lia)) as HR. destruct (parseredirs f b [] s1) as [[rs s2]| |]; [|done|done]. cbn [pbind].
    destruct HR as (Hs2 & t & new & Et & Hg & ->). cbn [app]. rewrite Et, length_app in Hf.
    pose proof (sound_args f [] new s2 Hs2 ltac:(lia) ltac:(done)) as HA. destruct (parseargs f b [] new s2) as [[c s3]| |]; [|done|done].
    destruct HA as (Hs3 & t' & ws & rs' & Et' & Hg' & -> & Hm). split; [done|]. exists (t ++ t'). split; [by rewrite <- E1, Et, Et', <- app_assoc|]. by constructor.
Qed.

Lemma sound_block_step f s : sound_at f → (s ≤ length b)%nat → (4 * N s ≤ f)%nat → good g_exec s (parseblock (S f) b s).
Proof.
  intros IH Hs Hf. cbn [parseblock]. do_peek s1 Hs1 E1. destruct (starts (bytes_of "(") (toks b s)) eqn:Est; [|done]. cbn [negb].
  apply (starts_sym _ 40) in Est as [r Er]; [|done|done|done]. rewrite <- E1 in Er. do_sym Er Est s2 T2 Hs2. unfold good. rewrite <- E1, Er in *. cbn [length] in Hf.
  destruct (IH s2 Hs2) as (HL & _). rewrite T2 in HL. specialize (HL ltac:(lia)). destruct (parseline f b s2) as [[c s3]| |]; [|done|done].
  destruct HL as (Hs3 & t & Et & Hg). cbn [pbind]. rewrite T2 in Et. do_peek s4 Hs4 E4. destruct (starts (bytes_of ")") (toks b s3)) eqn:Est; [|done]. cbn [negb].
  apply (starts_sym _ 41) in Est as [r' Er']; [|done|done|done]. rewrite <- E4 in Er'. do_sym Er' Est s5 T5 Hs5.
  assert (length r = length t + S (length r'))%nat as HN by (rewrite Et, <- E4, Er', length_app; done).
  pose proof (sound_redirs f [] s5 Hs5) as HR. rewrite T5 in HR. specialize (HR ltac:(lia)). destruct (parseredirs f b [] s5) as [[rs s6]| |]; [|done|done]. cbn [pbind].
  destruct HR as (Hs6 & t' & new & Et' & Hg' & ->). split; [done|]. exists (Tsym 40 :: t ++ Tsym 41 :: t'). split; [|by constructor].
  rewrite Et, <- E4, Er', Et'. cbn. by rewrite <- app_assoc.
Qed.

Lemma sound_all f : sound_at f.
Proof.
  induction f as [|f IH]; intros s Hs; [split_and!; lia|].
  split_and!; intros Hf; [apply sound_line_step|apply sound_pipe_step|apply sound_exec_step|apply sound_block_step]; done || lia.
Qed.
End Sound.

(** * The parser accepts what is in the grammar *)

Scheme g_line_mut := Minimality for g_line Sort Prop
  with g_pipe_mut := Minimality for g_pipe Sort Prop
  with g_exec_mut := Minimality for g_exec Sort Prop.
Combined Scheme g_mut from g_line_mut, g_pipe_mut, g_exec_mut.

(** what may follow a line, a pipeline, a command *)
Definition ends (l : list Z) (r : list tok) : Prop := r = [] ∨ ∃ c r', r = Tsym c :: r' ∧ c ∈ l.

Lemma ends_starts l l' r : ends l r → (PLUS ∉ l) → (∀ c, c ∈ l → c ∈ l' → False) → starts l' r = false.
Proof.
  intros [->|(c & r' & -> & Hc)] Hp Hd; [done|]. cbn. destruct (Z.eqb_spec c PLUS) as [->|]; [done|]. apply bool_decide_eq_false. eauto.
Qed.
Lemma ends_mono l l' r : ends l r → l ⊆ l' → ends l' r.
Proof. intros [->|(c & r' & -> & Hc)] Hl; [by left|]. right. exists c, r'. set_solver. Qed.
Lemma ends_cons l c r : c ∈ l → ends l (Tsym c :: r).
Proof. intros Hc. right. by exists c, r. Qed.

Definition F_line : list Z := [41].
Definition F_pipe : list Z := [41; 38; 59].
Definition F_exec : list Z := [41; 38; 59; 124].

Section Complete.
Context (b : list Z) (Hb : Forall (λ c, c ≠ 0) b).
Abbreviation N s := (length (toks b s)).

Ltac do_peek s1 Hs1 E1 :=
  match goal with
  | |- context [peek b ?s ?l] =>
      destruct (peek_toks b Hb s l ltac:(done) ltac:(vm_compute; set_solver)) as (s1 & -> & Hs1 & E1)
  end.
Ltac do_tok E s2 T2 Hs2 :=
  let H := fresh in
  match goal with
  | |- context [gettoken b ?s] =>
      pose proof (gettoken_toks b Hb s ltac:(done)) as H; rewrite E in H;
      first [destruct H as (? & ? & s2 & -> & T2 & Hs2 & _)|destruct H as (? & ? & s2 & -> & T2 & Hs2)|destruct H as (s2 & -> & T2 & Hs2)]
  end.
Ltac fset := let c := fresh in let H1 := fresh in let H2 := fresh in intros c H1 H2; vm_compute in H1, H2; set_solver.

Lemma complete_redirs t new : g_redirs t new → ∀ f rs s r, (s ≤ length b)%nat → toks b s = t ++ r → starts (bytes_of "<>") r = false → (N s < f)%nat →
  ∃ s', parseredirs f b rs s = Ok (rs ++ new, s') ∧ (s' ≤ length b)%nat ∧ toks b s' = r.
Proof.
  induction 1 as [|w ts rs0 _ IH|w ts rs0 _ IH|w ts rs0 _ IH]; intros [|f] rs s r Hs Ht Hr Hf; try lia; cbn [parseredirs]; do_peek s1 Hs1 E1.
  1: { cbn [replicate app] in Ht. rewrite Ht, Hr, app_nil_r. exists s1. by rewrite E1, Ht. }
  all: rewrite Ht; cbn [app starts]; match goal with |- context [strchr ?l ?c] => change (strchr l c) with true end;
    cbn [app] in Ht; rewrite Ht in E1; do_tok E1 s2 T2 Hs2; do_tok T2 s3 T3 Hs3; cbn [negb Z.eqb WORD PLUS Pos.eqb];
    rewrite Ht in Hf; cbn [length] in Hf; match goal with |- context [parseredirs ?f _ ?l ?s3] => destruct (IH f l s3 r Hs3 T3 Hr ltac:(rewrite T3; lia)) as (s' & E & Hs' & T') end;
    exists s'; (split; [|done]); destruct w; rewrite <- app_assoc in E; exact E.
Qed.

Lemma complete_back n : ∀ f c s r, (s ≤ length b)%nat → toks b s = replicate n (Tsym 38) ++ r → starts (bytes_of "&") r = false → (N s < f)%nat →
  ∃ s', parseback f b c s = Ok (Nat.iter n BACK c, s') ∧ (s' ≤ length b)%nat ∧ toks b s' = r.
Proof.
  induction n as [|n IH]; intros [|f] c s r Hs Ht Hr Hf; try lia; cbn [parseback]; do_peek s1 Hs1 E1.
  - cbn [replicate app] in Ht. rewrite Ht, Hr. exists s1. by rewrite E1, Ht.
  - rewrite Ht. cbn [replicate app starts]. change (strchr _ _) with true. cbn [replicate app] in Ht. rewrite Ht in E1. do_tok E1 s2 T2 Hs2.
    rewrite Ht in Hf. cbn [length] in Hf. destruct (IH f (BACK c) s2 r Hs2 T2 Hr ltac:(rewrite T2; lia)) as (s' & E & Hs' & T'). exists s'. by rewrite Nat.iter_succ_r.
Qed.

Lemma args_start ts ws rs r : g_args ts ws rs → ends F_exec r → starts (bytes_of "<>") (ts ++ r) = false.
Proof. intros [|] Hr; [|done]. apply (ends_starts _ _ _ Hr); [vm_compute; set_solver|fset]. Qed.

Lemma complete_args t ws rs' : g_args t ws rs' → ∀ f argv rs s r, (s ≤ length b)%nat → toks b s = t ++ r → ends F_exec r → (N s < f)%nat →
  Z.of_nat (length (argv ++ ws)) < MAXARGS →
  ∃ s', parseargs f b argv rs s = Ok (wrap (EXEC (argv ++ ws)) (rs ++ rs'), s') ∧ (s' ≤ length b)%nat ∧ toks b s' = r.
Proof.
  induction 1 as [|w t1 rs0 ts ws rs1 Hg Ha IH]; intros [|f] argv rs s r Hs Ht Hr Hf Hm; try lia; cbn [parseargs]; do_peek s1 Hs1 E1.
  - cbn [replicate app] in Ht. rewrite !app_nil_r. destruct Hr as [->|(c & r' & -> & Hc)].
    + rewrite Ht. cbn [starts]. rewrite Ht in E1. do_tok E1 s2 T2 Hs2. cbn [Z.eqb]. exists s2. done.
    + rewrite Ht. cbn [starts]. assert (strchr (bytes_of "|)&;") (if c =? PLUS then 62 else c) = true) as ->.
      { unfold F_exec in Hc. repeat (apply elem_of_cons in Hc as [->|Hc]; [done|]). by apply elem_of_nil in Hc. }
      exists s1. by rewrite E1.
  - cbn [app] in Ht. rewrite Ht. cbn [starts]. rewrite Ht in E1. do_tok E1 s2 T2 Hs2. cbn [negb Z.eqb WORD Pos.eqb]. destruct w as [q eq]. cbn [fst snd] in *.
    rewrite !length_app in Hm. cbn [length] in Hm. rewrite (proj2 (Z.leb_gt _ _)) by (rewrite length_app; cbn [length]; lia). rewrite <- app_assoc in T2.
    rewrite Ht in Hf. cbn [length] in Hf. rewrite !length_app in Hf.
    destruct (complete_redirs _ _ Hg f rs s2 (ts ++ r) Hs2 T2 (args_start _ _ _ _ Ha Hr)) as (s3 & -> & Hs3 & T3); [rewrite T2, !length_app; lia|]. cbn [pbind].
    destruct (IH f (argv ++ [(q, eq)]) (rs ++ rs0) s3 r Hs3 T3 Hr) as (s' & E & Hs' & T'); [rewrite T3, length_app; lia|rewrite !length_app; cbn [length]; lia|].
    exists s'. rewrite <- !app_assoc in E. done.
Qed.

(** a command does not begin with a parenthesis unless it is a block *)
Lemma simple_start t rs ts ws rs' r : g_redirs t rs → g_args ts ws rs' → ends F_exec r → starts (bytes_of "(") (t ++ ts ++ r) = false.
Proof.
  intros [] Ha Hr; try done. destruct Ha; [|done]. apply (ends_starts _ _ _ Hr); [vm_compute; set_solver|fset].
Qed.

Definition parses (G : nat → list Z → nat → pres (cmd * nat)) (k : nat) (l : list Z) (t : list tok) (c : cmd) : Prop :=
  ∀ f s r, (s ≤ length b)%nat → toks b s = t ++ r → ends l r → (4 * N s + k ≤ f)%nat → ∃ s', G f b s = Ok (c, s') ∧ (s' ≤ length b)%nat ∧ toks b s' = r.

Lemma complete_simple t rs t' ws rs' : g_redirs t rs → g_args t' ws rs' → Z.of_nat (length ws) < MAXARGS →
  parses parseexec 2 F_exec (t ++ t') (wrap (EXEC ws) (rs ++ rs')).
Proof.
  intros Hg Ha Hm [|f] s r Hs Ht Hr Hf; [lia|]. cbn [parseexec]. rewrite <- app_assoc in Ht. do_peek s1 Hs1 E1. rewrite Ht, (simple_start _ _ _ _ _ _ Hg Ha Hr).
  rewrite Ht in E1, Hf. rewrite !length_app in Hf. destruct (complete_redirs _ _ Hg f [] s1 (t' ++ r) Hs1 E1 (args_start _ _ _ _ Ha Hr)) as (s2 & -> & Hs2 & T2); [rewrite E1, !length_app; lia|].
  cbn [pbind app]. apply (complete_args _ _ _ Ha f [] rs s2 r Hs2 T2 Hr); [rewrite T2, length_app; lia|done].
Qed.

Lemma complete_block t c t' rs : parses parseline 4 F_line t c → g_redirs t' rs → parses parseexec 2 F_exec (Tsym 40 :: t ++ Tsym 41 :: t') (wrap c rs).
Proof.
  intros IH Hg [|[|f]] s r Hs Ht Hr Hf; [lia|lia|]. cbn [parseexec app] in *. do_peek s1 Hs1 E1. rewrite Ht. cbn [starts]. change (strchr _ _) with true. cbn iota.
  cbn [parseblock]. do_peek s2 Hs2 E2. rewrite E1, Ht. cbn [starts]. change (strchr _ _) with true. cbn [negb]. rewrite E1, Ht in E2. do_tok E2 s3 T3 Hs3.
  rewrite Ht in Hf. cbn [length] in Hf. rewrite !length_app in Hf. cbn [length] in Hf. rewrite <- app_assoc in T3. cbn [app] in T3.
  destruct (IH f s3 (Tsym 41 :: t' ++ r) Hs3 T3) as (s4 & -> & Hs4 & T4); [apply ends_cons; set_solver|rewrite T3, !length_app; cbn [length]; rewrite length_app; lia|]. cbn [pbind].
  do_peek s5 Hs5 E5. rewrite T4. cbn [starts]. change (strchr _ _) with true. cbn [negb]. rewrite T4 in E5. do_tok E5 s6 T6 Hs6.
  destruct (complete_redirs _ _ Hg f [] s6 r Hs6 T6) as (s7 & -> & Hs7 & T7); [apply (ends_starts _ _ _ Hr); [vm_compute; set_solver|fset]|rewrite T6, length_app; lia|].
  cbn [pbind app]. by exists s7.
Qed.

Lemma complete_one t c : parses parseexec 2 F_exec t c → parses parsepipe 3 F_pipe t c.
Proof.
  intros IH [|f] s r Hs Ht Hr Hf; [lia|]. cbn [parsepipe]. destruct (IH f s r Hs Ht) as (s1 & -> & Hs1 & T1); [apply (ends_mono _ _ _ Hr); vm_compute; set_solver|lia|]. cbn [pbind].
  do_peek s2 Hs2 E2. rewrite T1, (ends_starts _ _ _ Hr); [|vm_compute; set_solver|fset]. exists s2. by rewrite E2.
Qed.

Lemma complete_more t c t' c' : parses parseexec 2 F_exec t c → parses parsepipe 3 F_pipe t' c' → parses parsepipe 3 F_pipe (t ++ Tsym 124 :: t') (PIPE c c').
Proof.
  intros IH IH' [|f] s r Hs Ht Hr Hf; [lia|]. cbn [parsepipe]. rewrite <- app_assoc in Ht. cbn [app] in Ht.
  destruct (IH f s _ Hs Ht) as (s1 & -> & Hs1 & T1); [apply ends_cons; set_solver|lia|]. cbn [pbind]. rewrite Ht, length_app in Hf. cbn [length] in Hf.
  do_peek s2 Hs2 E2. rewrite T1. cbn [starts]. change (strchr _ _) with true. cbn iota. rewrite T1 in E2. do_tok E2 s3 T3 Hs3.
  destruct (IH' f s3 r Hs3 T3 Hr) as (s4 & -> & Hs4 & T4); [rewrite T3; lia|]. by exists s4.
Qed.

(** a pipeline and its ampersands *)
Lemma complete_bg t c n f s r l : parses parsepipe 3 F_pipe t c → (s ≤ length b)%nat → toks b s = t ++ replicate n (Tsym 38) ++ r →
  ends l r → l ⊆ [41; 59] → (4 * N s + 3 ≤ f)%nat →
  ∃ s1 s2, parsepipe f b s = Ok (c, s1) ∧ parseback f b c s1 = Ok (Nat.iter n BACK c, s2) ∧ (s2 ≤ length b)%nat ∧ toks b s2 = r.
Proof.
  intros IH Hs Ht Hr Hl Hf. destruct (IH f s _ Hs Ht) as (s1 & E1 & Hs1 & T1).
  { destruct n; cbn [replicate app]; [apply (ends_mono _ _ _ Hr); unfold F_pipe; set_solver|apply ends_cons; set_solver]. }
  { lia. }
  rewrite Ht, length_app in Hf. destruct (complete_back n f c s1 r Hs1 T1) as (s2 & E2 & Hs2 & T2).
  - apply (ends_starts _ _ _ Hr); [intros H; apply Hl in H; vm_compute in H; set_solver|]. intros x Hx Hx'. apply Hl in Hx. vm_compute in Hx, Hx'. set_solver.
  - rewrite T1. lia.
  - by exists s1, s2.
Qed.

Lemma complete_last t c n : parses parsepipe 3 F_pipe t c → parses parseline 4 F_line (t ++ replicate n (Tsym 38)) (Nat.iter n BACK c).
Proof.
  intros IH [|f] s r Hs Ht Hr Hf; [lia|]. cbn [parseline]. rewrite <- app_assoc in Ht.
  destruct (complete_bg t c n f s r F_line IH Hs Ht Hr) as (s1 & s2 & -> & E2 & Hs2 & T2); [vm_compute; set_solver|lia|]. cbn [pbind]. rewrite E2. cbn [pbind].
  do_peek s3 Hs3 E3. rewrite T2, (ends_starts _ _ _ Hr); [|vm_compute; set_solver|fset]. exists s3. by rewrite E3.
Qed.

Lemma complete_seq t c n t' c' : parses parsepipe 3 F_pipe t c → parses parseline 4 F_line t' c' →
  parses parseline 4 F_line (t ++ replicate n (Tsym 38) ++ Tsym 59 :: t') (LIST (Nat.iter n BACK c) c').
Proof.
  intros IH IH' [|f] s r Hs Ht Hr Hf; [lia|]. cbn [parseline]. rewrite <- !app_assoc in Ht. cbn [app] in Ht.
  destruct (complete_bg t c n f s (Tsym 59 :: t' ++ r) [59] IH Hs Ht) as (s1 & s2 & -> & E2 & Hs2 & T2); [apply ends_cons; set_solver|set_solver|lia|]. cbn [pbind]. rewrite E2. cbn [pbind].
  do_peek s3 Hs3 E3. rewrite T2. cbn [starts]. change (strchr _ _) with true. cbn iota. rewrite T2 in E3. do_tok E3 s4 T4 Hs4.
  rewrite Ht, !length_app in Hf. cbn [length] in Hf. destruct (IH' f s4 r Hs4 T4 Hr) as (s5 & -> & Hs5 & T5); [rewrite T4; lia|]. by exists s5.
Qed.

Lemma complete_line t c : g_line t c → parses parseline 4 F_line t c.
Proof.
  revert t c. apply (g_line_mut (parses parseline 4 F_line) (parses parsepipe 3 F_pipe) (parses parseexec 2 F_exec)); intros.
  - by apply complete_last.
  - by apply complete_seq.
  - by apply complete_one.
  - by apply complete_more.
  - by apply complete_block.
  - by apply complete_simple.
Qed.
End Complete.

(** * Strings *)

(** the words of a tree, in the order of the tree *)
Fixpoint words (c : cmd) : list word :=
  match c with
  | EXEC argv => argv
  | REDIR c r => words c ++ [r_file r]
  | PIPE l r => words l ++ words r
  | LIST l r => words l ++ words r
  | BACK c => words c
  end.
(** the text between the two pointers of a word *)
Definition text (b : list Z) (w : word) : list Z := take (w.2 - w.1) (drop w.1 b).
(** a word lies in the line, and the byte behind it is not part of a word *)
Definition word_ok (b : list Z) (w : word) : Prop :=
  (w.1 < w.2 ≤ length b)%nat ∧ (∀ i, (w.1 ≤ i < w.2)%nat → in_word (at_ b i) = true) ∧ ((w.2 < length b)%nat → in_word (at_ b w.2) = false).

Lemma nulterminate_words c a : nulterminate c a = foldl (λ a w, <[w.2 := 0]> a) a (words c).
Proof.
  revert a. induction c as [argv|c IH r|l IHl r IHr|l IHl r IHr|c IH]; intros a; cbn [nulterminate words]; rewrite ?foldl_app; [done|by rewrite IH|by rewrite IHl, IHr|by rewrite IHl, IHr|by rewrite IH].
Qed.

Definition token_words (ts : list tok) : list word := omap (λ t, match t with Tword w => Some w | Tsym _ => None end) ts.

Lemma token_words_app t t' : token_words (t ++ t') = token_words t ++ token_words t'.
Proof. apply omap_app. Qed.
Lemma token_words_amps n : token_words (replicate n (Tsym 38)) = [].
Proof. by induction n. Qed.
Lemma words_back n c : words (Nat.iter n BACK c) = words c.
Proof. by induction n. Qed.
Lemma words_wrap c rs : words (wrap c rs) = words c ++ map r_file rs.
Proof.
  revert c. induction rs as [|r rs IH]; intros c; cbn [wrap foldl map]; [by rewrite app_nil_r|]. fold (wrap (REDIR c r) rs). rewrite IH. cbn [words]. by rewrite <- app_assoc.
Qed.
Lemma words_redirs t rs : g_redirs t rs → map r_file rs = token_words t.
Proof. by induction 1 as [|w ts rs _ IH|w ts rs _ IH|w ts rs _ IH]; [done|..]; cbn; f_equal. Qed.
Lemma words_args t ws rs : g_args t ws rs → ws ++ map r_file rs ≡ₚ token_words t.
Proof.
  induction 1 as [|w t1 rs ts ws rs' Hr _ IH]; [done|]. cbn. apply perm_skip. rewrite token_words_app, <- (words_redirs _ _ Hr), <- IH, map_app.
  rewrite !app_assoc. f_equiv. apply Permutation_app_comm.
Qed.

(** the words of the tree are those of the line *)
Lemma words_line t c : g_line t c → words c ≡ₚ token_words t.
Proof.
  set (P := λ t c, words c ≡ₚ token_words t). revert t c. apply (g_line_mut P P P); unfold P; clear P.
  - intros t c n _ IH. by rewrite token_words_app, token_words_amps, app_nil_r, words_back.
  - intros t c n t' c' _ IH _ IH'. cbn [words]. rewrite !token_words_app, token_words_amps, words_back, IH, IH'. done.
  - done.
  - intros t c t' c' _ IH _ IH'. cbn [words]. rewrite !token_words_app, IH, IH'. done.
  - intros t c t' rs _ IH Hr. rewrite words_wrap, (words_redirs _ _ Hr), IH. cbn. rewrite token_words_app. done.
  - intros t rs t' ws rs' Hr Ha _. rewrite words_wrap, map_app, (words_redirs _ _ Hr), token_words_app. cbn [words].
    rewrite <- (words_args _ _ _ Ha), !app_assoc. f_equiv. apply Permutation_app_comm.
Qed.

Section Cut.
Context (b : list Z) (Hb : Forall (λ c, c ≠ 0) b).

Lemma token_words_ok s : (s ≤ length b)%nat → Forall (word_ok b) (token_words (toks b s)).
Proof.
  remember (length b - s)%nat as k eqn:Hk. revert s Hk. induction k as [k IH] using lt_wf_ind. intros s -> Hs. rewrite (toks_eq b Hb s Hs).
  destruct (gettoken_cases b Hb s Hs) as (t & q & eq & s' & -> & Hq & Hs' & [(-> & _)|(Ht & Hlt & Hle & _ & Hc)]); [constructor|].
  assert (Forall (word_ok b) (token_words (toks b s'))) as Hrest by (apply (IH (length b - s')%nat); lia).
  destruct Hc as [(-> & Hw & Heq)|(Hnw & Hn0 & _)].
  - cbn. constructor; [|exact Hrest]. split_and!; cbn [fst snd]; [lia|lia| |].
    + intros i Hi. apply (skip_in in_word b q). lia.
    + intros Hl. rewrite Heq in Hl |- *. apply skip_stop; [lia|done].
  - rewrite (proj2 (Z.eqb_neq _ _) Hn0), (proj2 (Z.eqb_neq _ _) Hnw). exact Hrest.
Qed.

Lemma cut_length ws a : length (foldl (λ a (w : word), <[w.2 := 0]> a) a ws) = length a.
Proof. revert a. induction ws as [|w ws IH]; intros a; cbn [foldl]; [done|]. by rewrite IH, length_insert. Qed.

Lemma cut_at ws a i : (i < length a)%nat →
  foldl (λ a (w : word), <[w.2 := 0]> a) a ws !! i = if bool_decide (i ∈ map snd ws) then Some 0 else a !! i.
Proof.
  revert a. induction ws as [|w ws IH]; intros a Hi; cbn [foldl map]; [done|]. rewrite IH by by rewrite length_insert.
  destruct (decide (i ∈ map snd ws)) as [H|H]; [by rewrite !bool_decide_true by set_solver|]. rewrite (bool_decide_false (i ∈ map _ _)) by done.
  destruct (decide (i = w.2)) as [->|Hne]; [rewrite list_lookup_insert_eq by done; by rewrite bool_decide_true by set_solver|].
  rewrite list_lookup_insert_ne by done. by rewrite bool_decide_false by set_solver.
Qed.

(** an array that holds [l] from [q] on, and a NUL behind it, holds the C string [l] *)
Lemma cstr_at a q l : Forall (λ c, c ≠ 0) l → (∀ i, (i < length l)%nat → a !! (q + i)%nat = l !! i) → a !! (q + length l)%nat = Some 0 → cstr (drop q a) = l.
Proof.
  revert q. induction l as [|c l IH]; intros q Hl Ha Hz.
  - rewrite Nat.add_0_r in Hz. by rewrite (drop_S _ _ _ Hz).
  - pose proof (Ha 0%nat ltac:(cbn; lia)) as H0. rewrite Nat.add_0_r in H0. rewrite (drop_S _ _ _ H0). cbn [cstr]. apply Forall_cons in Hl as [Hc Hl].
    rewrite (proj2 (Z.eqb_neq _ _) Hc). f_equal. apply IH; [done| |].
    + intros i Hi. specialize (Ha (S i) ltac:(cbn; lia)). by rewrite Nat.add_succ_r in Ha.
    + cbn [length] in Hz. by rewrite Nat.add_succ_r in Hz.
Qed.

(** cutting at the ends of words leaves their texts *)
Lemma cut_text ws w : Forall (word_ok b) ws → w ∈ ws → cstr (drop w.1 (foldl (λ a (w : word), <[w.2 := 0]> a) (b ++ [0]) ws)) = text b w.
Proof.
  intros Hws Hw. assert (word_ok b w) as (Hle & Hin & _) by (rewrite Forall_forall in Hws; by apply Hws).
  assert (length (text b w) = w.2 - w.1)%nat as Hlen by (unfold text; rewrite length_take, length_drop; lia).
  apply cstr_at.
  - unfold text. by apply Forall_take, Forall_drop.
  - intros i Hi. rewrite Hlen in Hi. rewrite cut_at by (rewrite length_app; cbn; lia). rewrite bool_decide_false.
    + unfold text. rewrite lookup_take_lt, lookup_drop by lia. by rewrite lookup_app_l by lia.
    + intros (w' & Ew & Hw')%list_elem_of_fmap. rewrite Forall_forall in Hws. destruct (Hws w' Hw') as (_ & _ & Hend). rewrite <- Ew in Hend.
      specialize (Hend ltac:(lia)). rewrite Hin in Hend by lia. done.
  - rewrite Hlen, cut_at by (rewrite length_app; cbn; lia). rewrite bool_decide_true; [done|]. apply list_elem_of_fmap. exists w. split; [lia|done].
Qed.

(** * The parser *)

Lemma toks_len s : (s ≤ length b)%nat → (length (toks b s) ≤ length b - s)%nat.
Proof.
  remember (length b - s)%nat as k eqn:Hk. revert s Hk. induction k as [k IH] using lt_wf_ind. intros s -> Hs. rewrite (toks_eq b Hb s Hs).
  destruct (gettoken_cases b Hb s Hs) as (t & q & eq & s' & -> & Hq & Hs' & [(-> & _)|(Ht & Hlt & Hle & _)]); [cbn; lia|].
  destruct (t =? 0); [cbn; lia|]. cbn [length]. specialize (IH (length b - s')%nat ltac:(lia) s' eq_refl ltac:(lia)). lia.
Qed.

Lemma toks_done s : (s ≤ length b)%nat → skip_ws b s = length b ↔ toks b s = [].
Proof.
  intros Hs. split; [intros E; by rewrite <- (toks_ws b Hb s Hs), E, toks_end|]. rewrite (toks_eq b Hb s Hs).
  destruct (gettoken_cases b Hb s Hs) as (t & q & eq & s' & -> & Hq & _ & [(-> & Hq' & _)|(Ht & _ & _ & _ & Hc)]); [by rewrite <- Hq|].
  destruct (Z.eqb_spec t 0) as [->|]; [|done]. destruct Hc as [(? & _)|(_ & ? & _)]; done.
Qed.

Lemma parsecmd_iff c a : parsecmd b = Ok (c, a) ↔ g_line (toks b 0) c ∧ a = nulterminate c (b ++ [0]).
Proof.
  pose proof (toks_len 0 ltac:(lia)) as Hn. unfold parsecmd. split.
  - destruct (sound_all b Hb (parse_fuel b) 0%nat ltac:(lia)) as (HL & _). specialize (HL ltac:(unfold parse_fuel; lia)).
    destruct (parseline (parse_fuel b) b 0) as [[c' s]| |]; [|done|done]. destruct HL as (Hs & t & Et & Hg). cbn [pbind peek].
    destruct (Nat.eqb_spec (skip_ws b s) (length b)) as [E|E]; cbn [negb]; [|done]. apply (toks_done s Hs) in E. rewrite E, app_nil_r in Et.
    intros [= <- <-]. by rewrite Et.
  - intros [Hg ->]. destruct (complete_line b Hb _ _ Hg (parse_fuel b) 0%nat []) as (s & -> & Hs & Ts); [lia|by rewrite app_nil_r|by left|unfold parse_fuel; lia|].
    cbn [pbind peek]. rewrite (proj2 (toks_done s Hs) Ts), Nat.eqb_refl. done.
Qed.

Lemma parsecmd_ends : parsecmd b ≠ Fuel.
Proof.
  pose proof (toks_len 0 ltac:(lia)) as Hn. unfold parsecmd.
  destruct (sound_all b Hb (parse_fuel b) 0%nat ltac:(lia)) as (HL & _). specialize (HL ltac:(unfold parse_fuel; lia)).
  destruct (parseline (parse_fuel b) b 0) as [[c' s]| |]; [|done|done]. cbn [pbind peek]. by destruct (negb _).
Qed.
End Cut.

(** C17: parsecmd() on a line without NUL bytes ends, and returns the tree [c] exactly when the tokens of
    the line derive [c] in the grammar of command lines (precedence and nesting included: pipes bind
    tighter than the ampersands, those tighter than the semicolon, the redirections of a command wrap it
    in their order); every other line is a syntax error. *)
Theorem parsecmd_grammar b : Forall (λ c, c ≠ 0) b →
  parsecmd b ≠ Fuel ∧ ∀ c a, parsecmd b = Ok (c, a) ↔ g_line (toks b 0) c ∧ a = nulterminate c (b ++ [0]).
Proof. intros Hb. split; [by apply parsecmd_ends|]. intros c a. by apply parsecmd_iff. Qed.

(** the tree of a line that parses holds exactly the words of the line, and after nulterminate() the
    pointer of each of them reads as the C string that is the word's text: no cut destroys another word. *)
Theorem nulterminate_strings b c a : Forall (λ c, c ≠ 0) b → parsecmd b = Ok (c, a) →
  words c ≡ₚ token_words (toks b 0) ∧ length a = S (length b) ∧
  Forall (λ w : word, (w.1 < w.2 ≤ length b)%nat ∧ cstr (drop w.1 a) = text b w) (words c).
Proof.
  intros Hb (Hg & ->)%parsecmd_iff; [|done]. pose proof (words_line _ _ Hg) as Hw. rewrite nulterminate_words. split; [done|]. split; [rewrite cut_length, length_app; cbn; lia|].
  assert (Forall (word_ok b) (words c)) as Hok by (rewrite Hw; apply token_words_ok; [done|lia]).
  apply Forall_forall. intros w Hin. split; [|by apply cut_text]. rewrite Forall_forall in Hok. by destruct (Hok w Hin).
Qed.

Module Line0.
Definition line : list Z := bytes_of "ls -l|wc>f &".
Definition tree : cmd := BACK (PIPE (EXEC [(0, 2); (3, 5)]%nat) (REDIR (EXEC [(6, 8)%nat]) (mkRedir (9, 10)%nat 0x601 1))).

Lemma parsecmd_grammar_witness : Forall (λ c, c ≠ 0) line ∧ g_line (toks line 0) tree ∧ parsecmd line ≠ Fuel.
Proof.
  assert (Forall (λ c, c ≠ 0) line) as Hl by by repeat constructor. split; [done|]. destruct (parsecmd_grammar line Hl) as [Hf Hg]. split; [|done].
  apply (Hg tree (nulterminate tree (line ++ [0]))). vm_compute. reflexivity.
Defined.

Lemma nulterminate_strings_witness : parsecmd line = Ok (tree, nulterminate tree (line ++ [0])) ∧
  Forall (λ w : word, (w.1 < w.2 ≤ length line)%nat ∧ cstr (drop w.1 (nulterminate tree (line ++ [0]))) = text line w) (words tree).
Proof.
  assert (parsecmd line = Ok (tree, nulterminate tree (line ++ [0]))) as E by (vm_compute; reflexivity). split; [exact E|].
  apply (nulterminate_strings line tree (nulterminate tree (line ++ [0])) ltac:(by repeat constructor) E).
Defined.
End Line0.
