(* ===== verification/ShRun.v ===== *)
(** The processes of a command line: what runcmd() of user/sh.c starts, with which
    descriptors, and in which order. *)

From S2P Require Import Prelude Console ULib UProg Sh ShSpec.

(** * The plan of a command tree *)

(** the programs a tree runs, the descriptors they run with and the processes that have ended before,
    for process [q] with the table [T]; [f] gives the texts of the words *)
Fixpoint plan (f : word → list Z) (c : cmd) (q : pos) (n : nat) (T : fdt) (after : list pos) : list event :=
  match c with
  | EXEC [] => []
  | EXEC (w :: ws) => [(q, f w, map f (w :: ws), T, after)]
  | REDIR c r => plan f c q n (<[Z.to_nat (r_fd r) := Some (FFile (f (r_file r)) (r_mode r))]> T) after
  | LIST l r => plan f l (q ++ [n]) 0 T after ++ plan f r q (S n) T ((q ++ [n]) :: after)
  | PIPE l r =>
      plan f l (q ++ [S n]) 0 (<[1%nat := Some (FPipe q n true)]> T) after ++
      plan f r (q ++ [S (S n)]) 0 (<[0%nat := Some (FPipe q n false)]> T) after
  | BACK c => plan f c (q ++ [n]) 0 T after
  end.

(** standard input and output are open and a pipe fits into the table *)
Record table_ok (T : fdt) : Prop := {
  t_in : ∃ f, T !! 0%nat = Some (Some f);
  t_out : ∃ f, T !! 1%nat = Some (Some f);
  t_room : ∃ i j, i ≠ j ∧ T !! i = Some None ∧ T !! j = Some None }.

(** redirections concern standard input and output only *)
Fixpoint redirs_std (c : cmd) : Prop :=
  match c with
  | EXEC _ => True
  | REDIR c r => (r_fd r = 0 ∨ r_fd r = 1) ∧ redirs_std c
  | PIPE l r => redirs_std l ∧ redirs_std r
  | LIST l r => redirs_std l ∧ redirs_std r
  | BACK c => redirs_std c
  end.

(** * Trees of the parser *)

Lemma redirs_std_wrap c rs : redirs_std (wrap c rs) ↔ redirs_std c ∧ Forall (λ r, r_fd r = 0 ∨ r_fd r = 1) rs.
Proof.
  revert c. induction rs as [|r rs IH]; intros c; cbn [wrap foldl]; [rewrite Forall_nil; tauto|]. fold (wrap (REDIR c r) rs). rewrite IH, Forall_cons. cbn. tauto.
Qed.
Lemma redirs_std_back n c : redirs_std (Nat.iter n BACK c) ↔ redirs_std c.
Proof. by induction n. Qed.
Lemma g_redirs_std t rs : g_redirs t rs → Forall (λ r, r_fd r = 0 ∨ r_fd r = 1) rs.
Proof. induction 1; constructor; cbn; auto. Qed.
Lemma g_args_std t ws rs : g_args t ws rs → Forall (λ r, r_fd r = 0 ∨ r_fd r = 1) rs.
Proof. induction 1 as [|w t1 rs ts ws rs' Hr _ IH]; [constructor|]. apply Forall_app. split; [by eapply g_redirs_std|done]. Qed.

Lemma g_line_std t c : g_line t c → redirs_std c.
Proof.
  set (P := λ (t : list tok) c, redirs_std c). revert t c. apply (g_line_mut P P P); unfold P; clear P.
  - intros t c n _ IH. by rewrite redirs_std_back.
  - intros t c n t' c' _ IH _ IH'. cbn. by rewrite redirs_std_back.
  - done.
  - done.
  - intros t c t' rs _ IH Hr. apply redirs_std_wrap. split; [done|by eapply g_redirs_std].
  - intros t rs t' ws rs' Hr Ha _. apply redirs_std_wrap. split; [done|]. apply Forall_app. split; [by eapply g_redirs_std|by eapply g_args_std].
Qed.

Lemma plan_ext f g c : (∀ w, w ∈ words c → f w = g w) → ∀ q n T after, plan f c q n T after = plan g c q n T after.
Proof.
  induction c as [ws|c IH r|l IHl r IHr|l IHl r IHr|c IH]; intros H q n T after; cbn [plan words] in *.
  - destruct ws as [|w ws]; [done|]. rewrite (H w) by set_solver. f_equal. f_equal. f_equal. f_equal. apply map_ext_in. intros x Hx. apply H. by apply list_elem_of_In.
  - rewrite (H (r_file r)) by set_solver. apply IH. set_solver.
  - rewrite IHl, IHr by set_solver. done.
  - rewrite IHl, IHr by set_solver. done.
  - apply IH. set_solver.
Qed.

(** * Tables *)

Lemma table_insert T x f : table_ok T → (x = 0 ∨ x = 1)%nat → table_ok (<[x := Some f]> T).
Proof.
  intros [[f0 H0] [f1 H1] (i & j & Hij & Hi & Hj)] Hx. split.
  - destruct Hx as [-> | ->]; [exists f; apply list_lookup_insert_eq; by eapply lookup_lt_Some|exists f0; by rewrite list_lookup_insert_ne].
  - destruct Hx as [-> | ->]; [exists f1; by rewrite list_lookup_insert_ne|exists f; apply list_lookup_insert_eq; by eapply lookup_lt_Some].
  - exists i, j. split; [done|]. rewrite !list_lookup_insert_ne; [done|destruct Hx as [-> | ->]; congruence..].
Qed.

(** what pipe() finds *)
Lemma table_pipe T f : table_ok T → ∃ i j, first_free T = Some i ∧ first_free (<[i := Some f]> T) = Some j ∧
  T !! i = Some None ∧ T !! j = Some None ∧ (2 ≤ i)%nat ∧ (2 ≤ j)%nat ∧ i ≠ j.
Proof.
  intros [[f0 H0] [f1 H1] (x & y & Hxy & Hx & Hy)]. destruct (first_free_exists T x Hx) as (i & Hi & _).
  assert (∀ z, T !! z = Some None → (2 ≤ z)%nat) as H2 by (intros [|[|z]] Hz; [congruence..|lia]).
  assert (T !! i = Some None) as Hi' by by apply first_free_Some in Hi as [? _].
  assert (∃ z, z ≠ i ∧ T !! z = Some None) as (z & Hz & Hz') by (destruct (decide (x = i)) as [->|]; eauto).
  destruct (first_free_exists (<[i := Some f]> T) z) as (j & Hj & _); [by rewrite list_lookup_insert_ne|].
  pose proof (proj1 (proj1 (first_free_Some _ _) Hj)) as Hj'. assert (i ≠ j) as Hij.
  { intros <-. rewrite list_lookup_insert_eq in Hj' by by eapply lookup_lt_Some. done. }
  rewrite list_lookup_insert_ne in Hj' by done. exists i, j. split_and!; eauto.
Qed.

(** close(x), then the first descriptor handed out is x *)
Lemma free_closed T x : table_ok T → (x = 0 ∨ x = 1)%nat → first_free (<[x := None]> T) = Some x.
Proof.
  intros [[f0 H0] [f1 H1] _] Hx. apply first_free_Some. split; [apply list_lookup_insert_eq; destruct Hx as [-> | ->]; by eapply lookup_lt_Some|].
  intros k Hk. destruct Hx as [-> | ->]; [lia|]. assert (k = 0)%nat as -> by lia. exists f0. by rewrite list_lookup_insert_ne.
Qed.

(** the table of a process at an end of a pipe *)
Lemma plumb (T : fdt) i j x f g h : T !! i = Some None → T !! j = Some None → i ≠ j → i ≠ x → j ≠ x →
  <[j := None]> (<[i := None]> (<[x := h]> (<[x := None]> (<[j := g]> (<[i := f]> T))))) = <[x := h]> T.
Proof.
  intros Hi Hj Hij Hix Hjx. rewrite list_insert_insert_eq. rewrite (list_insert_insert_ne _ i x), (list_insert_insert_ne _ i j), list_insert_insert_eq, (list_insert_id T i) by done.
  by rewrite (list_insert_insert_ne _ j x), list_insert_insert_eq, (list_insert_id T j).
Qed.

(** * Running a tree *)

Section Run.
Context (a : list Z).

Lemma uputs_no_exec fd l k : no_exec k → no_exec (uputs fd l k).
Proof. intros H. induction l as [|c l IH]; [done|]. intros _. exact IH. Qed.
Lemma uputs_safe fd l k : safe k → safe (uputs fd l k).
Proof. intros H. induction l as [|c l IH]; [done|]. intros _. exact IH. Qed.

(** a message with one string argument *)
Lemma eprintf_s fmt s l k : fprintf fmt [UStr (Some s)] = Some l → eprintf fmt [UStr (Some s)] k = uputs 2 l k.
Proof. unfold eprintf. by intros ->. Qed.
Lemma eprintf_exits fmt s st : is_Some (fprintf fmt [UStr (Some s)]) → no_exec (eprintf fmt [UStr (Some s)] (Exit st)) ∧ safe (eprintf fmt [UStr (Some s)] (Exit st)).
Proof. intros [l Hl]. rewrite (eprintf_s _ _ _ _ Hl). split; [by apply uputs_no_exec|by apply uputs_safe]. Qed.
Lemma panic_exits s : no_exec (panic s) ∧ safe (panic s).
Proof. apply eprintf_exits. eexists. reflexivity. Qed.

Lemma panic_never e q kids after n T s : may e q kids after (n, T, panic s) → False.
Proof. apply no_exec_may. exact (proj1 (panic_exits s)). Qed.

Lemma may_fork1 e q kids after n T k :
  may e q kids after (n, T, fork1 k) ↔ may e (q ++ [n]) [] after (O, T, k 0) ∨ ∃ pid, 0 < pid ∧ may e q (n :: kids) after (S n, T, k pid).
Proof.
  unfold fork1. rewrite may_Fork. split.
  - intros [H|[H|(pid & Hp & H)]].
    + destruct (panic_never _ _ _ _ _ _ _ H).
    + by left.
    + right. exists pid. rewrite (proj2 (Z.eqb_neq pid (-1))) in H by lia. done.
  - intros [H|(pid & Hp & H)]; [by right; left|]. right. right. exists pid. rewrite (proj2 (Z.eqb_neq pid (-1))) by lia. done.
Qed.

(** a fork whose parent is not the child *)
Lemma may_fork1_if e q kids after n T kc kp :
  may e q kids after (n, T, fork1 (λ pid, if pid =? 0 then kc else kp)) ↔ may e (q ++ [n]) [] after (O, T, kc) ∨ may e q (n :: kids) after (S n, T, kp).
Proof.
  rewrite may_fork1. cbn [Z.eqb]. f_equiv. split; [|intros H; exists 1; by split]. intros (pid & Hp & H). rewrite (proj2 (Z.eqb_neq pid 0)) in H by lia. done.
Qed.

(** the process that becomes an end of a pipe *)
Lemma may_plumb e q after T i j x f g (w : bool) k : table_ok T → T !! i = Some None → T !! j = Some None → (2 ≤ i)%nat → (2 ≤ j)%nat → i ≠ j → (x = 0 ∨ x = 1)%nat →
  may e q [] after (O, <[j := Some g]> (<[i := Some f]> T), Close (Z.of_nat x) (Dup (Z.of_nat (if w then j else i)) (λ _, Close (Z.of_nat i) (Close (Z.of_nat j) k)))) ↔
  may e q [] after (O, <[x := Some (if w then g else f)]> T, k).
Proof.
  intros HT Hi Hj Hi2 Hj2 Hij Hx. set (T2 := <[j := Some g]> (<[i := Some f]> T)).
  assert (∀ T fd, fclose T (Z.of_nat fd) = <[fd := None]> T) as Hclose by (intros T' fd; unfold fclose; rewrite (proj2 (Z.ltb_ge _ _)), Nat2Z.id by lia; done).
  assert (i < length T)%nat as Hil by by eapply lookup_lt_Some. assert (j < length T)%nat as Hjl by by eapply lookup_lt_Some.
  assert (first_free (<[x := None]> T2) = Some x) as Hfree.
  { destruct HT as [[f0 H0] [f1 H1] _]. apply first_free_Some. unfold T2. split; [apply list_lookup_insert_eq; rewrite !length_insert; lia|].
    intros k' Hk. exists f0. assert (k' = 0)%nat as -> by lia. by rewrite !list_lookup_insert_ne by lia. }
  assert (fget (<[x := None]> T2) (Z.of_nat (if w then j else i)) = Some (if w then g else f)) as Hget.
  { unfold fget. rewrite (proj2 (Z.ltb_ge _ _)), Nat2Z.id by lia. unfold T2. rewrite list_lookup_insert_ne by (destruct w; lia).
    destruct w; [by rewrite list_lookup_insert_eq by (rewrite length_insert; lia)|]. rewrite list_lookup_insert_ne by lia. by rewrite list_lookup_insert_eq. }
  rewrite may_Close, Hclose, may_Dup, Hget, Hfree, !may_Close, !Hclose. unfold T2. rewrite plumb by (done || lia). done.
Qed.

Lemma may_runcmd e c : redirs_std c → ∀ q n T after, table_ok T → may e q [] after (n, T, runcmd a c) ↔ e ∈ plan (str a) c q n T after.
Proof.
  induction c as [ws|c IH r|l IHl r IHr|l IHl r IHr|c IH]; intros Hc q n T after HT; cbn [plan runcmd redirs_std] in *.
  - destruct ws as [|w ws].
    + split; [intros H; by apply no_exec_may in H|]. by intros ?%elem_of_nil.
    + rewrite may_Exec, list_elem_of_singleton. split; [|by left]. intros [H|H]; [done|]. exfalso. eapply no_exec_may; [|exact H]; apply eprintf_exits; eexists; reflexivity.
  - destruct Hc as [Hr Hc]. rewrite may_Close, may_Open.
    assert (fclose T (r_fd r) = <[Z.to_nat (r_fd r) := None]> T) as -> by by destruct Hr as [-> | ->].
    assert (Z.to_nat (r_fd r) = 0 ∨ Z.to_nat (r_fd r) = 1)%nat as Hx by (destruct Hr as [-> | ->]; auto). rewrite (free_closed T _ HT Hx).
    rewrite <- IH by (done || by apply table_insert). cbn [Z.ltb Z.compare]. split.
    + intros [H|(i & [= <-] & H)]; [exfalso; eapply no_exec_may; [|exact H]; apply eprintf_exits; eexists; reflexivity|].
      rewrite (proj2 (Z.ltb_ge _ _)) in H by lia. by rewrite list_insert_insert_eq in H.
    + intros H. right. exists (Z.to_nat (r_fd r)). split; [done|]. rewrite (proj2 (Z.ltb_ge _ _)) by lia. by rewrite list_insert_insert_eq.
  - destruct Hc as [Hl Hr]. rewrite may_Pipe, elem_of_app, <- IHl, <- IHr by (done || by apply table_insert; auto).
    destruct (table_pipe T (FPipe q n false) HT) as (i & j & Hi & Hj & Ti & Tj & Hi2 & Hj2 & Hij).
    assert (∀ k1 k2 k3, no_exec k3 → may e q [] after (S n, <[j := Some (FPipe q n true)]> (<[i := Some (FPipe q n false)]> T),
      fork1 (λ pid, if pid =? 0 then Close 1 (Dup (Z.of_nat j) (λ _, Close (Z.of_nat i) (Close (Z.of_nat j) k1))) else
      fork1 (λ pid, if pid =? 0 then Close 0 (Dup (Z.of_nat i) (λ _, Close (Z.of_nat i) (Close (Z.of_nat j) k2))) else k3))) ↔
      may e (q ++ [S n]) [] after (O, <[1%nat := Some (FPipe q n true)]> T, k1) ∨ may e (q ++ [S (S n)]) [] after (O, <[0%nat := Some (FPipe q n false)]> T, k2)) as Hends.
    { intros k1 k2 k3 Hk3. pose proof (may_plumb e (q ++ [S n]) after T i j 1 (FPipe q n false) (FPipe q n true) true k1 HT Ti Tj Hi2 Hj2 Hij ltac:(auto)) as H1.
      pose proof (may_plumb e (q ++ [S (S n)]) after T i j 0 (FPipe q n false) (FPipe q n true) false k2 HT Ti Tj Hi2 Hj2 Hij ltac:(auto)) as H0.
      rewrite may_fork1_if, may_fork1_if. change (Z.of_nat 1) with 1 in H1. change (Z.of_nat 0) with 0 in H0. rewrite H1, H0. f_equiv.
      split; [|by left]. intros [H|H]; [done|]. exfalso. by eapply no_exec_may; [|exact H]. }
    split.
    + intros [H|(i' & j' & Hi' & Hj' & H)]; [destruct (panic_never _ _ _ _ _ _ _ H)|].
      rewrite Hi in Hi'. injection Hi' as <-. rewrite Hj in Hj'. injection Hj' as <-. apply Hends in H; [done|]. by cbn.
    + intros H. right. exists i, j. split; [done|]. split; [done|]. apply Hends; [by cbn|done].
  - destruct Hc as [Hl Hr]. rewrite elem_of_app, <- IHl, <- IHr by done. rewrite may_fork1_if, may_Wait1. f_equiv. split; [by intros (pid & _ & H)|]. intros H. by exists 1.
  - rewrite <- IH by done. rewrite may_fork1_if. split; [|by left]. intros [H|H]; [done|]. by apply no_exec_may in H.
Qed.

Lemma safe_runcmd c : safe (runcmd a c).
Proof.
  induction c as [ws|c IH r|l IHl r IHr|l IHl r IHr|c IH]; cbn [runcmd].
  - destruct ws as [|w ws]; [done|]. cbn [safe]. apply eprintf_exits. eexists. reflexivity.
  - cbn [safe]. intros fd. destruct (fd <? 0); [|done]. apply eprintf_exits. eexists. reflexivity.
  - cbn [safe]. intros [[p0 p1]|]; [|apply panic_exits]. cbn [fork1 safe]. intros pid. destruct (pid =? -1); [apply panic_exits|]. destruct (pid =? 0); [by cbn; auto|].
    cbn [fork1 safe]. intros pid'. destruct (pid' =? -1); [apply panic_exits|]. destruct (pid' =? 0); by cbn; auto.
  - cbn [fork1 safe]. intros pid. destruct (pid =? -1); [apply panic_exits|]. destruct (pid =? 0); by cbn; auto.
  - cbn [fork1 safe]. intros pid. destruct (pid =? -1); [apply panic_exits|]. destruct (pid =? 0); by cbn; auto.
Qed.
End Run.

(** C10: a command line that parses runs exactly its plan.  From a table with standard input and output
    open and room for a pipe, whatever fails and however the processes interleave: a process that execs
    runs a simple command of the line, with the words of the line as its arguments and precisely the
    descriptors of the plan - the two ends of each pipe in the right processes and no other pipe end
    left open, the redirections in their files - and only after every process the plan puts before it
    (the left sides of semicolons) has exited; and every command of the plan can be reached. *)
Theorem runcmd_plan b c a T : Forall (λ c, c ≠ 0) b → parsecmd b = Ok (c, a) → table_ok T →
  (∀ P q p argv T', reachable T (runcmd a c) P → P !! q = Some (Image p argv T') →
    ∃ after, (q, p, argv, T', after) ∈ plan (text b) c [] 0 T [] ∧ Forall (finished P) after) ∧
  (∀ q p argv T' after, (q, p, argv, T', after) ∈ plan (text b) c [] 0 T [] →
    ∃ P, reachable T (runcmd a c) P ∧ P !! q = Some (Image p argv T')).
Proof.
  intros Hb (Hg & ->)%parsecmd_iff HT; [|done]. set (a := nulterminate c (b ++ [0])).
  assert (∀ w, w ∈ words c → str a w = text b w) as Hstr.
  { intros w Hw. unfold str, a. rewrite nulterminate_words. apply cut_text; [done| |done]. rewrite (words_line _ _ Hg). apply token_words_ok; [done|lia]. }
  rewrite <- (plan_ext _ _ c Hstr). pose proof (g_line_std _ _ Hg) as Hstd. split.
  - intros P q p argv T' HP Hq. destruct (pool_sound _ _ _ _ _ _ _ HP Hq) as (after & Hm & Hf). exists after. split; [|done]. by apply may_runcmd.
  - intros q p argv T' after He. apply (pool_complete _ _ q p argv T' after); [apply safe_runcmd|by apply may_runcmd].
Qed.

Module Sh0.
Definition table : fdt := [Some (FDev 0); Some (FDev 0); Some (FDev 0)] ++ replicate 13 None.
(** the line [ls < d | wc > f ; echo] *)
Definition line : list Z := bytes_of "ls < d | wc > f ; echo".

Lemma runcmd_plan_witness :
  plan (text line) (match parsecmd line with Ok (c, _) => c | _ => EXEC [] end) [] 0 table [] =
    [([0; 1], bytes_of "ls", [bytes_of "ls"], <[0 := Some (FFile (bytes_of "d") 0)]> (<[1 := Some (FPipe [0] 0 true)]> table), []);
     ([0; 2], bytes_of "wc", [bytes_of "wc"], <[1 := Some (FFile (bytes_of "f") 0x601)]> (<[0 := Some (FPipe [0] 0 false)]> table), []);
     ([], bytes_of "echo", [bytes_of "echo"], table, [[0]])]%nat ∧
  (match parsecmd line with
   | Ok (c, a) => ∃ P, reachable table (runcmd a c) P ∧ P !! [] = Some (Image (bytes_of "echo") [bytes_of "echo"] table)
   | _ => False
   end).
Proof.
  split; [vm_compute; reflexivity|]. assert (Forall (λ c, c ≠ 0) line) as Hl by (apply (bool_decide_unpack _); vm_compute; reflexivity).
  assert (table_ok table) as HT by (split; [eexists; reflexivity|eexists; reflexivity|exists 3%nat, 4%nat; split; [discriminate|split; reflexivity]]).
  destruct (parsecmd line) as [[c a]| |] eqn:E; [|vm_compute in E; discriminate..]. destruct (runcmd_plan line c a table Hl E HT) as [_ Hr]. apply (Hr [] (bytes_of "echo") [bytes_of "echo"] table [[0%nat]]).
  clear Hr. vm_compute in E. injection E as <- _. apply list_elem_of_lookup. exists 2%nat. vm_compute. reflexivity.
Defined.
End Sh0.

(** * The shell's own descriptors *)

(** the free descriptors among the first three *)
Definition holes (T : fdt) : nat := length (List.filter (λ f, match f with None => true | Some _ => false end) (take 3 T)).

Lemma holes_fill T i f : T !! i = Some None → (i < 3)%nat → (holes (<[i := Some f]> T) < holes T)%nat.
Proof.
  unfold holes. intros Hi H3. destruct T as [|x0 [|x1 [|x2 T]]]; destruct i as [|[|[|i]]]; try lia; try discriminate; cbn in Hi; injection Hi as ->; cbn;
    repeat match goal with |- context [match ?x with None => _ | Some _ => _ end] => destruct x end; cbn; lia.
Qed.

(** the start of main(): the four rounds the model allows the loop are enough *)
Lemma open_console_fuel q n T m k s : (holes T < m)%nat → rtc (lstep q) (n, T, open_console m (Exit k)) s → s.2 ≠ Stuck.
Proof.
  revert T. induction m as [|m IH]; intros T Hm; [lia|]. cbn [open_console]. intros H. apply rtc_inv in H as [<- |(s1 & Hs & H)]; [done|].
  inversion Hs as [|n' T' p md k0 i Hi| | | | | | | | | | | |]; subst.
  - rewrite (proj2 (Z.ltb_ge _ _)) in H by lia. pose proof (proj1 (proj1 (first_free_Some _ _) Hi)) as HT. destruct (Z.leb_spec 3 (Z.of_nat i)) as [H3|H3].
    + apply rtc_inv in H as [<- |(s2 & Hs2 & H)]; [done|]. inversion Hs2; subst. by apply rtc_inv in H as [<- |(s3 & Hs3 & _)]; [|inversion Hs3].
    + pose proof (holes_fill T i (FFile (bytes_of "console") O_RDWR) HT ltac:(lia)). apply (IH (<[i := Some (FFile (bytes_of "console") O_RDWR)]> T)); [lia|done].
  - cbn [Z.ltb Z.compare] in H. by apply rtc_inv in H as [<- |(s2 & Hs2 & _)]; [|inversion Hs2].
Qed.

(** and when the opens succeed the descriptors 0, 1 and 2 are open afterwards and the others as before *)
Lemma open_console_std q n T m k : (holes T < m)%nat → T !! 3%nat = Some None →
  ∃ T', rtc (lstep q) (n, T, open_console m (Exit k)) (n, T', Exit k) ∧ (∀ j, (j < 3)%nat → ∃ f, T' !! j = Some (Some f)) ∧ ∀ j, (3 ≤ j)%nat → T' !! j = T !! j.
Proof.
  revert T. induction m as [|m IH]; intros T Hm H3; [lia|]. cbn [open_console]. destruct (first_free_exists T 3 H3) as (i & Hi & Hle).
  pose proof (proj1 (first_free_Some _ _) Hi) as [HT Hlow]. destruct (decide (i = 3)%nat) as [->|Hne].
  - exists T. split_and!; [|done|done]. eapply rtc_l; [by apply l_open|]. rewrite (proj2 (Z.ltb_ge _ _)), (proj2 (Z.leb_le _ _)) by lia.
    eapply rtc_l; [apply l_close|]. unfold fclose. rewrite (proj2 (Z.ltb_ge _ _)), Nat2Z.id by lia. rewrite list_insert_insert_eq, list_insert_id by done. apply rtc_refl.
  - pose proof (holes_fill T i (FFile (bytes_of "console") O_RDWR) HT ltac:(lia)).
    destruct (IH (<[i := Some (FFile (bytes_of "console") O_RDWR)]> T)) as (T' & Hr & Hstd & Hrest); [lia|by rewrite list_lookup_insert_ne|].
    exists T'. split_and!; [|done|intros j Hj; rewrite Hrest by done; by rewrite list_lookup_insert_ne by lia]. eapply rtc_l; [by apply l_open|].
    rewrite (proj2 (Z.ltb_ge _ _)), (proj2 (Z.leb_gt _ _)) by lia. done.
Qed.

(** * Scripts *)

(** A script is cut into pieces of 120 bytes, not into lines: a newline is white space, so two
    lines of a short script are one command... *)
Lemma script_lines_are_one_command :
  parsecmd (bytes_of "echo a" ++ [10] ++ bytes_of "echo b" ++ [10]) =
  Ok (EXEC [(0, 4); (5, 6); (7, 11); (12, 13)]%nat, bytes_of "echo" ++ [0] ++ bytes_of "a" ++ [0] ++ bytes_of "echo" ++ [0] ++ bytes_of "b" ++ [0; 0]).
Proof. vm_compute. reflexivity. Qed.

(** ... and a piece that fills the buffer has no NUL behind it, so the child reads past the buffer. *)
Lemma script_full_piece_unterminated buf k : length buf = BUFLEN → Forall (λ c, c ≠ 0) buf → at_ buf 0 ∉ [99; 101] →
  parse_buffer buf k = fork1 (λ pid, if pid =? 0 then Wild else Wait (λ _, k buf)).
Proof.
  intros _ Hb H0. unfold parse_buffer. rewrite (proj2 (Z.eqb_neq (at_ buf 0) 99)) by set_solver. rewrite (proj2 (Z.eqb_neq (at_ buf 0) 101)) by set_solver. cbn [andb].
  rewrite bool_decide_false; [done|]. intros Hin. rewrite Forall_forall in Hb. by apply (Hb 0 Hin).
Qed.
