(* ===== verification/Utils.v ===== *)
(** Small user programs: user/cat.c, wc.c, grep.c, echo.c, rm.c, mkdir.c, ln.c, kill.c, init.c,
    zombie.c, ls.c, time.c, schedls.c, schedset.c, vatopa.c, forktest.c, stressfs.c and
    congen.c, as programs of system calls. *)

From S2P Require Import Prelude Console ULib UProg Grep Sh.

Definition bytes_ln (s : string) : list Z := bytes_of s ++ [10].
Definition uprintf (fd : Z) (fmt : list Z) (ap : list uarg) (k : prog) : prog :=
  match fprintf fmt ap with Some l => uputs fd l k | None => Wild end.

(** * cat.c *)

(** [fuel] bounds the reads of one file *)
Fixpoint cat (fuel : nat) (fd : Z) (k : prog) : prog :=
  match fuel with
  | O => Stuck
  | S fuel =>
      Read fd 512 (λ r, match r with
      | None => uprintf 2 (bytes_ln "cat: read error") [] (Exit 1)
      | Some [] => k
      | Some l => Write 1 l (λ n, if negb (n =? Z.of_nat (length l)) then uprintf 2 (bytes_ln "cat: write error") [] (Exit 1) else cat fuel fd k)
      end)
  end.
Fixpoint cat_files (fuel : nat) (argv : list (list Z)) : prog :=
  match argv with
  | [] => Exit 0
  | a :: argv =>
      Open a 0 (λ fd, if fd <? 0 then uprintf 2 (bytes_ln "cat: cannot open %s") [UStr (Some a)] (Exit 1)
                      else cat fuel fd (Close fd (cat_files fuel argv)))
  end.
Definition cat_main (fuel : nat) (argv : list (list Z)) : prog :=
  if (length argv <=? 1)%nat then cat fuel 0 (Exit 0) else cat_files fuel (tail argv).

(** * wc.c *)

Record counts := mkCounts { c_l : Z; c_w : Z; c_c : Z; c_inword : bool }.
Definition wc_ws : list Z := [32; 13; 9; 10; 11].
Definition wc_byte (s : counts) (b : Z) : counts :=
  let l := if b =? 10 then c_l s + 1 else c_l s in
  if strchr wc_ws b then mkCounts l (c_w s) (c_c s + 1) false
  else mkCounts l (if c_inword s then c_w s else c_w s + 1) (c_c s + 1) true.
Fixpoint wc_loop (fuel : nat) (fd : Z) (name : list Z) (s : counts) (k : prog) : prog :=
  match fuel with
  | O => Stuck
  | S fuel =>
      Read fd 512 (λ r, match r with
      | None => uprintf 1 (bytes_ln "wc: read error") [] (Exit 1)
      | Some [] => uprintf 1 (bytes_ln "%d %d %d %s") [UInt (c_l s); UInt (c_w s); UInt (c_c s); UStr (Some name)] k
      | Some l => wc_loop fuel fd name (foldl wc_byte s l) k
      end)
  end.
Definition wc (fuel : nat) (fd : Z) (name : list Z) (k : prog) : prog := wc_loop fuel fd name (mkCounts 0 0 0 false) k.
Fixpoint wc_files (fuel : nat) (argv : list (list Z)) : prog :=
  match argv with
  | [] => Exit 0
  | a :: argv =>
      Open a 0 (λ fd, if fd <? 0 then uprintf 1 (bytes_ln "wc: cannot open %s") [UStr (Some a)] (Exit 1)
                      else wc fuel fd a (Close fd (wc_files fuel argv)))
  end.
Definition wc_main (fuel : nat) (argv : list (list Z)) : prog :=
  if (length argv <=? 1)%nat then wc fuel 0 [] (Exit 0) else wc_files fuel (tail argv).

(** * grep.c *)

(** grep() of Grep.v as its system calls: the lines complete in the buffer, whose rest
    goes to [k] *)
Fixpoint ugrep_lines (pattern cur buf : list Z) (k : list Z → prog) : prog :=
  match buf with
  | [] => k cur
  | c :: b =>
      if c =? 0 then k (cur ++ buf)
      else if c =? NEWLINE then
        if match_ pattern cur then Write 1 (cur ++ [NEWLINE]) (λ _, ugrep_lines pattern [] b k) else ugrep_lines pattern [] b k
      else ugrep_lines pattern (cur ++ [c]) b k
  end.
Fixpoint ugrep (fuel : nat) (pattern buf : list Z) (fd : Z) (k : prog) : prog :=
  match fuel with
  | O => Stuck
  | S fuel =>
      Read fd (Z.of_nat (BUFSIZE - length buf - 1)) (λ r, match r with
      | None | Some [] => k
      | Some l => ugrep_lines pattern [] (buf ++ l) (λ rest, ugrep fuel pattern rest fd k)
      end)
  end.
Fixpoint grep_files (fuel : nat) (pattern : list Z) (argv : list (list Z)) : prog :=
  match argv with
  | [] => Exit 0
  | a :: argv =>
      Open a 0 (λ fd, if fd <? 0 then uprintf 1 (bytes_ln "grep: cannot open %s") [UStr (Some a)] (Exit 1)
                      else ugrep fuel pattern [] fd (Close fd (grep_files fuel pattern argv)))
  end.
Definition grep_main (fuel : nat) (argv : list (list Z)) : prog :=
  match argv with
  | [] | [_] => uprintf 2 (bytes_ln "usage: grep pattern [file ...]") [] (Exit 1)
  | [_; pattern] => ugrep fuel pattern [] 0 (Exit 0)
  | _ :: pattern :: files => grep_files fuel pattern files
  end.

(** * echo.c *)

Fixpoint echo_args (argv : list (list Z)) : prog :=
  match argv with
  | [] => Exit 0
  | a :: argv =>
      Write 1 a (λ _, match argv with [] => Write 1 [10] (λ _, echo_args argv) | _ => Write 1 [32] (λ _, echo_args argv) end)
  end.
Definition echo_main (argv : list (list Z)) : prog := echo_args (tail argv).

(** * rm.c, mkdir.c, ln.c, kill.c, zombie.c *)

Fixpoint rm_files (argv : list (list Z)) : prog :=
  match argv with
  | [] => Exit 0
  | a :: argv => Call (Unlink a) (λ r, if r <? 0 then uprintf 2 (bytes_ln "rm: %s failed to delete") [UStr (Some a)] (Exit 0) else rm_files argv)
  end.
Definition rm_main (argv : list (list Z)) : prog :=
  if (length argv <? 2)%nat then uprintf 2 (bytes_ln "Usage: rm files...") [] (Exit 1) else rm_files (tail argv).

Fixpoint mkdir_files (argv : list (list Z)) : prog :=
  match argv with
  | [] => Exit 0
  | a :: argv => Call (Mkdir a) (λ r, if r <? 0 then uprintf 2 (bytes_ln "mkdir: %s failed to create") [UStr (Some a)] (Exit 0) else mkdir_files argv)
  end.
Definition mkdir_main (argv : list (list Z)) : prog :=
  if (length argv <? 2)%nat then uprintf 2 (bytes_ln "Usage: mkdir files...") [] (Exit 1) else mkdir_files (tail argv).

Definition ln_main (argv : list (list Z)) : prog :=
  match argv with
  | [_; old; new] => Call (Link old new) (λ r, if r <? 0 then uprintf 2 (bytes_ln "link %s %s: failed") [UStr (Some old); UStr (Some new)] (Exit 0) else Exit 0)
  | _ => uprintf 2 (bytes_ln "Usage: ln old new") [] (Exit 1)
  end.

Fixpoint kill_pids (argv : list (list Z)) : prog :=
  match argv with
  | [] => Exit 0
  | a :: argv => Call (Kill (s32 (atoi a))) (λ _, kill_pids argv)
  end.
Definition kill_main (argv : list (list Z)) : prog :=
  if (length argv <? 2)%nat then uprintf 2 (bytes_ln "usage: kill pid...") [] (Exit 1) else kill_pids (tail argv).

Definition zombie_main : prog := Fork (λ pid, if 0 <? pid then Call (Sleep 5) (λ _, Exit 0) else Exit 0).

(** * init.c *)

Definition CONSOLE_MAJOR : Z := 1.
(** wait() until the shell [pid] has exited; [k] restarts it *)
Fixpoint init_wait (fuel : nat) (pid : Z) (k : prog) : prog :=
  match fuel with
  | O => Stuck
  | S fuel =>
      Wait (λ wpid, if wpid =? pid then k
                    else if wpid <? 0 then uprintf 1 (bytes_ln "init: wait returned an error") [] (Exit 1)
                    else init_wait fuel pid k)
  end.
Fixpoint init_loop (fuel : nat) : prog :=
  match fuel with
  | O => Stuck
  | S fuel =>
      uprintf 1 (bytes_ln "init: starting sh") [] (Fork (λ pid,
        if pid <? 0 then uprintf 1 (bytes_ln "init: fork failed") [] (Exit 1)
        else if pid =? 0 then Exec (bytes_of "sh") [bytes_of "sh"] (uprintf 1 (bytes_ln "init: exec sh failed") [] (Exit 1))
        else init_wait fuel pid (init_loop fuel)))
  end.
Definition init_main (fuel : nat) : prog :=
  let rest := Dup 0 (λ _, Dup 0 (λ _, init_loop fuel)) in
  Open (bytes_of "console") O_RDWR (λ fd,
    if fd <? 0 then Call (Mknod (bytes_of "console") CONSOLE_MAJOR 0) (λ _, Open (bytes_of "console") O_RDWR (λ _, rest)) else rest).

(** * ls.c: fmtname() *)

(** for(p = path + n; p >= path && *p != '/'; p--); p++; as an offset *)
Fixpoint fmt_scan (n : nat) (path : list Z) : nat :=
  if at_ path n =? 47 then S n else
  match n with O => O | S n => fmt_scan n path end.
(** blank-padded to DIRSIZ = 14 bytes *)
Definition fmtname (path : list Z) : list Z :=
  let p := drop (fmt_scan (length path) path) path in
  if (14 <=? length p)%nat then p else p ++ replicate (14 - length p) 32.

(** * ls.c *)

(** stat() of user/ulib.c *)
Definition u_stat (n : list Z) (k : option (Z * Z * Z) → prog) : prog :=
  Open n O_RDONLY (λ fd, if fd <? 0 then k None else Fstat fd (λ r, Close fd (k r))).

Definition DIRSIZ : Z := 14.
(** one entry [de] of the directory [path] *)
Definition ls_entry (path de : list Z) (k : prog) : prog :=
  if le_val (take 2 de) =? 0 then k else
  let buf := path ++ [47] ++ cstr (drop 2 de) in
  u_stat buf (λ st, match st with
  | None => uprintf 1 (bytes_ln "ls: cannot stat %s") [UStr (Some buf)] k
  | Some (type, ino, size) => uprintf 1 (bytes_ln "%s %d %d %d") [UStr (Some (fmtname buf)); UInt type; UInt ino; UInt size] k
  end).
Fixpoint ls_dir (fuel : nat) (path : list Z) (fd : Z) (k : prog) : prog :=
  match fuel with
  | O => Stuck
  | S fuel =>
      Read fd 16 (λ r, match r with
      | Some de => if negb (Z.of_nat (length de) =? 16) then k else ls_entry path de (ls_dir fuel path fd k)
      | None => k
      end)
  end.
Definition ls (fuel : nat) (path : list Z) (k : prog) : prog :=
  Open path 0 (λ fd,
    if fd <? 0 then uprintf 2 (bytes_ln "ls: cannot open %s") [UStr (Some path)] k else
    Fstat fd (λ st, match st with
    | None => uprintf 2 (bytes_ln "ls: cannot stat %s") [UStr (Some path)] (Close fd k)
    | Some (type, ino, size) =>
        if (type =? 3) || (type =? 2) then
          uprintf 1 (bytes_ln "%s %d %d %l") [UStr (Some (fmtname path)); UInt type; UInt ino; UInt size] (Close fd k)
        else if type =? 1 then
          if 512 <? Z.of_nat (length path) + 1 + DIRSIZ + 1 then uprintf 1 (bytes_ln "ls: path too long") [] (Close fd k)
          else ls_dir fuel path fd (Close fd k)
        else Close fd k
    end)).
Fixpoint ls_all (fuel : nat) (argv : list (list Z)) : prog :=
  match argv with
  | [] => Exit 0
  | a :: argv => ls fuel a (ls_all fuel argv)
  end.
Definition ls_main (fuel : nat) (argv : list (list Z)) : prog :=
  if (length argv <? 2)%nat then ls fuel (bytes_of ".") (Exit 0) else ls_all fuel (tail argv).

(** * time.c, schedls.c, schedset.c, vatopa.c *)

Definition time_main (argv : list (list Z)) : prog :=
  match argv with
  | _ :: a :: args =>
      Call Uptime (λ startticks, Fork (λ pid,
        if pid <? 0 then uprintf 1 (bytes_of "fork failed... couldn't start %s") [UStr (Some a)] (Exit 1)
        else if pid =? 0 then Exec a (a :: args) (Exit 0)
        else Wait (λ _, Call Uptime (λ endticks,
          uprintf 1 (bytes_ln "Executing %s took %d ticks") [UStr (Some a); UInt (s32 (endticks - startticks))] (Exit 0)))))
  | _ => uprintf 1 (bytes_ln "Time took 0 ticks") [] (uprintf 1 (bytes_ln "Usage: time [exec] [arg1 arg2 ...]") [] (Exit 1))
  end.

Definition schedls_main : prog := Call Schedls (λ _, Exit 0).
Definition schedset_main (argv : list (list Z)) : prog :=
  match argv with
  | [_; a] => Call (Schedset (at_ a 0 - 48)) (λ _, Exit 0)
  | _ => uprintf 1 (bytes_ln "Usage: schedset [SCHED ID]") [] (Exit 1)
  end.

(** the usage message does not end the program: atoi() of the missing argument reads at address 0;
    when main() returns, _main() exits with status 0 *)
Definition vatopa_main (argv : list (list Z)) : prog :=
  let rest := match argv with
              | _ :: a :: b :: _ =>
                  Call (Va2pa (s32 (atoi a)) (u64 (s32 (atoi b)))) (λ pa, uprintf 1 (bytes_ln "Physical from userspace: 0x%x") [UInt pa] (Exit 0))
              | _ => Wild
              end in
  if (length argv <? 2)%nat then uprintf 1 (bytes_ln "Usage: %s virtual_address [pid]") [UStr (hd_error argv)] rest else rest.

(** * forktest.c *)

Definition FORKS : nat := 1000.
Definition print (s : list Z) (k : prog) : prog := Write 1 s (λ _, k).
Fixpoint forktest_wait (n : nat) (k : prog) : prog :=
  match n with
  | O => k
  | S n => Wait (λ r, if r <? 0 then print (bytes_ln "wait stopped early") (Exit 1) else forktest_wait n k)
  end.
Definition forktest_end (n : nat) (k : prog) : prog :=
  forktest_wait n (Wait (λ r, if negb (r =? -1) then print (bytes_ln "wait got too many") (Exit 1) else print (bytes_ln "fork test OK") k)).
(** [todo] forks to go after [n] *)
Fixpoint forktest_fork (todo n : nat) (k : prog) : prog :=
  match todo with
  | O => print (bytes_ln "fork claimed to work N times!") (Exit 1)
  | S todo => Fork (λ pid, if pid <? 0 then forktest_end n k else if pid =? 0 then Exit 0 else forktest_fork todo (S n) k)
  end.
Definition forktest (k : prog) : prog := print (bytes_ln "fork test") (forktest_fork FORKS 0 k).
Definition forktest_main : prog := forktest (Exit 0).

(** * stressfs.c *)

Fixpoint repeat_call (n : nat) (c : prog → prog) (k : prog) : prog := match n with O => k | S n => c (repeat_call n c k) end.
Definition stressfs_file (i : nat) : prog :=
  let path := bytes_of "stressfs" ++ [48 + Z.of_nat i] in
  uprintf 1 (bytes_ln "write %d") [UInt (Z.of_nat i)] (
  Open path (Z.lor O_CREATE O_RDWR) (λ fd,
    repeat_call 20 (λ k, Write fd (repeat 97 512) (λ _, k)) (
    Close fd (
    uprintf 1 (bytes_ln "read") [] (
    Open path O_RDONLY (λ fd,
      repeat_call 20 (λ k, Read fd 512 (λ _, k)) (
      Close fd (
      Wait (λ _, Exit 0))))))))).
(** the process stays at the first fork() that returns a child *)
Fixpoint stressfs_fork (todo i : nat) : prog :=
  match todo with
  | O => stressfs_file i
  | S todo => Fork (λ pid, if 0 <? pid then stressfs_file i else stressfs_fork todo (S i))
  end.
Definition stressfs_main : prog := uprintf 1 (bytes_ln "stressfs starting") [] (stressfs_fork 4 0).

(** * congen.c *)

Fixpoint congen_lines (todo : nat) (i : Z) (child : option Z) (k : prog) : prog :=
  match todo with
  | O => k
  | S todo =>
      let k := congen_lines todo (i + 1) child k in
      match child with
      | Some n => uprintf 1 (bytes_ln "CHILD %d: %d") [UInt n; UInt i] k
      | None => uprintf 1 (bytes_ln "PARENT: %d") [UInt i] k
      end
  end.
Definition congen_end (child : option Z) (k : prog) : prog := congen_lines 1000 0 child (print (bytes_ln "fork test OK") k).
Fixpoint congen_fork (todo : nat) (n : Z) (k : prog) : prog :=
  match todo with
  | O => congen_end None k
  | S todo => Fork (λ pid, if pid <? 0 then congen_end None k else if pid =? 0 then congen_end (Some n) k else congen_fork todo (n + 1) k)
  end.
Definition congen_forktest (k : prog) : prog := print (bytes_ln "fork test") (congen_fork 5 0 k).
Definition congen_main : prog := congen_forktest (Exit 0).
