(* ===== verification/UtilsSpec.v ===== *)
(** What the small programs write, whatever pieces read() cuts their input into. *)

From S2P Require Import Prelude Console ULib UProg Grep Sh ShRun Utils.

(** * Running a program alone *)

(** the files by name and the open descriptors, as their type, inode and size and the pieces still to
    be read; the bytes written so far, by descriptor.  Opens succeed on the files there are, writes are
    complete. *)
Abbreviation ofile := (Z * Z * Z * list (list Z))%type.
Record env := mkEnv { e_files : list Z → option ofile; e_open : gmap Z ofile; e_out : Z → list Z }.
Definition put_out (fd : Z) (l : list Z) (e : env) : env := mkEnv (e_files e) (e_open e) (λ f, if f =? fd then e_out e f ++ l else e_out e f).
Definition set_open (o : gmap Z ofile) (e : env) : env := mkEnv (e_files e) o (e_out e).
Fixpoint lowest (n : nat) (fd : Z) (o : gmap Z ofile) : Z :=
  match n with
  | O => fd
  | S n => match o !! fd with None => fd | Some _ => lowest n (fd + 1) o end
  end.

(** the state at exit() and the exit status *)
Fixpoint run (p : prog) (e : env) : option (env * Z) :=
  match p with
  | Exit st => Some (e, st)
  | Close fd k => run k (set_open (delete fd (e_open e)) e)
  | Open path _ k =>
      match e_files e path with
      | Some a => let fd := lowest 16 0 (e_open e) in run (k fd) (set_open (<[fd := a]> (e_open e)) e)
      | None => run (k (-1)) e
      end
  | Read fd n k =>
      match e_open e !! fd with
      | Some (st, a) => let r := read_ (Z.to_nat n) a in run (k (Some r.1)) (set_open (<[fd := (st, r.2)]> (e_open e)) e)
      | None => run (k None) e
      end
  | Write fd l k => run (k (Z.of_nat (length l))) (put_out fd l e)
  | Fstat fd k => run (k (fst <$> e_open e !! fd)) e
  | _ => None
  end.

(** two environments that write the same *)
Definition same_env (e e' : env) : Prop := e_files e = e_files e' ∧ e_open e = e_open e' ∧ ∀ fd, e_out e fd = e_out e' fd.
Definition same_run (o o' : option (env * Z)) : Prop :=
  match o, o' with Some (e, st), Some (e', st') => same_env e e' ∧ st = st' | None, None => True | _, _ => False end.
#[export] Instance same_env_equiv : Equivalence same_env.
Proof.
  split; [by intros e|intros e e' (H1 & H2 & H3); by split_and!|]. intros e e1 e2 (H1 & H2 & H3) (H4 & H5 & H6). split_and!; [congruence|congruence|]. intros fd. by rewrite H3.
Qed.
#[export] Instance same_run_equiv : Equivalence same_run.
Proof.
  split.
  - intros [[e st]|]; cbn; [by split|done].
  - intros [[e st]|] [[e' st']|]; cbn; try done. intros [H ->]. by split.
  - intros [[e st]|] [[e1 st1]|] [[e2 st2]|]; cbn; try done. intros [H ->] [H' ->]. split; [by etransitivity|done].
Qed.

#[export] Instance run_proper p : Proper (same_env ==> same_run) (run p).
Proof.
  intros e e' He. revert e e' He. induction p as [st|fd k IH|pa m k IH|fd k IH|k IH|k IH|k IH|pa a k IH|fd c k IH|fd l k IH|c k IH|fd k IH| |]; intros e e' He; cbn [run]; try done.
  - apply IH. destruct He as (H1 & H2 & H3). split_and!; cbn; [done|by rewrite H2|done].
  - destruct He as (H1 & H2 & H3). rewrite H1, H2. destruct (e_files e' pa); apply IH; by split_and!.
  - destruct He as (H1 & H2 & H3). rewrite H2. destruct (e_open e' !! fd) as [[st a]|]; apply IH; by split_and!.
  - apply IH. destruct He as (H1 & H2 & H3). split_and!; cbn; [done|done|]. intros f. by rewrite H3.
  - destruct He as (H1 & H2 & H3). rewrite H2. apply IH. by split_and!.
Qed.

#[export] Instance put_out_proper fd l : Proper (same_env ==> same_env) (put_out fd l).
Proof. intros e e' (H1 & H2 & H3). split_and!; cbn; [done|done|]. intros f. by rewrite H3. Qed.
Lemma put_out_app fd l l' e : same_env (put_out fd l' (put_out fd l e)) (put_out fd (l ++ l') e).
Proof. split_and!; [done|done|]. intros f. cbn. destruct (f =? fd); [by rewrite <- app_assoc|done]. Qed.
Lemma put_out_nil fd e : same_env (put_out fd [] e) e.
Proof. split_and!; [done|done|]. intros f. cbn. destruct (f =? fd); [by rewrite app_nil_r|done]. Qed.

Lemma out_same fd l e : e_out (put_out fd l e) fd = e_out e fd ++ l.
Proof. cbn. by rewrite Z.eqb_refl. Qed.
Lemma out_other fd f l e : f ≠ fd → e_out (put_out fd l e) f = e_out e f.
Proof. intros H. cbn. by rewrite (proj2 (Z.eqb_neq _ _) H). Qed.

Lemma run_uputs fd l k e : same_run (run (uputs fd l k) e) (run k (put_out fd l e)).
Proof.
  revert e. induction l as [|c l IH]; intros e; cbn [uputs foldr run]; [by rewrite put_out_nil|]. fold (uputs fd l k). rewrite IH. by rewrite put_out_app.
Qed.
Lemma run_uprintf fd fmt ap l k e : fprintf fmt ap = Some l → same_run (run (uprintf fd fmt ap k) e) (run k (put_out fd l e)).
Proof. intros H. unfold uprintf. rewrite H. apply run_uputs. Qed.

(** * cat *)

Definition whole (a : list (list Z)) : Prop := Forall (λ p, p ≠ []) a.

Lemma run_cat fuel fd st a k e : e_open e !! fd = Some (st, a) → whole a → (length (concat a) < fuel)%nat →
  same_run (run (cat fuel fd k) e) (run k (put_out 1 (concat a) (set_open (<[fd := (st, [])]> (e_open e)) e))).
Proof.
  revert a e. induction fuel as [|fuel IH]; intros a e Ho Ha Hf; [lia|]. cbn [cat run]. rewrite Ho. destruct a as [|p a].
  - cbn [read_ fst snd concat]. by rewrite put_out_nil.
  - destruct (read_split 512 (p :: a)) as (Hne & Hc & Ha'); [lia|done|done|]. change (Z.to_nat 512) with 512%nat. destruct (read_ 512 (p :: a)) as [l r]. cbn [fst snd] in *.
    destruct l as [|c l]; [done|]. cbn [run]. rewrite Z.eqb_refl. cbn [negb].
    rewrite IH; [|cbn; by rewrite lookup_insert_eq|done|rewrite Hc, length_app in Hf; cbn [length] in Hf; lia]. rewrite Hc. f_equiv.
    split_and!; cbn [put_out set_open e_files e_open e_out]; [done|by rewrite insert_insert_eq|]. intros f. destruct (f =? 1); [by rewrite <- app_assoc|done].
Qed.

Lemma lowest_pos n fd o : fd ≤ lowest n fd o.
Proof. revert fd. induction n as [|n IH]; intros fd; cbn; [lia|]. destruct (o !! fd); [|lia]. specialize (IH (fd + 1)). lia. Qed.

(** open and close around the reading of a file leave the descriptors as they were *)
Lemma open_close (o : gmap Z ofile) fd x y : o !! fd = None → delete fd (<[fd := y]> (<[fd := x]> o)) = o.
Proof. intros H. by rewrite insert_insert_eq, delete_insert_id. Qed.

Definition content (e : env) (f : list Z) : list Z := match e_files e f with Some (_, a) => concat a | None => [] end.
(** the files can be read, and one can be opened *)
Definition readable (fuel : nat) (e : env) (files : list (list Z)) : Prop :=
  e_open e !! lowest 16 0 (e_open e) = None ∧ Forall (λ f, ∃ st a, e_files e f = Some (st, a) ∧ whole a ∧ (length (concat a) < fuel)%nat) files.

Lemma readable_out fuel e files fd l : readable fuel e files ↔ readable fuel (put_out fd l e) files.
Proof. done. Qed.

Lemma run_cat_files fuel files e : readable fuel e files → same_run (run (cat_files fuel files) e) (Some (put_out 1 (concat (map (content e) files)) e, 0)).
Proof.
  revert e. induction files as [|f files IH]; intros e [Hfree HF]; cbn [cat_files run map concat]; [cbn; by rewrite put_out_nil|].
  apply Forall_cons in HF as [(st & a & Ea & Ha & Hf) HF]. rewrite Ea. pose proof (lowest_pos 16 0 (e_open e)) as Hpos. set (fd := lowest 16 0 (e_open e)) in *.
  rewrite (proj2 (Z.ltb_ge _ _)) by lia. rewrite run_cat; [|cbn; by rewrite lookup_insert_eq|done|done]. cbn [run]. set (e1 := set_open _ _).
  assert (same_env e1 (put_out 1 (concat a) e)) as He1 by (split_and!; [done|cbn; by apply open_close|done]). rewrite He1, IH by done.
  cbn [same_run]. split; [|done]. change (content (put_out 1 (concat a) e)) with (content e). rewrite put_out_app. assert (content e f = concat a) as -> by (unfold content; by rewrite Ea). done.
Qed.

(** cat writes the contents of the files it is given, in their order and whatever pieces read()
    delivers them in, to its standard output, writes nothing else, leaves its descriptors as they
    were and exits with status 0. *)
Theorem cat_concatenates fuel name files e : files ≠ [] → readable fuel e files →
  ∃ e', run (cat_main fuel (name :: files)) e = Some (e', 0) ∧ e_out e' 1 = e_out e 1 ++ concat (map (content e) files) ∧ e_open e' = e_open e ∧ ∀ fd, fd ≠ 1 → e_out e' fd = e_out e fd.
Proof.
  intros Hne Hr. unfold cat_main. destruct files as [|f files]; [done|]. cbn [length Nat.leb tail]. pose proof (run_cat_files fuel (f :: files) e Hr) as H.
  destruct (run (cat_files fuel (f :: files)) e) as [[e' st]|]; [|done]. destruct H as [(H1 & H2 & H3) ->]. exists e'. split_and!; [done|rewrite H3; by apply out_same|by rewrite H2|].
  intros fd Hfd. rewrite H3. by apply out_other.
Qed.

(** * wc *)

(** the words of a text: its maximal stretches without white space *)
Fixpoint runs (cur l : list Z) : list (list Z) :=
  match l with
  | [] => [cur]
  | b :: l => if strchr wc_ws b then cur :: runs [] l else runs (cur ++ [b]) l
  end.
Definition words_of (l : list Z) : list (list Z) := List.filter (λ w, match w with [] => false | _ => true end) (runs [] l).
Definition newlines (l : list Z) : Z := Z.of_nat (length (List.filter (λ b, b =? 10) l)).

Lemma wc_bytes l : ∀ s cur, c_inword s = (match cur with [] => false | _ => true end) →
  let s' := foldl wc_byte s l in
  c_l s' = c_l s + newlines l ∧ c_c s' = c_c s + Z.of_nat (length l) ∧
  c_w s' + b2z (match cur with [] => false | _ => true end) = c_w s + Z.of_nat (length (List.filter (λ w, match w with [] => false | _ => true end) (runs cur l))).
Proof.
  unfold newlines. induction l as [|b l IH]; intros s cur Hin; cbn [foldl runs List.filter length].
  - split_and!; [lia|lia|]. destruct cur; cbn; lia.
  - destruct (strchr wc_ws b) eqn:Ews.
    + assert (wc_byte s b = mkCounts (if b =? 10 then c_l s + 1 else c_l s) (c_w s) (c_c s + 1) false) as -> by (unfold wc_byte; by rewrite Ews).
      destruct (IH (mkCounts (if b =? 10 then c_l s + 1 else c_l s) (c_w s) (c_c s + 1) false) [] eq_refl) as (H1 & H2 & H3). cbn [c_l c_w c_c] in *. split_and!; [destruct (b =? 10); cbn [length]; lia|lia|].
      cbn [List.filter]. destruct cur; cbn [length b2z] in *; lia.
    + assert (wc_byte s b = mkCounts (if b =? 10 then c_l s + 1 else c_l s) (if c_inword s then c_w s else c_w s + 1) (c_c s + 1) true) as -> by (unfold wc_byte; by rewrite Ews).
      destruct (IH (mkCounts (if b =? 10 then c_l s + 1 else c_l s) (if c_inword s then c_w s else c_w s + 1) (c_c s + 1) true) (cur ++ [b])) as (H1 & H2 & H3); [by destruct cur|]. cbn [c_l c_w c_c] in *.
      split_and!; [destruct (b =? 10); cbn [length]; lia|lia|]. rewrite Hin in H3 |- *. destruct cur; cbn [app b2z] in *; lia.
Qed.

Definition wc_line (t name : list Z) : option (list Z) :=
  fprintf (bytes_ln "%d %d %d %s") [UInt (newlines t); UInt (Z.of_nat (length (words_of t))); UInt (Z.of_nat (length t)); UStr (Some name)].

Lemma wc_line_Some t name : is_Some (wc_line t name).
Proof. eexists. reflexivity. Qed.

Lemma run_wc_loop fuel fd st a name k : ∀ e t, e_open e !! fd = Some (st, a) → whole a → (length (concat a) < fuel)%nat →
  same_run (run (wc_loop fuel fd name (foldl wc_byte (mkCounts 0 0 0 false) t) k) e)
    (run k (put_out 1 (default [] (wc_line (t ++ concat a) name)) (set_open (<[fd := (st, [])]> (e_open e)) e))).
Proof.
  revert a. induction fuel as [|fuel IH]; intros a e t Ho Ha Hf; [lia|]. cbn [wc_loop run]. rewrite Ho. destruct a as [|p a].
  - cbn [read_ fst snd concat]. rewrite app_nil_r. destruct (wc_bytes t (mkCounts 0 0 0 false) [] eq_refl) as (H1 & H2 & H3). cbn [c_l c_w c_c b2z] in *.
    destruct (wc_line_Some t name) as [l Hl]. rewrite (run_uprintf 1 _ _ l); [by rewrite Hl|]. rewrite H1, H2. rewrite <- Hl. unfold wc_line. repeat f_equal. unfold words_of. lia.
  - destruct (read_split 512 (p :: a)) as (Hne & Hc & Ha'); [lia|done|done|]. change (Z.to_nat 512) with 512%nat. destruct (read_ 512 (p :: a)) as [l r]. cbn [fst snd] in *.
    destruct l as [|c l]; [done|]. rewrite <- foldl_app. rewrite (IH r); [|cbn; by rewrite lookup_insert_eq|done|rewrite Hc, length_app in Hf; cbn [length] in Hf; lia].
    rewrite Hc, app_assoc. f_equiv. set (out := default [] _). clearbody out.
    split_and!; cbn [put_out set_open e_files e_open e_out]; [reflexivity|by rewrite insert_insert_eq|reflexivity].
Qed.

Lemma run_wc_files fuel files e : readable fuel e files →
  same_run (run (wc_files fuel files) e) (Some (put_out 1 (concat (map (λ f, default [] (wc_line (content e f) f)) files)) e, 0)).
Proof.
  revert e. induction files as [|f files IH]; intros e [Hfree HF]; cbn [wc_files run map concat]; [cbn; by rewrite put_out_nil|].
  apply Forall_cons in HF as [(st & a & Ea & Ha & Hf) HF]. rewrite Ea. pose proof (lowest_pos 16 0 (e_open e)) as Hpos. set (fd := lowest 16 0 (e_open e)) in *.
  rewrite (proj2 (Z.ltb_ge _ _)) by lia. unfold wc. rewrite (run_wc_loop fuel fd st a f _ _ []); [|cbn; by rewrite lookup_insert_eq|done|done]. cbn [run app]. set (out := default [] (wc_line (concat a) f)). set (e1 := set_open _ _).
  assert (same_env e1 (put_out 1 out e)) as He1 by (clearbody out; split_and!; [done|cbn; by apply open_close|done]). rewrite He1, IH by done.
  cbn [same_run]. split; [|done]. rewrite put_out_app. assert (content e f = concat a) as -> by (unfold content; by rewrite Ea). done.
Qed.

(** for each file it is given wc prints the number of newlines, of maximal stretches without white
    space and of bytes of the file's contents, whatever pieces read() delivers them in. *)
Theorem wc_counts fuel name files e : files ≠ [] → readable fuel e files →
  ∃ e', run (wc_main fuel (name :: files)) e = Some (e', 0) ∧ e_out e' 1 = e_out e 1 ++ concat (map (λ f, default [] (wc_line (content e f) f)) files) ∧
    e_open e' = e_open e ∧ ∀ fd, fd ≠ 1 → e_out e' fd = e_out e fd.
Proof.
  intros Hne Hr. unfold wc_main. destruct files as [|f files]; [done|]. cbn [length Nat.leb tail]. pose proof (run_wc_files fuel (f :: files) e Hr) as H.
  destruct (run (wc_files fuel (f :: files)) e) as [[e' st]|]; [|done]. destruct H as [(H1 & H2 & H3) ->]. exists e'. split_and!; [done|rewrite H3; by apply out_same|by rewrite H2|].
  intros fd Hfd. rewrite H3. by apply out_other.
Qed.

(** * echo *)

(** the arguments with blanks between them and a newline behind the last one *)
Fixpoint echo_text (argv : list (list Z)) : list Z :=
  match argv with
  | [] => []
  | [a] => a ++ [10]
  | a :: argv => a ++ [32] ++ echo_text argv
  end.
Lemma run_echo argv e : same_run (run (echo_main argv) e) (Some (put_out 1 (echo_text (tail argv)) e, 0)).
Proof.
  unfold echo_main. generalize (tail argv). clear argv. intros argv. revert e. induction argv as [|a argv IH]; intros e; cbn [echo_args run echo_text]; [cbn; by rewrite put_out_nil|].
  destruct argv as [|b argv]; cbn [run]; [cbn; by rewrite put_out_app|]. rewrite IH. cbn [same_run]. split; [|done]. rewrite !put_out_app. by rewrite ?app_assoc.
Qed.

(** * fmtname *)

(** the name is what follows the last slash, padded with blanks to 14 bytes *)
Lemma fmtname_spec pre p : 47 ∉ p → (pre = [] ∨ ∃ d, pre = d ++ [47]) → fmtname (pre ++ p) = p ++ replicate (14 - length p) 32.
Proof.
  intros Hp Hpre. unfold fmtname. assert (∀ n, (n ≤ length p)%nat → fmt_scan (length pre + n) (pre ++ p) = length pre) as Hscan.
  { induction n as [|n IH]; intros Hn.
    - rewrite Nat.add_0_r. assert (at_ (pre ++ p) (length pre) ≠ 47) as H0.
      { unfold at_. rewrite lookup_app_r, Nat.sub_diag by lia. destruct p as [|c p]; [done|]. cbn. set_solver. }
      destruct Hpre as [->|(d & ->)].
      + cbn. cbn in H0. by rewrite (proj2 (Z.eqb_neq _ _) H0).
      + rewrite length_app in *. cbn [length] in *. replace (length d + 1)%nat with (S (length d)) in * by lia. cbn [fmt_scan]. rewrite (proj2 (Z.eqb_neq _ _) H0).
        assert (at_ ((d ++ [47]) ++ p) (length d) = 47) as H1 by (unfold at_; rewrite <- app_assoc, lookup_app_r, Nat.sub_diag by lia; done).
        destruct (length d); cbn [fmt_scan]; by rewrite H1.
    - rewrite Nat.add_succ_r. cbn [fmt_scan]. assert (at_ (pre ++ p) (S (length pre + n)) ≠ 47) as H0.
      { unfold at_. rewrite lookup_app_r by lia. destruct (p !! (S (length pre + n) - length pre)%nat) as [c|] eqn:E; cbn; [|done]. apply list_elem_of_lookup_2 in E. set_solver. }
      rewrite (proj2 (Z.eqb_neq _ _) H0). apply IH. lia. }
  rewrite length_app, Hscan, drop_app_length by lia. destruct (Nat.leb_spec 14 (length p)) as [H|H]; [|done]. replace (14 - length p)%nat with 0%nat by lia. cbn. by rewrite app_nil_r.
Qed.

(** * ls *)

Definition text (fmt : list Z) (ap : list uarg) : list Z := default [] (fprintf fmt ap).
(** the line of one entry of the directory [path] *)
Definition ls_line (e : env) (path de : list Z) : list Z :=
  if le_val (take 2 de) =? 0 then [] else
  let name := path ++ [47] ++ cstr (drop 2 de) in
  match e_files e name with
  | Some (ty, ino, sz, _) => text (bytes_ln "%s %d %d %d") [UStr (Some (fmtname name)); UInt ty; UInt ino; UInt sz]
  | None => text (bytes_ln "ls: cannot stat %s") [UStr (Some name)]
  end.
Definition ls_text (e : env) (path : list Z) : list Z :=
  match e_files e path with
  | Some (ty, ino, sz, des) =>
      if (ty =? 3) || (ty =? 2) then text (bytes_ln "%s %d %d %l") [UStr (Some (fmtname path)); UInt ty; UInt ino; UInt sz]
      else if ty =? 1 then
        if 512 <? Z.of_nat (length path) + 1 + DIRSIZ + 1 then text (bytes_ln "ls: path too long") [] else concat (map (ls_line e path) des)
      else []
  | None => []
  end.
Definition ls_errors (e : env) (path : list Z) : list Z :=
  match e_files e path with Some _ => [] | None => text (bytes_ln "ls: cannot open %s") [UStr (Some path)] end.

(** two descriptors are free, and a directory is read in entries of 16 bytes *)
Definition two_free (o : gmap Z ofile) : Prop :=
  o !! lowest 16 0 o = None ∧ ∀ x, <[lowest 16 0 o := x]> o !! lowest 16 0 (<[lowest 16 0 o := x]> o) = None.
Definition listable (fuel : nat) (e : env) (path : list Z) : Prop :=
  ∀ st des, e_files e path = Some (st, des) → Forall (λ de, length de = 16%nat) des ∧ (length des < fuel)%nat.

Lemma run_text fd fmt ap k e : is_Some (fprintf fmt ap) → same_run (run (uprintf fd fmt ap k) e) (run k (put_out fd (text fmt ap) e)).
Proof. intros [l Hl]. unfold text. rewrite Hl. by apply run_uprintf. Qed.

Lemma set_open_id e : same_env (set_open (e_open e) e) e.
Proof. by split_and!. Qed.

(** stat() of a file leaves the descriptors as they were *)
Lemma run_u_stat n k e : e_open e !! lowest 16 0 (e_open e) = None → same_run (run (u_stat n k) e) (run (k (fst <$> e_files e n)) e).
Proof.
  intros Hf. unfold u_stat. cbn [run]. destruct (e_files e n) as [[st a]|]; [|done]. pose proof (lowest_pos 16 0 (e_open e)) as Hpos. set (fd := lowest 16 0 (e_open e)) in *.
  rewrite (proj2 (Z.ltb_ge _ _)) by lia. cbn [run set_open e_open]. rewrite lookup_insert_eq. cbn [fmap option_fmap option_map fst]. rewrite delete_insert_id by done. f_equiv. by split_and!.
Qed.

Lemma run_ls_entry path de k e : e_open e !! lowest 16 0 (e_open e) = None → same_run (run (ls_entry path de k) e) (run k (put_out 1 (ls_line e path de) e)).
Proof.
  intros Hf. unfold ls_entry, ls_line. destruct (le_val (take 2 de) =? 0); [by rewrite put_out_nil|]. set (name := path ++ _). clearbody name. rewrite run_u_stat by done.
  destruct (e_files e name) as [[[[ty ino] sz] a]|]; cbn [fmap option_fmap option_map fst]; apply run_text; generalize (fmtname name); eexists; reflexivity.
Qed.

Lemma run_ls_dir fuel path fd k st o : ∀ des e, e_open e = <[fd := (st, des)]> o → (∀ x, <[fd := x]> o !! lowest 16 0 (<[fd := x]> o) = None) → Forall (λ de, length de = 16%nat) des → (length des < fuel)%nat →
  same_run (run (ls_dir fuel path fd k) e) (run k (put_out 1 (concat (map (ls_line e path) des)) (set_open (<[fd := (st, [])]> o) e))).
Proof.
  induction fuel as [|fuel IH]; intros des e Ho Hfree Hdes Hf; [lia|]. cbn [ls_dir run]. rewrite Ho, lookup_insert_eq. change (Z.to_nat 16) with 16%nat. destruct des as [|de des].
  - cbn [read_ fst snd length map concat]. change (negb (Z.of_nat 0 =? 16)) with true. cbv iota. rewrite put_out_nil. f_equiv. by rewrite insert_insert_eq.
  - apply Forall_cons in Hdes as [Hde Hdes]. cbn [length] in Hf. assert (read_ 16 (de :: des) = (de, des)) as -> by (unfold read_; rewrite <- Hde, take_ge, drop_all by lia; done).
    cbn [fst snd map concat]. rewrite Hde. change (negb (Z.of_nat 16 =? 16)) with false. cbv iota. rewrite run_ls_entry by (cbn [e_open set_open]; rewrite insert_insert_eq; apply Hfree).
    rewrite (IH des); [|cbn; by rewrite insert_insert_eq|done|done|lia]. f_equiv. change (ls_line (set_open _ e) path de) with (ls_line e path de). set (l := ls_line e path de). clearbody l.
    change (ls_line (put_out 1 l _) path) with (ls_line e path). set (ls := concat _). clearbody ls. transitivity (put_out 1 ls (put_out 1 l (set_open (<[fd := (st, [])]> o) e))); [by split_and!|apply put_out_app].
Qed.

Definition ls_env (e : env) (path : list Z) : env := put_out 2 (ls_errors e path) (put_out 1 (ls_text e path) e).

Lemma run_ls fuel path k e : two_free (e_open e) → listable fuel e path → same_run (run (ls fuel path k) e) (run k (ls_env e path)).
Proof.
  intros [Hfree Htwo] HL. unfold ls, ls_env, ls_text, ls_errors. cbn [run]. destruct (e_files e path) as [[[[ty ino] sz] des]|] eqn:Ef.
  2:{ change (-1 <? 0) with true. cbv iota. rewrite run_text by (eexists; reflexivity). f_equiv. rewrite put_out_nil. reflexivity. }
  destruct (HL _ _ Ef) as [Hdes Hlen]. pose proof (lowest_pos 16 0 (e_open e)) as Hpos. set (fd := lowest 16 0 (e_open e)) in *. rewrite (proj2 (Z.ltb_ge _ _)) by lia. cbn [run set_open e_open]. rewrite lookup_insert_eq. cbn [fmap option_fmap option_map fst].
  assert (∀ l x, same_env (set_open (delete fd (e_open (put_out 1 l (set_open (<[fd := x]> (e_open e)) e)))) (put_out 1 l (set_open (<[fd := x]> (e_open e)) e))) (put_out 2 [] (put_out 1 l e))) as Hend.
  { intros l x. rewrite put_out_nil. split_and!; cbn; [done|by rewrite delete_insert_id|done]. }
  destruct ((ty =? 3) || (ty =? 2)).
  { rewrite run_text by (generalize (fmtname path); eexists; reflexivity). cbn [run]. f_equiv. apply Hend. }
  destruct (ty =? 1).
  - destruct (512 <? _).
    + rewrite run_text by (eexists; reflexivity). cbn [run]. f_equiv. apply Hend.
    + rewrite (run_ls_dir fuel path fd _ (ty, ino, sz) (e_open e) des); [|done|done|done|done]. cbn [run]. f_equiv. change (ls_line (set_open _ e) path) with (ls_line e path). set (l := concat _). clearbody l. exact (Hend l (ty, ino, sz, [])).
  - cbn [run]. f_equiv. rewrite !put_out_nil. split_and!; cbn; [done|by rewrite delete_insert_id|done].
Qed.

Lemma run_ls_all fuel paths : ∀ e, two_free (e_open e) → Forall (listable fuel e) paths → ∃ e', run (ls_all fuel paths) e = Some (e', 0) ∧ e_open e' = e_open e ∧
  e_out e' 1 = e_out e 1 ++ concat (map (ls_text e) paths) ∧ e_out e' 2 = e_out e 2 ++ concat (map (ls_errors e) paths) ∧ ∀ fd, fd ≠ 1 → fd ≠ 2 → e_out e' fd = e_out e fd.
Proof.
  induction paths as [|path paths IH]; intros e Hf HL; cbn [ls_all map concat].
  - exists e. rewrite !app_nil_r. by split_and!.
  - apply Forall_cons in HL as [HL HLs]. pose proof (run_ls fuel path (ls_all fuel paths) e Hf HL) as H. destruct (IH (ls_env e path) Hf HLs) as (e1 & E1 & O1 & A1 & B1 & C1). rewrite E1 in H.
    destruct (run (ls fuel path (ls_all fuel paths)) e) as [[e' st]|]; [|done]. destruct H as [(H1 & H2 & H3) ->]. exists e'. change (ls_text (ls_env e path)) with (ls_text e) in A1. change (ls_errors (ls_env e path)) with (ls_errors e) in B1.
    unfold ls_env in A1, B1, C1. set (lt := ls_text e path) in *. set (le := ls_errors e path) in *. clearbody lt le. split_and!; [done|by rewrite H2, O1| | |].
    + rewrite H3, A1, out_other, out_same by done. by rewrite <- app_assoc.
    + rewrite H3, B1, out_same, out_other by done. by rewrite <- app_assoc.
    + intros fd N1 N2. rewrite H3, C1 by done. by rewrite !out_other by done.
Qed.

(** ls lists its arguments in order: for a file or device its own line, for a directory a line for
    every entry in use, with the name padded as fmtname() pads it and the type, inode and size stat()
    gives for the entry's path; names that cannot be opened are reported on descriptor 2.  Every
    descriptor it opens is closed, and the status is 0. *)
Theorem ls_lists fuel name paths e : paths ≠ [] → two_free (e_open e) → Forall (listable fuel e) paths → ∃ e', run (ls_main fuel (name :: paths)) e = Some (e', 0) ∧ e_open e' = e_open e ∧
  e_out e' 1 = e_out e 1 ++ concat (map (ls_text e) paths) ∧ e_out e' 2 = e_out e 2 ++ concat (map (ls_errors e) paths) ∧ ∀ fd, fd ≠ 1 → fd ≠ 2 → e_out e' fd = e_out e fd.
Proof. intros Hne Hf HL. unfold ls_main. destruct paths as [|p paths]; [done|]. cbn [length Nat.ltb Nat.leb tail]. by apply run_ls_all. Qed.

(** * grep *)

Lemma run_ugrep_lines pattern buf : ∀ cur k e,
  same_run (run (ugrep_lines pattern cur buf k) e) (run (k (grep_lines pattern cur buf).2) (put_out 1 (grep_lines pattern cur buf).1 e)).
Proof.
  induction buf as [|c b IH]; intros cur k e; cbn [ugrep_lines grep_lines]; [by rewrite put_out_nil|].
  destruct (c =? 0); [by rewrite put_out_nil|]. destruct (c =? NEWLINE); [|apply IH]. destruct (match_ pattern cur); cbn [run fst snd]; rewrite IH; [by rewrite put_out_app|done].
Qed.

(** the system calls of grep() write what [grep_loop] gives *)
Lemma run_ugrep fuel pattern fd st k : ∀ buf a e out, e_open e !! fd = Some (st, a) → grep_loop fuel pattern buf a = Some out →
  ∃ a', same_run (run (ugrep fuel pattern buf fd k) e) (run k (put_out 1 out (set_open (<[fd := (st, a')]> (e_open e)) e))).
Proof.
  induction fuel as [|fuel IH]; intros buf a e out Ho Hg; [done|]. cbn [ugrep run]. rewrite Ho, Nat2Z.id. cbn [grep_loop] in Hg.
  destruct (read_ (BUFSIZE - length buf - 1) a) as [got rest]. cbn [fst snd]. destruct got as [|c got]; cbn [length Nat.leb] in Hg.
  - injection Hg as <-. exists rest. by rewrite put_out_nil.
  - apply bind_Some in Hg as (out' & Hg & [= <-]). set (e1 := set_open _ e). setoid_rewrite run_ugrep_lines. set (r := grep_lines _ _ _) in *.
    destruct (IH r.2 rest (put_out 1 r.1 e1) out') as [a' Ha']; [cbn; by rewrite lookup_insert_eq|done|]. exists a'. rewrite Ha'. f_equiv.
    rewrite <- put_out_app. f_equiv. split_and!; [done|cbn; by rewrite insert_insert_eq|done].
Qed.

(** what grep prints of the files and its exit status: it stops at the first file that it cannot open *)
Fixpoint grep_text (e : env) (pattern : list Z) (files : list (list Z)) : list Z * Z :=
  match files with
  | [] => ([], 0)
  | f :: files =>
      match e_files e f with
      | Some (_, a) => (printed pattern (lines [] (concat a)).1 ++ (grep_text e pattern files).1, (grep_text e pattern files).2)
      | None => (text (bytes_ln "grep: cannot open %s") [UStr (Some f)], 1)
      end
  end.
Lemma grep_text_files e e' pattern files : e_files e = e_files e' → grep_text e pattern files = grep_text e' pattern files.
Proof. intros H. induction files as [|f files IH]; cbn [grep_text]; [done|]. by rewrite H, IH. Qed.
(** text files with lines that fit the buffer *)
Definition greppable (fuel : nat) (e : env) (f : list Z) : Prop :=
  ∀ st a, e_files e f = Some (st, a) → whole a ∧ (length (concat a) < fuel)%nat ∧ (0 ∉ concat a) ∧ short (lines [] (concat a)).

Lemma run_grep_files fuel pattern files : ∀ e, e_open e !! lowest 16 0 (e_open e) = None → Forall (greppable fuel e) files →
  same_run (run (grep_files fuel pattern files) e) (Some (put_out 1 (grep_text e pattern files).1 e, (grep_text e pattern files).2)).
Proof.
  induction files as [|f files IH]; intros e Hfree HF; cbn [grep_files run grep_text]; [cbn; by rewrite put_out_nil|].
  apply Forall_cons in HF as [Hf HF]. destruct (e_files e f) as [[st a]|] eqn:Ef.
  2:{ change (-1 <? 0) with true. cbv iota. by rewrite run_text by (eexists; reflexivity). }
  destruct (Hf _ _ Ef) as (Ha & Hlen & H0 & Hs). pose proof (lowest_pos 16 0 (e_open e)) as Hpos. set (fd := lowest 16 0 (e_open e)) in *. rewrite (proj2 (Z.ltb_ge _ _)) by lia.
  destruct (run_ugrep fuel pattern fd st (Close fd (grep_files fuel pattern files)) [] a (set_open (<[fd := (st, a)]> (e_open e)) e) (printed pattern (lines [] (concat a)).1)) as [a' Ha'].
  - cbn. by rewrite lookup_insert_eq.
  - apply grep_loop_spec; [done|done|set_solver|set_solver|done|done].
  - rewrite Ha'. cbn [run fst snd]. set (out := printed _ _). clearbody out. set (e1 := set_open _ _).
    assert (same_env e1 (put_out 1 out e)) as He1 by (split_and!; [done|cbn; by apply open_close|done]). rewrite He1, IH by done.
    rewrite (grep_text_files (put_out 1 out e) e) by done. cbn [same_run]. split; [apply put_out_app|done].
Qed.

(** C30: grep prints exactly the matching lines of its files.  On files without zero bytes and without
    lines of more than 1022 bytes it ends, however read() cuts them into pieces, having written to
    descriptor 1, in order, each complete line the pattern matches, with its newline; it stops with a
    message and the status 1 at the first file it cannot open, and otherwise exits with 0.  Every
    descriptor it opened is closed. *)
Theorem grep_prints_matching_lines fuel name pattern files e : files ≠ [] → e_open e !! lowest 16 0 (e_open e) = None → Forall (greppable fuel e) files →
  ∃ e', run (grep_main fuel (name :: pattern :: files)) e = Some (e', (grep_text e pattern files).2) ∧ e_out e' 1 = e_out e 1 ++ (grep_text e pattern files).1 ∧
    e_open e' = e_open e ∧ ∀ fd, fd ≠ 1 → e_out e' fd = e_out e fd.
Proof.
  intros Hne Hfree HF. destruct files as [|f files]; [done|]. cbn [grep_main]. pose proof (run_grep_files fuel pattern (f :: files) e Hfree HF) as H.
  destruct (run (grep_files fuel pattern (f :: files)) e) as [[e' st]|]; [|done]. destruct H as [(H1 & H2 & H3) ->]. exists e'. split_and!; [done|rewrite H3; by apply out_same|by rewrite H2|].
  intros fd Hfd. rewrite H3. by apply out_other.
Qed.

(** * forktest *)

(** where the first process of forktest can be: with [n] forks behind it and the children [kids] it has
    not waited for *)
Inductive at_forktest : list nat → nat → prog → Prop :=
| f_start : at_forktest [] 0 forktest_main
| f_fork kids todo n : (todo + n = FORKS)%nat → length kids = n → at_forktest kids n (forktest_fork todo n (Exit 0))
| f_all kids : at_forktest kids FORKS (Exit 1)
| f_wait kids n : at_forktest kids n (forktest_end (length kids) (Exit 0))
| f_ok n : at_forktest [] n (print (bytes_ln "fork test OK") (Exit 0))
| f_done n : at_forktest [] n (Exit 0).

Lemma forktest_local q kids n T p n' T' p' : at_forktest kids n p → lstep q (n, T, p) (n', T', p') → at_forktest kids n' p'.
Proof.
  destruct 1 as [|kids todo n Hn Hk|kids|kids n|n|n]; intros Hl.
  - inversion Hl; subst. by apply (f_fork [] FORKS 0).
  - destruct todo as [|todo]; cbn [forktest_fork print] in Hl; inversion Hl; subst; [cbn in Hn; rewrite Hn; apply f_all|]. apply f_wait.
  - inversion Hl.
  - unfold forktest_end in Hl. destruct (length kids); inversion Hl.
  - inversion Hl; subst. apply f_done.
  - inversion Hl.
Qed.

Lemma at_fork kids n k : at_forktest kids n (Fork k) → ∃ todo, (S todo + n = FORKS)%nat ∧ length kids = n ∧ k = λ pid, if pid <? 0 then forktest_end n (Exit 0) else if pid =? 0 then Exit 0 else forktest_fork todo (S n) (Exit 0).
Proof.
  intros H. remember (Fork k) as p eqn:Ep. destruct H as [|kids todo n Hn Hk|kids|kids n|n|n]; try discriminate.
  - destruct todo as [|todo]; [discriminate|]. injection Ep as <-. by exists todo.
  - unfold forktest_end in Ep. by destruct (length kids).
Qed.
Lemma at_wait kids n k : at_forktest kids n (Wait k) →
  (∀ m pid, length kids = S m → 0 < pid → k pid = forktest_end m (Exit 0)) ∧ (kids = [] → k (-1) = print (bytes_ln "fork test OK") (Exit 0)).
Proof.
  intros H. remember (Wait k) as p eqn:Ep. destruct H as [|kids todo n Hn Hk|kids|kids n|n|n]; try discriminate; [by destruct todo|]. split.
  - intros m pid Hm Hp. unfold forktest_end in Ep. rewrite Hm in Ep. injection Ep as <-. by rewrite (proj2 (Z.ltb_ge _ _)) by lia.
  - intros ->. by injection Ep as <-.
Qed.
Lemma at_no_exec kids n p a k : ¬ at_forktest kids n (Exec p a k).
Proof.
  intros H. remember (Exec p a k) as p' eqn:Ep. destruct H as [|kids todo n Hn Hk|kids|kids n|n|n]; try discriminate; [by destruct todo|]. unfold forktest_end in Ep. by destruct (length kids).
Qed.
Lemma at_exit kids n st : at_forktest kids n (Exit st) → st = 0 ∧ kids = [] ∨ st = 1 ∧ n = FORKS.
Proof.
  intros H. remember (Exit st) as p eqn:Ep. destruct H as [|kids todo n Hn Hk|kids|kids n|n|n]; try discriminate; [by destruct todo|injection Ep as <-; by right| |injection Ep as <-; by left].
  unfold forktest_end in Ep. by destruct (length kids).
Qed.

Definition forktest_inv (P : pool) : Prop := (∃ kids n T p, P !! [] = Some (Run kids (n, T, p)) ∧ at_forktest kids n p) ∨ P !! [] = Some Zombie.
Lemma forktest_root P kids n T p : forktest_inv P → P !! [] = Some (Run kids (n, T, p)) → at_forktest kids n p.
Proof. intros [(kids' & n' & T' & p' & E & H)|E] E'; [|congruence]. rewrite E in E'. by injection E' as <- <- <- <-. Qed.
Lemma forktest_put (P : pool) kids n T p : at_forktest kids n p → forktest_inv (<[[] := Run kids (n, T, p)]> P).
Proof. intros H. left. exists kids, n, T, p. by rewrite lookup_insert_eq. Qed.
Lemma forktest_other (P : pool) q x : q ≠ [] → forktest_inv P → forktest_inv (<[q := x]> P).
Proof. intros Hq H. unfold forktest_inv. by rewrite lookup_insert_ne. Qed.

Lemma forktest_step P P' : forktest_inv P → step P P' → forktest_inv P'.
Proof.
  intros H. destruct 1 as [q kids s s' Hq Hl|q kids n T k pid Hq Hp|q l1 i l2 n T k pid Hq Hz Hp|q n T k Hq|q kids n T p a k Hq|q p a T Hq|q kids n T st Hq].
  all: try (apply forktest_other; [by destruct q|]). all: destruct (decide (q = [])) as [->|Hq0]; [|by apply forktest_other].
  - destruct s as [[n T] p], s' as [[n' T'] p']. apply forktest_put. eapply forktest_local; [|exact Hl]. by eapply forktest_root.
  - apply forktest_put. destruct (at_fork _ _ _ (forktest_root _ _ _ _ _ H Hq)) as (todo & Hn & Hk & ->). rewrite (proj2 (Z.ltb_ge _ _)), (proj2 (Z.eqb_neq _ _)) by lia. apply f_fork; cbn; lia.
  - apply forktest_put. destruct (at_wait _ _ _ (forktest_root _ _ _ _ _ H Hq)) as [Hk _]. rewrite (Hk (length (l1 ++ l2)) pid); [apply f_wait|rewrite !length_app; cbn; lia|done].
  - apply forktest_put. destruct (at_wait _ _ _ (forktest_root _ _ _ _ _ H Hq)) as [_ ->]; [apply f_ok|done].
  - by apply (forktest_root _ _ _ _ _ H), at_no_exec in Hq.
  - destruct H as [(? & ? & ? & ? & E & _)|E]; rewrite Hq in E; discriminate.
  - right. by rewrite lookup_insert_eq.
Qed.

(** forktest fails only if all its 1000 forks succeed: its waits collect every child and find no other *)
Lemma forktest_exit T P kids n T' st : reachable T forktest_main P → P !! [] = Some (Run kids (n, T', Exit st)) → st = 0 ∧ kids = [] ∨ st = 1 ∧ n = FORKS.
Proof.
  intros Hr Hq. assert (forktest_inv P) as H; [|by eapply at_exit, forktest_root].
  unfold reachable in Hr. assert (forktest_inv (init_pool T forktest_main)) as H0 by (apply (forktest_put ∅), f_start).
  revert H0. generalize dependent (init_pool T forktest_main). intros P0 Hr. induction Hr as [|P0 P1 P2 Hs _ IH]; [done|]. intros H0. apply IH; [done|]. by eapply forktest_step.
Qed.

(** * init *)

Lemma uprintf_no_exec fd fmt ap st : no_exec (uprintf fd fmt ap (Exit st)).
Proof. unfold uprintf. destruct (fprintf fmt ap); [by apply uputs_no_exec|done]. Qed.

Lemma init_wait_may e q kids after n T pid k : ∀ fuel, may e q kids after (n, T, init_wait fuel pid k) → ∃ kids' after', may e q kids' after' (n, T, k).
Proof.
  intros fuel. revert kids after. induction fuel as [|fuel IH]; intros kids after H; cbn [init_wait] in H; [by apply no_exec_may in H|].
  assert (∀ r kids after, may e q kids after (n, T, if r =? pid then k else if r <? 0 then uprintf 1 (bytes_ln "init: wait returned an error") [] (Exit 1) else init_wait fuel pid k) → ∃ kids' after', may e q kids' after' (n, T, k)) as Hgo.
  { intros r kids1 after1. destruct (r =? pid); [eauto|]. destruct (r <? 0); [|apply IH]. intros Hm. exfalso. eapply no_exec_may; [|exact Hm]. apply uprintf_no_exec. }
  inversion H as [|? ? ? ? ? Hl ?| | |? ? ? ? ? ? ? ? ? ? Hm|? ? ? ? ? Hm]; subst; [inversion Hl| |]; by eapply Hgo.
Qed.

Lemma init_loop_may e q n T : ∀ fuel kids after, may e q kids after (n, T, init_loop fuel) → ∃ q' after', e = (q', bytes_of "sh", [bytes_of "sh"], T, after').
Proof.
  intros fuel. revert n. induction fuel as [|fuel IH]; intros n kids after H; cbn [init_loop] in H; [by apply no_exec_may in H|].
  assert (∀ l k kids after, may e q kids after (n, T, uputs 1 l k) → may e q kids after (n, T, k)) as Hputs.
  { intros l k kids1 after1. induction l as [|c l IHl]; [done|]. cbn [uputs foldr]. intros Hm. inversion Hm as [|? ? ? ? ? Hl ?| | | |]; subst. inversion Hl; subst. by apply IHl. }
  unfold uprintf at 1 in H. destruct (fprintf (bytes_ln "init: starting sh") []) as [l|]; [|by apply no_exec_may in H]. apply Hputs in H. apply may_Fork in H as [H|[H|(pid & Hp & H)]].
  - exfalso. eapply no_exec_may; [|exact H]. apply uprintf_no_exec.
  - apply may_Exec in H as [->|H]; [by do 2 eexists|]. exfalso. eapply no_exec_may; [|exact H]. apply uprintf_no_exec.
  - rewrite (proj2 (Z.ltb_ge _ _)), (proj2 (Z.eqb_neq _ _)) in H by lia. apply init_wait_may in H as (kids' & after' & H). by eapply IH.
Qed.

(** init starts nothing but shells; when the console can be opened, with it as descriptors 0, 1 and 2 *)
Lemma init_starts_shells e fuel : may e [] [] [] (O, replicate 16 None, init_main fuel) →
  ∃ q T after, e = (q, bytes_of "sh", [bytes_of "sh"], T, after) ∧ (T = replicate 16 None ∨ T = replicate 3 (Some (FFile (bytes_of "console") O_RDWR)) ++ replicate 13 None).
Proof.
  assert (∀ n T, (T = replicate 16 None ∨ T = Some (FFile (bytes_of "console") O_RDWR) :: replicate 15 None) → may e [] [] [] (n, T, Dup 0 (λ _, Dup 0 (λ _, init_loop fuel))) →
    ∃ q T' after, e = (q, bytes_of "sh", [bytes_of "sh"], T', after) ∧ (T' = replicate 16 None ∨ T' = replicate 3 (Some (FFile (bytes_of "console") O_RDWR)) ++ replicate 13 None)) as Hrest.
  { intros n T. generalize (FFile (bytes_of "console") O_RDWR). intros c HT H. apply may_Dup in H.
    destruct HT as [-> | ->]; cbn in H; apply may_Dup in H; cbn in H; apply init_loop_may in H as (q' & after' & ->); do 3 eexists; (split; [reflexivity|]); [by left|by right]. }
  unfold init_main. intros H. apply may_Open in H as [H|(i & [= <-] & H)]; [|exact (Hrest _ _ (or_intror eq_refl) H)].
  cbn [Z.ltb Z.compare] in H. inversion H as [|? ? ? ? ? Hl Hm| | | |]; subst. inversion Hl; subst. apply may_Open in Hm as [Hm|(i & [= <-] & Hm)]; [exact (Hrest _ _ (or_introl eq_refl) Hm)|].
  exact (Hrest _ _ (or_intror eq_refl) Hm).
Qed.

Module Files0.
Definition env0 : env := mkEnv (λ f, if decide (f = bytes_of "a") then Some (2, 3, 4, [bytes_of "x y"; [10]]) else None) ∅ (λ _, []).
Lemma readable0 : readable 10 env0 [bytes_of "a"; bytes_of "a"].
Proof. split; [done|]. repeat constructor; (do 2 eexists; split; [reflexivity|]; split; [repeat constructor; done|cbn; lia]). Qed.

Lemma cat_concatenates_witness : ∃ e', run (cat_main 10 [bytes_of "cat"; bytes_of "a"; bytes_of "a"]) env0 = Some (e', 0) ∧ e_out e' 1 = bytes_of "x y" ++ [10] ++ bytes_of "x y" ++ [10].
Proof. destruct (cat_concatenates 10 (bytes_of "cat") [bytes_of "a"; bytes_of "a"] env0 ltac:(done) readable0) as (e' & H1 & H2 & _). exists e'. by rewrite H2. Defined.

Lemma wc_counts_witness : ∃ e', run (wc_main 10 [bytes_of "wc"; bytes_of "a"; bytes_of "a"]) env0 = Some (e', 0) ∧ e_out e' 1 = bytes_of "1 2 4 a" ++ [10] ++ bytes_of "1 2 4 a" ++ [10].
Proof. destruct (wc_counts 10 (bytes_of "wc") [bytes_of "a"; bytes_of "a"] env0 ltac:(done) readable0) as (e' & H1 & H2 & _). exists e'. split; [exact H1|]. rewrite H2. vm_compute. reflexivity. Defined.

(** a directory d with the entry x of the inode 5 and an unused entry *)
Definition env1 : env := mkEnv (λ f,
  if decide (f = bytes_of "d") then Some (1, 3, 32, [[5; 0] ++ [120] ++ repeat 0 13; repeat 0 16])
  else if decide (f = bytes_of "d/x") then Some (2, 5, 7, []) else None) ∅ (λ _, []).
Lemma listable1 : Forall (listable 10 env1) [bytes_of "d"; bytes_of "y"].
Proof.
  apply Forall_cons. split; [|apply Forall_cons; split; [|constructor]].
  - intros st des H. vm_compute in H. injection H as <- <-. split; [repeat constructor|cbn; lia].
  - intros st des H. vm_compute in H. discriminate.
Qed.
Lemma two_free1 : two_free (e_open env1).
Proof. split; [done|]. intros x. done. Qed.

Lemma ls_lists_witness : ∃ e', run (ls_main 10 [bytes_of "ls"; bytes_of "d"; bytes_of "y"]) env1 = Some (e', 0) ∧ e_out e' 1 = bytes_of "x              2 5 7" ++ [10] ∧ e_out e' 2 = bytes_of "ls: cannot open y" ++ [10].
Proof.
  destruct (ls_lists 10 (bytes_of "ls") [bytes_of "d"; bytes_of "y"] env1 ltac:(done) two_free1 listable1) as (e' & H1 & _ & H2 & H3 & _). exists e'. split; [exact H1|]. rewrite H2, H3. vm_compute. split; reflexivity.
Defined.

(** two text files; there is no file z *)
Definition env2 : env := mkEnv (λ f,
  if decide (f = bytes_of "a") then Some (2, 3, 9, [bytes_of "aa"; 10 :: bytes_of "ba"; [10]; [10; 97]])
  else if decide (f = bytes_of "b") then Some (2, 4, 2, [bytes_of "a"; [10]]) else None) ∅ (λ _, []).
Lemma greppable2 : Forall (greppable 10 env2) [bytes_of "a"; bytes_of "b"; bytes_of "z"].
Proof.
  repeat apply Forall_cons_2; try apply Forall_nil_2; intros st a H; vm_compute in H; [injection H as <- <-|injection H as <- <-|discriminate].
  all: split_and!; [repeat constructor; done|cbn; lia|cbn; set_solver|split; [repeat constructor|]; vm_compute; lia].
Qed.

Lemma grep_prints_matching_lines_witness :
  ∃ e', run (grep_main 10 [bytes_of "grep"; bytes_of "^a*$"; bytes_of "a"; bytes_of "b"; bytes_of "z"]) env2 = Some (e', 1) ∧
    e_out e' 1 = bytes_of "aa" ++ [10; 10] ++ bytes_of "a" ++ [10] ++ bytes_of "grep: cannot open z" ++ [10].
Proof.
  destruct (grep_prints_matching_lines 10 (bytes_of "grep") (bytes_of "^a*$") [bytes_of "a"; bytes_of "b"; bytes_of "z"] env2 ltac:(done) ltac:(done) greppable2) as (e' & H1 & H2 & _).
  exists e'. split; [exact H1|]. rewrite H2. vm_compute. reflexivity.
Defined.
End Files0.
